(** * ROHC compressor core: IP-only profile decisions, RTP port list,
      feedback ring and segmentation staging.

    Shallow embedding of [src/comp/c_ip.c] and of the parts of
    [src/comp/rohc_comp.c] that manage the list of RTP ports, the ring of
    piggybacked feedbacks and the staging of a Reconstructed Reception Unit
    (RRU), followed by the properties established about them. *)

From Stdlib Require Import ZArith Lia Bool List.
From stdpp Require Import base option list.
Import ListNotations.

Local Open Scope Z_scope.

(** ** Machine integers

    C integers are modelled as [Z] with the wrap-around of each conversion
    written out (LP64 data model: 64-bit [size_t], 32-bit [int] and
    [unsigned int]). *)

Module CInt.

Definition to_uint8 (x : Z) : Z := x mod 2 ^ 8.
Definition to_uint16 (x : Z) : Z := x mod 2 ^ 16.
Definition to_uint32 (x : Z) : Z := x mod 2 ^ 32.
Definition to_size_t (x : Z) : Z := x mod 2 ^ 64.

Definition INT_MAX : Z := 2 ^ 31 - 1.
Definition SIZE_MAX : Z := 2 ^ 64 - 1.

(** Conversion to [int]: the value is reduced modulo 2^32 and read as a
    two's complement number. *)
Definition to_int (x : Z) : Z :=
  let y := x mod 2 ^ 32 in
  if y <? 2 ^ 31 then y else y - 2 ^ 32.

End CInt.

Import CInt.

(** ** Memory

    Buffers are lists of bytes (values in [0, 255] held as [Z]); the byte
    order of the host is a parameter of the functions that depend on it. *)

Module CMem.

(** [memcpy(&dest[off], src, length src)]. *)
Fixpoint memcpy (dest : list Z) (off : nat) (src : list Z) : list Z :=
  match src with
  | [] => dest
  | b :: src' => memcpy (<[off := b]> dest) (S off) src'
  end.

(** The [len] bytes found at [&buf[off]]. *)
Definition region (buf : list Z) (off len : nat) : list Z :=
  take len (drop off buf).

(** [rohc_hton16]: a byte swap on a little-endian host, the identity on a
    big-endian one. *)
Definition rohc_hton16 (big_endian_host : bool) (x : Z) : Z :=
  if big_endian_host then x
  else Z.lor (Z.land (Z.shiftl x 8) 0xff00) (Z.land (Z.shiftr x 8) 0xff).

(** The bytes of a [uint16_t] and of a [uint32_t] object in the memory of
    the host, in increasing address order. *)
Definition uint16_bytes (big_endian_host : bool) (x : Z) : list Z :=
  if big_endian_host
  then [Z.land (Z.shiftr x 8) 0xff; Z.land x 0xff]
  else [Z.land x 0xff; Z.land (Z.shiftr x 8) 0xff].

Definition uint32_bytes (big_endian_host : bool) (x : Z) : list Z :=
  let le := [Z.land x 0xff; Z.land (Z.shiftr x 8) 0xff;
             Z.land (Z.shiftr x 16) 0xff; Z.land (Z.shiftr x 24) 0xff] in
  if big_endian_host then rev le else le.

End CMem.

Import CMem.

(** ** The IP-only profile ([c_ip.c]) *)

Module CIp.

(** Packet types.  The enumeration [rohc_packet_t] is declared in a header
    that accompanies the sources; its members are the packet types of the
    ROHC framework. *)
Inductive rohc_packet_t : Type :=
  | ROHC_PACKET_IR
  | ROHC_PACKET_IR_DYN
  | ROHC_PACKET_UO_0
  | ROHC_PACKET_UO_1
  | ROHC_PACKET_UO_1_ID
  | ROHC_PACKET_UO_1_TS
  | ROHC_PACKET_UOR_2
  | ROHC_PACKET_UOR_2_ID
  | ROHC_PACKET_UOR_2_TS.

Inductive ip_version : Type := IPV4 | IPV6.

Definition ip_version_eqb (a b : ip_version) : bool :=
  match a, b with
  | IPV4, IPV4 | IPV6, IPV6 => true
  | _, _ => false
  end.

(** The IPv4 part of the per-header record ([info.v4]). *)
Record ipv4_header_info : Type := {
  sid_count : Z;
  rnd_count : Z;
  nbo_count : Z
}.

(** The per-IP-header record ([outer_ip_flags], [inner_ip_flags]). *)
Record ip_header_info : Type := {
  version : ip_version;
  v4 : ipv4_header_info
}.

(** The temporary variables computed for the packet being compressed
    ([tmp]). *)
Record generic_tmp_vars : Type := {
  send_static : Z;
  send_dynamic : Z;
  sn_4bits_possible : bool;
  sn_5bits_possible : bool;
  sn_13bits_possible : bool
}.

(** The fields of the generic RFC 3095 context that [c_ip.c] reads. *)
Record rohc_comp_rfc3095_ctxt : Type := {
  sn : Z;
  ip_hdr_nr : Z;
  outer_ip_flags : ip_header_info;
  inner_ip_flags : ip_header_info;
  tmp : generic_tmp_vars
}.

(** The compression context: [oa_repetitions_nr] is read through
    [context->compressor], [specific] is the generic RFC 3095 part. *)
Record rohc_comp_ctxt : Type := {
  oa_repetitions_nr : Z;
  specific : rohc_comp_rfc3095_ctxt
}.

(** A C integer used as a condition. *)
Definition truthy (x : Z) : bool := negb (x =? 0).

(** [c_ip_decide_FO_packet] *)
Definition c_ip_decide_FO_packet (context : rohc_comp_ctxt) : rohc_packet_t :=
  let rfc3095_ctxt := specific context in
  let oa := oa_repetitions_nr context in
  if (ip_version_eqb (version (outer_ip_flags rfc3095_ctxt)) IPV4 &&
      (sid_count (v4 (outer_ip_flags rfc3095_ctxt)) <? oa)) ||
     ((ip_hdr_nr rfc3095_ctxt >? 1) &&
      ip_version_eqb (version (inner_ip_flags rfc3095_ctxt)) IPV4 &&
      (sid_count (v4 (inner_ip_flags rfc3095_ctxt)) <? oa))
  then ROHC_PACKET_IR_DYN
  else if truthy (send_static (tmp rfc3095_ctxt)) &&
          (sn_5bits_possible (tmp rfc3095_ctxt) ||
           sn_13bits_possible (tmp rfc3095_ctxt))
  then ROHC_PACKET_UOR_2
  else if (ip_hdr_nr rfc3095_ctxt =? 1) &&
          (send_dynamic (tmp rfc3095_ctxt) >? 2)
  then ROHC_PACKET_IR_DYN
  else if (ip_hdr_nr rfc3095_ctxt >? 1) &&
          (send_dynamic (tmp rfc3095_ctxt) >? 4)
  then ROHC_PACKET_IR_DYN
  else if sn_5bits_possible (tmp rfc3095_ctxt) ||
          sn_13bits_possible (tmp rfc3095_ctxt)
  then ROHC_PACKET_UOR_2
  else ROHC_PACKET_IR_DYN.

(** The three [assert]s made on an IPv4 header in SO state. *)
Definition v4_counters_saturated (oa : Z) (flags : ip_header_info) : bool :=
  (sid_count (v4 flags) >=? oa) &&
  (rnd_count (v4 flags) >=? oa) &&
  (nbo_count (v4 flags) >=? oa).

Definition assert_ip_flags (oa : Z) (flags : ip_header_info) : bool :=
  if ip_version_eqb (version flags) IPV4
  then v4_counters_saturated oa flags
  else true.

Section DecideSO.

(** The three predicates on the IP-ID bits are inline helpers of the
    generic RFC 3095 code, which is not part of these sources: they are
    taken as parameters. *)
Variable no_outer_ip_id_bits_required : rohc_comp_rfc3095_ctxt -> bool.
Variable is_outer_ip_id_6bits_possible : rohc_comp_rfc3095_ctxt -> bool.
Variable no_inner_ip_id_bits_required : rohc_comp_rfc3095_ctxt -> bool.

(** [c_ip_decide_SO_packet]; [None] is a failed [assert]. *)
Definition c_ip_decide_SO_packet (context : rohc_comp_ctxt)
  : option rohc_packet_t :=
  let rfc3095_ctxt := specific context in
  let oa := oa_repetitions_nr context in
  if ip_hdr_nr rfc3095_ctxt =? 1 then
    if negb (assert_ip_flags oa (outer_ip_flags rfc3095_ctxt)) then None
    else if sn_4bits_possible (tmp rfc3095_ctxt) &&
            no_outer_ip_id_bits_required rfc3095_ctxt
    then Some ROHC_PACKET_UO_0
    else if sn_5bits_possible (tmp rfc3095_ctxt) &&
            is_outer_ip_id_6bits_possible rfc3095_ctxt
    then Some ROHC_PACKET_UO_1
    else if sn_5bits_possible (tmp rfc3095_ctxt) ||
            sn_13bits_possible (tmp rfc3095_ctxt)
    then Some ROHC_PACKET_UOR_2
    else Some ROHC_PACKET_IR_DYN
  else
    if negb (assert_ip_flags oa (outer_ip_flags rfc3095_ctxt)) then None
    else if negb (assert_ip_flags oa (inner_ip_flags rfc3095_ctxt)) then None
    else if sn_4bits_possible (tmp rfc3095_ctxt) &&
            no_outer_ip_id_bits_required rfc3095_ctxt &&
            no_inner_ip_id_bits_required rfc3095_ctxt
    then Some ROHC_PACKET_UO_0
    else if sn_5bits_possible (tmp rfc3095_ctxt) &&
            is_outer_ip_id_6bits_possible rfc3095_ctxt &&
            no_inner_ip_id_bits_required rfc3095_ctxt
    then Some ROHC_PACKET_UO_1
    else if sn_5bits_possible (tmp rfc3095_ctxt) ||
            sn_13bits_possible (tmp rfc3095_ctxt)
    then Some ROHC_PACKET_UOR_2
    else Some ROHC_PACKET_IR_DYN.

End DecideSO.

(** [c_ip_get_next_sn]; the context's SN is a [uint32_t], [None] is the
    failed [assert(next_sn <= 0xffff)]. *)
Definition c_ip_get_next_sn (context : rohc_comp_ctxt) : option Z :=
  let rfc3095_ctxt := specific context in
  let next_sn :=
    if sn rfc3095_ctxt =? 0xffff then 0
    else to_uint32 (sn rfc3095_ctxt + 1) in
  if next_sn <=? 0xffff then Some next_sn else None.

(** [c_ip_code_ir_remainder]: the returned [int] and the buffer after the
    call. *)
Definition c_ip_code_ir_remainder (big_endian_host : bool)
    (context : rohc_comp_ctxt) (dest : list Z)
    (dest_max_len counter : Z) : Z * list Z :=
  let rfc3095_ctxt := specific context in
  if to_size_t (counter + 2) >? dest_max_len then (-1, dest)
  else
    let sn16 := to_uint16 (Z.land (sn rfc3095_ctxt) 0xffff) in
    let sn_nbo := rohc_hton16 big_endian_host sn16 in
    (to_int (to_size_t (counter + 2)),
     memcpy dest (Z.to_nat counter) (uint16_bytes big_endian_host sn_nbo)).

(** *** The decision lists of the specification *)

(** "The SN fits in at most 13 bits": it can be sent on the 5 bits of the
    base header or on the 13 bits of base header and extension 3. *)
Definition sn_fits_13bits (t : generic_tmp_vars) : bool :=
  sn_5bits_possible t || sn_13bits_possible t.

(** "Any IPv4 IP header (the outer one, or the inner one when two IP headers
    are present) has its sid_count counter below oa_repetitions_nr". *)
Definition ipv4_sid_below (oa : Z) (flags : ip_header_info) : bool :=
  ip_version_eqb (version flags) IPV4 && (sid_count (v4 flags) <? oa).

Definition any_ipv4_sid_below (context : rohc_comp_ctxt) : bool :=
  let c := specific context in
  ipv4_sid_below (oa_repetitions_nr context) (outer_ip_flags c) ||
  ((ip_hdr_nr c =? 2) &&
   ipv4_sid_below (oa_repetitions_nr context) (inner_ip_flags c)).

(** The FO decision list as the specification words it. *)
Definition FO_packet_spec (context : rohc_comp_ctxt) : rohc_packet_t :=
  let c := specific context in
  if any_ipv4_sid_below context then ROHC_PACKET_IR_DYN
  else if truthy (send_static (tmp c)) && sn_fits_13bits (tmp c)
  then ROHC_PACKET_UOR_2
  else if ((ip_hdr_nr c =? 1) && (2 <? send_dynamic (tmp c))) ||
          ((ip_hdr_nr c =? 2) && (4 <? send_dynamic (tmp c)))
  then ROHC_PACKET_IR_DYN
  else if sn_fits_13bits (tmp c) then ROHC_PACKET_UOR_2
  else ROHC_PACKET_IR_DYN.

(** The SO decision list as the specification words it, over the same three
    IP-ID predicates. *)
Definition SO_packet_spec
    (no_outer_bits outer_6bits_ipv4 no_inner_bits : rohc_comp_rfc3095_ctxt -> bool)
    (context : rohc_comp_ctxt) : rohc_packet_t :=
  let c := specific context in
  let single_or_no_inner := (ip_hdr_nr c =? 1) || no_inner_bits c in
  if sn_4bits_possible (tmp c) && no_outer_bits c && single_or_no_inner
  then ROHC_PACKET_UO_0
  else if sn_5bits_possible (tmp c) && outer_6bits_ipv4 c && single_or_no_inner
  then ROHC_PACKET_UO_1
  else if sn_fits_13bits (tmp c) then ROHC_PACKET_UOR_2
  else ROHC_PACKET_IR_DYN.

(** The [assert]s of [c_ip_decide_SO_packet] hold: every IPv4 header taken
    into account has its three counters saturated. *)
Definition SO_asserts_hold (context : rohc_comp_ctxt) : bool :=
  let c := specific context in
  assert_ip_flags (oa_repetitions_nr context) (outer_ip_flags c) &&
  ((ip_hdr_nr c =? 1) ||
   assert_ip_flags (oa_repetitions_nr context) (inner_ip_flags c)).

End CIp.

(** ** The compressor ([rohc_comp.c]) *)

Module RohcComp.

Inductive rohc_cid_type_t : Type := ROHC_LARGE_CID | ROHC_SMALL_CID.

(** The status codes returned by [rohc_compress3]. *)
Inductive rohc_status : Type := ROHC_OK | ROHC_NEED_SEGMENT | ROHC_ERROR.

(** Modelled from the spec: the constants below are defined in internal
    headers that do not accompany the sources.  The list of RTP ports is
    capped at 15 entries, small CIDs lie in [0, 15] and large CIDs in
    [0, 65535], the default W-LSB window width is 4 and the FCS-32 takes
    4 bytes. *)
Definition MAX_RTP_PORTS : nat := 15.
Definition ROHC_SMALL_CID_MAX : Z := 15.
Definition ROHC_LARGE_CID_MAX : Z := 65535.
Definition C_WINDOW_WIDTH : Z := 4.
Definition CRC_FCS32_LEN : Z := 4.

(** The number of entries of the table [c_profiles]. *)
Definition C_NUM_PROFILES : nat := 7.

(** From [rohc.h]. *)
Definition CHANGE_TO_IR_COUNT : Z := 1700.
Definition CHANGE_TO_FO_COUNT : Z := 700.

(** One location of the ring of feedbacks: [data] ([None] is the [NULL]
    pointer), [length] and [is_locked]. *)
Record rohc_feedback : Type := {
  fb_data : option (list Z);
  fb_length : Z;
  is_locked : bool
}.

(** The fields of [struct rohc_comp] that the modelled functions use.  The
    contexts, the callbacks and the CRC tables are left out. *)
Record rohc_comp : Type := {
  medium_cid_type : rohc_cid_type_t;
  medium_max_cid : Z;
  enabled_profiles : list bool;
  rtp_ports : list Z;
  num_packets : Z;
  wlsb_window_width : Z;
  periodic_refreshes_ir_timeout : Z;
  periodic_refreshes_fo_timeout : Z;
  mrru : Z;
  rru : list Z;
  rru_off : Z;
  rru_len : Z;
  feedbacks : list rohc_feedback;
  feedbacks_first : nat;
  feedbacks_first_unlocked : nat;
  feedbacks_next : nat
}.

(** Field updates. *)
Definition set_rtp_ports (c : rohc_comp) (v : list Z) : rohc_comp :=
  {| medium_cid_type := medium_cid_type c; medium_max_cid := medium_max_cid c;
     enabled_profiles := enabled_profiles c; rtp_ports := v;
     num_packets := num_packets c; wlsb_window_width := wlsb_window_width c;
     periodic_refreshes_ir_timeout := periodic_refreshes_ir_timeout c;
     periodic_refreshes_fo_timeout := periodic_refreshes_fo_timeout c;
     mrru := mrru c; rru := rru c; rru_off := rru_off c; rru_len := rru_len c;
     feedbacks := feedbacks c; feedbacks_first := feedbacks_first c;
     feedbacks_first_unlocked := feedbacks_first_unlocked c;
     feedbacks_next := feedbacks_next c |}.

Definition set_num_packets (c : rohc_comp) (v : Z) : rohc_comp :=
  {| medium_cid_type := medium_cid_type c; medium_max_cid := medium_max_cid c;
     enabled_profiles := enabled_profiles c; rtp_ports := rtp_ports c;
     num_packets := v; wlsb_window_width := wlsb_window_width c;
     periodic_refreshes_ir_timeout := periodic_refreshes_ir_timeout c;
     periodic_refreshes_fo_timeout := periodic_refreshes_fo_timeout c;
     mrru := mrru c; rru := rru c; rru_off := rru_off c; rru_len := rru_len c;
     feedbacks := feedbacks c; feedbacks_first := feedbacks_first c;
     feedbacks_first_unlocked := feedbacks_first_unlocked c;
     feedbacks_next := feedbacks_next c |}.

Definition set_wlsb_window_width (c : rohc_comp) (v : Z) : rohc_comp :=
  {| medium_cid_type := medium_cid_type c; medium_max_cid := medium_max_cid c;
     enabled_profiles := enabled_profiles c; rtp_ports := rtp_ports c;
     num_packets := num_packets c; wlsb_window_width := v;
     periodic_refreshes_ir_timeout := periodic_refreshes_ir_timeout c;
     periodic_refreshes_fo_timeout := periodic_refreshes_fo_timeout c;
     mrru := mrru c; rru := rru c; rru_off := rru_off c; rru_len := rru_len c;
     feedbacks := feedbacks c; feedbacks_first := feedbacks_first c;
     feedbacks_first_unlocked := feedbacks_first_unlocked c;
     feedbacks_next := feedbacks_next c |}.

Definition set_periodic_refreshes (c : rohc_comp) (ir fo : Z) : rohc_comp :=
  {| medium_cid_type := medium_cid_type c; medium_max_cid := medium_max_cid c;
     enabled_profiles := enabled_profiles c; rtp_ports := rtp_ports c;
     num_packets := num_packets c; wlsb_window_width := wlsb_window_width c;
     periodic_refreshes_ir_timeout := ir;
     periodic_refreshes_fo_timeout := fo;
     mrru := mrru c; rru := rru c; rru_off := rru_off c; rru_len := rru_len c;
     feedbacks := feedbacks c; feedbacks_first := feedbacks_first c;
     feedbacks_first_unlocked := feedbacks_first_unlocked c;
     feedbacks_next := feedbacks_next c |}.

Definition set_rru (c : rohc_comp) (buf : list Z) (off len : Z) : rohc_comp :=
  {| medium_cid_type := medium_cid_type c; medium_max_cid := medium_max_cid c;
     enabled_profiles := enabled_profiles c; rtp_ports := rtp_ports c;
     num_packets := num_packets c; wlsb_window_width := wlsb_window_width c;
     periodic_refreshes_ir_timeout := periodic_refreshes_ir_timeout c;
     periodic_refreshes_fo_timeout := periodic_refreshes_fo_timeout c;
     mrru := mrru c; rru := buf; rru_off := off; rru_len := len;
     feedbacks := feedbacks c; feedbacks_first := feedbacks_first c;
     feedbacks_first_unlocked := feedbacks_first_unlocked c;
     feedbacks_next := feedbacks_next c |}.

Definition set_mrru (c : rohc_comp) (v : Z) : rohc_comp :=
  {| medium_cid_type := medium_cid_type c; medium_max_cid := medium_max_cid c;
     enabled_profiles := enabled_profiles c; rtp_ports := rtp_ports c;
     num_packets := num_packets c; wlsb_window_width := wlsb_window_width c;
     periodic_refreshes_ir_timeout := periodic_refreshes_ir_timeout c;
     periodic_refreshes_fo_timeout := periodic_refreshes_fo_timeout c;
     mrru := v; rru := rru c; rru_off := rru_off c; rru_len := rru_len c;
     feedbacks := feedbacks c; feedbacks_first := feedbacks_first c;
     feedbacks_first_unlocked := feedbacks_first_unlocked c;
     feedbacks_next := feedbacks_next c |}.

(** The ring and its three indices. *)
Definition set_ring (c : rohc_comp) (fbs : list rohc_feedback)
    (first first_unlocked next : nat) : rohc_comp :=
  {| medium_cid_type := medium_cid_type c; medium_max_cid := medium_max_cid c;
     enabled_profiles := enabled_profiles c; rtp_ports := rtp_ports c;
     num_packets := num_packets c; wlsb_window_width := wlsb_window_width c;
     periodic_refreshes_ir_timeout := periodic_refreshes_ir_timeout c;
     periodic_refreshes_fo_timeout := periodic_refreshes_fo_timeout c;
     mrru := mrru c; rru := rru c; rru_off := rru_off c; rru_len := rru_len c;
     feedbacks := fbs; feedbacks_first := first;
     feedbacks_first_unlocked := first_unlocked;
     feedbacks_next := next |}.

Definition set_locked (s : rohc_feedback) (b : bool) : rohc_feedback :=
  {| fb_data := fb_data s; fb_length := fb_length s; is_locked := b |}.

Definition set_data (s : rohc_feedback) (d : option (list Z)) : rohc_feedback :=
  {| fb_data := d; fb_length := fb_length s; is_locked := is_locked s |}.

(** An unused ring location: [NULL] data, zero length, not locked. *)
Definition empty_feedback : rohc_feedback :=
  {| fb_data := None; fb_length := 0; is_locked := false |}.

(** *** The list of UDP ports dedicated to RTP *)

(** The inner loop of [rohc_comp_add_rtp_port]:
    [for(i = MAX_RTP_PORTS - 2; i > idx; i--) rtp_ports[i] = rtp_ports[i - 1];]
    with [n] the number of values of [i] still to visit. *)
Fixpoint shift_ports (n : nat) (i idx : nat) (ports : list Z) : list Z :=
  match n with
  | O => ports
  | S n' =>
      if (idx <? i)%nat then
        match ports !! (i - 1)%nat with
        | Some p => shift_ports n' (i - 1)%nat idx (<[i := p]> ports)
        | None => ports
        end
      else ports
  end.

(** How the outer loop of [rohc_comp_add_rtp_port] ends. *)
Inductive add_port_outcome : Type :=
  | PortStored (ports : list Z)   (* [break] after the port was written *)
  | PortAlreadyThere              (* [goto error]: the port is in the list *)
  | PortTableFull.                (* the loop ran until [idx == MAX_RTP_PORTS] *)

(** The outer loop, from index [idx], with [n = MAX_RTP_PORTS - idx]. *)
Fixpoint add_port_loop (n : nat) (idx : nat) (ports : list Z) (port : Z)
  : add_port_outcome :=
  match n with
  | O => PortTableFull
  | S n' =>
      match ports !! idx with
      | None => PortTableFull
      | Some p =>
          if p =? 0 then PortStored (<[idx := port]> ports)
          else if p =? port then PortAlreadyThere
          else if port <? p then
            PortStored
              (<[idx := port]>
                 (shift_ports MAX_RTP_PORTS (MAX_RTP_PORTS - 2)%nat idx ports))
          else add_port_loop n' (S idx) ports port
      end
  end.

(** [rohc_comp_add_rtp_port]; [port] is an [unsigned int]. *)
Definition rohc_comp_add_rtp_port (comp : rohc_comp) (port : Z)
  : bool * rohc_comp :=
  if (port <=? 0) || (port >? 0xffff) then (false, comp)
  else
    match add_port_loop MAX_RTP_PORTS 0 (rtp_ports comp) port with
    | PortStored ports => (true, set_rtp_ports comp ports)
    | PortAlreadyThere => (false, comp)
    | PortTableFull => (false, comp)
    end.

(** *** Creation of a compressor *)

Definition rohc_comp_set_traces_cb (comp : rohc_comp) : bool * rohc_comp :=
  if num_packets comp >? 0 then (false, comp) else (true, comp).

Definition rohc_comp_set_wlsb_window_width (comp : rohc_comp) (width : Z)
  : bool * rohc_comp :=
  if width <=? 0 then (false, comp)
  else if negb (Z.land width (width - 1) =? 0) then (false, comp)
  else if num_packets comp >? 0 then (false, comp)
  else (true, set_wlsb_window_width comp width).

Definition rohc_comp_set_periodic_refreshes (comp : rohc_comp)
    (ir_timeout fo_timeout : Z) : bool * rohc_comp :=
  if (ir_timeout <=? 0) || (fo_timeout <=? 0) || (ir_timeout <=? fo_timeout)
  then (false, comp)
  else if num_packets comp >? 0 then (false, comp)
  else (true, set_periodic_refreshes comp ir_timeout fo_timeout).

(** The default ports added when the deprecated API is compiled in. *)
Definition default_rtp_ports : list Z := [1234; 36780; 33238; 5020; 5002].

(** The loop that adds the default ports: it stops at the first failure. *)
Fixpoint add_default_ports (comp : rohc_comp) (ports : list Z)
  : option rohc_comp :=
  match ports with
  | [] => Some comp
  | p :: ports' =>
      match rohc_comp_add_rtp_port comp p with
      | (true, comp') => add_default_ports comp' ports'
      | (false, _) => None
      end
  end.

(** The CRC types whose tables [rohc_comp_new] initialises, in order. *)
Definition crc_table_types : list Z := [2; 3; 6; 7; 8].

Section New.

(** Sizes of the two arrays of [struct rohc_comp] declared in an internal
    header. *)
Variable FEEDBACK_RING_SIZE : nat.
Variable ROHC_MAX_MRRU : nat.

(** [memset(comp, 0, sizeof(struct rohc_comp))]. *)
Definition zeroed_comp : rohc_comp :=
  {| medium_cid_type := ROHC_LARGE_CID; medium_max_cid := 0;
     enabled_profiles := replicate C_NUM_PROFILES false;
     rtp_ports := replicate MAX_RTP_PORTS 0;
     num_packets := 0; wlsb_window_width := 0;
     periodic_refreshes_ir_timeout := 0;
     periodic_refreshes_fo_timeout := 0;
     mrru := 0; rru := replicate ROHC_MAX_MRRU 0; rru_off := 0; rru_len := 0;
     feedbacks := replicate FEEDBACK_RING_SIZE empty_feedback;
     feedbacks_first := 0; feedbacks_first_unlocked := 0;
     feedbacks_next := 0 |}.

(** The fields assigned before the first call that can fail: the medium,
    the MRRU, the enabled profiles, the RTP ports (every entry written to
    zero) and the statistics. *)
Definition new_comp_reset (cid_type : rohc_cid_type_t) (max_cid : Z)
  : rohc_comp :=
  {| medium_cid_type := cid_type; medium_max_cid := max_cid;
     enabled_profiles :=
       foldl (fun l i => <[i := false]> l)
             (enabled_profiles zeroed_comp) (seq 0 C_NUM_PROFILES);
     rtp_ports :=
       foldl (fun l i => <[i := 0]> l)
             (rtp_ports zeroed_comp) (seq 0 MAX_RTP_PORTS);
     num_packets := 0; wlsb_window_width := 0;
     periodic_refreshes_ir_timeout := 0;
     periodic_refreshes_fo_timeout := 0;
     mrru := 0; rru := rru zeroed_comp; rru_off := 0; rru_len := 0;
     feedbacks := feedbacks zeroed_comp;
     feedbacks_first := 0; feedbacks_first_unlocked := 0;
     feedbacks_next := 0 |}.

(** [rohc_comp_new].  [deprecated_api] tells whether the sources are
    built with [ROHC_ENABLE_DEPRECATED_API] undefined or equal to 1;
    [malloc_ok], [crc_init_ok] and [calloc_ok] are the outcomes of
    [malloc], of [rohc_crc_init_table] for a CRC type and of the [calloc]
    of [c_create_contexts].  [None] is the [NULL] result.  The call to
    [rohc_comp_set_random_cb], which only fails on a [NULL] callback, is
    given the default callback and changes no modelled field. *)
Definition rohc_comp_new (deprecated_api : bool)
    (malloc_ok : bool) (crc_init_ok : Z -> bool) (calloc_ok : bool)
    (cid_type : rohc_cid_type_t) (max_cid : Z) : option rohc_comp :=
  let bad_cid :=
    match cid_type with
    | ROHC_SMALL_CID => max_cid >? ROHC_SMALL_CID_MAX
    | ROHC_LARGE_CID => max_cid >? ROHC_LARGE_CID_MAX
    end in
  if bad_cid then None
  else if negb malloc_ok then None
  else
    let comp := new_comp_reset cid_type max_cid in
    match rohc_comp_set_traces_cb comp with
    | (false, _) => None
    | (true, comp) =>
    match rohc_comp_set_wlsb_window_width comp C_WINDOW_WIDTH with
    | (false, _) => None
    | (true, comp) =>
    match rohc_comp_set_periodic_refreshes comp CHANGE_TO_IR_COUNT
                                           CHANGE_TO_FO_COUNT with
    | (false, _) => None
    | (true, comp) =>
    match (if deprecated_api then add_default_ports comp default_rtp_ports
           else Some comp) with
    | None => None
    | Some comp =>
        if negb (forallb crc_init_ok crc_table_types) then None
        else
          let comp :=
            set_ring comp
              (foldl (fun l i => <[i := empty_feedback]> l)
                     (feedbacks comp) (seq 0 FEEDBACK_RING_SIZE))
              0 0 0 in
          if negb calloc_ok then None else Some comp
    end end end end.

(** [rohc_comp_set_mrru]: the MRRU is at most [ROHC_MAX_MRRU], the size of
  the buffer that holds the RRU. *)
Definition rohc_comp_set_mrru (comp : rohc_comp) (mrru : Z)
: bool * rohc_comp :=
if mrru >? Z.of_nat ROHC_MAX_MRRU then (false, comp)
else (true, set_mrru comp mrru).

End New.

(** *** The ring of feedbacks *)

Section Ring.

Variable FEEDBACK_RING_SIZE : nat.

(** [(i + 1) % FEEDBACK_RING_SIZE] *)
Definition ring_succ (i : nat) : nat := ((i + 1) mod FEEDBACK_RING_SIZE)%nat.

(** [assert(0 <= i && i < FEEDBACK_RING_SIZE)] on an index; a failed
    assertion aborts the program, which the functions below render as
    [None]. *)
Definition index_ok (i : nat) : bool := (i <? FEEDBACK_RING_SIZE)%nat.

(** [a == b && comp->feedbacks[b].length == 0], the right operand being
    evaluated only when the left one holds; likewise with
    [length != 0] and with [is_locked == true]. *)
Definition same_and_empty (comp : rohc_comp) (a b : nat) : option bool :=
  if (a =? b)%nat then
    s ← feedbacks comp !! b; Some (fb_length s =? 0)
  else Some false.

Definition same_and_used (comp : rohc_comp) (a b : nat) : option bool :=
  if (a =? b)%nat then
    s ← feedbacks comp !! b; Some (negb (fb_length s =? 0))
  else Some false.

Definition same_and_locked (comp : rohc_comp) (a b : nat) : option bool :=
  if (a =? b)%nat then
    s ← feedbacks comp !! b; Some (is_locked s)
  else Some false.

(** [rohc_comp_piggyback_feedback].  The feedback is given by its bytes,
    [size] being their number; [malloc_ok] is the outcome of [malloc]. *)
Definition rohc_comp_piggyback_feedback (malloc_ok : bool)
    (comp : rohc_comp) (feedback : list Z) : option (bool * rohc_comp) :=
  let size := Z.of_nat (length feedback) in
  if size <=? 0 then Some (false, comp)
  else if negb (index_ok (feedbacks_next comp)) then None
  else if negb (index_ok (feedbacks_first comp)) then None
  else
    ring_full ←
      same_and_used comp (feedbacks_next comp) (feedbacks_first comp);
    if (ring_full : bool) then Some (false, comp)
    else
      s ← feedbacks comp !! feedbacks_next comp;
      if negb malloc_ok then
        Some (false,
              set_ring comp
                (<[feedbacks_next comp := set_data s None]> (feedbacks comp))
                (feedbacks_first comp) (feedbacks_first_unlocked comp)
                (feedbacks_next comp))
      else
        let s' := {| fb_data := Some feedback; fb_length := size;
                     is_locked := false |} in
        Some (true,
              set_ring comp
                (<[feedbacks_next comp := s']> (feedbacks comp))
                (feedbacks_first comp) (feedbacks_first_unlocked comp)
                (ring_succ (feedbacks_next comp))).

(** [rohc_feedback_get]: the returned [int], the bytes written at the
    start of [buffer] and the compressor after the call; [max] is an
    [unsigned int]. *)
Definition rohc_feedback_get (comp : rohc_comp) (max : Z)
  : option (Z * list Z * rohc_comp) :=
  if negb (index_ok (feedbacks_first_unlocked comp)) then None
  else if negb (index_ok (feedbacks_next comp)) then None
  else
    ring_empty ←
      same_and_empty comp (feedbacks_first comp) (feedbacks_next comp);
    if (ring_empty : bool) then Some (to_int 0, [], comp)
    else
      all_locked ←
        same_and_empty comp (feedbacks_next comp)
                       (feedbacks_first_unlocked comp);
      if (all_locked : bool) then Some (to_int 0, [], comp)
      else
        full_locked ←
          same_and_locked comp (feedbacks_next comp)
                          (feedbacks_first_unlocked comp);
        if (full_locked : bool) then Some (to_int 0, [], comp)
        else
          s ← feedbacks comp !! feedbacks_first_unlocked comp;
          let feedback_length := fb_length s in
          let required_length :=
            to_size_t (feedback_length + 1 +
                       (if feedback_length <? 8 then 0 else 1)) in
          if required_length >? max then Some (-1, [], comp)
          else
            let header :=
              if feedback_length <? 8
              then [to_uint8 (Z.lor 0xf0 feedback_length)]
              else [0xf0; to_uint8 feedback_length] in
            let pos := Z.of_nat (length header) in
            d ← fb_data s;
            Some (to_int (to_size_t (pos + feedback_length)),
                  header ++ take (Z.to_nat feedback_length) d,
                  set_ring comp
                    (<[feedbacks_first_unlocked comp := set_locked s true]>
                       (feedbacks comp))
                    (feedbacks_first comp)
                    (ring_succ (feedbacks_first_unlocked comp))
                    (feedbacks_next comp)).

(** The loop of [rohc_feedback_unlock]:
    [while(feedbacks[i].is_locked) { feedbacks[i].is_locked = false;
     i = (i + 1) % FEEDBACK_RING_SIZE; }].
    [None] when the fuel runs out or an index leaves the ring. *)
Fixpoint unlock_loop (fuel : nat) (fbs : list rohc_feedback) (i : nat)
  : option (list rohc_feedback) :=
  match fuel with
  | O => None
  | S fuel' =>
      s ← fbs !! i;
      if is_locked s
      then unlock_loop fuel' (<[i := set_locked s false]> fbs) (ring_succ i)
      else Some fbs
  end.

(** [rohc_feedback_unlock].  Every iteration of the loop clears one
    locked flag, so the loop tests its condition at most
    [FEEDBACK_RING_SIZE + 1] times. *)
Definition rohc_feedback_unlock (comp : rohc_comp)
  : option (bool * rohc_comp) :=
  if negb (index_ok (feedbacks_first comp)) then None
  else if negb (index_ok (feedbacks_first_unlocked comp)) then None
  else if negb (index_ok (feedbacks_next comp)) then None
  else
    fbs ← unlock_loop (S FEEDBACK_RING_SIZE) (feedbacks comp)
                       (feedbacks_first comp);
    Some (true,
          set_ring comp fbs (feedbacks_first comp) (feedbacks_first comp)
                   (feedbacks_next comp)).

(** The loop of [rohc_feedback_remove_locked], on the ring and
    [feedbacks_first]; the two [assert]s of its body are checked. *)
Fixpoint remove_locked_loop (fuel : nat) (fbs : list rohc_feedback)
    (first : nat) : option (list rohc_feedback * nat) :=
  match fuel with
  | O => None
  | S fuel' =>
      s ← fbs !! first;
      if is_locked s then
        match fb_data s with
        | None => None
        | Some _ =>
            if fb_length s >? 0
            then remove_locked_loop fuel' (<[first := empty_feedback]> fbs)
                                    (ring_succ first)
            else None
        end
      else Some (fbs, first)
  end.

(** [rohc_feedback_remove_locked] *)
Definition rohc_feedback_remove_locked (comp : rohc_comp)
  : option (bool * rohc_comp) :=
  if negb (index_ok (feedbacks_first comp)) then None
  else if negb (index_ok (feedbacks_first_unlocked comp)) then None
  else
    '(fbs, first) ← remove_locked_loop (S FEEDBACK_RING_SIZE)
                                       (feedbacks comp) (feedbacks_first comp);
    if (first =? feedbacks_first_unlocked comp)%nat
    then Some (true,
               set_ring comp fbs first (feedbacks_first_unlocked comp)
                        (feedbacks_next comp))
    else None.

(** [rohc_feedback_avail_bytes]: the sum is accumulated in a [size_t]. *)
Definition avail_step (acc : Z) (s : rohc_feedback) : Z :=
  if (fb_length s >? 0) && negb (is_locked s) then
    let acc := to_size_t (acc + fb_length s) in
    if fb_length s <? 8 then to_size_t (acc + 1) else to_size_t (acc + 2)
  else acc.

Definition rohc_feedback_avail_bytes (comp : rohc_comp) : Z :=
  foldl avail_step 0 (take FEEDBACK_RING_SIZE (feedbacks comp)).

(** A sequence of calls to [rohc_feedback_get], one per buffer size of
    [maxs]: the values returned, the bytes written and the final
    compressor. *)
Fixpoint feedback_gets (comp : rohc_comp) (maxs : list Z)
  : option (list Z * list Z * rohc_comp) :=
  match maxs with
  | [] => Some ([], [], comp)
  | max :: maxs' =>
      '(r, bytes, comp1) ← rohc_feedback_get comp max;
      '(rs, bytes', comp2) ← feedback_gets comp1 maxs';
      Some (r :: rs, bytes ++ bytes', comp2)
  end.

End Ring.

(** *** Compression of one packet *)

(** What the code that does not accompany the sources computes for the
    packet given to [rohc_compress3]: the parsing of the IP headers, the
    choice of a profile and of a context, and the [encode] handler of the
    profile, which writes the ROHC header at the position it is given and
    returns its length together with the offset of the payload in the
    uncompressed packet ([None] for a negative result).  The handler is
    given the room left in the output buffer. *)
Record packet_env : Type := {
  uncomp_packet : list Z;
  ip_parsed : bool;
  ip_totlen : Z;
  profile_found : bool;
  context_found : bool;
  encode : Z -> option (list Z * Z);
  uncompressed_profile_found : bool;
  uncompressed_context_found : bool;
  encode_uncompressed : Z -> option (list Z * Z)
}.

(** What a call to [rohc_compress3] hands back: the status, the bytes
    written at the start of the output buffer, [*rohc_packet_len] and the
    final value of the local variable [feedbacks_size]. *)
Record compress_result : Type := {
  status : rohc_status;
  rohc_packet : list Z;
  rohc_packet_len : Z;
  feedbacks_size : Z
}.

Section Compress.

Variable FEEDBACK_RING_SIZE : nat.

(** Byte order of the host. *)
Variable big_endian_host : bool.

(** [crc_calc_fcs32] and its initial value are defined with the other
    CRCs, outside these sources. *)
Variable crc_calc_fcs32 : list Z -> Z -> Z.
Variable CRC_INIT_FCS32 : Z.

(** Step 1 of [rohc_compress3]:
    [do { feedback_size = rohc_feedback_get(comp, rohc_packet +
     feedbacks_size, max); if(feedback_size > 0) feedbacks_size +=
     feedback_size; } while(feedback_size > 0 && feedbacks_size <= 500);]
    [max] is the difference between [rohc_packet_max_len] and
    [*rohc_packet_len], which the loop does not change.  [None] when the fuel runs out. *)
Fixpoint add_feedbacks (fuel : nat) (comp : rohc_comp) (max : Z)
    (feedbacks_size : Z) (written : list Z)
  : option (Z * list Z * rohc_comp) :=
  match fuel with
  | O => None
  | S fuel' =>
      '(feedback_size, bytes, comp') ←
        rohc_feedback_get FEEDBACK_RING_SIZE comp max;
      let feedbacks_size' :=
        if feedback_size >? 0
        then to_size_t (feedbacks_size + feedback_size)
        else feedbacks_size in
      let written' :=
        if feedback_size >? 0 then written ++ bytes else written in
      if (feedback_size >? 0) && (feedbacks_size' <=? 500)
      then add_feedbacks fuel' comp' max feedbacks_size' written'
      else Some (feedbacks_size', written', comp')
  end.

(** Step 2: the handler of the profile, then the one of the Uncompressed
    profile if the first one fails. *)
Definition compress3_encode (env : packet_env) (room : Z)
  : option (list Z * Z) :=
  match encode env room with
  | Some r => Some r
  | None =>
      if negb (uncompressed_profile_found env) then None
      else if negb (uncompressed_context_found env) then None
      else encode_uncompressed env room
  end.

(** The staging of the RRU: header, payload, then the FCS-32 computed
    over both. *)
Definition stage_rru (comp : rohc_comp) (rohc_hdr payload : list Z)
    (payload_size : Z) : rohc_comp :=
  let off := 0 in
  let len := 0 in
  let buf := memcpy (rru comp) (Z.to_nat (off + len)) rohc_hdr in
  let len := to_size_t (len + Z.of_nat (length rohc_hdr)) in
  let buf := memcpy buf (Z.to_nat (off + len)) payload in
  let len := to_size_t (len + payload_size) in
  let rru_crc :=
    crc_calc_fcs32 (region buf (Z.to_nat off) (Z.to_nat len))
                   CRC_INIT_FCS32 in
  let buf :=
    memcpy buf (Z.to_nat (off + len))
           (take (Z.to_nat CRC_FCS32_LEN)
                 (uint32_bytes big_endian_host rru_crc)) in
  let len := to_size_t (len + CRC_FCS32_LEN) in
  set_rru comp buf off len.

Definition error_result (written : list Z) (len fbs : Z) : compress_result :=
  {| status := ROHC_ERROR; rohc_packet := written;
     rohc_packet_len := len; feedbacks_size := fbs |}.

(** [rohc_compress3].  [None] is a failed [assert] or a loop that does
    not end. *)
Definition rohc_compress3 (comp : rohc_comp) (env : packet_env)
    (rohc_packet_max_len : Z) : option (compress_result * rohc_comp) :=
  let uncomp_packet_len := Z.of_nat (length (uncomp_packet env)) in
  if (uncomp_packet_len <=? 0) || (rohc_packet_max_len <=? 0)
  then Some (error_result [] 0 0, comp)
  else if negb (ip_parsed env) then Some (error_result [] 0 0, comp)
  else if negb (profile_found env) then Some (error_result [] 0 0, comp)
  else if negb (context_found env) then Some (error_result [] 0 0, comp)
  else
    let packet_len := 0 in
    '(fbs_size, fbs_bytes, comp) ←
      add_feedbacks (S FEEDBACK_RING_SIZE) comp
        (to_uint32 (to_size_t (rohc_packet_max_len - packet_len))) 0 [];
    let packet_len := to_size_t (packet_len + fbs_size) in
    match compress3_encode env
            (to_size_t (rohc_packet_max_len - packet_len)) with
    | None =>
        '(_, comp) ← rohc_feedback_unlock FEEDBACK_RING_SIZE comp;
        Some (error_result fbs_bytes packet_len fbs_size, comp)
    | Some (rohc_hdr, payload_offset) =>
        let packet_len :=
          to_size_t (packet_len + Z.of_nat (length rohc_hdr)) in
        let payload_size := to_size_t (ip_totlen env - payload_offset) in
        let payload :=
          region (uncomp_packet env) (Z.to_nat payload_offset)
                 (Z.to_nat payload_size) in
        if to_size_t (packet_len + payload_size) >? rohc_packet_max_len
        then
          if to_size_t (packet_len + payload_size + CRC_FCS32_LEN)
             >? mrru comp
          then
            '(_, comp) ← rohc_feedback_unlock FEEDBACK_RING_SIZE comp;
            Some (error_result (fbs_bytes ++ rohc_hdr) packet_len fbs_size,
                  comp)
          else
            let comp := stage_rru comp rohc_hdr payload payload_size in
            if negb (rru_len comp <=? mrru comp) then None
            else
              '(_, comp) ← rohc_feedback_unlock FEEDBACK_RING_SIZE comp;
              Some ({| status := ROHC_NEED_SEGMENT;
                       rohc_packet := fbs_bytes ++ rohc_hdr;
                       rohc_packet_len := packet_len;
                       feedbacks_size := fbs_size |},
                    set_num_packets comp (to_int (num_packets comp + 1)))
        else
          '(_, comp) ← rohc_feedback_remove_locked FEEDBACK_RING_SIZE comp;
          Some ({| status := ROHC_OK;
                   rohc_packet := fbs_bytes ++ rohc_hdr ++ payload;
                   rohc_packet_len := to_size_t (packet_len + payload_size);
                   feedbacks_size := fbs_size |},
                set_num_packets comp (to_int (num_packets comp + 1)))
    end.

End Compress.

End RohcComp.

(** ** The invariant of the ring of feedbacks

    The predicates in which the properties of the ring are stated, and the
    states that the operations on the ring lead to. *)

Module RingInv.

Import RohcComp.

Section Invariant.

Variable FEEDBACK_RING_SIZE : nat.

Local Abbreviation SIZE := FEEDBACK_RING_SIZE.
Local Abbreviation ring_succ := (ring_succ FEEDBACK_RING_SIZE).

(** The index reached from [first] after [k] steps around the ring. *)
Definition ring_pos (first k : nat) : nat :=
  if (first + k <? SIZE)%nat then (first + k)%nat else (first + k - SIZE)%nat.

Definition locked_slot (s : rohc_feedback) : Prop :=
  is_locked s = true /\ 0 < fb_length s /\ fb_data s <> None.

Definition queued_slot (s : rohc_feedback) : Prop :=
  is_locked s = false /\ 0 < fb_length s /\ fb_data s <> None.

(** The state of the location found [k] steps after [feedbacks_first] in a
    ring that holds [nl] locked feedbacks followed by [nq] queued ones. *)
Definition slot_class (nl nq k : nat) (s : rohc_feedback) : Prop :=
  if (k <? nl)%nat then locked_slot s
  else if (k <? nl + nq)%nat then queued_slot s
  else s = empty_feedback.

(** The invariant of the ring: the locations from [feedbacks_first] up to
    [feedbacks_first_unlocked] are locked, those from there up to
    [feedbacks_next] are queued, the other ones are unused. *)
Record ring_layout (comp : rohc_comp) (nl nq : nat) : Prop := {
  rl_length : length (feedbacks comp) = SIZE;
  rl_first : (feedbacks_first comp < SIZE)%nat;
  rl_count : (nl + nq <= SIZE)%nat;
  rl_first_unlocked :
    feedbacks_first_unlocked comp = ring_pos (feedbacks_first comp) nl;
  rl_next :
    feedbacks_next comp = ring_pos (feedbacks_first comp) (nl + nq);
  rl_slots :
    forall k, (k < SIZE)%nat ->
      exists s, feedbacks comp !! ring_pos (feedbacks_first comp) k = Some s /\
                slot_class nl nq k s
}.

Definition ring_wf (comp : rohc_comp) : Prop :=
  exists nl nq, ring_layout comp nl nq.

Definition no_slot_locked (comp : rohc_comp) : Prop :=
  forall i s, feedbacks comp !! i = Some s -> is_locked s = false.

(** The bytes and the state produced by [rohc_feedback_get] when it
    emits the feedback [s] found at [feedbacks_first_unlocked]. *)
Definition feedback_header (s : rohc_feedback) : list Z :=
  if fb_length s <? 8 then [to_uint8 (Z.lor 0xf0 (fb_length s))]
  else [0xf0; to_uint8 (fb_length s)].

Definition required_length (s : rohc_feedback) : Z :=
  to_size_t (fb_length s + 1 + (if fb_length s <? 8 then 0 else 1)).

Definition lock_first_unlocked (comp : rohc_comp) (s : rohc_feedback)
  : rohc_comp :=
  set_ring comp
    (<[feedbacks_first_unlocked comp := set_locked s true]> (feedbacks comp))
    (feedbacks_first comp) (ring_succ (feedbacks_first_unlocked comp))
    (feedbacks_next comp).

(** The size on which a feedback is emitted: its bytes and a header of one
    or two bytes. *)
Definition emitted_size (s : rohc_feedback) : Z :=
  fb_length s + (if fb_length s <? 8 then 1 else 2).

(** The ring with every locked flag cleared. *)
Definition unlock_all (fbs : list rohc_feedback) : list rohc_feedback :=
  (fun s => set_locked s false) <$> fbs.

(** The test made by [rohc_comp_piggyback_feedback]: the ring is full when
    [feedbacks_next] equals [feedbacks_first] and the location at
    [feedbacks_first] has a non-zero length. *)
Definition ring_full (comp : rohc_comp) : Prop :=
  feedbacks_next comp = feedbacks_first comp /\
  exists s, feedbacks comp !! feedbacks_first comp = Some s /\ fb_length s <> 0.

(** The compressor after a feedback was recorded. *)
Definition piggybacked (comp : rohc_comp) (feedback : list Z) : rohc_comp :=
  set_ring comp
    (<[feedbacks_next comp :=
         {| fb_data := Some feedback;
            fb_length := Z.of_nat (length feedback);
            is_locked := false |}]> (feedbacks comp))
    (feedbacks_first comp) (feedbacks_first_unlocked comp)
    (ring_succ (feedbacks_next comp)).

(** The compressor after [malloc] failed: the data pointer of the location
    [s] found at [feedbacks_next] was overwritten with [NULL]. *)
Definition piggyback_no_memory (comp : rohc_comp) (s : rohc_feedback)
  : rohc_comp :=
  set_ring comp
    (<[feedbacks_next comp := set_data s None]> (feedbacks comp))
    (feedbacks_first comp) (feedbacks_first_unlocked comp)
    (feedbacks_next comp).

End Invariant.

End RingInv.

(** ** Sample inputs

    The contexts, lists of ports and compressors on which the functions
    are run further down. *)

Module Samples.

Import CIp RohcComp RingInv.

(** A context of the IP-only profile with a single IPv4 header. *)
Definition fo_context : rohc_comp_ctxt :=
  {| oa_repetitions_nr := 3;
     specific :=
       {| sn := 7; ip_hdr_nr := 1;
          outer_ip_flags :=
            {| version := IPV4;
               v4 := {| sid_count := 3; rnd_count := 3; nbo_count := 3 |} |};
          inner_ip_flags :=
            {| version := IPV6;
               v4 := {| sid_count := 0; rnd_count := 0; nbo_count := 0 |} |};
          tmp := {| send_static := 0; send_dynamic := 1;
                    sn_4bits_possible := true; sn_5bits_possible := true;
                    sn_13bits_possible := true |} |} |}.

(** A compressor whose list of RTP ports holds 14 ports. *)
Definition ports_14 : list Z :=
  [10; 20; 30; 40; 50; 60; 70; 80; 90; 100; 110; 120; 130; 140; 0].

Definition comp_14_ports : rohc_comp :=
  set_rtp_ports (zeroed_comp 1 0) ports_14.

(** A compressor whose list of RTP ports is full. *)
Definition ports_15 : list Z :=
  [10; 20; 30; 40; 50; 60; 70; 80; 90; 100; 110; 120; 130; 140; 150].

Definition comp_15_ports : rohc_comp :=
  set_rtp_ports (zeroed_comp 1 0) ports_15.

(** The five default ports, once inserted in an empty list. *)
Definition default_ports_installed : list Z :=
  [1234; 5002; 5020; 33238; 36780; 0; 0; 0; 0; 0; 0; 0; 0; 0; 0].

(** A compressor created with the deprecated API compiled in. *)
Definition comp_deprecated : rohc_comp :=
  default (zeroed_comp 4 16)
    (rohc_comp_new 4 16 true true (fun _ => true) true ROHC_SMALL_CID 15).

(** A ring of 4 locations and an RRU buffer of 64 bytes. *)
Definition ring_size : nat := 4.
Definition max_mrru : nat := 64.

(** A new compressor, built without the deprecated API. *)
Definition comp_new : rohc_comp :=
  default (zeroed_comp ring_size max_mrru)
    (rohc_comp_new ring_size max_mrru false true (fun _ => true) true
                   ROHC_SMALL_CID 15).

Definition fb_short : list Z := [1; 2; 3].
Definition fb_long : list Z := [4; 5; 6; 7; 8; 9; 10; 11; 12].

(** The compressor after two feedbacks were piggybacked. *)
Definition comp_two : rohc_comp :=
  piggybacked ring_size (piggybacked ring_size comp_new fb_short) fb_long.

(** The FCS-32 used in the examples; any function will do. *)
Definition fcs32_stub (bytes : list Z) (init : Z) : Z :=
  fold_left Z.lxor bytes init.

(** A packet of 30 bytes, compressed into a header of 2 bytes followed by
    the last 10 bytes of the packet. *)
Definition env_30 : packet_env :=
  {| uncomp_packet := map Z.of_nat (seq 0 30);
     ip_parsed := true;
     ip_totlen := 30;
     profile_found := true;
     context_found := true;
     encode := fun _ => Some ([0xfd; 0x04], 20);
     uncompressed_profile_found := true;
     uncompressed_context_found := true;
     encode_uncompressed := fun _ => None |}.

(** A compressor with an MRRU of [m] bytes and one queued feedback of 3
    bytes, emitted on 4 bytes. *)
Definition comp_mrru (m : Z) : rohc_comp :=
  piggybacked ring_size (rohc_comp_set_mrru max_mrru comp_new m).2 fb_short.

(** The ring of [comp_mrru m] once its feedback is emitted. *)
Definition comp_mrru_locked (m : Z) : rohc_comp :=
  lock_first_unlocked ring_size (comp_mrru m)
    {| fb_data := Some fb_short; fb_length := 3; is_locked := false |}.

(** A compressor with two queued feedbacks of 300 bytes each, and a packet
    compressed into an output buffer of 2000 bytes. *)
Definition comp_big : rohc_comp :=
  piggybacked ring_size
    (piggybacked ring_size comp_new (replicate 300 0xab)) (replicate 300 0xcd).

End Samples.

(** ** The other functions of the compressor *)

(** *** Removal and reset of the RTP ports *)

Module RtpPorts.

Import RohcComp.

(** The inner loop of [rohc_comp_remove_rtp_port]:
    [for(i = idx; i < MAX_RTP_PORTS - 1; i++) rtp_ports[i] = rtp_ports[i + 1];]
    with [n] the number of values of [i] still to visit. *)
Fixpoint unshift_ports (n : nat) (i : nat) (ports : list Z) : list Z :=
  match n with
  | O => ports
  | S n' =>
      if (i <? MAX_RTP_PORTS - 1)%nat then
        match ports !! (i + 1)%nat with
        | Some p => unshift_ports n' (i + 1)%nat (<[i := p]> ports)
        | None => ports
        end
      else ports
  end.

(** How the search of [rohc_comp_remove_rtp_port] ends. *)
Inductive remove_port_outcome : Type :=
  | PortRemoved (ports : list Z)  (* the port was found and erased *)
  | PortNotThere.                 (* [goto error]: the port is not in the list *)

(** The outer loop, from index [idx], with [n = MAX_RTP_PORTS - idx]. *)
Fixpoint remove_port_loop (n : nat) (idx : nat) (ports : list Z) (port : Z)
  : remove_port_outcome :=
  match n with
  | O => PortNotThere
  | S n' =>
      match ports !! idx with
      | None => PortNotThere
      | Some p =>
          if (p =? 0) || (p >? port) then PortNotThere
          else if port >? p then remove_port_loop n' (S idx) ports port
          else
            PortRemoved
              (<[(MAX_RTP_PORTS - 1)%nat := 0]>
                 (unshift_ports MAX_RTP_PORTS idx ports))
      end
  end.

(** [rohc_comp_remove_rtp_port]; [port] is an [unsigned int].  The
    contexts that use the removed port, which the function destroys once
    the port is erased, are not among the modelled fields. *)
Definition rohc_comp_remove_rtp_port (comp : rohc_comp) (port : Z)
  : bool * rohc_comp :=
  if (port <=? 0) || (port >? 0xffff) then (false, comp)
  else
    match rtp_ports comp !! 0%nat with
    | None => (false, comp)
    | Some p0 =>
        if p0 =? 0 then (false, comp)
        else
          match remove_port_loop MAX_RTP_PORTS 0 (rtp_ports comp) port with
          | PortRemoved ports => (true, set_rtp_ports comp ports)
          | PortNotThere => (false, comp)
          end
    end.

(** The loop of [rohc_comp_reset_rtp_ports]:
    [for(idx = 0; idx < MAX_RTP_PORTS && rtp_ports[idx] != 0; idx++)
       rtp_ports[idx] = 0;] *)
Fixpoint reset_ports_loop (n : nat) (idx : nat) (ports : list Z) : list Z :=
  match n with
  | O => ports
  | S n' =>
      match ports !! idx with
      | None => ports
      | Some p =>
          if p =? 0 then ports
          else reset_ports_loop n' (S idx) (<[idx := 0]> ports)
      end
  end.

Definition rohc_comp_reset_rtp_ports (comp : rohc_comp) : bool * rohc_comp :=
  (true,
   set_rtp_ports comp (reset_ports_loop MAX_RTP_PORTS 0 (rtp_ports comp))).

(** The shape that the comments of the three functions give to the list:
    [n] ports in strictly ascending order, then unused entries only. *)
Record ports_layout (ports : list Z) (n : nat) : Prop := {
  pl_length : length ports = MAX_RTP_PORTS;
  pl_count : (n <= MAX_RTP_PORTS)%nat;
  pl_used : forall i p, (i < n)%nat -> ports !! i = Some p -> 0 < p;
  pl_unused : forall i p, (n <= i)%nat -> ports !! i = Some p -> p = 0;
  pl_ascending :
    forall i j p q, (i < j)%nat -> (j < n)%nat ->
      ports !! i = Some p -> ports !! j = Some q -> p < q
}.

(** The list once [port] was stored at index [k] of a list of [n] ports:
    in the first unused entry when [k = n], after the shift otherwise. *)
Definition stored_at (ports : list Z) (n k : nat) (port : Z) : list Z :=
  <[k := port]>
    (if (k <? n)%nat
     then shift_ports MAX_RTP_PORTS (MAX_RTP_PORTS - 2)%nat k ports
     else ports).

(** The list once the port found at index [k] was erased. *)
Definition removed_at (ports : list Z) (k : nat) : list Z :=
  <[(MAX_RTP_PORTS - 1)%nat := 0]> (unshift_ports MAX_RTP_PORTS k ports).

End RtpPorts.

(** *** Segments *)

Module Segments.

Import RohcComp.

(** What a call to [rohc_comp_get_segment] hands back: the status, the
    buffer [segment] after the call and [*len] ([None] when the call
    returns before writing it). *)
Record segment_result : Type := {
  seg_status : rohc_status;
  seg_buffer : list Z;
  seg_len : option Z
}.

Section GetSegment.

Variable FEEDBACK_RING_SIZE : nat.

(** The loop of [rohc_comp_get_segment] that adds the feedbacks:
    [do { feedback_size = rohc_feedback_get(comp, segment + *len,
     max_len - *len); if(feedback_size > 0) *len += feedback_size; }
     while(feedback_size > 0);]
    [None] when the fuel runs out. *)
Fixpoint segment_feedbacks (fuel : nat) (comp : rohc_comp)
    (segment : list Z) (max_len len : Z)
  : option (Z * list Z * rohc_comp) :=
  match fuel with
  | O => None
  | S fuel' =>
      '(feedback_size, bytes, comp') ←
        rohc_feedback_get FEEDBACK_RING_SIZE comp
          (to_uint32 (to_size_t (max_len - len)));
      if feedback_size >? 0
      then segment_feedbacks fuel' comp'
             (memcpy segment (Z.to_nat len) bytes) max_len
             (to_size_t (len + feedback_size))
      else Some (len, segment, comp')
  end.

(** [rohc_comp_get_segment]; [segment] is the buffer of the caller and
    [max_len], a [size_t], the size the caller gives for it.  [None] is a
    failed [assert] or a loop that does not end. *)
Definition rohc_comp_get_segment (comp : rohc_comp) (segment : list Z)
    (max_len : Z) : option (segment_result * rohc_comp) :=
  let segment_type_len := 1 in
  if max_len <=? 0
  then Some ({| seg_status := ROHC_ERROR; seg_buffer := segment;
                seg_len := None |}, comp)
  else if rru_len comp <=? 0
  then Some ({| seg_status := ROHC_ERROR; seg_buffer := segment;
                seg_len := Some 0 |}, comp)
  else if max_len <=? segment_type_len
  then Some ({| seg_status := ROHC_ERROR; seg_buffer := segment;
                seg_len := Some 0 |}, comp)
  else
    '(len, segment, comp) ←
      segment_feedbacks (S FEEDBACK_RING_SIZE) comp segment max_len 0;
    let max_data_len :=
      Z.min (to_size_t (max_len - len - segment_type_len)) (rru_len comp) in
    if negb (max_data_len >? 0) then None
    else
      let segment :=
        <[0%nat := to_uint8 (Z.lor 0xfe (if max_data_len =? rru_len comp
                                         then 1 else 0))]> segment in
      let len := to_size_t (len + 1) in
      let segment :=
        memcpy segment (Z.to_nat len)
               (region (rru comp) (Z.to_nat (rru_off comp))
                       (Z.to_nat max_data_len)) in
      let len := to_size_t (len + max_data_len) in
      let comp :=
        set_rru comp (rru comp) (to_size_t (rru_off comp + max_data_len))
                (to_size_t (rru_len comp - max_data_len)) in
      if rru_len comp =? 0
      then Some ({| seg_status := ROHC_OK; seg_buffer := segment;
                    seg_len := Some len |},
                 set_rru comp (rru comp) 0 (rru_len comp))
      else Some ({| seg_status := ROHC_NEED_SEGMENT; seg_buffer := segment;
                    seg_len := Some len |}, comp).

(** The way the documentation of [rohc_comp_get_segment] tells to use it:
    the function is called, with the same buffer, until it returns
    [ROHC_OK]; the segments are the first [*len] bytes of the buffer after
    each call.  [None] when a call fails or the fuel runs out. *)
Fixpoint get_segments (fuel : nat) (comp : rohc_comp) (segment : list Z)
    (max_len : Z) : option (list (list Z) * rohc_comp) :=
  match fuel with
  | O => None
  | S fuel' =>
      '(res, comp') ← rohc_comp_get_segment comp segment max_len;
      len ← seg_len res;
      let seg := take (Z.to_nat len) (seg_buffer res) in
      match seg_status res with
      | ROHC_OK => Some ([seg], comp')
      | ROHC_NEED_SEGMENT =>
          '(segs, comp'') ←
            get_segments fuel' comp' (seg_buffer res) max_len;
          Some (seg :: segs, comp'')
      | ROHC_ERROR => None
      end
  end.

End GetSegment.

(** The type octet of a segment: [0xff] for the final one. *)
Definition segment_type (final : bool) : Z := if final then 0xff else 0xfe.

End Segments.

(** *** The ring of feedbacks seen as a queue *)

Module FeedbackQueue.

Import RohcComp RingInv.

Section FeedbackApi.

Variable FEEDBACK_RING_SIZE : nat.

(** The loop of [rohc_feedback_flush]:
    [do { feedback_size = rohc_feedback_get(comp, obuf, osize - size);
     if(feedback_size > 0) { obuf += feedback_size; size += feedback_size; } }
     while(feedback_size > 0);]
    [osize] is an [int] and [size] an [unsigned int].  [None] when the
    fuel runs out. *)
Fixpoint flush_loop (fuel : nat) (comp : rohc_comp) (osize size : Z)
    (written : list Z) : option (Z * list Z * rohc_comp) :=
  match fuel with
  | O => None
  | S fuel' =>
      '(feedback_size, bytes, comp') ←
        rohc_feedback_get FEEDBACK_RING_SIZE comp (to_uint32 (osize - size));
      if feedback_size >? 0
      then flush_loop fuel' comp' osize (to_uint32 (size + feedback_size))
                      (written ++ bytes)
      else Some (size, written, comp')
  end.

(** [rohc_feedback_flush]: the returned [int], the bytes written at the
    start of [obuf] and the compressor after the call. *)
Definition rohc_feedback_flush (comp : rohc_comp) (osize : Z)
  : option (Z * list Z * rohc_comp) :=
  if osize <=? 0 then Some (0, [], comp)
  else
    '(size, written, comp') ←
      flush_loop (S FEEDBACK_RING_SIZE) comp osize 0 [];
    Some (to_int size, written, comp').

(** The loop of [rohc_feedback_destroy], from index [i] on; [None] is the
    failed [assert] on the data of a location with a positive length. *)
Fixpoint feedback_destroy_loop (n : nat) (i : nat) (fbs : list rohc_feedback)
  : option (list rohc_feedback) :=
  match n with
  | O => Some fbs
  | S n' =>
      s ← fbs !! i;
      if fb_length s >? 0 then
        match fb_data s with
        | None => None
        | Some _ =>
            feedback_destroy_loop n' (S i) (<[i := empty_feedback]> fbs)
        end
      else feedback_destroy_loop n' (S i) fbs
  end.

(** [rohc_feedback_destroy] *)
Definition rohc_feedback_destroy (comp : rohc_comp) : option rohc_comp :=
  fbs ← feedback_destroy_loop FEEDBACK_RING_SIZE 0 (feedbacks comp);
  Some (set_ring comp fbs 0 0 0).

End FeedbackApi.

(** The locations of the ring in the order in which the ring is walked,
    from [feedbacks_first] on. *)
Definition ring_order (comp : rohc_comp) : list rohc_feedback :=
  drop (feedbacks_first comp) (feedbacks comp) ++
  take (feedbacks_first comp) (feedbacks comp).

(** The test of [rohc_feedback_avail_bytes]: the location holds a feedback
    that was not handed out yet. *)
Definition waiting (s : rohc_feedback) : bool :=
  (fb_length s >? 0) && negb (is_locked s).

(** The feedbacks that wait to be sent and the ones handed out but not
    removed yet, oldest first. *)
Definition queued_feedbacks (comp : rohc_comp) : list rohc_feedback :=
  List.filter waiting (ring_order comp).

Definition locked_feedbacks (comp : rohc_comp) : list rohc_feedback :=
  List.filter is_locked (ring_order comp).

(** The octets on which [rohc_feedback_get] emits a feedback. *)
Definition feedback_bytes (s : rohc_feedback) : list Z :=
  feedback_header s ++ take (Z.to_nat (fb_length s)) (default [] (fb_data s)).

(** The number of feedbacks at the head of [queue] that fit, one after
    the other, in [room] octets. *)
Fixpoint fitting (room : Z) (queue : list rohc_feedback) : nat :=
  match queue with
  | [] => 0
  | s :: queue' =>
      if emitted_size s <=? room
      then S (fitting (room - emitted_size s) queue')
      else 0
  end.

(** The location that [rohc_comp_piggyback_feedback] fills for the
    feedback [feedback]. *)
Definition feedback_slot (feedback : list Z) : rohc_feedback :=
  {| fb_data := Some feedback;
     fb_length := Z.of_nat (length feedback);
     is_locked := false |}.

(** Feedbacks piggybacked one after the other, with [malloc] succeeding,
    up to the first call that fails. *)
Fixpoint piggyback_all (size : nat) (comp : rohc_comp)
    (feedbacks : list (list Z)) : option (bool * rohc_comp) :=
  match feedbacks with
  | [] => Some (true, comp)
  | feedback :: feedbacks' =>
      '(ok, comp') ← rohc_comp_piggyback_feedback size true comp feedback;
      if (ok : bool) then piggyback_all size comp' feedbacks'
      else Some (false, comp')
  end.

(** The sum of the sizes on which the feedbacks of [queue] are emitted. *)
Definition emitted_sizes (queue : list rohc_feedback) : Z :=
  foldr (fun s acc => emitted_size s + acc) 0 queue.

(** The functions that work on the ring change nothing else. *)
Definition same_but_ring (comp comp' : rohc_comp) : Prop :=
  comp' = set_ring comp (feedbacks comp') (feedbacks_first comp')
                   (feedbacks_first_unlocked comp') (feedbacks_next comp').


End FeedbackQueue.

(** *** The compression profiles *)

Module Profiles.

Import RohcComp.

Definition set_enabled_profiles (c : rohc_comp) (v : list bool) : rohc_comp :=
  {| medium_cid_type := medium_cid_type c; medium_max_cid := medium_max_cid c;
     enabled_profiles := v; rtp_ports := rtp_ports c;
     num_packets := num_packets c; wlsb_window_width := wlsb_window_width c;
     periodic_refreshes_ir_timeout := periodic_refreshes_ir_timeout c;
     periodic_refreshes_fo_timeout := periodic_refreshes_fo_timeout c;
     mrru := mrru c; rru := rru c; rru_off := rru_off c; rru_len := rru_len c;
     feedbacks := feedbacks c; feedbacks_first := feedbacks_first c;
     feedbacks_first_unlocked := feedbacks_first_unlocked c;
     feedbacks_next := feedbacks_next c |}.

Section ProfileTable.

(** The table [c_profiles] points to profiles that other files define:
    [c_profile_id i] stands for [c_profiles[i]->id]. *)
Variable c_profile_id : nat -> Z.

(** The search loop of [rohc_comp_enable_profile] and
    [rohc_comp_disable_profile]:
    [for(i = 0; i < C_NUM_PROFILES; i++) if(c_profiles[i]->id == profile) break;]
    from index [i], with [n = C_NUM_PROFILES - i]; the result is the value
    of [i] when the loop ends. *)
Fixpoint profile_search (n i : nat) (profile : Z) : nat :=
  match n with
  | O => i
  | S n' =>
      if c_profile_id i =? profile then i
      else profile_search n' (S i) profile
  end.

(** [rohc_comp_enable_profile]; [profile] is an [unsigned int]. *)
Definition rohc_comp_enable_profile (comp : rohc_comp) (profile : Z)
  : bool * rohc_comp :=
  let i := profile_search C_NUM_PROFILES 0 profile in
  if (i =? C_NUM_PROFILES)%nat then (false, comp)
  else
    (true,
     set_enabled_profiles comp (<[i := true]> (enabled_profiles comp))).

(** [rohc_comp_disable_profile] *)
Definition rohc_comp_disable_profile (comp : rohc_comp) (profile : Z)
  : bool * rohc_comp :=
  let i := profile_search C_NUM_PROFILES 0 profile in
  if (i =? C_NUM_PROFILES)%nat then (false, comp)
  else
    (true,
     set_enabled_profiles comp (<[i := false]> (enabled_profiles comp))).

(** The loop of [rohc_comp_enable_profiles] over its variable arguments,
    which are [int]s: it ends at the first negative one.  [err_nr] is a
    [size_t].  [None]: the arguments hold no negative value, the loop
    reads past them. *)
Fixpoint enable_profiles_loop (comp : rohc_comp) (profiles : list Z)
    (err_nr : Z) : option (Z * rohc_comp) :=
  match profiles with
  | [] => None
  | profile_id :: profiles' =>
      if profile_id >=? 0 then
        let (is_ok, comp') := rohc_comp_enable_profile comp profile_id in
        enable_profiles_loop comp' profiles'
          (if is_ok then err_nr else to_size_t (err_nr + 1))
      else Some (err_nr, comp)
  end.

Definition rohc_comp_enable_profiles (comp : rohc_comp) (profiles : list Z)
  : option (bool * rohc_comp) :=
  match enable_profiles_loop comp profiles 0 with
  | Some (err_nr, comp') => Some (err_nr =? 0, comp')
  | None => None
  end.

(** The loop of [rohc_comp_disable_profiles]. *)
Fixpoint disable_profiles_loop (comp : rohc_comp) (profiles : list Z)
    (err_nr : Z) : option (Z * rohc_comp) :=
  match profiles with
  | [] => None
  | profile_id :: profiles' =>
      if profile_id >=? 0 then
        let (is_ok, comp') := rohc_comp_disable_profile comp profile_id in
        disable_profiles_loop comp' profiles'
          (if is_ok then err_nr else to_size_t (err_nr + 1))
      else Some (err_nr, comp)
  end.

Definition rohc_comp_disable_profiles (comp : rohc_comp) (profiles : list Z)
  : option (bool * rohc_comp) :=
  match disable_profiles_loop comp profiles 0 with
  | Some (err_nr, comp') => Some (err_nr =? 0, comp')
  | None => None
  end.

(** The loop of [c_get_profile_from_id], from index [i] with
    [n = C_NUM_PROFILES - i].  The result is the index in [c_profiles] of
    the profile returned, [None] is [NULL]. *)
Fixpoint get_profile_loop (comp : rohc_comp) (n i : nat) (profile_id : Z)
  : option nat :=
  match n with
  | O => None
  | S n' =>
      if (c_profile_id i =? profile_id) &&
         default false (enabled_profiles comp !! i)
      then Some i
      else get_profile_loop comp n' (S i) profile_id
  end.

Definition c_get_profile_from_id (comp : rohc_comp) (profile_id : Z)
  : option nat :=
  get_profile_loop comp C_NUM_PROFILES 0 profile_id.

(** The IDs that [rohc_comp_enable_profile] and
    [rohc_comp_disable_profile] reject. *)
Definition unknown_profile (profile : Z) : bool :=
  (profile_search C_NUM_PROFILES 0 profile =? C_NUM_PROFILES)%nat.

(** A profile ID of the table. *)
Definition known_profile (profile : Z) : Prop :=
  exists i, (i < C_NUM_PROFILES)%nat /\ c_profile_id i = profile.

(** No two profiles of the table have the same ID. *)
Definition distinct_profiles : Prop :=
  forall i j, (i < C_NUM_PROFILES)%nat -> (j < C_NUM_PROFILES)%nat ->
    c_profile_id i = c_profile_id j -> i = j.

End ProfileTable.

End Profiles.

(** *** Creation of an IP-only context *)

Module CIpCreate.

Import CIp.

Definition set_sn (c : rohc_comp_rfc3095_ctxt) (v : Z)
  : rohc_comp_rfc3095_ctxt :=
  {| sn := v; ip_hdr_nr := ip_hdr_nr c;
     outer_ip_flags := outer_ip_flags c; inner_ip_flags := inner_ip_flags c;
     tmp := tmp c |}.

Definition set_specific (c : rohc_comp_ctxt) (v : rohc_comp_rfc3095_ctxt)
  : rohc_comp_ctxt :=
  {| oa_repetitions_nr := oa_repetitions_nr c; specific := v |}.

Section Create.

(** [rohc_comp_rfc3095_create] belongs to the generic RFC 3095 code, which
    is not part of these sources: it is a parameter, [None] when it
    fails. *)
Variable rohc_comp_rfc3095_create : rohc_comp_ctxt -> option rohc_comp_ctxt.

(** [rohc_ip_ctxt_create]; [random] is the [int] that the callback
    [comp->random_cb] returns, [None] is the result [false]. *)
Definition rohc_ip_ctxt_create (context : rohc_comp_ctxt) (random : Z)
  : option rohc_comp_ctxt :=
  match rohc_comp_rfc3095_create context with
  | None => None
  | Some context' =>
      Some (set_specific context'
              (set_sn (specific context') (Z.land random 0xffff)))
  end.

End Create.

End CIpCreate.

(** *** Calls made over the life of a compressor *)

Module Lifetime.

Import RohcComp RtpPorts.

(** The calls that change the list of RTP ports. *)
Inductive port_call : Type :=
  | AddRtpPort (port : Z)
  | RemoveRtpPort (port : Z)
  | ResetRtpPorts.

Definition port_call_run (comp : rohc_comp) (c : port_call) : rohc_comp :=
  match c with
  | AddRtpPort port => (rohc_comp_add_rtp_port comp port).2
  | RemoveRtpPort port => (rohc_comp_remove_rtp_port comp port).2
  | ResetRtpPorts => (rohc_comp_reset_rtp_ports comp).2
  end.

Section Alloc.

Variable FEEDBACK_RING_SIZE : nat.
Variable ROHC_MAX_MRRU : nat.

(** [rohc_alloc_compressor], which exists when the deprecated API is
    compiled in: its [int max_cid] becomes the [size_t] of
    [rohc_comp_new]. *)
Definition rohc_alloc_compressor
    (malloc_ok : bool) (crc_init_ok : Z -> bool) (calloc_ok : bool)
    (max_cid jam_use adapt_size encap_size : Z) : option rohc_comp :=
  if negb (jam_use =? 0) || negb (adapt_size =? 0) || negb (encap_size =? 0)
  then None
  else
    rohc_comp_new FEEDBACK_RING_SIZE ROHC_MAX_MRRU true malloc_ok
      crc_init_ok calloc_ok ROHC_SMALL_CID (to_size_t max_cid).

End Alloc.

(** The largest [max_cid] that [rohc_comp_new] accepts. *)
Definition cid_max (cid_type : rohc_cid_type_t) : Z :=
  match cid_type with
  | ROHC_SMALL_CID => ROHC_SMALL_CID_MAX
  | ROHC_LARGE_CID => ROHC_LARGE_CID_MAX
  end.

End Lifetime.

(** *** More inputs for the examples *)

Module MoreSamples.

Import CIp RohcComp RingInv Samples.

(** The IDs of the seven profiles, in the order of the table: RTP, UDP,
    UDP-Lite, ESP, TCP, IP-only and Uncompressed. *)
Definition sample_profile_id (i : nat) : Z := nth i [1; 2; 8; 3; 6; 4; 0] 0.

(** An RRU buffer of 64 bytes whose first 5 bytes wait to be sent in
    segments. *)
Definition rru_5 : list Z := [10; 20; 30; 40; 50] ++ replicate 59 0.

(** The new compressor with these 5 bytes staged. *)
Definition comp_staged : rohc_comp := set_rru comp_new rru_5 0 5.


(** A generic context creation that always succeeds and leaves the
    context as it is. *)
Definition rfc3095_create_stub (context : rohc_comp_ctxt)
  : option rohc_comp_ctxt := Some context.

End MoreSamples.

(** * Properties *)

(** ** Machine integers *)

Module CIntFacts.

Lemma to_size_t_small (x : Z) : 0 <= x <= SIZE_MAX -> to_size_t x = x.
Proof. unfold to_size_t, SIZE_MAX. intros H. apply Z.mod_small. lia. Qed.

Lemma to_uint32_small (x : Z) : 0 <= x < 2 ^ 32 -> to_uint32 x = x.
Proof. unfold to_uint32. intros H. apply Z.mod_small. lia. Qed.

Lemma to_uint32_range (x : Z) : 0 <= to_uint32 x < 2 ^ 32.
Proof. unfold to_uint32. apply Z.mod_pos_bound. lia. Qed.

Lemma to_size_t_range (x : Z) : 0 <= to_size_t x <= SIZE_MAX.
Proof.
  unfold to_size_t, SIZE_MAX.
  pose proof (Z.mod_pos_bound x (2 ^ 64)). lia.
Qed.

Lemma to_int_small (x : Z) : 0 <= x <= INT_MAX -> to_int x = x.
Proof.
  unfold to_int, INT_MAX. intros H.
  rewrite Z.mod_small by lia.
  destruct (Z.ltb_spec x (2 ^ 31)); lia.
Qed.

Lemma to_int_neg (x : Z) : - 2 ^ 31 <= x < 0 -> to_int x = x.
Proof.
  unfold to_int. intros H.
  replace (x mod 2 ^ 32) with (x + 2 ^ 32).
  - destruct (Z.ltb_spec (x + 2 ^ 32) (2 ^ 31)); lia.
  - apply Z.mod_unique with (q := -1); lia.
Qed.

Lemma to_int_upper (x : Z) : to_int x <= INT_MAX.
Proof.
  unfold to_int, INT_MAX.
  pose proof (Z.mod_pos_bound x (2 ^ 32)).
  destruct (Z.ltb_spec (x mod 2 ^ 32) (2 ^ 31)); lia.
Qed.

Lemma to_int_le (x : Z) : 0 <= x -> to_int x <= x.
Proof.
  intros Hx. unfold to_int.
  pose proof (Z.mod_le x (2 ^ 32) Hx ltac:(lia)).
  destruct (x mod 2 ^ 32 <? 2 ^ 31); lia.
Qed.

Lemma to_size_t_le (x : Z) : 0 <= x -> to_size_t x <= x.
Proof. intros Hx. unfold to_size_t. apply Z.mod_le; lia. Qed.

End CIntFacts.

(** ** Memory *)

Module CMemFacts.

Lemma testbit_0xff (n : Z) : 0 <= n -> Z.testbit 0xff n = (n <? 8).
Proof.
  intros Hn. change 0xff with (Z.ones 8).
  apply Z.testbit_ones_nonneg; lia.
Qed.

Lemma testbit_0xff00 (n : Z) :
  0 <= n -> Z.testbit 0xff00 n = (8 <=? n) && (n <? 16).
Proof.
  intros Hn. change 0xff00 with (Z.shiftl (Z.ones 8) 8).
  rewrite Z.shiftl_spec by lia.
  destruct (Z.leb_spec 8 n).
  - rewrite Z.testbit_ones_nonneg by lia. simpl.
    destruct (Z.ltb_spec (n - 8) 8), (Z.ltb_spec n 16); lia.
  - rewrite Z.testbit_neg_r by lia. reflexivity.
Qed.

Ltac case_testbits :=
  repeat match goal with
         | |- context [Z.testbit ?a ?b] => destruct (Z.testbit a b)
         end; reflexivity.

(** On a little-endian host the low byte of the swapped value is the high
    byte of the original one, and conversely. *)
Lemma hton16_low_byte (x : Z) :
  Z.land (rohc_hton16 false x) 0xff = Z.land (Z.shiftr x 8) 0xff.
Proof.
  unfold rohc_hton16. apply Z.bits_inj'. intros n Hn.
  rewrite !Z.land_spec, Z.lor_spec, !Z.land_spec,
    testbit_0xff, testbit_0xff00 by lia.
  destruct (Z.ltb_spec n 8); destruct (Z.leb_spec 8 n); try lia; simpl;
    case_testbits.
Qed.

Lemma hton16_high_byte (x : Z) :
  Z.land (Z.shiftr (rohc_hton16 false x) 8) 0xff = Z.land x 0xff.
Proof.
  unfold rohc_hton16. apply Z.bits_inj'. intros n Hn.
  rewrite !Z.land_spec, Z.shiftr_spec, Z.lor_spec, !Z.land_spec,
    testbit_0xff, testbit_0xff, testbit_0xff00,
    Z.shiftl_spec, Z.shiftr_spec by lia.
  replace (n + 8 - 8) with n by lia.
  destruct (Z.ltb_spec n 8); destruct (Z.leb_spec 8 (n + 8));
    destruct (Z.ltb_spec (n + 8) 8); destruct (Z.ltb_spec (n + 8) 16);
    try lia; simpl; case_testbits.
Qed.

(** Whatever the byte order of the host, the object that holds
    [rohc_hton16 x] lies in memory most significant byte first. *)
Lemma uint16_bytes_hton16 (be : bool) (x : Z) :
  uint16_bytes be (rohc_hton16 be x) =
  [Z.land (Z.shiftr x 8) 0xff; Z.land x 0xff].
Proof.
  destruct be.
  - reflexivity.
  - unfold uint16_bytes. rewrite hton16_low_byte, hton16_high_byte.
    reflexivity.
Qed.

Lemma land_0xff (x : Z) : Z.land x 0xff = x mod 2 ^ 8.
Proof. change 0xff with (Z.ones 8). apply Z.land_ones. lia. Qed.

Lemma land_0xffff (x : Z) : Z.land x 0xffff = x mod 2 ^ 16.
Proof. change 0xffff with (Z.ones 16). apply Z.land_ones. lia. Qed.

Lemma length_memcpy (src dest : list Z) (off : nat) :
  length (memcpy dest off src) = length dest.
Proof.
  revert dest off. induction src as [|b src IH]; intros dest off; simpl.
  - reflexivity.
  - rewrite IH. apply length_insert.
Qed.

Lemma lookup_memcpy_lt (src dest : list Z) (off i : nat) :
  (i < off)%nat -> memcpy dest off src !! i = dest !! i.
Proof.
  revert dest off. induction src as [|b src IH]; intros dest off Hi; simpl.
  - reflexivity.
  - rewrite IH by lia. apply list_lookup_insert_ne. lia.
Qed.


Lemma lookup_memcpy_in (src dest : list Z) (off k : nat) :
  (off + length src <= length dest)%nat -> (k < length src)%nat ->
  memcpy dest off src !! (off + k)%nat = src !! k.
Proof.
  revert dest off k.
  induction src as [|b src IH]; intros dest off k Hlen Hk; simpl in *.
  - lia.
  - destruct k as [|k]; simpl.
    + rewrite lookup_memcpy_lt by lia.
      replace (off + 0)%nat with off by lia.
      apply list_lookup_insert_eq. lia.
    + replace (off + S k)%nat with (S off + k)%nat by lia.
      apply IH; [rewrite length_insert|]; lia.
Qed.

Lemma memcpy_app (a b dest : list Z) (off : nat) :
  memcpy dest off (a ++ b) = memcpy (memcpy dest off a) (off + length a) b.
Proof.
  revert dest off. induction a as [|x a IH]; intros dest off; simpl.
  - rewrite Nat.add_0_r. reflexivity.
  - rewrite IH. f_equal. lia.
Qed.

Lemma region_memcpy (src dest : list Z) (off : nat) :
  (off + length src <= length dest)%nat ->
  region (memcpy dest off src) off (length src) = src.
Proof.
  intros Hlen. unfold region. apply list_eq. intros i.
  destruct (Nat.lt_ge_cases i (length src)) as [Hi | Hi].
  - rewrite lookup_take_lt by lia. rewrite lookup_drop.
    apply lookup_memcpy_in; assumption.
  - rewrite lookup_take_ge by lia. symmetry. apply lookup_ge_None_2. lia.
Qed.

Lemma length_region (buf : list Z) (off len : nat) :
  (off + len <= length buf)%nat -> length (region buf off len) = len.
Proof.
  intros H. unfold region. rewrite length_take, length_drop. lia.
Qed.

Lemma length_uint32_bytes (be : bool) (x : Z) :
  length (uint32_bytes be x) = 4%nat.
Proof. destruct be; reflexivity. Qed.

End CMemFacts.

(** ** The IP-only profile *)

Module CIpFacts.

Import CIp CIntFacts CMemFacts Samples.

Lemma gtb_ltb (a b : Z) : (a >? b) = (b <? a).
Proof. apply Z.gtb_ltb. Qed.

(** C1: in FO state [c_ip_decide_FO_packet] follows the decision list of
    the specification: IR-DYN if an IPv4 header taken into account has its
    SID counter below [oa_repetitions_nr]; otherwise UOR-2 if a static
    field changed and the SN fits in at most 13 bits; otherwise IR-DYN if
    more than 2 (one IP header) or more than 4 (two IP headers) dynamic
    fields changed; otherwise UOR-2 if the SN fits in at most 13 bits;
    otherwise IR-DYN.  It returns IR-DYN or UOR-2 only. *)
Theorem c_ip_decide_FO_packet_correct (context : rohc_comp_ctxt) :
  ip_hdr_nr (specific context) = 1 \/ ip_hdr_nr (specific context) = 2 ->
  c_ip_decide_FO_packet context = FO_packet_spec context /\
  (c_ip_decide_FO_packet context = ROHC_PACKET_IR_DYN \/
   c_ip_decide_FO_packet context = ROHC_PACKET_UOR_2).
Proof.
  intros Hnr.
  unfold c_ip_decide_FO_packet, FO_packet_spec, any_ipv4_sid_below,
    ipv4_sid_below, sn_fits_13bits.
  rewrite !gtb_ltb.
  destruct context as [oa [s nr outer inner t]]; simpl in *.
  destruct Hnr as [-> | ->]; simpl;
    destruct (ip_version_eqb (version outer) IPV4),
             (sid_count (v4 outer) <? oa),
             (ip_version_eqb (version inner) IPV4),
             (sid_count (v4 inner) <? oa),
             (truthy (send_static t)),
             (sn_5bits_possible t), (sn_13bits_possible t),
             (2 <? send_dynamic t), (4 <? send_dynamic t);
    simpl; auto.
Qed.

Lemma c_ip_decide_FO_packet_witness :
  (ip_hdr_nr (specific fo_context) = 1 \/
   ip_hdr_nr (specific fo_context) = 2) /\
  c_ip_decide_FO_packet fo_context = ROHC_PACKET_UOR_2.
Proof.
  assert (Hnr : ip_hdr_nr (specific fo_context) = 1 \/
                ip_hdr_nr (specific fo_context) = 2) by (left; reflexivity).
  split; [exact Hnr|].
  destruct (c_ip_decide_FO_packet_correct fo_context Hnr) as [H _].
  exact H.
Defined.

(** C2: in SO state, that is when the assertions of the function hold,
    [c_ip_decide_SO_packet] follows the decision list of the
    specification: UO-0 if the SN fits in 4 bits, no outer IP-ID bits are
    required and (single IP header or no inner IP-ID bits required);
    otherwise UO-1 if the SN fits in 5 bits, the outer header is IPv4 with
    at most 6 IP-ID bits and (single IP header or no inner IP-ID bits
    required); otherwise UOR-2 if the SN fits in at most 13 bits; otherwise
    IR-DYN.  No other packet type is returned. *)
Theorem c_ip_decide_SO_packet_correct
    (no_outer_ip_id_bits_required is_outer_ip_id_6bits_possible
     no_inner_ip_id_bits_required : rohc_comp_rfc3095_ctxt -> bool)
    (context : rohc_comp_ctxt) :
  SO_asserts_hold context = true ->
  let packet :=
    SO_packet_spec no_outer_ip_id_bits_required is_outer_ip_id_6bits_possible
                   no_inner_ip_id_bits_required context in
  c_ip_decide_SO_packet no_outer_ip_id_bits_required
                        is_outer_ip_id_6bits_possible
                        no_inner_ip_id_bits_required context = Some packet /\
  (packet = ROHC_PACKET_UO_0 \/ packet = ROHC_PACKET_UO_1 \/
   packet = ROHC_PACKET_UOR_2 \/ packet = ROHC_PACKET_IR_DYN).
Proof.
  unfold SO_asserts_hold, c_ip_decide_SO_packet, SO_packet_spec, sn_fits_13bits.
  destruct context as [oa c]; simpl.
  intros Hassert.
  apply andb_true_iff in Hassert as [Houter Hinner].
  rewrite Houter. simpl.
  destruct (ip_hdr_nr c =? 1) eqn:Hnr; simpl in *.
  - destruct (sn_4bits_possible (tmp c)), (sn_5bits_possible (tmp c)),
      (sn_13bits_possible (tmp c)), (no_outer_ip_id_bits_required c),
      (is_outer_ip_id_6bits_possible c); simpl; auto 6.
  - rewrite Hinner. simpl.
    destruct (sn_4bits_possible (tmp c)), (sn_5bits_possible (tmp c)),
      (sn_13bits_possible (tmp c)), (no_outer_ip_id_bits_required c),
      (is_outer_ip_id_6bits_possible c), (no_inner_ip_id_bits_required c);
      simpl; auto 6.
Qed.

Lemma c_ip_decide_SO_packet_witness :
  SO_asserts_hold fo_context = true /\
  c_ip_decide_SO_packet (fun _ => true) (fun _ => true) (fun _ => true)
                        fo_context = Some ROHC_PACKET_UO_0.
Proof.
  split; [reflexivity|].
  destruct (c_ip_decide_SO_packet_correct (fun _ => true) (fun _ => true)
              (fun _ => true) fo_context) as [H _].
  - reflexivity.
  - exact H.
Defined.

(** C10: for a context whose SN is a 16-bit value, [c_ip_get_next_sn]
    returns 0 when the SN is 0xffff and the SN plus one otherwise, that is
    (sn + 1) mod 2^16, which fits in 16 bits. *)
Theorem c_ip_get_next_sn_correct (context : rohc_comp_ctxt) :
  0 <= sn (specific context) <= 0xffff ->
  c_ip_get_next_sn context = Some ((sn (specific context) + 1) mod 2 ^ 16) /\
  (sn (specific context) = 0xffff -> c_ip_get_next_sn context = Some 0) /\
  (sn (specific context) <> 0xffff ->
   c_ip_get_next_sn context = Some (sn (specific context) + 1)) /\
  0 <= (sn (specific context) + 1) mod 2 ^ 16 <= 0xffff.
Proof.
  intros Hsn. unfold c_ip_get_next_sn.
  set (s := sn (specific context)) in *.
  assert (Hmod : 0 <= (s + 1) mod 2 ^ 16 <= 0xffff).
  { pose proof (Z.mod_pos_bound (s + 1) (2 ^ 16)). lia. }
  destruct (Z.eqb_spec s 0xffff) as [Heq | Hne].
  - rewrite Heq in *. simpl.
    repeat split; intros; try reflexivity; try lia; try congruence.
  - assert (Hsmall : (s + 1) mod 2 ^ 16 = s + 1) by (apply Z.mod_small; lia).
    rewrite to_uint32_small by lia.
    destruct (Z.leb_spec (s + 1) 0xffff); [|lia].
    rewrite Hsmall.
    repeat split; intros; try reflexivity; try lia; try congruence.
Qed.

Lemma c_ip_get_next_sn_witness :
  0 <= sn (specific fo_context) <= 0xffff /\
  c_ip_get_next_sn fo_context = Some 8.
Proof.
  assert (Hsn : 0 <= sn (specific fo_context) <= 0xffff) by (simpl; lia).
  split; [exact Hsn|].
  destruct (c_ip_get_next_sn_correct fo_context Hsn) as [H _].
  exact H.
Defined.

(** C7: [c_ip_code_ir_remainder] writes the 16-bit SN of the context most
    significant byte first at offsets [counter] and [counter + 1] of the
    buffer, leaves the other bytes alone and returns [counter + 2] when
    [counter + 2] does not exceed [dest_max_len]; otherwise it returns -1
    and leaves the buffer as it was. *)
Theorem c_ip_code_ir_remainder_correct (big_endian_host : bool)
    (context : rohc_comp_ctxt) (dest : list Z) (dest_max_len counter : Z) :
  dest_max_len <= Z.of_nat (length dest) ->
  dest_max_len <= INT_MAX ->
  0 <= counter <= SIZE_MAX - 2 ->
  let sn16 := sn (specific context) mod 2 ^ 16 in
  let r := c_ip_code_ir_remainder big_endian_host context dest
                                  dest_max_len counter in
  (counter + 2 <= dest_max_len ->
   r.1 = counter + 2 /\
   r.2 !! Z.to_nat counter = Some (sn16 / 2 ^ 8) /\
   r.2 !! S (Z.to_nat counter) = Some (sn16 mod 2 ^ 8) /\
   length r.2 = length dest /\
   forall i : nat, i <> Z.to_nat counter -> i <> S (Z.to_nat counter) ->
                   r.2 !! i = dest !! i) /\
  (dest_max_len < counter + 2 -> r = (-1, dest)).
Proof.
  intros Hlen Hint Hctr sn16 r. subst r.
  unfold c_ip_code_ir_remainder.
  rewrite (to_size_t_small (counter + 2)) by (unfold SIZE_MAX in *; lia).
  rewrite gtb_ltb.
  destruct (Z.ltb_spec dest_max_len (counter + 2)) as [Hbig | Hfit].
  - split; [intros; lia | reflexivity].
  - split; [intros _ | intros; lia].
    rewrite land_0xffff. fold sn16.
    assert (Hsn16 : 0 <= sn16 < 2 ^ 16) by (apply Z.mod_pos_bound; lia).
    replace (to_uint16 sn16) with sn16
      by (unfold to_uint16; symmetry; apply Z.mod_small; lia).
    rewrite uint16_bytes_hton16. cbn [fst snd memcpy].
    rewrite land_0xff, land_0xff, Z.shiftr_div_pow2 by lia.
    replace ((sn16 / 2 ^ 8) mod 2 ^ 8) with (sn16 / 2 ^ 8)
      by (symmetry; apply Z.mod_small;
          split; [apply Z.div_pos; lia | apply Z.div_lt_upper_bound; lia]).
    assert (Hn : (S (Z.to_nat counter) < length dest)%nat) by lia.
    split; [apply to_int_small; lia|].
    split.
    { rewrite list_lookup_insert_ne by lia.
      apply list_lookup_insert_eq. lia. }
    split.
    { apply list_lookup_insert_eq. rewrite length_insert. lia. }
    split.
    { rewrite !length_insert. reflexivity. }
    intros i Hi1 Hi2.
    rewrite !list_lookup_insert_ne by lia. reflexivity.
Qed.

Lemma c_ip_code_ir_remainder_witness :
  let r := c_ip_code_ir_remainder false fo_context [0; 0; 0; 0] 4 1 in
  r.1 = 3 /\ r.2 !! 1%nat = Some 0 /\ r.2 !! 2%nat = Some 7.
Proof.
  destruct (c_ip_code_ir_remainder_correct false fo_context [0; 0; 0; 0] 4 1)
    as [H _].
  - simpl. lia.
  - unfold INT_MAX. lia.
  - unfold SIZE_MAX. lia.
  - destruct H as (H1 & H2 & H3 & _); [lia|].
    split; [exact H1|]. split; [exact H2 | exact H3].
Defined.

End CIpFacts.

(** ** The list of RTP ports and the creation of a compressor *)

Module RtpPortsFacts.

Import RohcComp Samples.

(** C8: what [rohc_comp_add_rtp_port] does with port 5 on a list of 14
    ports and on a full list.  The call succeeds on both; on the list of
    14 ports the port 140, which sat at index 13, is no longer in the list
    and the last entry is still zero; on the full list the call succeeds
    although the list already held 15 ports, and port 140 is lost too. *)
Theorem rohc_comp_add_rtp_port_loses_port :
  rohc_comp_add_rtp_port comp_14_ports 5 =
    (true,
     set_rtp_ports comp_14_ports
       [5; 10; 20; 30; 40; 50; 60; 70; 80; 90; 100; 110; 120; 130; 0]) /\
  rohc_comp_add_rtp_port comp_15_ports 5 =
    (true,
     set_rtp_ports comp_15_ports
       [5; 10; 20; 30; 40; 50; 60; 70; 80; 90; 100; 110; 120; 130; 150]).
Proof. split; reflexivity. Qed.

Lemma rohc_comp_set_traces_cb_ports (comp comp' : rohc_comp) (b : bool) :
  rohc_comp_set_traces_cb comp = (b, comp') -> rtp_ports comp' = rtp_ports comp.
Proof.
  unfold rohc_comp_set_traces_cb.
  destruct (num_packets comp >? 0); intros [= _ <-]; reflexivity.
Qed.

Lemma rohc_comp_set_wlsb_window_width_ports
    (comp comp' : rohc_comp) (w : Z) (b : bool) :
  rohc_comp_set_wlsb_window_width comp w = (b, comp') ->
  rtp_ports comp' = rtp_ports comp.
Proof.
  unfold rohc_comp_set_wlsb_window_width.
  destruct (w <=? 0); [intros [= _ <-]; reflexivity|].
  destruct (negb (Z.land w (w - 1) =? 0)); [intros [= _ <-]; reflexivity|].
  destruct (num_packets comp >? 0); intros [= _ <-]; reflexivity.
Qed.

Lemma rohc_comp_set_periodic_refreshes_ports
    (comp comp' : rohc_comp) (ir fo : Z) (b : bool) :
  rohc_comp_set_periodic_refreshes comp ir fo = (b, comp') ->
  rtp_ports comp' = rtp_ports comp.
Proof.
  unfold rohc_comp_set_periodic_refreshes.
  destruct ((ir <=? 0) || (fo <=? 0) || (ir <=? fo));
    [intros [= _ <-]; reflexivity|].
  destruct (num_packets comp >? 0); intros [= _ <-]; reflexivity.
Qed.

Lemma add_default_ports_empty (comp : rohc_comp) :
  rtp_ports comp = replicate MAX_RTP_PORTS 0 ->
  add_default_ports comp default_rtp_ports =
    Some (set_rtp_ports comp default_ports_installed).
Proof.
  destruct comp; simpl. intros ->. reflexivity.
Qed.

Section NewFacts.

Variable FEEDBACK_RING_SIZE : nat.
Variable ROHC_MAX_MRRU : nat.

Local Abbreviation rohc_comp_new :=
    (rohc_comp_new FEEDBACK_RING_SIZE ROHC_MAX_MRRU).

  (** C9 (as amended): after [rohc_comp_new] returns a compressor, the list
      of RTP ports is empty when the sources are built without the
      deprecated API, and holds the five default ports 1234, 5002, 5020,
      33238 and 36780, in ascending order and followed by zeros, when they
      are built with it. *)
Theorem rohc_comp_new_rtp_ports
      (deprecated_api malloc_ok : bool) (crc_init_ok : Z -> bool)
      (calloc_ok : bool) (cid_type : rohc_cid_type_t) (max_cid : Z)
      (comp : rohc_comp) :
    rohc_comp_new deprecated_api malloc_ok crc_init_ok calloc_ok
                  cid_type max_cid = Some comp ->
    rtp_ports comp =
      if deprecated_api then default_ports_installed
      else replicate MAX_RTP_PORTS 0.
Proof.
    unfold RohcComp.rohc_comp_new.
    destruct (match cid_type with
              | ROHC_LARGE_CID => max_cid >? ROHC_LARGE_CID_MAX
              | ROHC_SMALL_CID => max_cid >? ROHC_SMALL_CID_MAX
              end); [discriminate|].
    destruct (negb malloc_ok); [discriminate|].
    set (c0 := new_comp_reset FEEDBACK_RING_SIZE ROHC_MAX_MRRU cid_type max_cid).
    assert (H0 : rtp_ports c0 = replicate MAX_RTP_PORTS 0) by reflexivity.
    destruct (rohc_comp_set_traces_cb c0) as [[] c1] eqn:E1; [|discriminate].
    apply rohc_comp_set_traces_cb_ports in E1.
    destruct (rohc_comp_set_wlsb_window_width c1 C_WINDOW_WIDTH)
      as [[] c2] eqn:E2; [|discriminate].
    apply rohc_comp_set_wlsb_window_width_ports in E2.
    destruct (rohc_comp_set_periodic_refreshes c2 CHANGE_TO_IR_COUNT
                CHANGE_TO_FO_COUNT) as [[] c3] eqn:E3; [|discriminate].
    apply rohc_comp_set_periodic_refreshes_ports in E3.
    assert (H3 : rtp_ports c3 = replicate MAX_RTP_PORTS 0) by congruence.
    destruct deprecated_api.
    - rewrite (add_default_ports_empty c3 H3).
      destruct (negb (forallb crc_init_ok crc_table_types)); [discriminate|].
      destruct (negb calloc_ok); [discriminate|].
      intros [= <-]. reflexivity.
    - destruct (negb (forallb crc_init_ok crc_table_types)); [discriminate|].
      destruct (negb calloc_ok); [discriminate|].
      intros [= <-]. exact H3.
Qed.

End NewFacts.

Lemma comp_deprecated_new :
  rohc_comp_new 4 16 true true (fun _ => true) true ROHC_SMALL_CID 15
    = Some comp_deprecated.
Proof. vm_compute. reflexivity. Qed.

(** C9, witness. *)
Lemma rohc_comp_new_rtp_ports_witness :
  rohc_comp_new 4 16 true true (fun _ => true) true ROHC_SMALL_CID 15
    = Some comp_deprecated /\
  rtp_ports comp_deprecated = default_ports_installed.
Proof.
  split; [exact comp_deprecated_new|].
  exact (rohc_comp_new_rtp_ports 4 16 true true (fun _ => true) true
           ROHC_SMALL_CID 15 comp_deprecated comp_deprecated_new).
Defined.

(** C9, counterexample: with the deprecated API compiled in, the list of
    RTP ports of a new compressor is not empty. *)
Lemma rohc_comp_new_rtp_ports_not_empty :
  ~ (forall comp,
       rohc_comp_new 4 16 true true (fun _ => true) true ROHC_SMALL_CID 15
         = Some comp ->
       Forall (fun port => port = 0) (rtp_ports comp)).
Proof.
  intros H.
  specialize (H comp_deprecated comp_deprecated_new).
  assert (Hports : rtp_ports comp_deprecated = default_ports_installed)
    by (vm_compute; reflexivity).
  rewrite Hports in H.
  apply Forall_inv in H. discriminate H.
Qed.

End RtpPortsFacts.

(** ** The ring of feedbacks *)

Module RingFacts.

Import RohcComp RingInv CIntFacts CMemFacts.

Section RingProofs.

Variable FEEDBACK_RING_SIZE : nat.
Hypothesis ring_size_pos : (0 < FEEDBACK_RING_SIZE)%nat.

Local Abbreviation SIZE := FEEDBACK_RING_SIZE.
Local Abbreviation ring_succ := (ring_succ FEEDBACK_RING_SIZE).
Local Abbreviation index_ok := (index_ok FEEDBACK_RING_SIZE).
Local Abbreviation ring_pos := (ring_pos FEEDBACK_RING_SIZE).
Local Abbreviation ring_layout := (ring_layout FEEDBACK_RING_SIZE).
Local Abbreviation ring_wf := (ring_wf FEEDBACK_RING_SIZE).
Local Abbreviation lock_first_unlocked :=
  (lock_first_unlocked FEEDBACK_RING_SIZE).
Local Abbreviation piggybacked := (piggybacked FEEDBACK_RING_SIZE).

Lemma ring_succ_alt (i : nat) :
  (i < SIZE)%nat -> ring_succ i = if (S i =? SIZE)%nat then 0%nat else S i.
Proof.
  intros Hi. unfold RohcComp.ring_succ.
  destruct (Nat.eqb_spec (S i) SIZE) as [Heq | Hne].
  - replace (i + 1)%nat with SIZE by lia. apply Nat.Div0.mod_same.
  - rewrite Nat.mod_small by lia. lia.
Qed.

Ltac ring_arith :=
  unfold RingInv.ring_pos in *;
  repeat match goal with
         | |- context [(?a <? ?b)%nat] => destruct (Nat.ltb_spec a b)
         | H : context [(?a <? ?b)%nat] |- _ => destruct (Nat.ltb_spec a b)
         | |- context [(?a =? ?b)%nat] => destruct (Nat.eqb_spec a b)
         | H : context [(?a =? ?b)%nat] |- _ => destruct (Nat.eqb_spec a b)
         end;
  try lia.

Lemma ring_pos_lt (first k : nat) :
  (first < SIZE)%nat -> (k <= SIZE)%nat -> (ring_pos first k < SIZE)%nat.
Proof. intros. ring_arith. Qed.

Lemma ring_pos_0 (first : nat) : (first < SIZE)%nat -> ring_pos first 0 = first.
Proof. intros. ring_arith. Qed.

Lemma ring_pos_full (first : nat) :
  (first < SIZE)%nat -> ring_pos first SIZE = first.
Proof. intros. ring_arith. Qed.

Lemma ring_succ_pos (first k : nat) :
  (first < SIZE)%nat -> (k < SIZE)%nat ->
  ring_succ (ring_pos first k) = ring_pos first (S k).
Proof.
  intros Hf Hk. rewrite ring_succ_alt by (apply ring_pos_lt; lia).
  ring_arith.
Qed.

Lemma ring_pos_inj (first k1 k2 : nat) :
  (first < SIZE)%nat -> (k1 < SIZE)%nat -> (k2 < SIZE)%nat ->
  ring_pos first k1 = ring_pos first k2 -> k1 = k2.
Proof. intros. ring_arith. Qed.

Lemma ring_pos_surj (first j : nat) :
  (first < SIZE)%nat -> (j < SIZE)%nat ->
  exists k, (k < SIZE)%nat /\ ring_pos first k = j.
Proof.
  intros Hf Hj.
  destruct (Nat.le_gt_cases first j).
  - exists (j - first)%nat. split; [lia|]. ring_arith.
  - exists (j + SIZE - first)%nat. split; [lia|]. ring_arith.
Qed.


Lemma list_eq_ring_pos {A : Type} (first : nat) (l1 l2 : list A) :
  (first < SIZE)%nat -> length l1 = SIZE -> length l2 = SIZE ->
  (forall k, (k < SIZE)%nat -> l1 !! ring_pos first k = l2 !! ring_pos first k) ->
  l1 = l2.
Proof.
  intros Hf H1 H2 Hk. apply list_eq. intros i.
  destruct (Nat.lt_ge_cases i SIZE) as [Hi | Hi].
  - destruct (ring_pos_surj first i Hf Hi) as (k & Hk' & <-). auto.
  - rewrite !lookup_ge_None_2 by lia. reflexivity.
Qed.

(** *** Well-formed rings *)

Lemma index_ok_true (i : nat) : (i < SIZE)%nat -> index_ok i = true.
Proof. intros. unfold RohcComp.index_ok. apply Nat.ltb_lt. assumption. Qed.

Lemma same_and_empty_eq (comp : rohc_comp) (a b : nat) (s : rohc_feedback) :
  feedbacks comp !! b = Some s ->
  same_and_empty comp a b = Some ((a =? b)%nat && (fb_length s =? 0)).
Proof.
  intros Hs. unfold same_and_empty. rewrite Hs. simpl.
  destruct (a =? b)%nat; reflexivity.
Qed.

Lemma same_and_used_eq (comp : rohc_comp) (a b : nat) (s : rohc_feedback) :
  feedbacks comp !! b = Some s ->
  same_and_used comp a b = Some ((a =? b)%nat && negb (fb_length s =? 0)).
Proof.
  intros Hs. unfold same_and_used. rewrite Hs. simpl.
  destruct (a =? b)%nat; reflexivity.
Qed.

Lemma same_and_locked_eq (comp : rohc_comp) (a b : nat) (s : rohc_feedback) :
  feedbacks comp !! b = Some s ->
  same_and_locked comp a b = Some ((a =? b)%nat && is_locked s).
Proof.
  intros Hs. unfold same_and_locked. rewrite Hs. simpl.
  destruct (a =? b)%nat; reflexivity.
Qed.

Lemma length_feedback_header (s : rohc_feedback) :
  Z.of_nat (length (feedback_header s)) =
  1 + (if fb_length s <? 8 then 0 else 1).
Proof. unfold feedback_header. destruct (fb_length s <? 8); reflexivity. Qed.

(** [rohc_feedback_get] once its reads of the ring are resolved. *)
Lemma rohc_feedback_get_unfold (comp : rohc_comp) (max : Z)
    (sn sf : rohc_feedback) :
  (feedbacks_first_unlocked comp < SIZE)%nat ->
  (feedbacks_next comp < SIZE)%nat ->
  feedbacks comp !! feedbacks_next comp = Some sn ->
  feedbacks comp !! feedbacks_first_unlocked comp = Some sf ->
  rohc_feedback_get SIZE comp max =
    if (feedbacks_first comp =? feedbacks_next comp)%nat && (fb_length sn =? 0)
    then Some (0, [], comp)
    else if (feedbacks_next comp =? feedbacks_first_unlocked comp)%nat &&
            (fb_length sf =? 0)
    then Some (0, [], comp)
    else if (feedbacks_next comp =? feedbacks_first_unlocked comp)%nat &&
            is_locked sf
    then Some (0, [], comp)
    else if required_length sf >? max then Some (-1, [], comp)
    else
      d ← fb_data sf;
      Some (to_int (required_length sf),
            feedback_header sf ++ take (Z.to_nat (fb_length sf)) d,
            lock_first_unlocked comp sf).
Proof.
  intros Hfu Hn Hsn Hsf. unfold rohc_feedback_get.
  rewrite !index_ok_true by assumption. simpl.
  rewrite (same_and_empty_eq comp _ _ sn Hsn). simpl.
  destruct ((feedbacks_first comp =? feedbacks_next comp)%nat &&
            (fb_length sn =? 0)); [reflexivity|].
  rewrite (same_and_empty_eq comp _ _ sf Hsf). simpl.
  destruct ((feedbacks_next comp =? feedbacks_first_unlocked comp)%nat &&
            (fb_length sf =? 0)); [reflexivity|].
  rewrite (same_and_locked_eq comp _ _ sf Hsf). simpl.
  destruct ((feedbacks_next comp =? feedbacks_first_unlocked comp)%nat &&
            is_locked sf); [reflexivity|].
  rewrite Hsf. simpl.
  fold (required_length sf).
  destruct (required_length sf >? max); [reflexivity|].
  fold (feedback_header sf).
  rewrite length_feedback_header.
  replace (1 + (if fb_length sf <? 8 then 0 else 1) + fb_length sf)
    with (fb_length sf + 1 + (if fb_length sf <? 8 then 0 else 1)) by lia.
  reflexivity.
Qed.


Lemma ring_layout_lookup (comp : rohc_comp) (nl nq i : nat) :
  ring_layout comp nl nq -> (i < SIZE)%nat ->
  exists s, feedbacks comp !! i = Some s.
Proof.
  intros H Hi. apply lookup_lt_is_Some. rewrite (rl_length _ _ _ _ H). exact Hi.
Qed.

Lemma ring_layout_slot (comp : rohc_comp) (nl nq k : nat) (s : rohc_feedback) :
  ring_layout comp nl nq -> (k < SIZE)%nat ->
  feedbacks comp !! ring_pos (feedbacks_first comp) k = Some s ->
  slot_class nl nq k s.
Proof.
  intros H Hk Hs. destruct (rl_slots _ _ _ _ H k Hk) as (s' & Hs' & Hc).
  congruence.
Qed.

Lemma ring_layout_first_unlocked_lt (comp : rohc_comp) (nl nq : nat) :
  ring_layout comp nl nq -> (feedbacks_first_unlocked comp < SIZE)%nat.
Proof.
  intros H. rewrite (rl_first_unlocked _ _ _ _ H).
  apply ring_pos_lt; [apply (rl_first _ _ _ _ H)|].
  pose proof (rl_count _ _ _ _ H). lia.
Qed.

Lemma ring_layout_next_lt (comp : rohc_comp) (nl nq : nat) :
  ring_layout comp nl nq -> (feedbacks_next comp < SIZE)%nat.
Proof.
  intros H. rewrite (rl_next _ _ _ _ H).
  apply ring_pos_lt; [apply (rl_first _ _ _ _ H)|].
  apply (rl_count _ _ _ _ H).
Qed.

(** The class of the location at [feedbacks_first_unlocked] and at
    [feedbacks_next], read at step [k] or, when [k] is the size of the
    ring, at step 0. *)
Lemma ring_layout_slot_at (comp : rohc_comp) (nl nq k : nat)
    (s : rohc_feedback) :
  ring_layout comp nl nq -> (k <= SIZE)%nat ->
  feedbacks comp !! ring_pos (feedbacks_first comp) k = Some s ->
  slot_class nl nq (if (k =? SIZE)%nat then 0%nat else k) s.
Proof.
  intros H Hk Hs. pose proof (rl_first _ _ _ _ H) as Hf.
  destruct (Nat.eqb_spec k SIZE) as [-> | Hne].
  - rewrite ring_pos_full in Hs by assumption.
    apply (ring_layout_slot comp nl nq 0 s H ring_size_pos).
    rewrite ring_pos_0 by assumption. exact Hs.
  - apply (ring_layout_slot comp nl nq k s H); [lia | exact Hs].
Qed.

Ltac class_cases :=
  unfold slot_class, locked_slot, queued_slot in *;
  repeat match goal with
         | H : context [(?a <? ?b)%nat] |- _ => destruct (Nat.ltb_spec a b)
         | H : context [(?a =? ?b)%nat] |- _ => destruct (Nat.eqb_spec a b)
         | |- context [(?a <? ?b)%nat] => destruct (Nat.ltb_spec a b)
         | |- context [(?a =? ?b)%nat] => destruct (Nat.eqb_spec a b)
         end;
  try lia.

Lemma lock_first_unlocked_layout (comp : rohc_comp) (nl nq : nat)
    (s : rohc_feedback) :
  ring_layout comp nl nq -> (0 < nq)%nat ->
  feedbacks comp !! feedbacks_first_unlocked comp = Some s ->
  ring_layout (lock_first_unlocked comp s) (S nl) (nq - 1).
Proof.
  intros H Hnq Hs.
  pose proof (rl_first _ _ _ _ H) as Hf.
  pose proof (rl_count _ _ _ _ H) as Hc.
  pose proof (rl_first_unlocked _ _ _ _ H) as Hfu.
  assert (Hq : queued_slot s).
  { rewrite Hfu in Hs.
    pose proof (ring_layout_slot comp nl nq nl s H ltac:(lia) Hs) as Hcl.
    class_cases. exact Hcl. }
  split; simpl.
  - rewrite length_insert. apply (rl_length _ _ _ _ H).
  - exact Hf.
  - lia.
  - rewrite Hfu. apply ring_succ_pos; lia.
  - rewrite (rl_next _ _ _ _ H). f_equal. lia.
  - intros k Hk.
    destruct (rl_slots _ _ _ _ H k Hk) as (s' & Hs' & Hcl).
    destruct (Nat.eq_dec k nl) as [-> | Hne].
    + exists (set_locked s true). split.
      * rewrite Hfu. apply list_lookup_insert_eq.
        rewrite (rl_length _ _ _ _ H). apply ring_pos_lt; lia.
      * destruct Hq as (Hq1 & Hq2 & Hq3).
        unfold slot_class. rewrite (proj2 (Nat.ltb_lt nl (S nl))) by lia.
        repeat split; assumption.
    + exists s'. split.
      * rewrite list_lookup_insert_ne; [exact Hs'|].
        rewrite Hfu. intros Heq. apply Hne. symmetry.
        apply (ring_pos_inj (feedbacks_first comp)); lia.
      * unfold slot_class in *.
        destruct (Nat.ltb_spec k nl), (Nat.ltb_spec k (S nl)); try lia;
          try exact Hcl.
        destruct (Nat.ltb_spec k (nl + nq)),
                 (Nat.ltb_spec k (S nl + (nq - 1))); try lia; exact Hcl.
Qed.

(** [rohc_feedback_get] on a well-formed ring: it returns 0 and changes
    nothing when no feedback is queued; otherwise it either finds the
    buffer too small and changes nothing, or emits the first queued
    feedback and locks it. *)
Lemma rohc_feedback_get_layout (comp : rohc_comp) (nl nq : nat) (max : Z) :
  ring_layout comp nl nq ->
  (nq = 0%nat -> rohc_feedback_get SIZE comp max = Some (0, [], comp)) /\
  ((0 < nq)%nat ->
   exists s d,
     feedbacks comp !! feedbacks_first_unlocked comp = Some s /\
     queued_slot s /\ fb_data s = Some d /\
     rohc_feedback_get SIZE comp max =
       (if required_length s >? max then Some (-1, [], comp)
        else Some (to_int (required_length s),
                   feedback_header s ++ take (Z.to_nat (fb_length s)) d,
                   lock_first_unlocked comp s)) /\
     ring_layout (lock_first_unlocked comp s) (S nl) (nq - 1)).
Proof.
  intros H.
  pose proof (rl_first _ _ _ _ H) as Hf.
  pose proof (rl_count _ _ _ _ H) as Hc.
  pose proof (rl_first_unlocked _ _ _ _ H) as Hfu.
  pose proof (rl_next _ _ _ _ H) as Hnx.
  pose proof (ring_layout_first_unlocked_lt _ _ _ H) as Hfu_lt.
  pose proof (ring_layout_next_lt _ _ _ H) as Hnx_lt.
  destruct (ring_layout_lookup comp nl nq _ H Hnx_lt) as [sn Hsn].
  destruct (ring_layout_lookup comp nl nq _ H Hfu_lt) as [sf Hsf].
  rewrite (rohc_feedback_get_unfold comp max sn sf) by assumption.
  assert (Hcn : slot_class nl nq
                  (if (nl + nq =? SIZE)%nat then 0%nat else (nl + nq)%nat) sn).
  { apply (ring_layout_slot_at comp nl nq (nl + nq)); try assumption.
    rewrite <- Hnx. exact Hsn. }
  assert (Hcf : slot_class nl nq (if (nl =? SIZE)%nat then 0%nat else nl) sf).
  { apply (ring_layout_slot_at comp nl nq nl); try assumption; [lia|].
    rewrite <- Hfu. exact Hsf. }
  split.
  - intros ->. rewrite Nat.add_0_r in *.
    assert (Hsame : feedbacks_next comp = feedbacks_first_unlocked comp)
      by congruence.
    rewrite Hsame in *. rewrite Nat.eqb_refl. simpl.
    assert (sn = sf) by congruence. subst sn.
    destruct (Nat.eq_dec nl 0%nat) as [-> | Hnl0].
    { (* the ring is empty *)
      rewrite ring_pos_0 in Hfu by assumption. rewrite Hfu, Nat.eqb_refl.
      class_cases. subst sf. reflexivity. }
    destruct (Nat.eq_dec nl SIZE) as [-> | HnlS].
    { (* the ring is full and every feedback is locked *)
      rewrite ring_pos_full in Hfu by assumption. rewrite Hfu, Nat.eqb_refl.
      class_cases. destruct Hcf as (Hl & Hlen & _).
      rewrite Hl. destruct (Z.eqb_spec (fb_length sf) 0); [lia|].
      reflexivity. }
    (* every feedback is locked, the ring is not full *)
    assert (Hne : feedbacks_first comp <> feedbacks_first_unlocked comp).
    { rewrite Hfu. intros Heq.
      rewrite <- (ring_pos_0 (feedbacks_first comp)) in Heq at 1 by assumption.
      apply ring_pos_inj in Heq; lia. }
    rewrite (proj2 (Nat.eqb_neq _ _) Hne). simpl.
    class_cases. subst sf. reflexivity.
  - intros Hnq.
    assert (Hq : queued_slot sf) by (class_cases; exact Hcf).
    pose proof Hq as (Hl & Hlen & Hd).
    destruct (fb_data sf) as [d|] eqn:Hdata; [|congruence].
    exists sf, d. split; [exact Hsf|].
    split; [exact Hq|].
    split; [exact Hdata|].
    split; [|apply (lock_first_unlocked_layout comp nl nq sf H Hnq Hsf)].
    assert (Hne1 : (feedbacks_first comp =? feedbacks_next comp)%nat &&
                   (fb_length sn =? 0) = false).
    { destruct (Nat.eq_dec (nl + nq)%nat SIZE) as [Hfull | Hfree].
      - rewrite Hfull, Nat.eqb_refl in Hcn.
        assert (0 < fb_length sn)
          by (class_cases; destruct Hcn as (_ & ? & _); assumption).
        destruct (Z.eqb_spec (fb_length sn) 0); [lia|].
        apply andb_false_r.
      - assert (Hne : feedbacks_first comp <> feedbacks_next comp).
        { rewrite Hnx. intros Heq.
          rewrite <- (ring_pos_0 (feedbacks_first comp)) in Heq at 1
            by assumption.
          apply ring_pos_inj in Heq; lia. }
        rewrite (proj2 (Nat.eqb_neq _ _) Hne). reflexivity. }
    rewrite Hne1.
    destruct (Z.eqb_spec (fb_length sf) 0); [lia|].
    rewrite Hl, !andb_false_r. reflexivity.
Qed.


(** *** Unlocking *)

Lemma set_locked_false_id (s : rohc_feedback) :
  is_locked s = false -> set_locked s false = s.
Proof. destruct s; simpl; intros ->; reflexivity. Qed.

Lemma unlock_all_id (fbs : list rohc_feedback) :
  (forall i s, fbs !! i = Some s -> is_locked s = false) ->
  unlock_all fbs = fbs.
Proof.
  intros H. apply list_eq. intros i. unfold unlock_all.
  rewrite list_lookup_fmap.
  destruct (fbs !! i) as [s|] eqn:Hs; simpl; [|reflexivity].
  rewrite set_locked_false_id by eauto. reflexivity.
Qed.

Lemma unlock_all_insert (fbs : list rohc_feedback) (i : nat)
    (s : rohc_feedback) (b : bool) :
  fbs !! i = Some s ->
  unlock_all (<[i := set_locked s b]> fbs) = unlock_all fbs.
Proof.
  intros Hs. unfold unlock_all. rewrite list_fmap_insert.
  apply list_insert_id. rewrite list_lookup_fmap, Hs. reflexivity.
Qed.

(** The loop of [rohc_feedback_unlock], started [j] steps after
    [first] in a ring whose locked locations are exactly those at steps
    [j], ..., [nl - 1], clears every locked flag. *)
Lemma unlock_loop_run (first nl : nat) :
  (first < SIZE)%nat -> (nl <= SIZE)%nat ->
  forall (d j : nat) (fbs : list rohc_feedback) (fuel : nat),
    (j + d)%nat = nl -> length fbs = SIZE ->
    (forall k, (k < SIZE)%nat ->
       exists s, fbs !! ring_pos first k = Some s /\
                 is_locked s = (j <=? k)%nat && (k <? nl)%nat) ->
    (d < fuel)%nat ->
    unlock_loop SIZE fuel fbs (ring_pos first j) = Some (unlock_all fbs).
Proof.
  intros Hf Hnl. induction d as [|d IH]; intros j fbs fuel Hj Hlen Hslots Hfuel.
  - (* no locked location is left: the loop stops *)
    assert (j = nl) by lia. subst j.
    destruct fuel as [|fuel]; [lia|]. simpl.
    assert (Hnone : forall i s, fbs !! i = Some s -> is_locked s = false).
    { intros i s Hs.
      assert (Hi : (i < SIZE)%nat) by (rewrite <- Hlen; eapply lookup_lt_Some; eauto).
      destruct (ring_pos_surj first i Hf Hi) as (k & Hk & <-).
      destruct (Hslots k Hk) as (s' & Hs' & Hl).
      assert (s' = s) by congruence. subst s'. rewrite Hl.
      destruct (Nat.leb_spec nl k), (Nat.ltb_spec k nl); try lia; reflexivity. }
    assert (Hlt : (ring_pos first nl < SIZE)%nat) by (apply ring_pos_lt; lia).
    destruct (lookup_lt_is_Some_2 fbs (ring_pos first nl)) as [s Hs]; [lia|].
    rewrite Hs. simpl. rewrite (Hnone _ _ Hs).
    rewrite unlock_all_id by exact Hnone. reflexivity.
  - (* the current location is locked *)
    assert (Hjlt : (j < SIZE)%nat) by lia.
    destruct fuel as [|fuel]; [lia|]. simpl.
    destruct (Hslots j Hjlt) as (s & Hs & Hl).
    rewrite Hs. simpl. rewrite Hl.
    rewrite (proj2 (Nat.leb_le j j)), (proj2 (Nat.ltb_lt j nl)) by lia. simpl.
    rewrite ring_succ_pos by assumption.
    rewrite (IH (S j)); try lia.
    + rewrite unlock_all_insert by exact Hs. reflexivity.
    + rewrite length_insert. exact Hlen.
    + intros k Hk. destruct (Hslots k Hk) as (s' & Hs' & Hl').
      destruct (Nat.eq_dec k j) as [-> | Hne].
      * exists (set_locked s false). split.
        -- apply list_lookup_insert_eq. rewrite Hlen. apply ring_pos_lt; lia.
        -- cbn [is_locked set_locked].
           destruct (Nat.leb_spec (S j) j); [lia | reflexivity].
      * exists s'. split.
        -- rewrite list_lookup_insert_ne; [exact Hs'|].
           intros Heq. apply Hne. apply (ring_pos_inj first); lia.
        -- rewrite Hl'.
           destruct (Nat.leb_spec j k), (Nat.leb_spec (S j) k); try lia;
             reflexivity.
Qed.

(** [rohc_feedback_unlock] on a well-formed ring: it returns [true], every
    locked flag is cleared and [feedbacks_first_unlocked] is back at
    [feedbacks_first]. *)
Lemma rohc_feedback_unlock_layout (comp : rohc_comp) (nl nq : nat) :
  ring_layout comp nl nq ->
  rohc_feedback_unlock SIZE comp =
    Some (true,
          set_ring comp (unlock_all (feedbacks comp)) (feedbacks_first comp)
                   (feedbacks_first comp) (feedbacks_next comp)).
Proof.
  intros H.
  pose proof (rl_first _ _ _ _ H) as Hf.
  pose proof (rl_count _ _ _ _ H) as Hc.
  unfold rohc_feedback_unlock.
  rewrite !index_ok_true; try assumption;
    [| apply (ring_layout_next_lt _ _ _ H)
     | apply (ring_layout_first_unlocked_lt _ _ _ H)].
  cbn [negb].
  rewrite <- (ring_pos_0 (feedbacks_first comp)) at 1 by assumption.
  rewrite (unlock_loop_run (feedbacks_first comp) nl Hf ltac:(lia) nl 0%nat);
    try lia; [reflexivity | apply (rl_length _ _ _ _ H) |].
  intros k Hk. destruct (rl_slots _ _ _ _ H k Hk) as (s & Hs & Hcl).
  exists s. split; [exact Hs|]. simpl.
  unfold slot_class, locked_slot, queued_slot in Hcl.
  destruct (Nat.ltb_spec k nl).
  - apply Hcl.
  - destruct (k <? nl + nq)%nat; [apply Hcl | subst s; reflexivity].
Qed.


Lemma set_ring_eta (comp : rohc_comp) :
  set_ring comp (feedbacks comp) (feedbacks_first comp)
           (feedbacks_first_unlocked comp) (feedbacks_next comp) = comp.
Proof. destruct comp; reflexivity. Qed.

Lemma set_ring_set_ring (comp : rohc_comp) (l1 l2 : list rohc_feedback)
    (a1 b1 c1 a2 b2 c2 : nat) :
  set_ring (set_ring comp l1 a1 b1 c1) l2 a2 b2 c2 = set_ring comp l2 a2 b2 c2.
Proof. reflexivity. Qed.

Lemma ring_layout_no_lock (comp : rohc_comp) (nl nq : nat) :
  ring_layout comp nl nq -> no_slot_locked comp -> nl = 0%nat.
Proof.
  intros H Hno. destruct nl as [|nl]; [reflexivity|].
  destruct (rl_slots _ _ _ _ H 0%nat ring_size_pos) as (s & Hs & Hcl).
  unfold slot_class in Hcl. simpl in Hcl. destruct Hcl as (Hl & _).
  rewrite (Hno _ _ Hs) in Hl. discriminate.
Qed.

(** A sequence of calls to [rohc_feedback_get] on a well-formed ring locks
    some of the queued feedbacks and changes nothing else. *)
Lemma feedback_gets_layout (maxs : list Z) :
  forall (comp : rohc_comp) (nl nq : nat),
    ring_layout comp nl nq ->
    exists rs bytes comp1 m,
      feedback_gets SIZE comp maxs = Some (rs, bytes, comp1) /\
      (m <= nq)%nat /\
      ring_layout comp1 (nl + m) (nq - m) /\
      unlock_all (feedbacks comp1) = unlock_all (feedbacks comp) /\
      comp1 = set_ring comp (feedbacks comp1) (feedbacks_first comp)
                       (feedbacks_first_unlocked comp1) (feedbacks_next comp).
Proof.
  induction maxs as [|max maxs IH]; intros comp nl nq H.
  - exists [], [], comp, 0%nat. simpl.
    rewrite Nat.add_0_r, Nat.sub_0_r, set_ring_eta. auto with lia.
  - simpl.
    destruct (rohc_feedback_get_layout comp nl nq max H) as [Hzero Hpos].
    assert (Hstay :
      forall r bytes,
        rohc_feedback_get SIZE comp max = Some (r, bytes, comp) ->
        exists rs bytes' comp1 m,
          ('(r0, bytes0, comp0) ← rohc_feedback_get SIZE comp max;
           '(rs0, bytes1, comp2) ← feedback_gets SIZE comp0 maxs;
           Some (r0 :: rs0, bytes0 ++ bytes1, comp2))
            = Some (rs, bytes', comp1) /\
          (m <= nq)%nat /\ ring_layout comp1 (nl + m) (nq - m) /\
          unlock_all (feedbacks comp1) = unlock_all (feedbacks comp) /\
          comp1 = set_ring comp (feedbacks comp1) (feedbacks_first comp)
                           (feedbacks_first_unlocked comp1)
                           (feedbacks_next comp)).
    { intros r bytes Hget. rewrite Hget. simpl.
      destruct (IH comp nl nq H) as (rs & bytes' & comp1 & m & -> & Hrest).
      simpl. exists (r :: rs), (bytes ++ bytes'), comp1, m. auto. }
    destruct nq as [|nq].
    + apply (Hstay 0 []). apply Hzero. reflexivity.
    + destruct (Hpos ltac:(lia)) as (s & d & Hs & Hq & Hd & Hget & Hlay).
      destruct (required_length s >? max).
      * apply (Hstay (-1) []). exact Hget.
      * rewrite Hget. simpl.
        destruct (IH _ _ _ Hlay)
          as (rs & bytes' & comp1 & m & -> & Hm & Hlay1 & Hun & Heq).
        simpl.
        exists (to_int (required_length s) :: rs),
               ((feedback_header s ++ take (Z.to_nat (fb_length s)) d)
                  ++ bytes'),
               comp1, (S m).
        split; [reflexivity|].
        split; [lia|].
        split.
        { replace (nl + S m)%nat with (S nl + m)%nat by lia.
          replace (S nq - S m)%nat with (S nq - 1 - m)%nat by lia.
          exact Hlay1. }
        split.
        { rewrite Hun. unfold RingInv.lock_first_unlocked. simpl.
          apply unlock_all_insert. exact Hs. }
        rewrite Heq at 1. reflexivity.
Qed.


(** C5: on a well-formed ring in which no location is locked, any sequence
    of calls to [rohc_feedback_get] followed by one call to
    [rohc_feedback_unlock] gives back the compressor it started from:
    [rohc_feedback_avail_bytes] has its former value, no location is
    locked, the ring holds the same feedbacks and [feedbacks_first_unlocked]
    equals [feedbacks_first]. *)
Theorem feedback_gets_unlock_restores (comp : rohc_comp) (maxs : list Z) :
  ring_wf comp -> no_slot_locked comp ->
  exists rs bytes comp1 comp2,
    feedback_gets SIZE comp maxs = Some (rs, bytes, comp1) /\
    rohc_feedback_unlock SIZE comp1 = Some (true, comp2) /\
    rohc_feedback_avail_bytes SIZE comp2 = rohc_feedback_avail_bytes SIZE comp /\
    no_slot_locked comp2 /\
    feedbacks comp2 = feedbacks comp /\
    feedbacks_first_unlocked comp2 = feedbacks_first comp2 /\
    comp2 = comp.
Proof.
  intros (nl & nq & H) Hno.
  assert (nl = 0%nat) by (apply (ring_layout_no_lock comp nl nq H Hno)).
  subst nl.
  assert (Hfu : feedbacks_first_unlocked comp = feedbacks_first comp).
  { rewrite (rl_first_unlocked _ _ _ _ H).
    apply ring_pos_0. apply (rl_first _ _ _ _ H). }
  destruct (feedback_gets_layout maxs comp 0%nat nq H)
    as (rs & bytes & comp1 & m & Hgets & Hm & Hlay & Hun & Heq).
  assert (Hback :
    set_ring comp1 (unlock_all (feedbacks comp1)) (feedbacks_first comp1)
             (feedbacks_first comp1) (feedbacks_next comp1) = comp).
  { rewrite Hun, (unlock_all_id (feedbacks comp)) by exact Hno.
    assert (Hfirst : feedbacks_first comp1 = feedbacks_first comp)
      by (rewrite Heq; reflexivity).
    assert (Hnext : feedbacks_next comp1 = feedbacks_next comp)
      by (rewrite Heq; reflexivity).
    rewrite Hfirst, Hnext, Heq, set_ring_set_ring.
    transitivity (set_ring comp (feedbacks comp) (feedbacks_first comp)
                    (feedbacks_first_unlocked comp) (feedbacks_next comp));
      [rewrite Hfu; reflexivity | apply set_ring_eta]. }
  exists rs, bytes, comp1, comp. 
  split; [exact Hgets|].
  split; [rewrite (rohc_feedback_unlock_layout comp1 _ _ Hlay), Hback;
          reflexivity|].
  split; [reflexivity|].
  split; [exact Hno|].
  split; [reflexivity|].
  split; [exact Hfu | reflexivity].
Qed.


(** *** Piggybacking *)

(** C4 (as amended): for a valid compressor and a non-empty feedback,
    [rohc_comp_piggyback_feedback] fails exactly when the ring is full or
    the memory for the copy cannot be allocated.  On a full ring the
    compressor is unchanged.  When the allocation fails the indices are
    unchanged and only the data pointer of the location at
    [feedbacks_next] is cleared, which changes nothing if that location is
    unused.  Otherwise the bytes and their number are recorded in the
    location at [feedbacks_next], which is marked unlocked,
    [feedbacks_next] advances by one modulo the size of the ring and the
    call returns true. *)
Theorem rohc_comp_piggyback_feedback_correct (malloc_ok : bool)
    (comp : rohc_comp) (feedback : list Z) :
  length (feedbacks comp) = SIZE ->
  (feedbacks_first comp < SIZE)%nat ->
  (feedbacks_next comp < SIZE)%nat ->
  feedback <> [] ->
  exists s_next,
    feedbacks comp !! feedbacks_next comp = Some s_next /\
    (ring_full comp ->
     rohc_comp_piggyback_feedback SIZE malloc_ok comp feedback
       = Some (false, comp)) /\
    (~ ring_full comp -> malloc_ok = false ->
     rohc_comp_piggyback_feedback SIZE malloc_ok comp feedback
       = Some (false, piggyback_no_memory comp s_next) /\
     (s_next = empty_feedback -> piggyback_no_memory comp s_next = comp)) /\
    (~ ring_full comp -> malloc_ok = true ->
     rohc_comp_piggyback_feedback SIZE malloc_ok comp feedback
       = Some (true, piggybacked comp feedback)) /\
    ((exists comp',
        rohc_comp_piggyback_feedback SIZE malloc_ok comp feedback
          = Some (false, comp')) <->
     (ring_full comp \/ malloc_ok = false)).
Proof.
  intros Hlen Hf Hn Hne.
  destruct (lookup_lt_is_Some_2 (feedbacks comp) (feedbacks_first comp))
    as [sf Hsf]; [lia|].
  destruct (lookup_lt_is_Some_2 (feedbacks comp) (feedbacks_next comp))
    as [sn Hsn]; [lia|].
  exists sn. split; [exact Hsn|].
  assert (Hsize : (Z.of_nat (length feedback) <=? 0) = false).
  { destruct feedback; [congruence|]. apply Z.leb_gt. simpl length. lia. }
  assert (Hrun :
    rohc_comp_piggyback_feedback SIZE malloc_ok comp feedback =
      if (feedbacks_next comp =? feedbacks_first comp)%nat &&
         negb (fb_length sf =? 0)
      then Some (false, comp)
      else if malloc_ok then Some (true, piggybacked comp feedback)
           else Some (false, piggyback_no_memory comp sn)).
  { unfold rohc_comp_piggyback_feedback.
    rewrite Hsize, !index_ok_true by assumption. cbn [negb].
    rewrite (same_and_used_eq comp _ _ sf Hsf). simpl.
    destruct ((feedbacks_next comp =? feedbacks_first comp)%nat &&
              negb (fb_length sf =? 0)); [reflexivity|].
    rewrite Hsn. simpl. destruct malloc_ok; reflexivity. }
  assert (Hfull :
    ring_full comp <->
    (feedbacks_next comp =? feedbacks_first comp)%nat &&
    negb (fb_length sf =? 0) = true).
  { unfold ring_full. rewrite andb_true_iff, Nat.eqb_eq, negb_true_iff,
      Z.eqb_neq.
    split.
    - intros (Heq & s & Hs & Hl). split; [exact Heq | congruence].
    - intros (Heq & Hl). split; [exact Heq | eauto]. }
  rewrite Hrun.
  destruct ((feedbacks_next comp =? feedbacks_first comp)%nat &&
            negb (fb_length sf =? 0)) eqn:Htest.
  - assert (Hyes : ring_full comp) by (apply Hfull; reflexivity).
    split; [reflexivity|].
    split; [intros; contradiction|].
    split; [intros; contradiction|].
    split; [auto | eauto].
  - assert (Hnot : ~ ring_full comp).
    { intros Hyes. apply Hfull in Hyes. discriminate. }
    split; [intros; contradiction|].
    split.
    { intros _ ->. split; [reflexivity|].
      intros ->. unfold RingInv.piggyback_no_memory.
      change (set_data empty_feedback None) with empty_feedback.
      rewrite list_insert_id by exact Hsn.
      apply set_ring_eta. }
    split; [intros _ ->; reflexivity|].
    destruct malloc_ok.
    + split; [intros (comp' & [=])
             | intros [? | ?]; [contradiction | discriminate]].
    + split; [auto | eauto].
Qed.

(** A successful call keeps the ring well formed and queues one more
    feedback. *)
Lemma piggybacked_layout (comp : rohc_comp) (nl nq : nat) (feedback : list Z) :
  ring_layout comp nl nq -> (nl + nq < SIZE)%nat -> feedback <> [] ->
  ~ ring_full comp /\ ring_layout (piggybacked comp feedback) nl (S nq).
Proof.
  intros H Hroom Hne.
  pose proof (rl_first _ _ _ _ H) as Hf.
  pose proof (rl_next _ _ _ _ H) as Hnx.
  split.
  - intros (Heq & s & Hs & Hl).
    rewrite Hnx in Heq.
    rewrite <- (ring_pos_0 (feedbacks_first comp)) in Heq at 2 by assumption.
    apply ring_pos_inj in Heq; try lia.
    pose proof (ring_layout_slot comp nl nq 0 s H ring_size_pos) as Hcl.
    rewrite ring_pos_0 in Hcl by assumption. specialize (Hcl Hs).
    unfold slot_class in Hcl.
    destruct (Nat.ltb_spec 0 nl); [lia|].
    destruct (Nat.ltb_spec 0 (nl + nq)); [lia|].
    subst s. apply Hl. reflexivity.
  - split; simpl.
    + rewrite length_insert. apply (rl_length _ _ _ _ H).
    + exact Hf.
    + lia.
    + apply (rl_first_unlocked _ _ _ _ H).
    + rewrite Hnx, ring_succ_pos by lia. f_equal. lia.
    + intros k Hk.
      destruct (rl_slots _ _ _ _ H k Hk) as (s' & Hs' & Hcl).
      destruct (Nat.eq_dec k (nl + nq)%nat) as [-> | Hnek].
      * eexists. split.
        -- rewrite Hnx. apply list_lookup_insert_eq.
           rewrite (rl_length _ _ _ _ H). apply ring_pos_lt; lia.
        -- unfold slot_class.
           destruct (Nat.ltb_spec (nl + nq) nl); [lia|].
           destruct (Nat.ltb_spec (nl + nq) (nl + S nq)); [|lia].
           split; [reflexivity|]. simpl.
           split; [destruct feedback; [congruence | simpl length; lia]
                  | discriminate].
      * exists s'. split.
        -- rewrite list_lookup_insert_ne; [exact Hs'|].
           rewrite Hnx. intros Heq. apply Hnek. symmetry.
           apply (ring_pos_inj (feedbacks_first comp)); lia.
        -- unfold slot_class in *.
           destruct (Nat.ltb_spec k nl); [exact Hcl|].
           destruct (Nat.ltb_spec k (nl + nq)),
                    (Nat.ltb_spec k (nl + S nq)); try lia; exact Hcl.
Qed.


(** *** Removal of the locked feedbacks *)

(** The loop of [rohc_feedback_remove_locked], started [j] steps after
    [first] in a ring whose locked locations are exactly those at steps
    [j], ..., [nl - 1], frees these locations and stops [nl] steps after
    [first]. *)
Lemma remove_locked_loop_run (first nl : nat) :
  (first < SIZE)%nat -> (nl <= SIZE)%nat ->
  forall (d j : nat) (fbs : list rohc_feedback) (fuel : nat),
    (j + d)%nat = nl -> length fbs = SIZE ->
    (forall k, (k < SIZE)%nat ->
       exists s, fbs !! ring_pos first k = Some s /\
                 if (j <=? k)%nat && (k <? nl)%nat then locked_slot s
                 else is_locked s = false) ->
    (d < fuel)%nat ->
    exists fbs',
      remove_locked_loop SIZE fuel fbs (ring_pos first j)
        = Some (fbs', ring_pos first nl) /\
      length fbs' = SIZE /\
      forall k, (k < SIZE)%nat ->
        fbs' !! ring_pos first k =
          if (j <=? k)%nat && (k <? nl)%nat then Some empty_feedback
          else fbs !! ring_pos first k.
Proof.
  intros Hf Hnl. induction d as [|d IH]; intros j fbs fuel Hj Hlen Hslots Hfuel.
  - assert (j = nl) by lia. subst j.
    destruct fuel as [|fuel]; [lia|]. simpl.
    assert (Hlt : (ring_pos first nl < SIZE)%nat)
      by (apply ring_pos_lt; assumption).
    destruct (ring_pos_surj first _ Hf Hlt) as (k & Hk & Hpos).
    destruct (Hslots k Hk) as (s & Hs & Hl).
    replace ((nl <=? k)%nat && (k <? nl)%nat) with false in Hl
      by (destruct (Nat.leb_spec nl k), (Nat.ltb_spec k nl); try lia;
          reflexivity).
    rewrite <- Hpos, Hs. simpl. rewrite Hl.
    exists fbs. split; [reflexivity|]. split; [exact Hlen|].
    intros k' Hk'.
    destruct (Nat.leb_spec nl k'), (Nat.ltb_spec k' nl); try lia; reflexivity.
  - assert (Hjlt : (j < SIZE)%nat) by lia.
    destruct fuel as [|fuel]; [lia|]. simpl.
    destruct (Hslots j Hjlt) as (s & Hs & Hl).
    rewrite (proj2 (Nat.leb_le j j)), (proj2 (Nat.ltb_lt j nl)) in Hl by lia.
    destruct Hl as (Hlock & Hlen_pos & Hdata).
    rewrite Hs. simpl. rewrite Hlock.
    destruct (fb_data s) as [d0|]; [|congruence].
    rewrite (proj2 (Z.gtb_gt (fb_length s) 0)) by lia.
    rewrite ring_succ_pos by assumption.
    destruct (IH (S j) (<[ring_pos first j := empty_feedback]> fbs) fuel)
      as (fbs' & Hrun & Hlen' & Hpt); try lia.
    + rewrite length_insert. exact Hlen.
    + intros k Hk. destruct (Hslots k Hk) as (s' & Hs' & Hl').
      destruct (Nat.eq_dec k j) as [-> | Hne].
      * exists empty_feedback. split.
        -- apply list_lookup_insert_eq. rewrite Hlen. apply ring_pos_lt; lia.
        -- destruct (Nat.leb_spec (S j) j); [lia | reflexivity].
      * exists s'. split.
        -- rewrite list_lookup_insert_ne; [exact Hs'|].
           intros Heq. apply Hne.
           apply (ring_pos_inj first); lia.
        -- destruct (Nat.leb_spec j k), (Nat.leb_spec (S j) k); try lia;
             exact Hl'.
    + exists fbs'. split; [exact Hrun|]. split; [exact Hlen'|].
      intros k Hk. rewrite (Hpt k Hk).
      destruct (Nat.eq_dec k j) as [-> | Hne].
      * destruct (Nat.leb_spec (S j) j); [lia|].
        destruct (Nat.leb_spec j j); [|lia].
        destruct (Nat.ltb_spec j nl); [|lia]. simpl.
        apply list_lookup_insert_eq. rewrite Hlen. apply ring_pos_lt; lia.
      * rewrite list_lookup_insert_ne
          by (intros Heq; apply Hne;
              apply (ring_pos_inj first); lia).
        destruct (Nat.leb_spec j k), (Nat.leb_spec (S j) k); try lia;
          reflexivity.
Qed.

Lemma ring_pos_shift (first nl k : nat) :
  (first < SIZE)%nat -> (nl <= SIZE)%nat -> (k < SIZE)%nat ->
  ring_pos (ring_pos first nl) k =
  ring_pos first (if (nl + k <? SIZE)%nat then (nl + k)%nat
                  else (nl + k - SIZE)%nat).
Proof. intros. ring_arith. Qed.

(** [rohc_feedback_remove_locked] on a well-formed ring: it returns
    [true], frees the locked feedbacks and keeps the ring well formed. *)
Lemma rohc_feedback_remove_locked_layout (comp : rohc_comp) (nl nq : nat) :
  ring_layout comp nl nq ->
  exists comp',
    rohc_feedback_remove_locked SIZE comp = Some (true, comp') /\
    ring_layout comp' 0 nq /\
    comp' = set_ring comp (feedbacks comp') (feedbacks_first comp')
                     (feedbacks_first_unlocked comp') (feedbacks_next comp').
Proof.
  intros H.
  pose proof (rl_first _ _ _ _ H) as Hf.
  pose proof (rl_count _ _ _ _ H) as Hc.
  pose proof (rl_first_unlocked _ _ _ _ H) as Hfu.
  pose proof (rl_next _ _ _ _ H) as Hnx.
  unfold rohc_feedback_remove_locked.
  rewrite !index_ok_true;
    [| apply (ring_layout_first_unlocked_lt _ _ _ H)
     | exact Hf].
  cbn [negb].
  destruct (remove_locked_loop_run (feedbacks_first comp) nl Hf ltac:(lia)
              nl 0%nat (feedbacks comp) (S SIZE))
    as (fbs' & Hrun & Hlen' & Hpt); try lia.
  { apply (rl_length _ _ _ _ H). }
  { intros k Hk. destruct (rl_slots _ _ _ _ H k Hk) as (s & Hs & Hcl).
    exists s. split; [exact Hs|]. simpl.
    unfold slot_class, queued_slot in Hcl.
    destruct (Nat.ltb_spec k nl); [exact Hcl|].
    destruct (k <? nl + nq)%nat; [apply Hcl | subst s; reflexivity]. }
  rewrite ring_pos_0 in Hrun by assumption.
  eexists. split.
  { rewrite Hrun. cbn [mbind option_bind].
    rewrite Hfu, Nat.eqb_refl. reflexivity. }
  split; [|reflexivity].
  assert (Hf' : (ring_pos (feedbacks_first comp) nl < SIZE)%nat)
    by (apply ring_pos_lt; lia).
  split; cbn [feedbacks feedbacks_first feedbacks_first_unlocked
              feedbacks_next set_ring].
  - exact Hlen'.
  - exact Hf'.
  - lia.
  - symmetry. apply ring_pos_0; assumption.
  - rewrite Hnx. clear -Hf Hc ring_size_pos. ring_arith.
  - intros k Hk.
    rewrite ring_pos_shift by (assumption || lia).
    set (k0 := if (nl + k <? SIZE)%nat then (nl + k)%nat
               else (nl + k - SIZE)%nat).
    assert (Hk0 : (k0 < SIZE)%nat)
      by (unfold k0; destruct (Nat.ltb_spec (nl + k) SIZE); lia).
    rewrite (Hpt k0 Hk0). simpl.
    destruct (rl_slots _ _ _ _ H k0 Hk0) as (s & Hs & Hcl).
    unfold slot_class in *. simpl.
    destruct (Nat.ltb_spec k0 nl) as [Hlow | Hhigh].
    + exists empty_feedback. split; [reflexivity|].
      destruct (Nat.ltb_spec k nq); [|reflexivity].
      unfold k0 in Hlow. destruct (Nat.ltb_spec (nl + k) SIZE); lia.
    + exists s. split; [exact Hs|].
      unfold k0 in *. destruct (Nat.ltb_spec (nl + k) SIZE); [|lia].
      destruct (Nat.ltb_spec (nl + k) (nl + nq)), (Nat.ltb_spec k nq);
        try lia; exact Hcl.
Qed.

(** *** The feedbacks added by [rohc_compress3] *)

(** Whatever the state of the ring, the value returned by
    [rohc_feedback_get] does not exceed the size it was given. *)
Lemma rohc_feedback_get_le (comp comp' : rohc_comp) (max r : Z)
    (bytes : list Z) :
  0 <= max ->
  rohc_feedback_get SIZE comp max = Some (r, bytes, comp') ->
  r <= max /\ r <= INT_MAX.
Proof.
  clear ring_size_pos.
  intros Hmax. unfold rohc_feedback_get.
  assert (H0 : to_int 0 = 0) by reflexivity.
  assert (Hi : 0 <= INT_MAX) by (unfold INT_MAX; lia).
  destruct (negb (index_ok (feedbacks_first_unlocked comp))); [discriminate|].
  destruct (negb (index_ok (feedbacks_next comp))); [discriminate|].
  destruct (same_and_empty comp (feedbacks_first comp) (feedbacks_next comp))
    as [[]|]; simpl; try discriminate; [intros [= <- _ _]; lia|].
  destruct (same_and_empty comp (feedbacks_next comp)
              (feedbacks_first_unlocked comp))
    as [[]|]; simpl; try discriminate; [intros [= <- _ _]; lia|].
  destruct (same_and_locked comp (feedbacks_next comp)
              (feedbacks_first_unlocked comp))
    as [[]|]; simpl; try discriminate; [intros [= <- _ _]; lia|].
  destruct (feedbacks comp !! feedbacks_first_unlocked comp) as [s|];
    simpl; [|discriminate].
  fold (required_length s). fold (feedback_header s).
  destruct (Z.gtb_spec (required_length s) max) as [Hgt | Hle];
    [intros [= <- _ _]; unfold INT_MAX; lia|].
  destruct (fb_data s) as [d|]; simpl; [|discriminate].
  intros [= <- _ _].
  rewrite length_feedback_header.
  replace (1 + (if fb_length s <? 8 then 0 else 1) + fb_length s)
    with (fb_length s + 1 + (if fb_length s <? 8 then 0 else 1)) by lia.
  fold (required_length s).
  assert (0 <= required_length s) by apply to_size_t_range.
  pose proof (to_int_le (required_length s)).
  pose proof (to_int_upper (required_length s)). lia.
Qed.


Local Abbreviation add_feedbacks := (add_feedbacks FEEDBACK_RING_SIZE).

(** The bound kept by the loop: it is entered with at most 500 bytes of
    feedbacks, so the total exceeds 500 bytes by at most the size of the
    last feedback emitted, which is no more than the size [max] given to
    [rohc_feedback_get]. *)
Lemma add_feedbacks_bound (fuel : nat) :
  forall (comp comp' : rohc_comp) (max fs fs' : Z) (w w' : list Z),
    0 <= max -> 0 <= fs <= 500 ->
    add_feedbacks fuel comp max fs w = Some (fs', w', comp') ->
    0 <= fs' /\
    exists last, 0 <= last <= max /\ last <= INT_MAX /\ fs' <= 500 + last.
Proof.
  clear ring_size_pos.
  induction fuel as [|fuel IH]; intros comp comp' max fs fs' w w' Hmax Hfs;
    simpl; [discriminate|].
  destruct (rohc_feedback_get SIZE comp max) as [[[r bytes] comp1]|] eqn:Hget;
    simpl; [|discriminate].
  destruct (rohc_feedback_get_le comp comp1 max r bytes Hmax Hget)
    as [Hr Hri].
  assert (Hi : 0 <= INT_MAX) by (unfold INT_MAX; lia).
  destruct (Z.gtb_spec r 0) as [Hpos | Hneg]; simpl.
  - rewrite to_size_t_small
      by (unfold SIZE_MAX, INT_MAX in *; lia).
    destruct (Z.leb_spec (fs + r) 500) as [Hgo | Hstop].
    + apply IH; [exact Hmax | lia].
    + intros [= <- _ _]. split; [lia|]. exists r. lia.
  - intros [= <- _ _]. split; [lia|]. exists 0. lia.
Qed.

(** On a well-formed ring the loop ends within [FEEDBACK_RING_SIZE + 1]
    iterations, and leaves the ring well formed. *)
Lemma add_feedbacks_layout (fuel : nat) :
  forall (comp : rohc_comp) (nl nq : nat) (max fs : Z) (w : list Z),
    ring_layout comp nl nq -> (nq < fuel)%nat ->
    exists fs' w' comp' nl' nq',
      add_feedbacks fuel comp max fs w = Some (fs', w', comp') /\
      ring_layout comp' nl' nq' /\
      comp' = set_ring comp (feedbacks comp') (feedbacks_first comp')
                       (feedbacks_first_unlocked comp') (feedbacks_next comp').
Proof.
  induction fuel as [|fuel IH]; intros comp nl nq max fs w H Hfuel; [lia|].
  simpl.
  destruct (rohc_feedback_get_layout comp nl nq max H) as [Hzero Hpos].
  destruct nq as [|nq].
  - rewrite Hzero by reflexivity. simpl.
    exists fs, w, comp, nl, 0%nat.
    rewrite set_ring_eta. auto.
  - destruct (Hpos ltac:(lia)) as (s & d & Hs & Hq & Hd & Hget & Hlay).
    rewrite Hget.
    destruct (required_length s >? max); simpl.
    + exists fs, w, comp, nl, (S nq). rewrite set_ring_eta. auto.
    + destruct ((to_int (required_length s) >? 0) &&
                ((if to_int (required_length s) >? 0
                  then to_size_t (fs + to_int (required_length s))
                  else fs) <=? 500)).
      * destruct (IH (lock_first_unlocked comp s) (S nl) (S nq - 1)%nat max
                    (if to_int (required_length s) >? 0
                     then to_size_t (fs + to_int (required_length s))
                     else fs)
                    (if to_int (required_length s) >? 0
                     then w ++ feedback_header s ++
                          take (Z.to_nat (fb_length s)) d
                     else w) Hlay ltac:(lia))
          as (fs' & w' & comp' & nl' & nq' & Hrun & Hlay' & Heq).
        exists fs', w', comp', nl', nq'.
        split; [exact Hrun|]. split; [exact Hlay'|].
        rewrite Heq at 1. reflexivity.
      * eexists _, _, _, (S nl), (S nq - 1)%nat.
        split; [reflexivity|]. split; [exact Hlay|]. reflexivity.
Qed.

(** On a well-formed ring, the loop leaves at most 500 bytes of feedbacks,
    or exceeds 500 bytes by at most the emitted size of one of the queued
    feedbacks, the last one it added. *)
Lemma add_feedbacks_budget (fuel : nat) :
  forall (comp comp' : rohc_comp) (nl nq : nat) (max fs fs' : Z)
         (w w' : list Z),
    ring_layout comp nl nq -> 0 <= fs <= 500 ->
    add_feedbacks fuel comp max fs w = Some (fs', w', comp') ->
    0 <= fs' /\
    (fs' <= 500 \/
     exists i s,
       feedbacks comp !! i = Some s /\ queued_slot s /\
       fs' <= 500 + emitted_size s).
Proof.
  induction fuel as [|fuel IH];
    intros comp comp' nl nq max fs fs' w w' H Hfs; simpl; [discriminate|].
  destruct (rohc_feedback_get_layout comp nl nq max H)
    as [Hzero Hpos].
  destruct nq as [|nq].
  - rewrite Hzero by reflexivity. simpl. intros [= <- _ _].
    split; [lia | left; lia].
  - destruct (Hpos ltac:(lia)) as (s & d & Hs & Hq & Hd & Hget & Hlay).
    rewrite Hget. clear Hget Hzero Hpos.
    destruct (required_length s >? max); simpl;
      [intros [= <- _ _]; split; [lia | left; lia]|].
    assert (Hlen : 0 < fb_length s) by apply Hq.
    assert (Hreq : required_length s <= emitted_size s).
    { unfold required_length, emitted_size.
      destruct (fb_length s <? 8).
      - pose proof (to_size_t_le (fb_length s + 1 + 0)). lia.
      - pose proof (to_size_t_le (fb_length s + 1 + 1)). lia. }
    assert (Hr : to_int (required_length s) <= emitted_size s).
    { etransitivity; [apply to_int_le | exact Hreq].
      apply to_size_t_range. }
    pose proof (to_int_upper (required_length s)) as Hup.
    unfold INT_MAX in Hup.
    destruct (Z.gtb_spec (to_int (required_length s)) 0) as [Hgt | Hle];
      simpl.
    + rewrite to_size_t_small by (unfold SIZE_MAX; lia).
      destruct (Z.leb_spec (fs + to_int (required_length s)) 500)
        as [Hgo | Hstop].
      * intros Hrun.
        eapply IH in Hrun; [| exact Hlay | lia].
        destruct Hrun as [Hpos' [Hsmall | (i & s' & Hs' & Hq' & Hle')]];
          split; try assumption; [left; assumption|].
        right. exists i, s'. split; [|split; assumption].
        unfold RingInv.lock_first_unlocked in Hs'. simpl in Hs'.
        destruct (Nat.eq_dec i (feedbacks_first_unlocked comp)) as [-> | Hne].
        -- rewrite list_lookup_insert_eq in Hs'
             by (eapply lookup_lt_Some; exact Hs).
           injection Hs' as <-. destruct Hq' as (Hl' & _). discriminate Hl'.
        -- rewrite list_lookup_insert_ne in Hs' by congruence. exact Hs'.
      * intros [= <- _ _]. split; [lia|].
        right. exists (feedbacks_first_unlocked comp), s.
        split; [exact Hs|]. split; [exact Hq | lia].
    + intros [= <- _ _]. split; [lia | left; lia].
Qed.

End RingProofs.
(** *** Compression of one packet *)

Section CompressProofs.

Variable FEEDBACK_RING_SIZE : nat.
Hypothesis ring_size_pos : (0 < FEEDBACK_RING_SIZE)%nat.
Local Abbreviation SIZE := FEEDBACK_RING_SIZE.
Local Abbreviation add_feedbacks := (add_feedbacks FEEDBACK_RING_SIZE).
Local Abbreviation ring_layout := (ring_layout FEEDBACK_RING_SIZE).
Local Abbreviation ring_wf := (ring_wf FEEDBACK_RING_SIZE).

Variable big_endian_host : bool.
Variable crc_calc_fcs32 : list Z -> Z -> Z.
Variable CRC_INIT_FCS32 : Z.

Local Abbreviation rohc_compress3 :=
  (rohc_compress3 FEEDBACK_RING_SIZE big_endian_host crc_calc_fcs32
                  CRC_INIT_FCS32).
Local Abbreviation stage_rru :=
  (stage_rru big_endian_host crc_calc_fcs32 CRC_INIT_FCS32).

(** The value of [feedbacks_size] handed back by [rohc_compress3] is zero
    or the one computed by the loop of step 1. *)
Lemma rohc_compress3_feedbacks_size (comp comp' : rohc_comp)
    (env : packet_env) (rohc_packet_max_len : Z) (res : compress_result) :
  rohc_compress3 comp env rohc_packet_max_len = Some (res, comp') ->
  feedbacks_size res = 0 \/
  exists bytes comp1,
    add_feedbacks (S SIZE) comp
      (to_uint32 (to_size_t (rohc_packet_max_len - 0))) 0 []
      = Some (feedbacks_size res, bytes, comp1).
Proof.
  unfold RohcComp.rohc_compress3.
  destruct ((Z.of_nat (length (uncomp_packet env)) <=? 0) ||
            (rohc_packet_max_len <=? 0));
    [intros [= <- _]; left; reflexivity|].
  destruct (negb (ip_parsed env)); [intros [= <- _]; left; reflexivity|].
  destruct (negb (profile_found env)); [intros [= <- _]; left; reflexivity|].
  destruct (negb (context_found env)); [intros [= <- _]; left; reflexivity|].
  destruct (add_feedbacks (S SIZE) comp
              (to_uint32 (to_size_t (rohc_packet_max_len - 0))) 0 [])
    as [[[fs bytes] comp1]|] eqn:Hloop; [|discriminate].
  cbn [mbind option_bind].
  intros Hrun. right. exists bytes, comp1.
  replace (feedbacks_size res) with fs; [reflexivity|].
  revert Hrun.
  destruct (compress3_encode env _) as [[hdr off]|].
  - destruct (_ >? rohc_packet_max_len).
    + destruct (_ >? mrru comp1).
      * destruct (rohc_feedback_unlock SIZE comp1) as [[? ?]|];
          simpl; [intros [= <- _]; reflexivity | discriminate].
      * destruct (negb _); [discriminate|].
        destruct (rohc_feedback_unlock SIZE _) as [[? ?]|];
          simpl; [intros [= <- _]; reflexivity | discriminate].
    + destruct (rohc_feedback_remove_locked SIZE comp1) as [[? ?]|];
        simpl; [intros [= <- _]; reflexivity | discriminate].
  - destruct (rohc_feedback_unlock SIZE comp1) as [[? ?]|];
      simpl; [intros [= <- _]; reflexivity | discriminate].
Qed.


(** C6 (as amended): on a well-formed ring the loop that prepends the
    feedbacks ends, and the feedbacks prepended by [rohc_compress3] take at
    most 500 bytes, or exceed 500 bytes by at most the emitted size of one
    queued feedback: the loop fetches feedbacks while the running total is
    at most 500 bytes. *)
Theorem rohc_compress3_feedback_budget (comp : rohc_comp)
    (env : packet_env) (rohc_packet_max_len : Z) :
  ring_wf comp ->
  (exists fs bytes comp1,
     add_feedbacks (S SIZE) comp
       (to_uint32 (to_size_t (rohc_packet_max_len - 0))) 0 []
       = Some (fs, bytes, comp1)) /\
  (forall res comp',
     rohc_compress3 comp env rohc_packet_max_len = Some (res, comp') ->
     0 <= feedbacks_size res /\
     (feedbacks_size res <= 500 \/
      exists i s,
        feedbacks comp !! i = Some s /\ queued_slot s /\
        feedbacks_size res <= 500 + emitted_size s)).
Proof.
  intros (nl & nq & H).
  split.
  - destruct (add_feedbacks_layout SIZE ring_size_pos (S SIZE) comp nl nq
                (to_uint32 (to_size_t (rohc_packet_max_len - 0))) 0 [] H)
      as (fs & w & comp1 & _ & _ & Hrun & _).
    { pose proof (rl_count _ _ _ _ H). lia. }
    eauto.
  - intros res comp' Hrun.
    destruct (rohc_compress3_feedbacks_size comp comp' env
                rohc_packet_max_len res Hrun) as [-> | (bytes & comp1 & Hloop)].
    + split; [lia | left; lia].
    + apply (add_feedbacks_budget SIZE ring_size_pos (S SIZE) comp comp1 nl nq
               _ 0 _ [] bytes H ltac:(lia) Hloop).
Qed.

Lemma ring_layout_set_rru (comp : rohc_comp) (buf : list Z) (off len : Z)
    (nl nq : nat) :
  ring_layout comp nl nq -> ring_layout (set_rru comp buf off len) nl nq.
Proof. intros [H1 H2 H3 H4 H5 H6]. split; assumption. Qed.

(** What [stage_rru] leaves in the compressor: the header, the payload and
    the FCS-32 computed over both, found at offset 0 of the buffer. *)
Lemma stage_rru_spec (comp : rohc_comp) (rohc_hdr payload : list Z)
    (payload_size : Z) :
  payload_size = Z.of_nat (length payload) ->
  Z.of_nat (length rohc_hdr) + payload_size + CRC_FCS32_LEN
    <= Z.of_nat (length (rru comp)) ->
  Z.of_nat (length rohc_hdr) + payload_size + CRC_FCS32_LEN <= SIZE_MAX ->
  let comp' := stage_rru comp rohc_hdr payload payload_size in
  rru_off comp' = 0 /\
  rru_len comp' = Z.of_nat (length rohc_hdr) + payload_size + CRC_FCS32_LEN /\
  region (rru comp') (Z.to_nat (rru_off comp')) (Z.to_nat (rru_len comp')) =
    rohc_hdr ++ payload ++
    uint32_bytes big_endian_host
      (crc_calc_fcs32 (rohc_hdr ++ payload) CRC_INIT_FCS32).
Proof.
  intros Hps Hroom Hmax comp'. subst comp'.
  unfold RohcComp.stage_rru, CRC_FCS32_LEN in *. cbn [rru_off rru_len rru set_rru].
  set (hl := Z.of_nat (length rohc_hdr)) in *.
  rewrite (to_size_t_small (0 + hl)) by (unfold hl; lia).
  rewrite (to_size_t_small (0 + hl + payload_size)) by (unfold hl in *; lia).
  rewrite (to_size_t_small (0 + hl + payload_size + 4))
    by (unfold hl in *; lia).
  split; [reflexivity|]. split; [lia|].
  replace (Z.to_nat (0 + 0)) with 0%nat by reflexivity.
  replace (Z.to_nat 0) with 0%nat by reflexivity.
  replace (Z.to_nat (0 + (0 + hl))) with (0 + length rohc_hdr)%nat
    by (unfold hl; lia).
  replace (Z.to_nat (0 + (0 + hl + payload_size)))
    with (0 + length (rohc_hdr ++ payload))%nat
    by (rewrite length_app; unfold hl; lia).
  replace (Z.to_nat (0 + hl + payload_size))
    with (length (rohc_hdr ++ payload))
    by (rewrite length_app; unfold hl; lia).
  replace (Z.to_nat (0 + hl + payload_size + 4))
    with (length ((rohc_hdr ++ payload) ++
                  uint32_bytes big_endian_host
                    (crc_calc_fcs32 (rohc_hdr ++ payload) CRC_INIT_FCS32)))
    by (rewrite !length_app, length_uint32_bytes; unfold hl; lia).
  rewrite <- memcpy_app.
  rewrite (region_memcpy (rohc_hdr ++ payload))
    by (rewrite length_app; unfold hl in *; lia).
  rewrite take_ge by (rewrite length_uint32_bytes; lia).
  rewrite <- memcpy_app.
  rewrite region_memcpy
    by (rewrite !length_app, length_uint32_bytes; unfold hl in *; lia).
  rewrite <- app_assoc. reflexivity.
Qed.


(** C3 (as amended): when the feedbacks emitted, the ROHC header and the
    payload exceed the capacity of the output buffer, [rohc_compress3]
    compares feedbacks + header + payload + 4 with the MRRU.  If that sum is
    at most the MRRU, the call stages exactly header, payload and the
    FCS-32 of both as the pending RRU, whose length is at most the MRRU,
    and returns [ROHC_NEED_SEGMENT]; if the sum exceeds the MRRU, which is
    the case whenever header + payload + 4 does, the call returns
    [ROHC_ERROR] and stages nothing. *)
Theorem rohc_compress3_segmentation (comp : rohc_comp) (env : packet_env)
    (rohc_packet_max_len : Z) (fs : Z) (fbs_bytes : list Z)
    (comp1 : rohc_comp) (rohc_hdr : list Z) (payload_offset : Z) :
  ring_wf comp ->
  uncomp_packet env <> [] ->
  0 < rohc_packet_max_len <= SIZE_MAX ->
  ip_parsed env = true -> profile_found env = true ->
  context_found env = true ->
  add_feedbacks (S SIZE) comp
    (to_uint32 (to_size_t (rohc_packet_max_len - 0))) 0 []
    = Some (fs, fbs_bytes, comp1) ->
  compress3_encode env (to_size_t (rohc_packet_max_len - fs))
    = Some (rohc_hdr, payload_offset) ->
  Z.of_nat (length rohc_hdr) <= INT_MAX ->
  0 <= payload_offset <= ip_totlen env ->
  ip_totlen env <= Z.of_nat (length (uncomp_packet env)) ->
  ip_totlen env <= 0xffffffff ->
  mrru comp <= Z.of_nat (length (rru comp)) ->
  let payload :=
    region (uncomp_packet env) (Z.to_nat payload_offset)
           (Z.to_nat (ip_totlen env - payload_offset)) in
  let hdr_payload :=
    Z.of_nat (length rohc_hdr) + Z.of_nat (length payload) in
  rohc_packet_max_len < fs + hdr_payload ->
  exists res comp',
    rohc_compress3 comp env rohc_packet_max_len = Some (res, comp') /\
    (fs + hdr_payload + CRC_FCS32_LEN <= mrru comp ->
     status res = ROHC_NEED_SEGMENT /\
     rru_off comp' = 0 /\
     rru_len comp' = hdr_payload + CRC_FCS32_LEN /\
     region (rru comp') (Z.to_nat (rru_off comp'))
            (Z.to_nat (rru_len comp')) =
       rohc_hdr ++ payload ++
       uint32_bytes big_endian_host
         (crc_calc_fcs32 (rohc_hdr ++ payload) CRC_INIT_FCS32) /\
     rru_len comp' <= mrru comp' /\
     mrru comp' = mrru comp) /\
    (mrru comp < fs + hdr_payload + CRC_FCS32_LEN ->
     status res = ROHC_ERROR /\
     rru comp' = rru comp /\ rru_off comp' = rru_off comp /\
     rru_len comp' = rru_len comp) /\
    (mrru comp < hdr_payload + CRC_FCS32_LEN -> status res = ROHC_ERROR).
Proof.
  intros (nl & nq & H) Hraw Hmax Hip Hprof Hctx Hloop Henc Hhdr Hoff Htot
    Htot32 Hbuf payload hdr_payload Hbig.
  (* step 1: the ring after the loop *)
  destruct (add_feedbacks_layout SIZE ring_size_pos (S SIZE) comp nl nq
              (to_uint32 (to_size_t (rohc_packet_max_len - 0))) 0 [] H)
    as (fs' & w' & comp1' & nl1 & nq1 & Hrun & Hlay1 & Heq1).
  { pose proof (rl_count _ _ _ _ H). lia. }
  rewrite Hloop in Hrun. injection Hrun as <- <- <-.
  assert (Hmrru : mrru comp1 = mrru comp) by (rewrite Heq1; reflexivity).
  assert (Hrru : rru comp1 = rru comp) by (rewrite Heq1; reflexivity).
  assert (Hrru_off : rru_off comp1 = rru_off comp)
    by (rewrite Heq1; reflexivity).
  assert (Hrru_len : rru_len comp1 = rru_len comp)
    by (rewrite Heq1; reflexivity).
  pose proof Hloop as Hfs.
  apply add_feedbacks_bound in Hfs;
    [| first [exact ring_size_pos | apply to_uint32_range | lia] ..].
  destruct Hfs as (Hfs0 & last & Hlast & Hlast_int & Hfs_le).
  (* the sizes *)
  assert (Hplen : Z.of_nat (length payload) = ip_totlen env - payload_offset).
  { unfold payload. rewrite length_region; lia. }
  unfold hdr_payload in *. clear hdr_payload.
  set (hl := Z.of_nat (length rohc_hdr)) in *.
  set (pl := Z.of_nat (length payload)) in *.
  assert (Hhl : 0 <= hl) by (unfold hl; lia).
  assert (Hpl : 0 <= pl) by (unfold pl; lia).
  unfold INT_MAX, SIZE_MAX, CRC_FCS32_LEN in *.
  (* the run *)
  unfold RohcComp.rohc_compress3.
  assert (Hlen0 : (Z.of_nat (length (uncomp_packet env)) <=? 0) = false).
  { destruct (uncomp_packet env); [congruence|]. apply Z.leb_gt.
    simpl length. lia. }
  rewrite Hlen0, (proj2 (Z.leb_gt rohc_packet_max_len 0)) by lia.
  rewrite Hip, Hprof, Hctx. cbn [orb negb].
  rewrite Hloop. cbn [mbind option_bind].
  rewrite (to_size_t_small (0 + fs)) by (unfold SIZE_MAX; lia).
  replace (0 + fs) with fs by lia.
  rewrite Henc. cbv beta iota zeta. fold hl.
  rewrite (to_size_t_small (fs + hl)) by (unfold SIZE_MAX; lia).
  rewrite (to_size_t_small (ip_totlen env - payload_offset))
    by (unfold SIZE_MAX; lia).
  fold payload. rewrite <- Hplen.
  rewrite (to_size_t_small (fs + hl + pl)) by (unfold SIZE_MAX; lia).
  rewrite (to_size_t_small (fs + hl + pl + CRC_FCS32_LEN))
    by (unfold SIZE_MAX, CRC_FCS32_LEN; lia).
  unfold CRC_FCS32_LEN.
  rewrite (proj2 (Z.gtb_gt (fs + hl + pl) rohc_packet_max_len)) by lia.
  rewrite Hmrru.
  destruct (Z.gtb_spec (fs + hl + pl + 4) (mrru comp)) as [Hover | Hfit].
  - (* too large for the MRRU *)
    rewrite (rohc_feedback_unlock_layout SIZE ring_size_pos comp1 nl1 nq1 Hlay1).
    cbn [mbind option_bind].
    eexists _, _. split; [reflexivity|].
    split; [intros; lia|].
    split; [intros _; cbn; auto|].
    intros _. reflexivity.
  - (* staged *)
    destruct (stage_rru_spec comp1 rohc_hdr payload pl eq_refl)
      as (Hs_off & Hs_len & Hs_region).
    { unfold CRC_FCS32_LEN. rewrite Hrru. fold hl. lia. }
    { unfold CRC_FCS32_LEN, SIZE_MAX. fold hl. lia. }
    fold hl in Hs_len. unfold CRC_FCS32_LEN in Hs_len.
    set (comp_s := stage_rru comp1 rohc_hdr payload pl) in *.
    assert (Hs_mrru : mrru comp_s = mrru comp1) by reflexivity.
    rewrite (proj2 (Z.leb_le (rru_len comp_s) (mrru comp_s)))
      by (rewrite Hs_len, Hs_mrru, Hmrru; lia).
    cbn [negb].
    rewrite (rohc_feedback_unlock_layout SIZE ring_size_pos comp_s nl1 nq1)
      by (apply ring_layout_set_rru; exact Hlay1).
    cbn [mbind option_bind].
    eexists _, _. split; [reflexivity|].
    split; [intros _ | split; intros; lia].
    cbn [status set_num_packets set_ring rru rru_off rru_len mrru].
    split; [reflexivity|].
    split; [exact Hs_off|].
    split; [rewrite Hs_len; lia|].
    split; [exact Hs_region|].
    split; [rewrite Hs_len, Hs_mrru, Hmrru; lia|].
    rewrite Hs_mrru. exact Hmrru.
Qed.

End CompressProofs.

(** *** The ring from the creation of the compressor on *)

Section Lifecycle.
Variable FEEDBACK_RING_SIZE : nat.
Hypothesis ring_size_pos : (0 < FEEDBACK_RING_SIZE)%nat.
Variable ROHC_MAX_MRRU : nat.

Lemma foldl_insert_replicate {A : Type} (x : A) (n : nat) (idxs : list nat) :
  foldl (fun l i => <[i := x]> l) (replicate n x) idxs = replicate n x.
Proof.
  induction idxs as [|i idxs IH]; simpl; [reflexivity|].
  destruct (Nat.lt_ge_cases i n).
  - rewrite list_insert_id by (apply lookup_replicate_2; assumption).
    exact IH.
  - rewrite list_insert_ge by (rewrite length_replicate; assumption).
    exact IH.
Qed.

(** A ring of unused locations with its three indices at 0 is well
    formed. *)
Lemma empty_ring_layout (comp : rohc_comp) :
  feedbacks comp = replicate FEEDBACK_RING_SIZE empty_feedback ->
  feedbacks_first comp = 0%nat -> feedbacks_first_unlocked comp = 0%nat ->
  feedbacks_next comp = 0%nat ->
  ring_layout FEEDBACK_RING_SIZE comp 0 0.
Proof.
  intros Hfbs Hf Hfu Hn. split.
  - rewrite Hfbs. apply length_replicate.
  - rewrite Hf. exact ring_size_pos.
  - lia.
  - rewrite Hfu, Hf. symmetry. apply ring_pos_0; exact ring_size_pos.
  - rewrite Hn, Hf. symmetry. apply ring_pos_0; exact ring_size_pos.
  - intros k Hk. exists empty_feedback. split; [|reflexivity].
    rewrite Hfbs, Hf. apply lookup_replicate_2.
    apply ring_pos_lt; lia.
Qed.

Lemma rohc_comp_add_rtp_port_feedbacks (comp comp' : rohc_comp) (port : Z)
    (b : bool) :
  rohc_comp_add_rtp_port comp port = (b, comp') ->
  feedbacks comp' = feedbacks comp.
Proof.
  unfold rohc_comp_add_rtp_port.
  destruct ((port <=? 0) || (port >? 0xffff)); [intros [= _ <-]; reflexivity|].
  destruct (add_port_loop _ _ _ _); intros [= _ <-]; reflexivity.
Qed.

Lemma add_default_ports_feedbacks (ports : list Z) :
  forall comp comp' : rohc_comp,
    add_default_ports comp ports = Some comp' ->
    feedbacks comp' = feedbacks comp.
Proof.
  induction ports as [|p ports IH]; intros comp comp'; simpl.
  - intros [= <-]. reflexivity.
  - destruct (rohc_comp_add_rtp_port comp p) as [[] c1] eqn:E; [|discriminate].
    intros H. rewrite (IH _ _ H).
    apply (rohc_comp_add_rtp_port_feedbacks _ _ _ _ E).
Qed.

(** The compressor returned by [rohc_comp_new] has a well-formed, empty
    ring. *)
Lemma rohc_comp_new_ring_layout
    (deprecated_api malloc_ok : bool) (crc_init_ok : Z -> bool)
    (calloc_ok : bool) (cid_type : rohc_cid_type_t) (max_cid : Z)
    (comp : rohc_comp) :
  rohc_comp_new FEEDBACK_RING_SIZE ROHC_MAX_MRRU deprecated_api malloc_ok
                crc_init_ok calloc_ok cid_type max_cid = Some comp ->
  ring_layout FEEDBACK_RING_SIZE comp 0 0.
Proof.
  unfold rohc_comp_new.
  repeat match goal with
         | |- context [if ?b then None else _] => destruct b; [discriminate|]
         end.
  set (c0 := new_comp_reset FEEDBACK_RING_SIZE ROHC_MAX_MRRU cid_type max_cid).
  assert (H0 : feedbacks c0 = replicate FEEDBACK_RING_SIZE empty_feedback)
    by reflexivity.
  destruct (rohc_comp_set_traces_cb c0) as [[] c1] eqn:E1; [|discriminate].
  assert (H1 : feedbacks c1 = feedbacks c0).
  { revert E1. unfold rohc_comp_set_traces_cb.
    destruct (num_packets c0 >? 0); intros [= <-]. reflexivity. }
  destruct (rohc_comp_set_wlsb_window_width c1 _) as [[] c2] eqn:E2;
    [|discriminate].
  assert (H2 : feedbacks c2 = feedbacks c1).
  { revert E2. unfold rohc_comp_set_wlsb_window_width.
    repeat match goal with
           | |- context [if ?b then _ else _] => destruct b
           end; intros [= <-]; reflexivity. }
  destruct (rohc_comp_set_periodic_refreshes c2 _ _) as [[] c3] eqn:E3;
    [|discriminate].
  assert (H3 : feedbacks c3 = feedbacks c2).
  { revert E3. unfold rohc_comp_set_periodic_refreshes.
    repeat match goal with
           | |- context [if ?b then _ else _] => destruct b
           end; intros [= <-]; reflexivity. }
  destruct (if deprecated_api then _ else _) as [c4|] eqn:E4; [|discriminate].
  assert (H4 : feedbacks c4 = feedbacks c3).
  { destruct deprecated_api.
    - apply (add_default_ports_feedbacks _ _ _ E4).
    - injection E4 as <-. reflexivity. }
  repeat match goal with
         | |- context [if ?b then None else _] => destruct b; [discriminate|]
         end.
  intros [= <-].
  apply empty_ring_layout; try reflexivity. simpl.
  rewrite H4, H3, H2, H1, H0. apply foldl_insert_replicate.
Qed.

Lemma ring_layout_set_mrru (comp : rohc_comp) (v : Z) (nl nq : nat) :
  ring_layout FEEDBACK_RING_SIZE comp nl nq ->
  ring_layout FEEDBACK_RING_SIZE (set_mrru comp v) nl nq.
Proof. intros [H1 H2 H3 H4 H5 H6]. split; assumption. Qed.

(** [rohc_feedback_unlock] keeps the ring well formed: the feedbacks that
    were locked are queued again. *)
Lemma unlocked_layout (comp : rohc_comp) (nl nq : nat) :
  ring_layout FEEDBACK_RING_SIZE comp nl nq ->
  ring_layout FEEDBACK_RING_SIZE
    (set_ring comp (unlock_all (feedbacks comp)) (feedbacks_first comp)
              (feedbacks_first comp) (feedbacks_next comp))
    0 (nl + nq).
Proof.
  intros H. pose proof (rl_first _ _ _ _ H) as Hf. split; simpl.
  - unfold unlock_all. rewrite length_fmap. apply (rl_length _ _ _ _ H).
  - exact Hf.
  - apply (rl_count _ _ _ _ H).
  - symmetry. apply ring_pos_0; assumption.
  - apply (rl_next _ _ _ _ H).
  - intros k Hk. destruct (rl_slots _ _ _ _ H k Hk) as (s & Hs & Hcl).
    exists (set_locked s false). split.
    + unfold unlock_all. rewrite list_lookup_fmap, Hs. reflexivity.
    + unfold slot_class, locked_slot, queued_slot in *. simpl.
      destruct (Nat.ltb_spec k nl), (Nat.ltb_spec k (nl + nq)); try lia.
      * destruct Hcl as (_ & ? & ?). auto.
      * destruct Hcl as (_ & ? & ?). auto.
      * subst s. reflexivity.
Qed.

End Lifecycle.

End RingFacts.

(** ** Runs on a ring of four locations *)

Module RingExamples.

Import RohcComp RingInv RingFacts Samples.

Lemma ring_size_positive : (0 < ring_size)%nat.
Proof. unfold ring_size. lia. Qed.

Lemma comp_new_layout : ring_layout ring_size comp_new 0 0.
Proof.
  apply (rohc_comp_new_ring_layout ring_size ring_size_positive max_mrru false true
           (fun _ => true) true ROHC_SMALL_CID 15).
  reflexivity.
Qed.

Lemma comp_two_layout : ring_layout ring_size comp_two 0 2.
Proof.
  apply (piggybacked_layout ring_size ring_size_positive); [| unfold ring_size; lia | discriminate].
  apply (piggybacked_layout ring_size ring_size_positive);
    [apply comp_new_layout | unfold ring_size; lia | discriminate].
Qed.

Lemma comp_two_no_lock : no_slot_locked comp_two.
Proof.
  intros i s. destruct i as [|[|[|[|i]]]]; simpl; intros [= <-]; reflexivity.
Qed.

(** C5, witness: three calls to [rohc_feedback_get], the second one with
    a buffer too small for the second feedback, then one call to
    [rohc_feedback_unlock]. *)
Lemma feedback_gets_unlock_restores_witness :
  ring_wf ring_size comp_two /\ no_slot_locked comp_two /\
  exists rs bytes comp1,
    feedback_gets ring_size comp_two [100; 3; 100] = Some (rs, bytes, comp1) /\
    rohc_feedback_unlock ring_size comp1 = Some (true, comp_two) /\
    rohc_feedback_avail_bytes ring_size comp_two = 15.
Proof.
  assert (Hwf : ring_wf ring_size comp_two)
    by (exists 0%nat, 2%nat; apply comp_two_layout).
  split; [exact Hwf|]. split; [exact comp_two_no_lock|].
  destruct (feedback_gets_unlock_restores ring_size ring_size_positive comp_two
              [100; 3; 100] Hwf comp_two_no_lock)
    as (rs & bytes & comp1 & comp2 & Hgets & Hunlock & _ & _ & _ & _ & Heq).
  exists rs, bytes, comp1.
  subst comp2.
  split; [exact Hgets|]. split; [exact Hunlock | reflexivity].
Defined.

(** C4, witness: a feedback piggybacked on the new compressor. *)
Lemma rohc_comp_piggyback_feedback_witness :
  rohc_comp_piggyback_feedback ring_size true comp_new fb_short
    = Some (true, piggybacked ring_size comp_new fb_short) /\
  feedbacks_next (piggybacked ring_size comp_new fb_short) = 1%nat.
Proof.
  destruct (rohc_comp_piggyback_feedback_correct ring_size ring_size_positive true
              comp_new fb_short)
    as (s & _ & _ & _ & Hok & _).
  - reflexivity.
  - simpl. unfold ring_size. lia.
  - simpl. unfold ring_size. lia.
  - discriminate.
  - split; [|reflexivity].
    apply Hok; [|reflexivity].
    intros (_ & s' & Hs' & Hlen). injection Hs' as <-. apply Hlen. reflexivity.
Defined.

(** C4, counterexample: the ring of the new compressor is not full, yet
    the call fails when the memory for the copy cannot be allocated. *)
Lemma rohc_comp_piggyback_feedback_no_memory :
  ~ ring_full comp_new /\
  rohc_comp_piggyback_feedback ring_size false comp_new fb_short
    = Some (false, comp_new).
Proof.
  split; [|reflexivity].
  intros (_ & s & Hs & Hlen). injection Hs as <-. apply Hlen. reflexivity.
Qed.

Lemma comp_mrru_layout (m : Z) : ring_layout ring_size (comp_mrru m) 0 1.
Proof.
  apply (piggybacked_layout ring_size ring_size_positive);
    [| unfold ring_size; lia | discriminate].
  unfold rohc_comp_set_mrru.
  destruct (m >? Z.of_nat max_mrru); simpl;
    [|apply ring_layout_set_mrru]; apply comp_new_layout.
Qed.

Local Abbreviation compress3 :=
  (rohc_compress3 ring_size false fcs32_stub 0xffffffff).

(** C3, witness: feedbacks (4) + header (2) + payload (10) exceed the
    capacity of 10 bytes and, with the FCS-32, equal the MRRU of 20
    bytes. *)
Lemma rohc_compress3_segmentation_witness :
  exists res comp',
    compress3 (comp_mrru 20) env_30 10 = Some (res, comp') /\
    status res = ROHC_NEED_SEGMENT /\
    rru_len comp' = 16 /\
    region (rru comp') 0 16 =
      [0xfd; 0x04; 20; 21; 22; 23; 24; 25; 26; 27; 28; 29] ++
      uint32_bytes false
        (fcs32_stub [0xfd; 0x04; 20; 21; 22; 23; 24; 25; 26; 27; 28; 29]
                    0xffffffff).
Proof.
  destruct (rohc_compress3_segmentation ring_size ring_size_positive false
              fcs32_stub 0xffffffff (comp_mrru 20) env_30 10
              4 [0xf3; 1; 2; 3] (comp_mrru_locked 20) [0xfd; 0x04] 20)
    as (res & comp' & Hrun & Hseg & _).
  - exists 0%nat, 1%nat. apply comp_mrru_layout.
  - discriminate.
  - unfold SIZE_MAX. lia.
  - reflexivity.
  - reflexivity.
  - reflexivity.
  - reflexivity.
  - reflexivity.
  - unfold INT_MAX. simpl. lia.
  - simpl. lia.
  - simpl. lia.
  - simpl. lia.
  - simpl. lia.
  - simpl. lia.
  - exists res, comp'. split; [exact Hrun|].
    destruct Hseg as (Hst & Hoff & Hlen & Hreg & _); [simpl; unfold CRC_FCS32_LEN; lia|].
    split; [exact Hst|]. split; [exact Hlen|].
    rewrite Hoff, Hlen in Hreg. exact Hreg.
Defined.

(** C3, counterexample: header (2) + payload (10) + 4 is at most the MRRU
    of 18 bytes and the packet exceeds the capacity of 10 bytes, yet the
    call returns [ROHC_ERROR] and stages nothing: with the 4 bytes of
    feedback the sum exceeds the MRRU. *)
Lemma rohc_compress3_feedbacks_count_in_mrru :
  exists res comp',
    compress3 (comp_mrru 18) env_30 10 = Some (res, comp') /\
    10 < feedbacks_size res + 2 + 10 /\
    2 + 10 + CRC_FCS32_LEN <= mrru (comp_mrru 18) /\
    status res = ROHC_ERROR /\
    rru_len comp' = 0.
Proof.
  eexists _, _. split; [reflexivity|].
  simpl. unfold CRC_FCS32_LEN. repeat split; lia.
Qed.

Lemma comp_big_layout : ring_layout ring_size comp_big 0 2.
Proof.
  apply (piggybacked_layout ring_size ring_size_positive);
    [| unfold ring_size; lia | discriminate].
  apply (piggybacked_layout ring_size ring_size_positive);
    [apply comp_new_layout | unfold ring_size; lia | discriminate].
Qed.

(** C6, witness. *)
Lemma rohc_compress3_feedback_budget_witness :
  ring_wf ring_size comp_big /\
  exists res comp',
    compress3 comp_big env_30 2000 = Some (res, comp') /\
    (feedbacks_size res <= 500 \/
     exists i s,
       feedbacks comp_big !! i = Some s /\ queued_slot s /\
       feedbacks_size res <= 500 + emitted_size s).
Proof.
  assert (Hwf : ring_wf ring_size comp_big)
    by (exists 0%nat, 2%nat; apply comp_big_layout).
  split; [exact Hwf|].
  destruct (rohc_compress3_feedback_budget ring_size ring_size_positive false
              fcs32_stub 0xffffffff comp_big env_30 2000 Hwf)
    as [_ Hbound].
  destruct (compress3 comp_big env_30 2000) as [[res comp']|] eqn:Hrun;
    [|discriminate Hrun].
  exists res, comp'. split; [reflexivity|].
  apply (Hbound res comp' eq_refl).
Defined.

(** C6, counterexample: 604 bytes of feedbacks are prepended to the
    packet. *)
Lemma rohc_compress3_feedbacks_exceed_500 :
  exists res comp',
    compress3 comp_big env_30 2000 = Some (res, comp') /\
    feedbacks_size res = 604 /\
    status res = ROHC_OK /\
    length (rohc_packet res) = (604 + 2 + 10)%nat.
Proof.
  eexists _, _. split; [reflexivity|].
  repeat split.
Qed.

End RingExamples.

(** ** The list of RTP ports: removal, reset, round trips *)

Module PortListFacts.

Import RohcComp RtpPorts.

Lemma max_rtp_ports_eq : MAX_RTP_PORTS = 15%nat.
Proof. reflexivity. Qed.

Lemma length_shift_ports (n : nat) :
  forall (i idx : nat) (ports : list Z),
    length (shift_ports n i idx ports) = length ports.
Proof.
  induction n as [|n IH]; intros i idx ports; simpl; [reflexivity|].
  destruct (idx <? i)%nat; [|reflexivity].
  destruct (ports !! (i - 1)%nat); [|reflexivity].
  rewrite IH, length_insert. reflexivity.
Qed.

Lemma lookup_shift_ports (n : nat) :
  forall (i idx : nat) (ports : list Z) (j : nat),
    (i < length ports)%nat -> (i - idx <= n)%nat ->
    shift_ports n i idx ports !! j =
      if (idx <? j)%nat && (j <=? i)%nat then ports !! (j - 1)%nat
      else ports !! j.
Proof.
  induction n as [|n IH]; intros i idx ports j Hi Hn; simpl.
  - destruct (Nat.ltb_spec idx j), (Nat.leb_spec j i); simpl; try reflexivity.
    lia.
  - destruct (Nat.ltb_spec idx i) as [Hlt|Hge].
    + destruct (lookup_lt_is_Some_2 ports (i - 1)%nat ltac:(lia)) as [p Hp].
      rewrite Hp, IH by (rewrite ?length_insert; lia).
      destruct (Nat.ltb_spec idx j), (Nat.leb_spec j (i - 1)),
        (Nat.leb_spec j i); simpl; try lia;
        first [ rewrite list_lookup_insert_ne by lia; reflexivity
              | assert (j = i) as -> by lia;
                rewrite list_lookup_insert_eq by lia; symmetry; exact Hp ].
    + destruct (Nat.ltb_spec idx j), (Nat.leb_spec j i); simpl;
        try reflexivity.
      lia.
Qed.

Lemma length_unshift_ports (n : nat) :
  forall (i : nat) (ports : list Z),
    length (unshift_ports n i ports) = length ports.
Proof.
  induction n as [|n IH]; intros i ports; cbn [unshift_ports]; [reflexivity|].
  destruct (i <? MAX_RTP_PORTS - 1)%nat; [|reflexivity].
  destruct (ports !! (i + 1)%nat); [|reflexivity].
  rewrite IH, length_insert. reflexivity.
Qed.

Lemma lookup_unshift_ports (n : nat) :
  forall (i : nat) (ports : list Z) (j : nat),
    length ports = MAX_RTP_PORTS -> (MAX_RTP_PORTS - 1 - i <= n)%nat ->
    unshift_ports n i ports !! j =
      if (i <=? j)%nat && (j <? MAX_RTP_PORTS - 1)%nat
      then ports !! (j + 1)%nat else ports !! j.
Proof.
  pose proof max_rtp_ports_eq as HM.
  induction n as [|n IH]; intros i ports j Hlen Hn; cbn [unshift_ports].
  - destruct (Nat.leb_spec i j), (Nat.ltb_spec j (MAX_RTP_PORTS - 1));
      simpl; try reflexivity.
    lia.
  - destruct (Nat.ltb_spec i (MAX_RTP_PORTS - 1)) as [Hlt|Hge].
    + destruct (lookup_lt_is_Some_2 ports (i + 1)%nat ltac:(lia)) as [p Hp].
      rewrite Hp, IH by (rewrite ?length_insert; lia).
      destruct (Nat.leb_spec (i + 1) j), (Nat.leb_spec i j),
        (Nat.ltb_spec j (MAX_RTP_PORTS - 1)); simpl; try lia;
        first [ rewrite list_lookup_insert_ne by lia; reflexivity
              | assert (j = i) as -> by lia;
                rewrite list_lookup_insert_eq by lia; symmetry; exact Hp ].
    + destruct (Nat.leb_spec i j), (Nat.ltb_spec j (MAX_RTP_PORTS - 1));
        simpl; try reflexivity.
      lia.
Qed.

Lemma length_stored_at (ports : list Z) (n k : nat) (port : Z) :
  length (stored_at ports n k port) = length ports.
Proof.
  unfold stored_at. rewrite length_insert.
  destruct (k <? n)%nat; [apply length_shift_ports|reflexivity].
Qed.

Lemma lookup_stored_at (ports : list Z) (n k : nat) (port : Z) (j : nat) :
  length ports = MAX_RTP_PORTS -> (k < MAX_RTP_PORTS)%nat ->
  stored_at ports n k port !! j =
    if (j =? k)%nat then Some port
    else if (k <? n)%nat && (k <? j)%nat && (j <=? MAX_RTP_PORTS - 2)%nat
         then ports !! (j - 1)%nat
         else ports !! j.
Proof.
  pose proof max_rtp_ports_eq as HM.
  intros Hlen Hk. unfold stored_at.
  destruct (Nat.eqb_spec j k) as [->|Hne].
  - rewrite list_lookup_insert_eq; [reflexivity|].
    destruct (k <? n)%nat; rewrite ?length_shift_ports; lia.
  - rewrite list_lookup_insert_ne by lia.
    destruct (k <? n)%nat; [|reflexivity].
    rewrite lookup_shift_ports by lia. reflexivity.
Qed.

(** The search of [rohc_comp_add_rtp_port] on a list of [n] ports. *)
Lemma add_port_loop_scan (ports : list Z) (port : Z) (n : nat) :
  ports_layout ports n -> 0 < port ->
  forall m idx : nat,
    (m + idx = MAX_RTP_PORTS)%nat -> (idx <= n)%nat ->
    (forall i p, (i < idx)%nat -> ports !! i = Some p -> p < port) ->
    match add_port_loop m idx ports port with
    | PortStored ports' =>
        exists k, (k <= n)%nat /\ (k < MAX_RTP_PORTS)%nat /\
          (forall i p, (i < k)%nat -> ports !! i = Some p -> p < port) /\
          (forall p, (k < n)%nat -> ports !! k = Some p -> port < p) /\
          ports' = stored_at ports n k port
    | PortAlreadyThere => port ∈ ports
    | PortTableFull =>
        n = MAX_RTP_PORTS /\ forall i p, ports !! i = Some p -> p < port
    end.
Proof.
  intros Hlay Hport.
  destruct Hlay as [Hlen Hcount Hused Hunused Hasc].
  induction m as [|m IH]; intros idx Hm Hidx Hbelow; cbn [add_port_loop].
  - split; [lia|]. intros i p Hi. apply (Hbelow i); [|exact Hi].
    apply lookup_lt_Some in Hi. lia.
  - destruct (lookup_lt_is_Some_2 ports idx ltac:(lia)) as [p Hp].
    rewrite Hp.
    destruct (Z.eqb_spec p 0) as [Hz|Hnz].
    { exists idx.
      assert (n <= idx)%nat.
      { destruct (Nat.le_gt_cases n idx) as [|Hlt]; [assumption|].
        specialize (Hused idx p Hlt Hp). lia. }
      repeat split; try lia; [exact Hbelow|].
      unfold stored_at. destruct (Nat.ltb_spec idx n); [lia|reflexivity]. }
    assert (idx < n)%nat as Hin.
    { destruct (Nat.le_gt_cases n idx) as [Hle|]; [|assumption].
      specialize (Hunused idx p Hle Hp). lia. }
    destruct (Z.eqb_spec p port) as [->|Hneq].
    { apply list_elem_of_lookup. exists idx. exact Hp. }
    destruct (Z.ltb_spec port p) as [Hlt|Hge].
    { exists idx. repeat split; try lia; [exact Hbelow| |].
      - intros q _ Hq. congruence.
      - unfold stored_at. destruct (Nat.ltb_spec idx n); [reflexivity|lia]. }
    apply IH; [lia|lia|].
    intros i q Hi Hq.
    destruct (Nat.eq_dec i idx) as [->|]; [|apply (Hbelow i); [lia|exact Hq]].
    assert (q = p) by congruence. lia.
Qed.

Ltac port_cases :=
  repeat match goal with
         | H : context [(?a <? ?b)%nat] |- _ => destruct (Nat.ltb_spec a b)
         | H : context [(?a <=? ?b)%nat] |- _ => destruct (Nat.leb_spec a b)
         | H : context [(?a =? ?b)%nat] |- _ => destruct (Nat.eqb_spec a b)
         | |- context [(?a <? ?b)%nat] => destruct (Nat.ltb_spec a b)
         | |- context [(?a <=? ?b)%nat] => destruct (Nat.leb_spec a b)
         | |- context [(?a =? ?b)%nat] => destruct (Nat.eqb_spec a b)
         end;
  cbn [andb] in *.

(** Storing a port keeps the list in shape; with at most
    [MAX_RTP_PORTS - 2] ports before, no port is pushed out. *)
Lemma stored_at_layout (ports : list Z) (n k : nat) (port : Z) :
  ports_layout ports n -> 0 < port ->
  (k <= n)%nat -> (k < MAX_RTP_PORTS)%nat ->
  (forall i p, (i < k)%nat -> ports !! i = Some p -> p < port) ->
  (forall p, (k < n)%nat -> ports !! k = Some p -> port < p) ->
  exists n',
    ports_layout (stored_at ports n k port) n' /\
    (n <= n' <= S n)%nat /\
    ((n <= MAX_RTP_PORTS - 2)%nat -> n' = S n).
Proof.
  pose proof max_rtp_ports_eq as HM.
  intros [Hlen Hcount Hused Hunused Hasc] Hport Hkn Hk Hbelow Habove.
  assert (forall m q, (k <= m < n)%nat -> ports !! m = Some q -> port < q)
    as Hafter.
  { intros m q Hm Hq.
    destruct (lookup_lt_is_Some_2 ports k ltac:(lia)) as [pk Hpk].
    specialize (Habove pk ltac:(lia) Hpk).
    destruct (Nat.eq_dec m k) as [->|]; [congruence|].
    specialize (Hasc k m pk q ltac:(lia) ltac:(lia) Hpk Hq). lia. }
  exists (if (n <=? MAX_RTP_PORTS - 2)%nat then S n
          else if (k =? n)%nat then S n else n).
  split; [|split; port_cases; lia].
  split.
  - rewrite length_stored_at. exact Hlen.
  - port_cases; lia.
  - intros i p Hi Hp. rewrite lookup_stored_at in Hp by lia.
    port_cases; try lia; try congruence;
      first [ eapply Hused; [|exact Hp]; lia ].
  - intros i p Hi Hp. rewrite lookup_stored_at in Hp by lia.
    port_cases; try lia; try congruence;
      first [ eapply Hunused; [|exact Hp]; lia ].
  - intros i j p q Hij Hj Hp Hq.
    rewrite lookup_stored_at in Hp, Hq by lia.
    port_cases; try lia.
    all: try (injection Hp as <-). all: try (injection Hq as <-).
    all: try lia.
    all: first
      [ eapply Hasc; [| |exact Hp|exact Hq]; lia
      | eapply Hbelow; [|exact Hp]; lia
      | eapply Hafter; [|exact Hq]; lia ].
Qed.


Lemma stored_at_elem_of (ports : list Z) (n k : nat) (port p : Z) :
  length ports = MAX_RTP_PORTS -> (k < MAX_RTP_PORTS)%nat ->
  p ∈ stored_at ports n k port -> p = port \/ p ∈ ports.
Proof.
  intros Hlen Hk [j Hj]%list_elem_of_lookup.
  rewrite lookup_stored_at in Hj by assumption.
  port_cases;
    first [ left; congruence
          | right; apply list_elem_of_lookup; eexists; exact Hj ].
Qed.

Lemma stored_at_elem_of_port (ports : list Z) (n k : nat) (port : Z) :
  length ports = MAX_RTP_PORTS -> (k < MAX_RTP_PORTS)%nat ->
  port ∈ stored_at ports n k port.
Proof.
  intros Hlen Hk. apply list_elem_of_lookup. exists k.
  rewrite lookup_stored_at by assumption.
  rewrite Nat.eqb_refl. reflexivity.
Qed.

Lemma stored_at_elem_of_old (ports : list Z) (n k : nat) (port p : Z) :
  ports_layout ports n -> (n <= MAX_RTP_PORTS - 2)%nat -> (k <= n)%nat ->
  p ∈ ports -> p ∈ stored_at ports n k port.
Proof.
  pose proof max_rtp_ports_eq as HM.
  intros [Hlen Hcount Hused Hunused Hasc] Hn Hk [i Hi]%list_elem_of_lookup.
  pose proof (lookup_lt_Some _ _ _ Hi) as Hlt.
  apply list_elem_of_lookup.
  destruct (Nat.ltb_spec i k) as [Hik|Hik].
  - exists i. rewrite lookup_stored_at by lia. port_cases; try lia; exact Hi.
  - destruct (Nat.ltb_spec i n) as [Hin|Hin].
    + exists (S i). rewrite lookup_stored_at by lia.
      port_cases; try lia. replace (S i - 1)%nat with i by lia. exact Hi.
    + exists (MAX_RTP_PORTS - 1)%nat. rewrite lookup_stored_at by lia.
      port_cases; try lia.
      all: destruct (lookup_lt_is_Some_2 ports (MAX_RTP_PORTS - 1)%nat
                       ltac:(lia)) as [z Hz];
        rewrite Hz; f_equal;
        rewrite (Hunused (MAX_RTP_PORTS - 1)%nat z ltac:(lia) Hz),
          (Hunused _ _ Hin Hi); reflexivity.
Qed.

Lemma length_removed_at (ports : list Z) (k : nat) :
  length (removed_at ports k) = length ports.
Proof.
  unfold removed_at. rewrite length_insert. apply length_unshift_ports.
Qed.

Lemma lookup_removed_at (ports : list Z) (k j : nat) :
  length ports = MAX_RTP_PORTS ->
  removed_at ports k !! j =
    if (j =? MAX_RTP_PORTS - 1)%nat then Some 0
    else if (k <=? j)%nat then ports !! (j + 1)%nat else ports !! j.
Proof.
  pose proof max_rtp_ports_eq as HM.
  intros Hlen. unfold removed_at.
  destruct (Nat.eqb_spec j (MAX_RTP_PORTS - 1)) as [->|Hne].
  - rewrite list_lookup_insert_eq; [reflexivity|].
    rewrite length_unshift_ports. lia.
  - rewrite list_lookup_insert_ne by lia.
    rewrite lookup_unshift_ports by lia.
    destruct (Nat.leb_spec k j), (Nat.ltb_spec j (MAX_RTP_PORTS - 1));
      cbn [andb]; try reflexivity.
    rewrite !(lookup_ge_None_2 ports) by lia. reflexivity.
Qed.

(** The search of [rohc_comp_remove_rtp_port] on a list of [n] ports. *)
Lemma remove_port_loop_scan (ports : list Z) (port : Z) (n : nat) :
  ports_layout ports n -> 0 < port ->
  forall m idx : nat,
    (m + idx = MAX_RTP_PORTS)%nat -> (idx <= n)%nat ->
    (forall i p, (i < idx)%nat -> ports !! i = Some p -> p < port) ->
    match remove_port_loop m idx ports port with
    | PortRemoved ports' =>
        exists k, (k < n)%nat /\ ports !! k = Some port /\
                  ports' = removed_at ports k
    | PortNotThere => port ∉ ports
    end.
Proof.
  pose proof max_rtp_ports_eq as HM.
  intros [Hlen Hcount Hused Hunused Hasc] Hport.
  induction m as [|m IH]; intros idx Hm Hidx Hbelow; cbn [remove_port_loop].
  - intros [i Hi]%list_elem_of_lookup.
    pose proof (lookup_lt_Some _ _ _ Hi).
    specialize (Hbelow i port ltac:(lia) Hi). lia.
  - destruct (lookup_lt_is_Some_2 ports idx ltac:(lia)) as [p Hp].
    rewrite Hp.
    assert (forall i q, (idx < i)%nat -> ports !! i = Some q ->
                        q = 0 \/ p < q) as Hlater.
    { intros i q Hi Hq.
      destruct (Nat.ltb_spec i n); [right|left].
      - eapply Hasc; [| |exact Hp|exact Hq]; lia.
      - eapply Hunused; [|exact Hq]; lia. }
    destruct (Z.eqb_spec p 0) as [Hz|Hnz]; cbn [orb].
    { intros [i Hi]%list_elem_of_lookup.
      destruct (Nat.lt_trichotomy i idx) as [Hlt|[->|Hgt]].
      - specialize (Hbelow i port Hlt Hi). lia.
      - assert (p = port) by congruence. lia.
      - assert (n <= idx)%nat.
        { destruct (Nat.le_gt_cases n idx) as [|Hlt]; [assumption|].
          specialize (Hused idx p Hlt Hp). lia. }
        specialize (Hunused i port ltac:(lia) Hi). lia. }
    assert (idx < n)%nat as Hin.
    { destruct (Nat.le_gt_cases n idx) as [Hle|]; [|assumption].
      specialize (Hunused idx p Hle Hp). lia. }
    destruct (Z.gtb_spec p port) as [Hgt|Hle].
    { intros [i Hi]%list_elem_of_lookup.
      destruct (Nat.lt_trichotomy i idx) as [Hlt|[->|Hgt']].
      - specialize (Hbelow i port Hlt Hi). lia.
      - assert (p = port) by congruence. lia.
      - destruct (Hlater i port Hgt' Hi); lia. }
    destruct (Z.gtb_spec port p) as [Hgt|Hle'].
    { apply IH; [lia|lia|].
      intros i q Hi Hq.
      destruct (Nat.eq_dec i idx) as [->|]; [|apply (Hbelow i); [lia|exact Hq]].
      assert (q = p) by congruence. lia. }
    exists idx. assert (p = port) as -> by lia.
    repeat split; [lia|exact Hp].
Qed.

Lemma removed_at_layout (ports : list Z) (n k : nat) :
  ports_layout ports n -> (k < n)%nat ->
  ports_layout (removed_at ports k) (n - 1).
Proof.
  pose proof max_rtp_ports_eq as HM.
  intros [Hlen Hcount Hused Hunused Hasc] Hk.
  split.
  - rewrite length_removed_at. exact Hlen.
  - lia.
  - intros i p Hi Hp. rewrite lookup_removed_at in Hp by lia.
    port_cases; try lia; (eapply Hused; [|exact Hp]; lia).
  - intros i p Hi Hp. rewrite lookup_removed_at in Hp by lia.
    port_cases; try congruence; (eapply Hunused; [|exact Hp]; lia).
  - intros i j p q Hij Hj Hp Hq.
    rewrite lookup_removed_at in Hp, Hq by lia.
    port_cases; try lia; (eapply Hasc; [| |exact Hp|exact Hq]; lia).
Qed.



Lemma ports_layout_lookup (ports : list Z) (n i : nat) :
  ports_layout ports n -> (i < MAX_RTP_PORTS)%nat ->
  exists p, ports !! i = Some p /\ ((n <= i)%nat -> p = 0) /\
            ((i < n)%nat -> 0 < p).
Proof.
  intros [Hlen Hcount Hused Hunused Hasc] Hi.
  destruct (lookup_lt_is_Some_2 ports i ltac:(lia)) as [p Hp].
  exists p. split; [exact Hp|]. split; intros; eauto.
Qed.

Lemma ports_layout_unused (ports : list Z) (n i : nat) :
  ports_layout ports n -> (n <= i < MAX_RTP_PORTS)%nat ->
  ports !! i = Some 0.
Proof.
  intros Hlay Hi.
  destruct (ports_layout_lookup ports n i Hlay ltac:(lia)) as (p & Hp & Hz & _).
  rewrite Hp, Hz by lia. reflexivity.
Qed.

Lemma set_rtp_ports_eta (comp : rohc_comp) :
  set_rtp_ports comp (rtp_ports comp) = comp.
Proof. destruct comp; reflexivity. Qed.


(** The two ways [rohc_comp_add_rtp_port] ends on a list in shape. *)
Lemma rohc_comp_add_rtp_port_cases (comp : rohc_comp) (port : Z) (n : nat) :
  ports_layout (rtp_ports comp) n ->
  (exists k,
     rohc_comp_add_rtp_port comp port =
       (true, set_rtp_ports comp (stored_at (rtp_ports comp) n k port)) /\
     0 < port <= 0xffff /\ (port ∉ rtp_ports comp) /\
     (k <= n)%nat /\ (k < MAX_RTP_PORTS)%nat /\
     (forall i p, (i < k)%nat -> rtp_ports comp !! i = Some p -> p < port) /\
     (forall p, (k < n)%nat -> rtp_ports comp !! k = Some p -> port < p)) \/
  (rohc_comp_add_rtp_port comp port = (false, comp) /\
   (~ 0 < port <= 0xffff \/ port ∈ rtp_ports comp \/ n = MAX_RTP_PORTS)).
Proof.
  pose proof max_rtp_ports_eq as HM.
  intros Hlay. unfold rohc_comp_add_rtp_port.
  destruct (Z.leb_spec port 0) as [Hle|Hpos]; cbn [orb].
  { right. split; [reflexivity|]. left. lia. }
  destruct (Z.gtb_spec port 0xffff) as [Hgt|Hle].
  { right. split; [reflexivity|]. left. lia. }
  pose proof (add_port_loop_scan (rtp_ports comp) port n Hlay Hpos
                MAX_RTP_PORTS 0 ltac:(lia) ltac:(lia) ltac:(intros; lia))
    as Hscan.
  destruct (add_port_loop MAX_RTP_PORTS 0 (rtp_ports comp) port)
    as [ports'| |].
  - destruct Hscan as (k & Hkn & Hk & Hbelow & Habove & ->).
    left. exists k. repeat split; try assumption; try lia.
    intros [i Hi]%list_elem_of_lookup.
    destruct Hlay as [Hlen Hcount Hused Hunused Hasc].
    destruct (Nat.ltb_spec i k) as [Hik|Hik].
    { specialize (Hbelow i port Hik Hi). lia. }
    destruct (Nat.ltb_spec i n) as [Hin|Hin].
    + destruct (lookup_lt_is_Some_2 (rtp_ports comp) k ltac:(lia)) as [pk Hpk].
      specialize (Habove pk ltac:(lia) Hpk).
      destruct (Nat.eq_dec i k) as [->|]; [assert (pk = port) by congruence; lia|].
      specialize (Hasc k i pk port ltac:(lia) Hin Hpk Hi). lia.
    + specialize (Hunused i port Hin Hi). lia.
  - right. split; [reflexivity|]. right. left. exact Hscan.
  - right. split; [reflexivity|]. right. right. apply Hscan.
Qed.

(** The two ways [rohc_comp_remove_rtp_port] ends on a list in shape. *)
Lemma rohc_comp_remove_rtp_port_cases (comp : rohc_comp) (port : Z)
    (n : nat) :
  ports_layout (rtp_ports comp) n ->
  (exists k,
     rohc_comp_remove_rtp_port comp port =
       (true, set_rtp_ports comp (removed_at (rtp_ports comp) k)) /\
     0 < port <= 0xffff /\ (k < n)%nat /\
     rtp_ports comp !! k = Some port) \/
  (rohc_comp_remove_rtp_port comp port = (false, comp) /\
   (~ 0 < port <= 0xffff \/ port ∉ rtp_ports comp)).
Proof.
  pose proof max_rtp_ports_eq as HM.
  intros Hlay. unfold rohc_comp_remove_rtp_port.
  destruct (Z.leb_spec port 0) as [Hle|Hpos]; cbn [orb].
  { right. split; [reflexivity|]. left. lia. }
  destruct (Z.gtb_spec port 0xffff) as [Hgt|Hle].
  { right. split; [reflexivity|]. left. lia. }
  pose proof (remove_port_loop_scan (rtp_ports comp) port n Hlay Hpos
                MAX_RTP_PORTS 0 ltac:(lia) ltac:(lia) ltac:(intros; lia))
    as Hscan.
  destruct (ports_layout_lookup _ n 0 Hlay ltac:(lia)) as (p0 & Hp0 & Hz & Hnz).
  rewrite Hp0.
  destruct (Z.eqb_spec p0 0) as [->|Hne].
  { right. split; [reflexivity|]. right.
    intros [i Hi]%list_elem_of_lookup.
    assert (n = 0)%nat.
    { destruct n; [reflexivity|]. specialize (Hnz ltac:(lia)). lia. }
    destruct Hlay as [Hlen Hcount Hused Hunused Hasc].
    specialize (Hunused i port ltac:(lia) Hi). lia. }
  destruct (remove_port_loop MAX_RTP_PORTS 0 (rtp_ports comp) port)
    as [ports'|].
  - destruct Hscan as (k & Hk & Hport & ->).
    left. exists k. repeat split; try assumption; lia.
  - right. split; [reflexivity|]. right. exact Hscan.
Qed.

(** X1: On a list of RTP ports in order (n ports in strictly ascending
    order, then zeros only) that holds at most MAX_RTP_PORTS - 2 ports,
    rohc_comp_add_rtp_port succeeds exactly when the port is in 1..65535
    and not in the list; on success only the list changes, it is in order
    with n + 1 ports and holds the old ports and the new one; on failure
    the compressor is unchanged. *)
Theorem rohc_comp_add_rtp_port_inserts (comp : rohc_comp) (port : Z)
    (n : nat) :
  ports_layout (rtp_ports comp) n -> (n <= MAX_RTP_PORTS - 2)%nat ->
  let r := rohc_comp_add_rtp_port comp port in
  (r.1 = true <-> 0 < port <= 0xffff /\ port ∉ rtp_ports comp) /\
  (r.1 = true ->
   r.2 = set_rtp_ports comp (rtp_ports r.2) /\
   ports_layout (rtp_ports r.2) (S n) /\
   forall p, p ∈ rtp_ports r.2 <-> p = port \/ p ∈ rtp_ports comp) /\
  (r.1 = false -> r.2 = comp).
Proof.
  pose proof max_rtp_ports_eq as HM.
  intros Hlay Hn r. subst r.
  destruct (rohc_comp_add_rtp_port_cases comp port n Hlay)
    as [(k & -> & Hrange & Hnotin & Hkn & Hk & Hbelow & Habove)
       |(-> & Hwhy)]; cbn [fst snd].
  - split; [tauto|]. split; [|discriminate]. intros _.
    split; [reflexivity|].
    change (rtp_ports (set_rtp_ports comp ?l)) with l.
    destruct (stored_at_layout _ n k port Hlay ltac:(lia) Hkn Hk Hbelow Habove)
      as (n' & Hlay' & _ & Hn').
    rewrite Hn' in Hlay' by exact Hn.
    split; [exact Hlay'|].
    intros p. split.
    + apply stored_at_elem_of; [apply Hlay|exact Hk].
    + intros [->|Hin].
      * apply stored_at_elem_of_port; [apply Hlay|exact Hk].
      * apply stored_at_elem_of_old; assumption.
  - split; [|split; [discriminate|reflexivity]].
    split; [discriminate|]. intros [Hrange Hnotin].
    destruct Hwhy as [Hbad|[Hin|Hfull]]; [tauto|tauto|lia].
Qed.

(** X2: Whatever the number n of ports of a list in order,
    rohc_comp_add_rtp_port leaves the list in order, with n or n + 1
    ports; it puts no value in the list but the given port, and returns
    true only if the port was not in the list and is in it afterwards. *)
Theorem rohc_comp_add_rtp_port_keeps_order (comp : rohc_comp) (port : Z)
    (n : nat) :
  ports_layout (rtp_ports comp) n ->
  let r := rohc_comp_add_rtp_port comp port in
  exists n',
    ports_layout (rtp_ports r.2) n' /\ (n <= n' <= S n)%nat /\
    (forall p, p ∈ rtp_ports r.2 -> p = port \/ p ∈ rtp_ports comp) /\
    (r.1 = true -> port ∈ rtp_ports r.2 /\ port ∉ rtp_ports comp).
Proof.
  intros Hlay r. subst r.
  destruct (rohc_comp_add_rtp_port_cases comp port n Hlay)
    as [(k & -> & Hrange & Hnotin & Hkn & Hk & Hbelow & Habove)
       |(-> & Hwhy)]; cbn [fst snd].
  - change (rtp_ports (set_rtp_ports comp ?l)) with l.
    destruct (stored_at_layout _ n k port Hlay ltac:(lia) Hkn Hk Hbelow Habove)
      as (n' & Hlay' & Hn' & _).
    exists n'. split; [exact Hlay'|]. split; [exact Hn'|]. split.
    + intros p. apply stored_at_elem_of; [apply Hlay|exact Hk].
    + intros _. split; [|exact Hnotin].
      apply stored_at_elem_of_port; [apply Hlay|exact Hk].
  - exists n. split; [exact Hlay|]. split; [lia|]. split; [tauto|discriminate].
Qed.






Lemma reset_ports_loop_zero (ports : list Z) (n : nat) :
  ports_layout ports n ->
  forall (m idx : nat) (l : list Z),
    (m + idx = MAX_RTP_PORTS)%nat -> length l = MAX_RTP_PORTS ->
    (forall i, (i < MAX_RTP_PORTS)%nat ->
       l !! i = if (i <? idx)%nat then Some 0 else ports !! i) ->
    reset_ports_loop m idx l = replicate MAX_RTP_PORTS 0.
Proof.
  pose proof max_rtp_ports_eq as HM.
  intros Hlay. pose proof (pl_length _ _ Hlay) as Hlen.
  assert (forall idx l, length l = MAX_RTP_PORTS ->
            (forall i, (i < MAX_RTP_PORTS)%nat ->
               l !! i = if (i <? idx)%nat then Some 0 else ports !! i) ->
            (n <= idx)%nat -> l = replicate MAX_RTP_PORTS 0) as Hdone.
  { intros idx l Hl Hlook Hidx. apply list_eq. intros i.
    destruct (Nat.ltb_spec i MAX_RTP_PORTS) as [Hi|Hi].
    - rewrite Hlook by exact Hi. rewrite lookup_replicate_2 by exact Hi.
      destruct (Nat.ltb_spec i idx); [reflexivity|].
      apply (ports_layout_unused ports n); [exact Hlay|lia].
    - rewrite lookup_ge_None_2 by lia.
      symmetry. apply lookup_ge_None_2. rewrite length_replicate. lia. }
  induction m as [|m IH]; intros idx l Hm Hl Hlook; cbn [reset_ports_loop].
  - apply (Hdone idx); [assumption|assumption|].
    pose proof (pl_count _ _ Hlay). lia.
  - destruct (lookup_lt_is_Some_2 l idx ltac:(lia)) as [p Hp].
    rewrite Hp.
    pose proof (Hlook idx ltac:(lia)) as Hidx.
    rewrite Nat.ltb_irrefl, Hp in Hidx. symmetry in Hidx.
    destruct (ports_layout_lookup ports n idx Hlay ltac:(lia))
      as (q & Hq & Hz & Hnz).
    assert (q = p) as -> by congruence.
    destruct (Z.eqb_spec p 0) as [->|Hne].
    + apply (Hdone idx); [assumption|assumption|].
      destruct (Nat.le_gt_cases n idx) as [|Hlt]; [assumption|].
      specialize (Hnz Hlt). lia.
    + apply IH; [lia|rewrite length_insert; exact Hl|].
      intros i Hi.
      destruct (Nat.eq_dec i idx) as [->|Hneq].
      * rewrite list_lookup_insert_eq by lia.
        destruct (Nat.ltb_spec idx (S idx)); [reflexivity|lia].
      * rewrite list_lookup_insert_ne by lia. rewrite Hlook by exact Hi.
        destruct (Nat.ltb_spec i idx), (Nat.ltb_spec i (S idx));
          try reflexivity; lia.
Qed.

(** X6: On a list of RTP ports in order, rohc_comp_reset_rtp_ports returns
    true and sets every entry to zero, nothing else changes;
    rohc_comp_remove_rtp_port then fails for every port. *)
Theorem rohc_comp_reset_rtp_ports_empties (comp : rohc_comp) (n : nat)
    (port : Z) :
  ports_layout (rtp_ports comp) n ->
  let comp' := set_rtp_ports comp (replicate MAX_RTP_PORTS 0) in
  rohc_comp_reset_rtp_ports comp = (true, comp') /\
  ports_layout (rtp_ports comp') 0 /\
  rohc_comp_remove_rtp_port comp' port = (false, comp').
Proof.
  pose proof max_rtp_ports_eq as HM.
  intros Hlay comp'.
  assert (ports_layout (rtp_ports comp') 0) as Hlay'.
  { unfold comp'. change (rtp_ports (set_rtp_ports comp ?l)) with l.
    split.
    - apply length_replicate.
    - lia.
    - intros; lia.
    - intros i p _ Hp. apply lookup_replicate in Hp. tauto.
    - intros; lia. }
  split; [|split; [exact Hlay'|]].
  - unfold rohc_comp_reset_rtp_ports.
    rewrite (reset_ports_loop_zero _ n Hlay MAX_RTP_PORTS 0);
      [reflexivity|lia|apply Hlay|].
    intros i _. destruct (Nat.ltb_spec i 0); [lia|reflexivity].
  - destruct (rohc_comp_remove_rtp_port_cases comp' port 0 Hlay')
      as [(k & _ & _ & Hk & _)|(-> & _)]; [lia|reflexivity].
Qed.

End PortListFacts.

(** ** Segments *)

Module SegmentFacts.

Import RohcComp RingInv CIntFacts CMemFacts RingFacts Segments.

Section SegmentProofs.

Variable FEEDBACK_RING_SIZE : nat.
Hypothesis ring_size_pos : (0 < FEEDBACK_RING_SIZE)%nat.

Local Abbreviation SIZE := FEEDBACK_RING_SIZE.
Local Abbreviation ring_layout := (ring_layout FEEDBACK_RING_SIZE).
Local Abbreviation rohc_comp_get_segment :=
  (rohc_comp_get_segment FEEDBACK_RING_SIZE).
Local Abbreviation get_segments := (get_segments FEEDBACK_RING_SIZE).

Lemma segment_type_eq (b : bool) :
  to_uint8 (Z.lor 0xfe (if b then 1 else 0)) = segment_type b.
Proof. destruct b; reflexivity. Qed.

(** A call on a compressor that has no feedback to send. *)
Lemma rohc_comp_get_segment_step (comp : rohc_comp) (nl : nat)
    (segment : list Z) (max_len : Z) :
  ring_layout comp nl 0 ->
  2 <= max_len <= SIZE_MAX ->
  0 < rru_len comp -> 0 <= rru_off comp ->
  rru_off comp + rru_len comp <= Z.of_nat (length (rru comp)) ->
  Z.of_nat (length (rru comp)) <= SIZE_MAX ->
  let n := Z.min (max_len - 1) (rru_len comp) in
  let final := n =? rru_len comp in
  rohc_comp_get_segment comp segment max_len =
    Some ({| seg_status := if final then ROHC_OK else ROHC_NEED_SEGMENT;
             seg_buffer :=
               memcpy (<[0%nat := segment_type final]> segment) 1
                 (region (rru comp) (Z.to_nat (rru_off comp)) (Z.to_nat n));
             seg_len := Some (1 + n) |},
          set_rru comp (rru comp)
                  (if final then 0 else rru_off comp + n)
                  (rru_len comp - n)).
Proof.
  intros Hlay Hmax Hlen Hoff Hfit Hbuf n final.
  unfold Segments.rohc_comp_get_segment.
  destruct (Z.leb_spec max_len 0); [lia|].
  destruct (Z.leb_spec (rru_len comp) 0); [lia|].
  destruct (Z.leb_spec max_len 1); [lia|].
  cbn [segment_feedbacks].
  destruct (rohc_feedback_get_layout SIZE ring_size_pos comp nl 0
              (to_uint32 (to_size_t (max_len - 0))) Hlay) as [Hget _].
  rewrite Hget by reflexivity. cbn [mbind option_bind].
  change (0 >? 0) with false. cbv beta iota.
  cbn [mbind option_bind].
  replace (max_len - 0 - 1) with (max_len - 1) by lia.
  rewrite (to_size_t_small (max_len - 1)) by (unfold SIZE_MAX in *; lia).
  fold n.
  destruct (Z.gtb_spec n 0) as [_|Hn]; [|subst n; lia].
  cbn [negb].
  change (to_size_t (0 + 1)) with 1.
  rewrite segment_type_eq. fold final.
  rewrite (to_size_t_small (1 + n)) by (unfold SIZE_MAX in *; subst n; lia).
  rewrite (to_size_t_small (rru_off comp + n))
    by (unfold SIZE_MAX in *; subst n; lia).
  rewrite (to_size_t_small (rru_len comp - n))
    by (unfold SIZE_MAX in *; subst n; lia).
  cbn [rru_len rru_off rru set_rru].
  change (Z.to_nat 1) with 1%nat.
  subst final.
  destruct (Z.eqb_spec n (rru_len comp)) as [Heq|Hne].
  - destruct (Z.eqb_spec (rru_len comp - n) 0); [|lia]. reflexivity.
  - destruct (Z.eqb_spec (rru_len comp - n) 0); [lia|]. reflexivity.
Qed.


Lemma region_app (buf : list Z) (off a b : nat) :
  region buf off (a + b) = region buf off a ++ region buf (off + a) b.
Proof.
  unfold region. rewrite <- take_take_drop, drop_drop. reflexivity.
Qed.

(** The first [1 + n] octets of the buffer after a call: the type octet,
    then the [n] octets copied from the RRU. *)
Lemma take_segment (segment data : list Z) (ty : Z) :
  (1 + length data <= length segment)%nat ->
  take (1 + length data) (memcpy (<[0%nat := ty]> segment) 1 data) =
    ty :: data.
Proof.
  intros Hlen.
  rewrite <- take_take_drop.
  change (take (length data) (drop 1 ?l)) with (region l 1 (length data)).
  rewrite region_memcpy by (rewrite length_insert; lia).
  assert (memcpy (<[0%nat := ty]> segment) 1 data !! 0%nat = Some ty) as H0.
  { rewrite lookup_memcpy_lt by lia.
    apply list_lookup_insert_eq. lia. }
  destruct (memcpy (<[0%nat := ty]> segment) 1 data) as [|x l];
    [discriminate|].
  injection H0 as ->. reflexivity.
Qed.

(** The calls to [rohc_comp_get_segment] made until the RRU is consumed. *)
Lemma get_segments_run (fuel : nat) :
  forall (comp : rohc_comp) (nl : nat) (segment : list Z) (max_len : Z),
    ring_layout comp nl 0 ->
    2 <= max_len <= SIZE_MAX ->
    max_len <= Z.of_nat (length segment) ->
    0 < rru_len comp -> 0 <= rru_off comp ->
    rru_off comp + rru_len comp <= Z.of_nat (length (rru comp)) ->
    Z.of_nat (length (rru comp)) <= SIZE_MAX ->
    rru_len comp <= Z.of_nat fuel ->
    exists firsts last,
      get_segments fuel comp segment max_len =
        Some (firsts ++ [last], set_rru comp (rru comp) 0 0) /\
      concat (drop 1 <$> (firsts ++ [last])) =
        region (rru comp) (Z.to_nat (rru_off comp))
               (Z.to_nat (rru_len comp)) /\
      Forall (fun s => s !! 0%nat = Some 0xfe /\
                       Z.of_nat (length s) = max_len) firsts /\
      last !! 0%nat = Some 0xff /\
      2 <= Z.of_nat (length last) <= max_len /\
      rru_len comp =
        Z.of_nat (length firsts) * (max_len - 1) +
        (Z.of_nat (length last) - 1).
Proof.
  induction fuel as [|fuel IH];
    intros comp nl segment max_len Hlay Hmax Hseg Hlen Hoff Hfit Hbuf Hfuel;
    [lia|].
  cbn [Segments.get_segments].
  rewrite (rohc_comp_get_segment_step comp nl segment max_len)
    by assumption.
  cbn [mbind option_bind seg_len seg_buffer seg_status].
  set (n := Z.min (max_len - 1) (rru_len comp)).
  assert (0 < n <= max_len - 1) as Hn by (subst n; lia).
  assert (n <= rru_len comp) as Hn' by (subst n; lia).
  set (data := region (rru comp) (Z.to_nat (rru_off comp)) (Z.to_nat n)).
  assert (length data = Z.to_nat n) as Hdata.
  { unfold data. apply length_region. lia. }
  assert (forall ty,
            take (Z.to_nat (1 + n))
                 (memcpy (<[0%nat := ty]> segment) 1 data) = ty :: data)
    as Htake.
  { intros ty. replace (Z.to_nat (1 + n)) with (1 + length data)%nat by lia.
    apply take_segment. lia. }
  rewrite Htake.
  destruct (Z.eqb_spec n (rru_len comp)) as [Heq|Hne].
  - exists [], (segment_type true :: data).
    cbn [app fmap list_fmap concat drop length].
    rewrite app_nil_r.
    split; [do 3 f_equal; lia|].
    split; [unfold data; rewrite Heq; reflexivity|].
    split; [constructor|].
    split; [reflexivity|].
    rewrite Hdata. lia.
  - set (comp1 := set_rru comp (rru comp) (rru_off comp + n)
                          (rru_len comp - n)).
    destruct (IH comp1 nl
                (memcpy (<[0%nat := segment_type false]> segment) 1 data)
                max_len)
      as (firsts & last & Hrun & Hcat & Hfirsts & Hlast & Hlastlen & Hcount).
    + apply ring_layout_set_rru. exact Hlay.
    + exact Hmax.
    + rewrite length_memcpy, length_insert. exact Hseg.
    + cbn [comp1 rru_len set_rru]. lia.
    + cbn [comp1 rru_off set_rru]. lia.
    + cbn [comp1 rru_off rru_len rru set_rru]. lia.
    + exact Hbuf.
    + cbn [comp1 rru_len set_rru]. lia.
    + rewrite Hrun. cbn [mbind option_bind].
      exists ((segment_type false :: data) :: firsts), last.
      split; [reflexivity|].
      split.
      { cbn [app fmap list_fmap concat drop].
        change (list_fmap _ _ (drop 1) (firsts ++ [last]))
          with (drop 1 <$> (firsts ++ [last])).
        rewrite Hcat. cbn [comp1 rru_off rru_len rru set_rru].
        unfold data.
        replace (Z.to_nat (rru_len comp))
          with (Z.to_nat n + Z.to_nat (rru_len comp - n))%nat by lia.
        rewrite region_app. do 2 f_equal. lia. }
      split.
      { constructor; [|exact Hfirsts].
        split; [reflexivity|]. cbn [length]. rewrite Hdata.
        subst n. lia. }
      split; [exact Hlast|].
      split; [exact Hlastlen|].
      cbn [comp1 rru_len set_rru] in Hcount. cbn [length app].
      subst n. lia.
Qed.

(** X20: With an RRU staged, no feedback queued and a buffer of max_len >=
    2 bytes, calling rohc_comp_get_segment until it returns ROHC_OK takes
    at most rru_len calls; the segments without their first byte, put end
    to end, are the staged RRU; every segment but the last one begins with
    0xFE and has max_len bytes, the last one begins with 0xFF; afterwards
    the RRU length and offset are 0. *)
Theorem get_segments_deliver_rru (fuel : nat) :
  forall (comp : rohc_comp) (nl : nat) (segment : list Z) (max_len : Z),
    ring_layout comp nl 0 ->
    2 <= max_len <= SIZE_MAX ->
    max_len <= Z.of_nat (length segment) ->
    0 < rru_len comp -> 0 <= rru_off comp ->
    rru_off comp + rru_len comp <= Z.of_nat (length (rru comp)) ->
    Z.of_nat (length (rru comp)) <= SIZE_MAX ->
    rru_len comp <= Z.of_nat fuel ->
    exists firsts last,
      get_segments fuel comp segment max_len =
        Some (firsts ++ [last], set_rru comp (rru comp) 0 0) /\
      concat (drop 1 <$> (firsts ++ [last])) =
        region (rru comp) (Z.to_nat (rru_off comp))
               (Z.to_nat (rru_len comp)) /\
      Forall (fun s => s !! 0%nat = Some 0xfe /\
                       Z.of_nat (length s) = max_len) firsts /\
      last !! 0%nat = Some 0xff /\
      2 <= Z.of_nat (length last) <= max_len /\
      rru_len comp =
        Z.of_nat (length firsts) * (max_len - 1) +
        (Z.of_nat (length last) - 1).
Proof.
  exact (get_segments_run fuel).
Qed.

End SegmentProofs.

End SegmentFacts.

(** ** The queue of feedbacks *)

Module FeedbackQueueFacts.

Import RohcComp RingInv CIntFacts CMemFacts RingFacts FeedbackQueue.

Lemma filter_all {A : Type} (f : A -> bool) (l : list A) :
  Forall (fun x => f x = true) l -> List.filter f l = l.
Proof.
  induction 1 as [|x l Hx _ IH]; cbn [List.filter]; [reflexivity|].
  rewrite Hx, IH. reflexivity.
Qed.

Lemma filter_none {A : Type} (f : A -> bool) (l : list A) :
  Forall (fun x => f x = false) l -> List.filter f l = [].
Proof.
  induction 1 as [|x l Hx _ IH]; cbn [List.filter]; [reflexivity|].
  rewrite Hx, IH. reflexivity.
Qed.

Section QueueProofs.

Variable FEEDBACK_RING_SIZE : nat.
Hypothesis ring_size_pos : (0 < FEEDBACK_RING_SIZE)%nat.

Local Abbreviation SIZE := FEEDBACK_RING_SIZE.
Local Abbreviation ring_pos := (ring_pos FEEDBACK_RING_SIZE).
Local Abbreviation ring_succ := (ring_succ FEEDBACK_RING_SIZE).
Local Abbreviation ring_layout := (ring_layout FEEDBACK_RING_SIZE).
Local Abbreviation lock_first_unlocked :=
  (lock_first_unlocked FEEDBACK_RING_SIZE).
Local Abbreviation piggybacked := (piggybacked FEEDBACK_RING_SIZE).

Lemma length_ring_order (comp : rohc_comp) :
  length (ring_order comp) = length (feedbacks comp).
Proof.
  clear ring_size_pos.
  unfold ring_order. rewrite length_app, length_drop, length_take. lia.
Qed.

Lemma lookup_ring_order (comp : rohc_comp) (k : nat) :
  length (feedbacks comp) = SIZE -> (feedbacks_first comp < SIZE)%nat ->
  (k < SIZE)%nat ->
  ring_order comp !! k = feedbacks comp !! ring_pos (feedbacks_first comp) k.
Proof.
  intros Hlen Hfirst Hk. unfold ring_order, RingInv.ring_pos.
  destruct (Nat.ltb_spec (feedbacks_first comp + k) SIZE) as [Hlt|Hge].
  - rewrite lookup_app_l by (rewrite length_drop; lia).
    apply lookup_drop.
  - rewrite lookup_app_r by (rewrite length_drop; lia).
    rewrite length_drop, lookup_take_lt by lia.
    f_equal. lia.
Qed.

(** The ring of a compressor in shape, in ring order: the locked
    feedbacks, the queued ones, then unused locations. *)
Lemma ring_order_layout (comp : rohc_comp) (nl nq : nat) :
  ring_layout comp nl nq ->
  exists ls qs es,
    ring_order comp = ls ++ qs ++ es /\
    length ls = nl /\ length qs = nq /\
    Forall locked_slot ls /\ Forall queued_slot qs /\
    Forall (fun s => s = empty_feedback) es.
Proof.
  intros Hlay.
  pose proof (rl_length _ _ _ _ Hlay) as Hlen.
  pose proof (rl_first _ _ _ _ Hlay) as Hfirst.
  pose proof (rl_count _ _ _ _ Hlay) as Hcount.
  pose proof (length_ring_order comp) as Hlo. rewrite Hlen in Hlo.
  assert (forall k s, ring_order comp !! k = Some s -> slot_class nl nq k s)
    as Hclass.
  { intros k s Hs. pose proof (lookup_lt_Some _ _ _ Hs) as Hk.
    rewrite lookup_ring_order in Hs by lia.
    eapply ring_layout_slot; [exact Hlay|lia|exact Hs]. }
  exists (take nl (ring_order comp)),
         (take nq (drop nl (ring_order comp))),
         (drop (nl + nq) (ring_order comp)).
  split.
  { rewrite <- (drop_drop _ nq nl), take_drop, take_drop. reflexivity. }
  split; [rewrite length_take; lia|].
  split; [rewrite length_take, length_drop; lia|].
  split; [|split]; apply Forall_lookup_2; intros i s Hs.
  - pose proof (lookup_lt_Some _ _ _ Hs) as Hi. rewrite length_take in Hi.
    rewrite lookup_take_lt in Hs by lia.
    specialize (Hclass i s Hs). unfold slot_class in Hclass.
    destruct (Nat.ltb_spec i nl); [exact Hclass|lia].
  - pose proof (lookup_lt_Some _ _ _ Hs) as Hi. rewrite length_take in Hi.
    rewrite lookup_take_lt, lookup_drop in Hs by lia.
    specialize (Hclass _ s Hs). unfold slot_class in Hclass.
    destruct (Nat.ltb_spec (nl + i) nl); [lia|].
    destruct (Nat.ltb_spec (nl + i) (nl + nq)); [exact Hclass|lia].
  - rewrite lookup_drop in Hs.
    specialize (Hclass _ s Hs). unfold slot_class in Hclass.
    destruct (Nat.ltb_spec (nl + nq + i) nl); [lia|].
    destruct (Nat.ltb_spec (nl + nq + i) (nl + nq)); [lia|exact Hclass].
Qed.

Lemma waiting_locked (s : rohc_feedback) : locked_slot s -> waiting s = false.
Proof.
  clear ring_size_pos.
  intros (Hl & _ & _). unfold waiting. rewrite Hl. apply andb_false_r.
Qed.

Lemma waiting_queued (s : rohc_feedback) : queued_slot s -> waiting s = true.
Proof.
  clear ring_size_pos.
  intros (Hl & Hlen & _). unfold waiting. rewrite Hl.
  rewrite (proj2 (Z.gtb_gt _ _)) by lia. reflexivity.
Qed.

(** In a ring in shape the queued feedbacks are the [nq] locations found
    after the [nl] locked ones. *)
Lemma queued_feedbacks_layout (comp : rohc_comp) (nl nq : nat) :
  ring_layout comp nl nq ->
  queued_feedbacks comp = take nq (drop nl (ring_order comp)) /\
  locked_feedbacks comp = take nl (ring_order comp) /\
  length (queued_feedbacks comp) = nq /\
  length (locked_feedbacks comp) = nl /\
  Forall queued_slot (queued_feedbacks comp) /\
  Forall locked_slot (locked_feedbacks comp).
Proof.
  intros Hlay.
  destruct (ring_order_layout comp nl nq Hlay)
    as (ls & qs & es & Heq & Hnl & Hnq & Hls & Hqs & Hes).
  unfold queued_feedbacks, locked_feedbacks. rewrite Heq.
  rewrite !List.filter_app.
  rewrite (filter_none waiting ls), (filter_all waiting qs),
    (filter_none waiting es), (filter_all is_locked ls),
    (filter_none is_locked qs), (filter_none is_locked es).
  - rewrite !app_nil_r. cbn [app].
    rewrite drop_app_length' by (symmetry; exact Hnl).
    rewrite take_app_length' by (symmetry; exact Hnq).
    rewrite take_app_length' by (symmetry; exact Hnl).
    repeat split; assumption.
  - eapply Forall_impl; [exact Hes|]. intros s ->. reflexivity.
  - eapply Forall_impl; [exact Hqs|]. intros s Hs. apply Hs.
  - eapply Forall_impl; [exact Hls|]. intros s Hs. apply Hs.
  - eapply Forall_impl; [exact Hes|]. intros s ->. reflexivity.
  - eapply Forall_impl; [exact Hqs|]. apply waiting_queued.
  - eapply Forall_impl; [exact Hls|]. apply waiting_locked.
Qed.


Lemma ring_order_set_ring (comp : rohc_comp) (fbs : list rohc_feedback)
    (first fu nx : nat) :
  ring_order (set_ring comp fbs first fu nx) = drop first fbs ++ take first fbs.
Proof. reflexivity. Qed.

(** Writing the location found [k] steps after [first] writes the entry
    [k] of the ring taken in ring order. *)
Lemma ring_order_insert (comp : rohc_comp) (k fu nx : nat)
    (x : rohc_feedback) :
  length (feedbacks comp) = SIZE -> (feedbacks_first comp < SIZE)%nat ->
  (k < SIZE)%nat ->
  ring_order
    (set_ring comp
       (<[ring_pos (feedbacks_first comp) k := x]> (feedbacks comp))
       (feedbacks_first comp) fu nx) =
  <[k := x]> (ring_order comp).
Proof.
  intros Hlen Hfirst Hk.
  set (comp' := set_ring comp _ _ _ _).
  assert (length (feedbacks comp') = SIZE) as Hlen'
    by (unfold comp'; cbn [feedbacks set_ring]; rewrite length_insert; lia).
  apply list_eq. intros i.
  destruct (Nat.ltb_spec i SIZE) as [Hi|Hi].
  - rewrite (lookup_ring_order comp') by (try exact Hlen'; assumption).
    unfold comp'. cbn [feedbacks feedbacks_first set_ring].
    destruct (Nat.eq_dec i k) as [->|Hne].
    + rewrite !list_lookup_insert_eq; [reflexivity| |].
      * rewrite length_ring_order. lia.
      * rewrite Hlen. apply ring_pos_lt; [exact ring_size_pos|lia|lia].
    + rewrite !list_lookup_insert_ne.
      * symmetry. apply lookup_ring_order; assumption.
      * congruence.
      * intros Heq. apply Hne. symmetry.
        apply (ring_pos_inj SIZE ring_size_pos (feedbacks_first comp));
          assumption.
  - rewrite !lookup_ge_None_2; [reflexivity| |].
    + rewrite length_insert, length_ring_order. lia.
    + rewrite length_ring_order. lia.
Qed.

(** *** [rohc_feedback_get] takes the head of the queue *)

Lemma queued_feedbacks_lock (comp : rohc_comp) (nl nq : nat)
    (s : rohc_feedback) :
  ring_layout comp nl nq -> (0 < nq)%nat ->
  feedbacks comp !! feedbacks_first_unlocked comp = Some s ->
  queued_feedbacks comp = s :: queued_feedbacks (lock_first_unlocked comp s) /\
  locked_feedbacks (lock_first_unlocked comp s) =
    locked_feedbacks comp ++ [set_locked s true].
Proof.
  intros Hlay Hnq Hs.
  pose proof (rl_length _ _ _ _ Hlay) as Hlen.
  pose proof (rl_first _ _ _ _ Hlay) as Hfirst.
  pose proof (rl_count _ _ _ _ Hlay) as Hcount.
  pose proof (lock_first_unlocked_layout SIZE ring_size_pos comp nl nq s
                Hlay Hnq Hs) as Hlay'.
  destruct (queued_feedbacks_layout comp nl nq Hlay) as (Hq & Hl & _).
  destruct (queued_feedbacks_layout _ _ _ Hlay') as (Hq' & Hl' & _).
  assert (ring_order (lock_first_unlocked comp s) =
          <[nl := set_locked s true]> (ring_order comp)) as Hro.
  { unfold RingInv.lock_first_unlocked.
    rewrite (rl_first_unlocked _ _ _ _ Hlay).
    apply ring_order_insert; [assumption|assumption|lia]. }
  assert (ring_order comp !! nl = Some s) as Hnl.
  { rewrite lookup_ring_order by (try assumption; lia).
    rewrite <- (rl_first_unlocked _ _ _ _ Hlay). exact Hs. }
  split.
  - rewrite Hq, Hq', Hro.
    rewrite drop_insert_lt by lia.
    rewrite (drop_S _ _ _ Hnl).
    destruct nq as [|nq]; [lia|].
    cbn [take]. replace (S nq - 1)%nat with nq by lia. reflexivity.
  - rewrite Hl, Hl', Hro.
    rewrite (take_S_r _ _ (set_locked s true)).
    + rewrite take_insert_ge by lia. reflexivity.
    + apply list_lookup_insert_eq. rewrite length_ring_order. lia.
Qed.

(** *** [rohc_comp_piggyback_feedback] adds at the tail of the queue *)

Lemma queued_feedbacks_piggybacked (comp : rohc_comp) (nl nq : nat)
    (feedback : list Z) :
  ring_layout comp nl nq -> (nl + nq < SIZE)%nat -> feedback <> [] ->
  queued_feedbacks (piggybacked comp feedback) =
    queued_feedbacks comp ++
    [{| fb_data := Some feedback;
        fb_length := Z.of_nat (length feedback);
        is_locked := false |}] /\
  locked_feedbacks (piggybacked comp feedback) = locked_feedbacks comp.
Proof.
  intros Hlay Hroom Hne.
  pose proof (rl_length _ _ _ _ Hlay) as Hlen.
  pose proof (rl_first _ _ _ _ Hlay) as Hfirst.
  destruct (piggybacked_layout SIZE ring_size_pos comp nl nq feedback
              Hlay Hroom Hne) as [_ Hlay'].
  destruct (queued_feedbacks_layout comp nl nq Hlay) as (Hq & Hl & _).
  destruct (queued_feedbacks_layout _ _ _ Hlay') as (Hq' & Hl' & _).
  set (x := {| fb_data := Some feedback;
               fb_length := Z.of_nat (length feedback);
               is_locked := false |}).
  assert (ring_order (piggybacked comp feedback) =
          <[(nl + nq)%nat := x]> (ring_order comp)) as Hro.
  { unfold RingInv.piggybacked. rewrite (rl_next _ _ _ _ Hlay).
    apply ring_order_insert; [assumption|assumption|lia]. }
  split.
  - rewrite Hq, Hq', Hro.
    rewrite drop_insert_ge by lia.
    replace (nl + nq - nl)%nat with nq by lia.
    rewrite (take_S_r _ _ x).
    + rewrite take_insert_ge by lia. reflexivity.
    + apply list_lookup_insert_eq.
      rewrite length_drop, length_ring_order. lia.
  - rewrite Hl, Hl', Hro. apply take_insert_ge. lia.
Qed.

(** What [rohc_comp_piggyback_feedback] computes on a ring in shape. *)
Lemma rohc_comp_piggyback_feedback_run (malloc_ok : bool)
    (comp : rohc_comp) (nl nq : nat) (feedback : list Z) :
  ring_layout comp nl nq -> feedback <> [] ->
  rohc_comp_piggyback_feedback SIZE malloc_ok comp feedback =
    if (nl + nq =? SIZE)%nat then Some (false, comp)
    else if malloc_ok then Some (true, piggybacked comp feedback)
         else Some (false, comp).
Proof.
  intros Hlay Hne.
  pose proof (rl_length _ _ _ _ Hlay) as Hlen.
  pose proof (rl_first _ _ _ _ Hlay) as Hfirst.
  pose proof (rl_count _ _ _ _ Hlay) as Hcount.
  pose proof (ring_layout_next_lt SIZE ring_size_pos comp nl nq Hlay) as Hnext.
  destruct (rl_slots _ _ _ _ Hlay 0%nat ring_size_pos) as (sf & Hsf & Hcf).
  rewrite ring_pos_0 in Hsf by assumption.
  destruct (lookup_lt_is_Some_2 (feedbacks comp) (feedbacks_next comp))
    as [sn Hsn]; [lia|].
  assert ((Z.of_nat (length feedback) <=? 0) = false) as Hsize.
  { destruct feedback; [congruence|]. apply Z.leb_gt. simpl length. lia. }
  unfold rohc_comp_piggyback_feedback.
  rewrite Hsize, !index_ok_true by assumption. cbn [negb].
  rewrite (same_and_used_eq comp _ _ sf Hsf). cbn [mbind option_bind].
  destruct (Nat.eqb_spec (nl + nq) SIZE) as [Hfull|Hroom].
  - (* the ring is full *)
    assert (feedbacks_next comp = feedbacks_first comp) as ->.
    { rewrite (rl_next _ _ _ _ Hlay), Hfull.
      apply ring_pos_full; assumption. }
    rewrite Nat.eqb_refl.
    unfold slot_class in Hcf.
    assert (0 < fb_length sf) as Hpos.
    { destruct (Nat.ltb_spec 0 nl); [apply Hcf|].
      destruct (Nat.ltb_spec 0 (nl + nq)); [apply Hcf|lia]. }
    destruct (Z.eqb_spec (fb_length sf) 0); [lia|]. reflexivity.
  - destruct (piggybacked_layout SIZE ring_size_pos comp nl nq feedback
                Hlay ltac:(lia) Hne) as [Hnot _].
    destruct ((feedbacks_next comp =? feedbacks_first comp)%nat &&
              negb (fb_length sf =? 0)) eqn:Htest.
    { exfalso. apply Hnot.
      apply andb_true_iff in Htest as [Heq Hl].
      apply Nat.eqb_eq in Heq. apply negb_true_iff, Z.eqb_neq in Hl.
      split; [exact Heq|]. exists sf. split; [exact Hsf|exact Hl]. }
    rewrite Hsn. cbn [mbind option_bind].
    destruct malloc_ok; cbn [negb]; [reflexivity|].
    (* the location at [feedbacks_next] is unused: clearing its data
       pointer changes nothing *)
    destruct (rl_slots _ _ _ _ Hlay (nl + nq)%nat ltac:(lia))
      as (sn' & Hsn' & Hcn).
    rewrite <- (rl_next _ _ _ _ Hlay) in Hsn'.
    assert (sn' = sn) as -> by congruence.
    unfold slot_class in Hcn.
    destruct (Nat.ltb_spec (nl + nq) nl); [lia|].
    destruct (Nat.ltb_spec (nl + nq) (nl + nq)); [lia|]. subst sn.
    change (set_data empty_feedback None) with empty_feedback.
    rewrite list_insert_id by exact Hsn.
    rewrite set_ring_eta. reflexivity.
Qed.


(** X8: On a well-formed ring and when memory is available,
    rohc_comp_piggyback_feedback of a non-empty feedback succeeds exactly
    when the ring holds fewer than FEEDBACK_RING_SIZE feedbacks, locked or
    queued; on success the feedback is the new tail of the queue of
    feedbacks to send and the locked feedbacks are untouched; on failure
    the compressor is unchanged. *)
Theorem rohc_comp_piggyback_feedback_enqueues (comp : rohc_comp)
    (nl nq : nat) (feedback : list Z) :
  ring_layout comp nl nq -> feedback <> [] ->
  exists b comp',
    rohc_comp_piggyback_feedback SIZE true comp feedback = Some (b, comp') /\
    (b = true <->
     (length (locked_feedbacks comp) + length (queued_feedbacks comp)
      < SIZE)%nat) /\
    (b = true ->
     queued_feedbacks comp' =
       queued_feedbacks comp ++
       [{| fb_data := Some feedback;
           fb_length := Z.of_nat (length feedback);
           is_locked := false |}] /\
     locked_feedbacks comp' = locked_feedbacks comp /\
     ring_layout comp' nl (S nq)) /\
    (b = false -> comp' = comp).
Proof.
  intros Hlay Hne.
  pose proof (rl_count _ _ _ _ Hlay) as Hcount.
  destruct (queued_feedbacks_layout comp nl nq Hlay)
    as (_ & _ & Hnq & Hnl & _).
  rewrite (rohc_comp_piggyback_feedback_run true comp nl nq) by assumption.
  rewrite Hnq, Hnl.
  destruct (Nat.eqb_spec (nl + nq) SIZE) as [Hfull|Hroom].
  - exists false, comp. split; [reflexivity|].
    split; [split; [discriminate|lia]|].
    split; [discriminate|reflexivity].
  - exists true, (piggybacked comp feedback). split; [reflexivity|].
    split; [split; [lia|reflexivity]|].
    split; [|discriminate]. intros _.
    destruct (queued_feedbacks_piggybacked comp nl nq feedback Hlay
                ltac:(lia) Hne) as [Hq Hl].
    split; [exact Hq|]. split; [exact Hl|].
    apply (piggybacked_layout SIZE ring_size_pos); [assumption|lia|assumption].
Qed.

(** *** [rohc_feedback_flush] *)

Lemma emitted_size_required (s : rohc_feedback) :
  0 <= fb_length s <= INT_MAX -> required_length s = emitted_size s.
Proof.
  clear ring_size_pos.
  intros Hlen. unfold required_length, emitted_size.
  rewrite to_size_t_small by (unfold INT_MAX, SIZE_MAX in *;
                               destruct (fb_length s <? 8); lia).
  destruct (fb_length s <? 8); lia.
Qed.

Lemma emitted_sizes_app (q1 q2 : list rohc_feedback) :
  emitted_sizes (q1 ++ q2) = emitted_sizes q1 + emitted_sizes q2.
Proof.
  clear ring_size_pos.
  unfold emitted_sizes.
  induction q1 as [|s q1 IH]; cbn [app foldr]; [reflexivity|].
  rewrite IH. lia.
Qed.

Lemma emitted_size_pos (s : rohc_feedback) :
  0 <= fb_length s -> 0 < emitted_size s.
Proof. clear ring_size_pos. unfold emitted_size. destruct (fb_length s <? 8); lia. Qed.

Lemma emitted_sizes_nonneg (q : list rohc_feedback) :
  Forall queued_slot q -> 0 <= emitted_sizes q.
Proof.
  clear ring_size_pos.
  induction 1 as [|s q (_ & Hs & _) _ IH]; cbn [emitted_sizes foldr]; [lia|].
  pose proof (emitted_size_pos s ltac:(lia)).
  unfold emitted_sizes in IH. lia.
Qed.

Lemma fitting_le (q : list rohc_feedback) :
  forall room, 0 <= room ->
    emitted_sizes (take (fitting room q) q) <= room /\
    (fitting room q <= length q)%nat.
Proof.
  clear ring_size_pos.
  induction q as [|s q IH]; intros room Hroom; cbn [fitting].
  - cbn. lia.
  - destruct (Z.leb_spec (emitted_size s) room) as [Hfit|Hno].
    + cbn [take emitted_sizes foldr length].
      destruct (IH (room - emitted_size s) ltac:(lia)) as [H1 H2].
      unfold emitted_sizes in H1. lia.
    + cbn. lia.
Qed.

Lemma fitting_all (q : list rohc_feedback) :
  Forall queued_slot q ->
  forall room, emitted_sizes q <= room -> fitting room q = length q.
Proof.
  clear ring_size_pos.
  induction 1 as [|s q Hs Hq IH]; intros room Hroom; cbn [fitting length];
    [reflexivity|].
  cbn [emitted_sizes foldr] in Hroom. fold (emitted_sizes q) in Hroom.
  pose proof (emitted_sizes_nonneg q Hq).
  destruct (Z.leb_spec (emitted_size s) room) as [Hfit|Hno]; [|lia].
  rewrite IH by lia. reflexivity.
Qed.

Local Abbreviation flush_loop := (flush_loop FEEDBACK_RING_SIZE).
Local Abbreviation rohc_feedback_flush :=
  (rohc_feedback_flush FEEDBACK_RING_SIZE).

Lemma flush_loop_run (fuel : nat) :
  forall (comp : rohc_comp) (nl nq : nat) (osize size : Z)
         (written : list Z),
    ring_layout comp nl nq -> (nq < fuel)%nat ->
    0 <= size <= osize -> osize <= INT_MAX ->
    Forall (fun s => fb_length s <= INT_MAX) (queued_feedbacks comp) ->
    let q := queued_feedbacks comp in
    let m := fitting (osize - size) q in
    exists comp',
      flush_loop fuel comp osize size written =
        Some (size + emitted_sizes (take m q),
              written ++ concat (feedback_bytes <$> take m q), comp') /\
      ring_layout comp' (nl + m) (nq - m) /\ (m <= nq)%nat /\
      queued_feedbacks comp' = drop m q /\
      locked_feedbacks comp' =
        locked_feedbacks comp ++ ((fun s => set_locked s true) <$> take m q).
Proof.
  induction fuel as [|fuel IH];
    intros comp nl nq osize size written Hlay Hfuel Hsize Hosize Hbound q m;
    [lia|].
  cbn [FeedbackQueue.flush_loop].
  assert (to_uint32 (osize - size) = osize - size) as Hmax
    by (apply to_uint32_small; unfold INT_MAX in *; lia).
  rewrite Hmax.
  destruct (rohc_feedback_get_layout SIZE ring_size_pos comp nl nq
              (osize - size) Hlay) as [Hnone Hsome].
  destruct (queued_feedbacks_layout comp nl nq Hlay)
    as (_ & _ & Hnq & _ & Hqs & _).
  destruct (Nat.eq_dec nq 0%nat) as [->|Hpos].
  - (* nothing is queued *)
    rewrite Hnone by reflexivity. cbn [mbind option_bind].
    change (0 >? 0) with false. cbv iota.
    assert (q = []) as Hq by (apply nil_length_inv; exact Hnq).
    subst m. rewrite Hq. cbn [fitting take emitted_sizes foldr fmap list_fmap
                              concat drop].
    exists comp. rewrite !app_nil_r, Z.add_0_r, Nat.add_0_r.
    split; [reflexivity|]. split; [exact Hlay|]. split; [lia|].
    split; [exact Hq|reflexivity].
  - destruct (Hsome ltac:(lia))
      as (s & d & Hs & Hqueued & Hd & Hget & Hlay').
    destruct (queued_feedbacks_lock comp nl nq s Hlay ltac:(lia) Hs)
      as [Hq Hl].
    fold q in Hq.
    assert (0 <= fb_length s <= INT_MAX) as Hlen.
    { split; [destruct Hqueued as (_ & ? & _); lia|].
      fold q in Hbound. rewrite Hq in Hbound.
      apply Forall_cons in Hbound. apply Hbound. }
    rewrite Hget, (emitted_size_required s Hlen).
    subst m. rewrite Hq. cbn [fitting].
    destruct (Z.leb_spec (emitted_size s) (osize - size)) as [Hfit|Hno].
    + (* the feedback at the head of the queue fits *)
      destruct (Z.gtb_spec (emitted_size s) (osize - size)); [lia|].
      cbn [mbind option_bind].
      pose proof (emitted_size_pos s ltac:(lia)) as Hepos.
      rewrite to_int_small by (unfold INT_MAX in *; lia).
      destruct (Z.gtb_spec (emitted_size s) 0); [|lia].
      rewrite to_uint32_small by (unfold INT_MAX in *; lia).
      destruct (IH (lock_first_unlocked comp s) (S nl) (nq - 1)%nat osize
                  (size + emitted_size s)
                  (written ++ feedback_header s ++
                   take (Z.to_nat (fb_length s)) d)
                  Hlay' ltac:(lia) ltac:(lia) Hosize)
        as (comp' & Hrun & Hlay'' & Hm & Hq' & Hl').
      { fold q in Hbound. rewrite Hq in Hbound.
        apply Forall_cons in Hbound. apply Hbound. }
      exists comp'.
      replace (osize - (size + emitted_size s))
        with (osize - size - emitted_size s) in * by lia.
      set (q' := queued_feedbacks (lock_first_unlocked comp s)) in *.
      set (m' := fitting (osize - size - emitted_size s) q') in *.
      cbn [take emitted_sizes foldr fmap list_fmap concat drop].
      split.
      { rewrite Hrun. do 2 f_equal. f_equal.
        - unfold emitted_sizes. lia.
        - unfold feedback_bytes. rewrite Hd. cbn [default].
          rewrite <- !app_assoc. reflexivity. }
      split; [replace (nl + S m')%nat with (S nl + m')%nat by lia;
              replace (nq - S m')%nat with (nq - 1 - m')%nat by lia;
              exact Hlay''|].
      split; [lia|].
      split; [exact Hq'|].
      rewrite Hl', Hl, <- app_assoc. reflexivity.
    + destruct (Z.gtb_spec (emitted_size s) (osize - size)); [|lia].
      cbn [mbind option_bind].
      change (-1 >? 0) with false. cbv iota.
      cbn [take emitted_sizes foldr fmap list_fmap concat drop].
      exists comp. rewrite !app_nil_r, Z.add_0_r, Nat.add_0_r, Nat.sub_0_r.
      rewrite <- Hq.
      split; [reflexivity|]. split; [exact Hlay|]. split; [lia|].
      split; reflexivity.
Qed.

(** What one call to [rohc_feedback_flush] does on a ring in shape. *)
Lemma rohc_feedback_flush_run (comp : rohc_comp) (nl nq : nat)
    (osize : Z) :
  ring_layout comp nl nq -> 0 < osize <= INT_MAX ->
  Forall (fun s => fb_length s <= INT_MAX) (queued_feedbacks comp) ->
  let q := queued_feedbacks comp in
  let m := fitting osize q in
  exists comp',
    rohc_feedback_flush comp osize =
      Some (emitted_sizes (take m q),
            concat (feedback_bytes <$> take m q), comp') /\
    0 <= emitted_sizes (take m q) <= osize /\
    queued_feedbacks comp' = drop m q /\
    locked_feedbacks comp' =
      locked_feedbacks comp ++ ((fun s => set_locked s true) <$> take m q) /\
    ring_layout comp' (nl + m) (nq - m).
Proof.
  intros Hlay Hosize Hbound q m.
  pose proof (rl_count _ _ _ _ Hlay) as Hcount.
  destruct (flush_loop_run (S SIZE) comp nl nq osize 0 [] Hlay ltac:(lia)
              ltac:(lia) ltac:(lia) Hbound)
    as (comp' & Hrun & Hlay' & Hm & Hq & Hl).
  replace (osize - 0) with osize in * by lia.
  fold q in Hrun, Hq, Hl. fold m in Hrun, Hq, Hl, Hlay', Hm.
  destruct (fitting_le q osize ltac:(lia)) as [Hle _]. fold m in Hle.
  assert (0 <= emitted_sizes (take m q)) as Hge.
  { apply emitted_sizes_nonneg.
    destruct (queued_feedbacks_layout comp nl nq Hlay)
      as (_ & _ & _ & _ & Hqs & _).
    apply Forall_take. exact Hqs. }
  exists comp'. unfold FeedbackQueue.rohc_feedback_flush.
  destruct (Z.leb_spec osize 0); [lia|].
  rewrite Hrun. cbn [mbind option_bind app].
  rewrite Z.add_0_l, to_int_small by (unfold INT_MAX in *; lia).
  split; [reflexivity|]. split; [lia|]. split; [exact Hq|].
  split; [exact Hl|exact Hlay'].
Qed.

(** X10: rohc_feedback_flush in a buffer of osize bytes (0 < osize <=
    INT_MAX) writes, oldest first and each after its header of 1 or 2
    bytes, the feedbacks at the head of the queue as long as the next one
    fits in the room left, and returns their total size, at most osize;
    these feedbacks leave the queue and become locked, the rest of the
    queue is untouched. *)
Theorem rohc_feedback_flush_fitting (comp : rohc_comp) (nl nq : nat)
    (osize : Z) :
  ring_layout comp nl nq -> 0 < osize <= INT_MAX ->
  Forall (fun s => fb_length s <= INT_MAX) (queued_feedbacks comp) ->
  let q := queued_feedbacks comp in
  let m := fitting osize q in
  exists comp',
    rohc_feedback_flush comp osize =
      Some (emitted_sizes (take m q),
            concat (feedback_bytes <$> take m q), comp') /\
    0 <= emitted_sizes (take m q) <= osize /\
    queued_feedbacks comp' = drop m q /\
    locked_feedbacks comp' =
      locked_feedbacks comp ++ ((fun s => set_locked s true) <$> take m q) /\
    ring_layout comp' (nl + m) (nq - m).
Proof.
  intros Hlay Hosize Hbound.
  exact (rohc_feedback_flush_run comp nl nq osize Hlay Hosize Hbound).
Qed.


(** *** [rohc_feedback_avail_bytes] *)

Lemma foldl_avail_step (l : list rohc_feedback) :
  forall acc, 0 <= acc <= SIZE_MAX ->
    foldl avail_step acc l =
      to_size_t (acc + emitted_sizes (List.filter waiting l)).
Proof.
  clear ring_size_pos.
  induction l as [|s l IH]; intros acc Hacc;
    cbn [foldl List.filter emitted_sizes foldr].
  - rewrite Z.add_0_r, to_size_t_small by exact Hacc. reflexivity.
  - unfold avail_step at 2. fold (waiting s).
    destruct (waiting s).
    + assert ((if fb_length s <? 8
               then to_size_t (to_size_t (acc + fb_length s) + 1)
               else to_size_t (to_size_t (acc + fb_length s) + 2)) =
              to_size_t (acc + emitted_size s)) as ->.
      { unfold emitted_size, to_size_t.
        destruct (fb_length s <? 8); rewrite Zplus_mod_idemp_l;
          f_equal; lia. }
      rewrite IH by apply to_size_t_range.
      cbn [emitted_sizes foldr]. unfold to_size_t.
      rewrite Zplus_mod_idemp_l. f_equal. unfold emitted_sizes. lia.
    + apply IH. exact Hacc.
Qed.

(** [rohc_feedback_avail_bytes] adds up the sizes on which the queued
    feedbacks are emitted. *)
Lemma rohc_feedback_avail_bytes_sizes (comp : rohc_comp) :
  length (feedbacks comp) = SIZE ->
  rohc_feedback_avail_bytes SIZE comp =
    to_size_t (emitted_sizes (queued_feedbacks comp)).
Proof.
  intros Hlen. unfold rohc_feedback_avail_bytes.
  rewrite take_ge by lia.
  rewrite foldl_avail_step by (unfold SIZE_MAX; lia).
  f_equal. rewrite Z.add_0_l.
  unfold queued_feedbacks, ring_order.
  rewrite <- (take_drop (feedbacks_first comp) (feedbacks comp)) at 1.
  rewrite !List.filter_app, !emitted_sizes_app. lia.
Qed.

(** X9: On a well-formed ring, rohc_feedback_avail_bytes is the sum, as a
    size_t, over the queued feedbacks of their length plus 1 (length below
    8) or plus 2: the locked feedbacks and the free locations count for
    nothing, and the result is 0 when no feedback is queued. *)
Theorem rohc_feedback_avail_bytes_queue (comp : rohc_comp) (nl nq : nat) :
  ring_layout comp nl nq ->
  rohc_feedback_avail_bytes SIZE comp =
    to_size_t (emitted_sizes (queued_feedbacks comp)) /\
  (nq = 0%nat -> rohc_feedback_avail_bytes SIZE comp = 0).
Proof.
  intros Hlay.
  rewrite rohc_feedback_avail_bytes_sizes by apply Hlay.
  split; [reflexivity|]. intros ->.
  destruct (queued_feedbacks_layout comp nl 0 Hlay) as (_ & _ & Hnq & _).
  apply nil_length_inv in Hnq. rewrite Hnq. reflexivity.
Qed.

(** A flush in a buffer with room for the whole queue. *)
Lemma rohc_feedback_flush_all_run (comp : rohc_comp) (nl nq : nat)
    (osize : Z) :
  ring_layout comp nl nq -> 0 < osize <= INT_MAX ->
  emitted_sizes (queued_feedbacks comp) <= osize ->
  exists comp',
    rohc_feedback_flush comp osize =
      Some (rohc_feedback_avail_bytes SIZE comp,
            concat (feedback_bytes <$> queued_feedbacks comp), comp') /\
    Z.of_nat (length (concat (feedback_bytes <$> queued_feedbacks comp))) <=
      rohc_feedback_avail_bytes SIZE comp /\
    queued_feedbacks comp' = [] /\
    rohc_feedback_avail_bytes SIZE comp' = 0.
Proof.
  intros Hlay Hosize Hall.
  destruct (queued_feedbacks_layout comp nl nq Hlay)
    as (_ & _ & Hnq & _ & Hqs & _).
  pose proof (emitted_sizes_nonneg _ Hqs) as Hge.
  assert (Forall (fun s => fb_length s <= INT_MAX) (queued_feedbacks comp))
    as Hbound.
  { clear Hnq. revert Hall Hge.
    induction Hqs as [|s q (_ & Hs & _) Hq IH]; intros Hall Hge;
      [constructor|].
    cbn [emitted_sizes foldr] in Hall. fold (emitted_sizes q) in Hall.
    pose proof (emitted_sizes_nonneg q Hq).
    pose proof (emitted_size_pos s ltac:(lia)).
    constructor.
    - unfold emitted_size in *. destruct (fb_length s <? 8); lia.
    - apply IH; lia. }
  destruct (rohc_feedback_flush_run comp nl nq osize Hlay Hosize Hbound)
    as (comp' & Hrun & _ & Hq & _ & Hlay').
  rewrite (fitting_all _ Hqs osize Hall) in Hrun, Hq, Hlay'.
  rewrite take_ge in Hrun by lia. rewrite drop_ge in Hq by lia.
  assert (rohc_feedback_avail_bytes SIZE comp =
          emitted_sizes (queued_feedbacks comp)) as Havail.
  { rewrite rohc_feedback_avail_bytes_sizes by apply Hlay.
    apply to_size_t_small. unfold INT_MAX, SIZE_MAX in *. lia. }
  exists comp'. rewrite Havail. split; [exact Hrun|].
  split.
  { clear -Hqs. induction Hqs as [|s q (_ & Hs & _) _ IH];
      cbn [fmap list_fmap concat emitted_sizes foldr length]; [lia|].
    rewrite length_app. unfold feedback_bytes at 1.
    rewrite length_app, length_take.
    pose proof (length_feedback_header s) as Hh.
    unfold emitted_size at 1. unfold emitted_sizes in IH.
    change (list_fmap _ _ feedback_bytes q) with (feedback_bytes <$> q).
    destruct (fb_length s <? 8); lia. }
  split; [exact Hq|].
  rewrite rohc_feedback_avail_bytes_sizes by apply Hlay'.
  rewrite Hq. reflexivity.
Qed.

(** X11: In a buffer that can hold every queued feedback,
    rohc_feedback_flush writes them all and returns the size that
    rohc_feedback_avail_bytes announced; afterwards the queue is empty and
    rohc_feedback_avail_bytes is 0. *)
Theorem rohc_feedback_flush_all (comp : rohc_comp) (nl nq : nat)
    (osize : Z) :
  ring_layout comp nl nq -> 0 < osize <= INT_MAX ->
  emitted_sizes (queued_feedbacks comp) <= osize ->
  exists comp',
    rohc_feedback_flush comp osize =
      Some (rohc_feedback_avail_bytes SIZE comp,
            concat (feedback_bytes <$> queued_feedbacks comp), comp') /\
    Z.of_nat (length (concat (feedback_bytes <$> queued_feedbacks comp))) <=
      rohc_feedback_avail_bytes SIZE comp /\
    queued_feedbacks comp' = [] /\
    rohc_feedback_avail_bytes SIZE comp' = 0.
Proof.
  intros Hlay Hosize Hall.
  exact (rohc_feedback_flush_all_run comp nl nq osize Hlay Hosize Hall).
Qed.

(** *** [rohc_feedback_unlock] and [rohc_feedback_remove_locked] *)

Lemma ring_order_fmap (comp : rohc_comp) (f : rohc_feedback -> rohc_feedback)
    (fu nx : nat) :
  ring_order (set_ring comp (f <$> feedbacks comp) (feedbacks_first comp)
                       fu nx) =
  f <$> ring_order comp.
Proof.
  unfold ring_order. cbn [feedbacks feedbacks_first set_ring].
  rewrite fmap_app, fmap_drop, fmap_take. reflexivity.
Qed.

(** X12: On a well-formed ring, rohc_feedback_unlock returns true and puts
    the locked feedbacks back at the head of the queue, in their order and
    before the feedbacks that were still queued; no feedback stays locked. *)
Theorem rohc_feedback_unlock_requeues (comp : rohc_comp) (nl nq : nat) :
  ring_layout comp nl nq ->
  exists comp',
    rohc_feedback_unlock SIZE comp = Some (true, comp') /\
    queued_feedbacks comp' =
      ((fun s => set_locked s false) <$> locked_feedbacks comp) ++
      queued_feedbacks comp /\
    locked_feedbacks comp' = [] /\
    ring_layout comp' 0 (nl + nq).
Proof.
  intros Hlay.
  pose proof (unlocked_layout SIZE ring_size_pos comp nl nq Hlay) as Hlay'.
  eexists. split;
    [apply (rohc_feedback_unlock_layout SIZE ring_size_pos comp nl nq Hlay)|].
  destruct (queued_feedbacks_layout comp nl nq Hlay)
    as (Hq & Hl & _ & _ & Hqs & _).
  destruct (queued_feedbacks_layout _ _ _ Hlay') as (Hq' & Hl' & _).
  split; [|split; [rewrite Hl'; reflexivity|exact Hlay']].
  rewrite Hq'. unfold unlock_all. rewrite ring_order_fmap.
  rewrite drop_0, <- fmap_take, <- take_take_drop, fmap_app.
  rewrite <- Hl, <- Hq. f_equal.
  clear -Hqs. induction Hqs as [|s q (Hs & _) _ IH]; [reflexivity|].
  cbn [fmap list_fmap]. rewrite set_locked_false_id by exact Hs.
  f_equal. exact IH.
Qed.

(** What [rohc_feedback_remove_locked] does on a ring in shape. *)
Lemma rohc_feedback_remove_locked_run (comp : rohc_comp)
    (nl nq : nat) :
  ring_layout comp nl nq ->
  exists comp',
    rohc_feedback_remove_locked SIZE comp = Some (true, comp') /\
    queued_feedbacks comp' = queued_feedbacks comp /\
    locked_feedbacks comp' = [] /\
    ring_layout comp' 0 nq.
Proof.
  intros Hlay.
  pose proof (rl_length _ _ _ _ Hlay) as Hlen.
  pose proof (rl_first _ _ _ _ Hlay) as Hf.
  pose proof (rl_count _ _ _ _ Hlay) as Hc.
  destruct (rohc_feedback_remove_locked_layout SIZE ring_size_pos comp nl nq
              Hlay) as (comp' & Hrun & Hlay' & Heq).
  exists comp'. split; [exact Hrun|].
  destruct (queued_feedbacks_layout comp nl nq Hlay) as (Hq & _).
  destruct (queued_feedbacks_layout _ _ _ Hlay') as (Hq' & Hl' & _).
  split; [|split; [rewrite Hl'; reflexivity|exact Hlay']].
  (* the locations that the loop leaves untouched *)
  destruct (remove_locked_loop_run SIZE ring_size_pos (feedbacks_first comp)
              nl Hf ltac:(lia) nl 0%nat (feedbacks comp) (S SIZE))
    as (fbs' & Hloop & Hlen' & Hpt); try lia.
  { intros k Hk. destruct (rl_slots _ _ _ _ Hlay k Hk) as (s & Hs & Hcl).
    exists s. split; [exact Hs|]. simpl.
    unfold slot_class, queued_slot in Hcl.
    destruct (Nat.ltb_spec k nl); [exact Hcl|].
    destruct (k <? nl + nq)%nat; [apply Hcl | subst s; reflexivity]. }
  rewrite ring_pos_0 in Hloop by assumption.
  unfold rohc_feedback_remove_locked in Hrun.
  rewrite !index_ok_true in Hrun;
    [| apply (ring_layout_first_unlocked_lt SIZE ring_size_pos _ _ _ Hlay)
     | exact Hf].
  cbn [negb] in Hrun. rewrite Hloop in Hrun. cbn [mbind option_bind] in Hrun.
  rewrite (rl_first_unlocked _ _ _ _ Hlay), Nat.eqb_refl in Hrun.
  injection Hrun as Hcomp'.
  rewrite Hq, Hq', drop_0.
  apply list_eq. intros i.
  destruct (Nat.ltb_spec i nq) as [Hi|Hi].
  2:{ rewrite !lookup_take_ge by lia. reflexivity. }
  rewrite !lookup_take_lt, lookup_drop by lia.
  rewrite (lookup_ring_order comp') by (try apply Hlay'; lia).
  rewrite (lookup_ring_order comp) by (try assumption; lia).
  subst comp'. cbn [feedbacks feedbacks_first set_ring].
  rewrite (ring_pos_shift SIZE ring_size_pos) by (assumption || lia).
  destruct (Nat.ltb_spec (nl + i) SIZE); [|lia].
  rewrite Hpt by lia.
  destruct (Nat.ltb_spec (nl + i) nl); [lia|].
  rewrite andb_false_r. reflexivity.
Qed.

(** X13: On a well-formed ring, rohc_feedback_remove_locked returns true,
    drops the locked feedbacks and leaves the queue of feedbacks to send
    as it is. *)
Theorem rohc_feedback_remove_locked_queue (comp : rohc_comp)
    (nl nq : nat) :
  ring_layout comp nl nq ->
  exists comp',
    rohc_feedback_remove_locked SIZE comp = Some (true, comp') /\
    queued_feedbacks comp' = queued_feedbacks comp /\
    locked_feedbacks comp' = [] /\
    ring_layout comp' 0 nq.
Proof.
  intros Hlay.
  exact (rohc_feedback_remove_locked_run comp nl nq Hlay).
Qed.

(** *** [rohc_feedback_destroy] *)

Lemma feedback_destroy_loop_run (n : nat) :
  forall (i : nat) (fbs : list rohc_feedback),
    (forall j s, fbs !! j = Some s ->
       (0 < fb_length s /\ fb_data s <> None) \/ s = empty_feedback) ->
    (i + n <= length fbs)%nat ->
    exists fbs',
      feedback_destroy_loop n i fbs = Some fbs' /\
      length fbs' = length fbs /\
      forall j, fbs' !! j =
        if (i <=? j)%nat && (j <? i + n)%nat
        then Some empty_feedback else fbs !! j.
Proof.
  clear ring_size_pos.
  induction n as [|n IH]; intros i fbs Hslots Hlen;
    cbn [feedback_destroy_loop].
  - exists fbs. split; [reflexivity|]. split; [reflexivity|].
    intros j. destruct (Nat.leb_spec i j), (Nat.ltb_spec j (i + 0));
      try reflexivity; lia.
  - destruct (lookup_lt_is_Some_2 fbs i ltac:(lia)) as [s Hs].
    rewrite Hs. cbn [mbind option_bind].
    assert (exists fbs',
              feedback_destroy_loop n (S i) (<[i := empty_feedback]> fbs)
                = Some fbs' /\
              length fbs' = length fbs /\
              forall j, fbs' !! j =
                if (i <=? j)%nat && (j <? i + S n)%nat
                then Some empty_feedback else fbs !! j) as Hstep.
    { destruct (IH (S i) (<[i := empty_feedback]> fbs))
        as (fbs' & Hrun & Hlen' & Hpt).
      - intros j s' Hj.
        destruct (Nat.eq_dec j i) as [->|Hne].
        + rewrite list_lookup_insert_eq in Hj by lia.
          right. congruence.
        + rewrite list_lookup_insert_ne in Hj by lia. eauto.
      - rewrite length_insert. lia.
      - exists fbs'. split; [exact Hrun|].
        split; [rewrite Hlen', length_insert; reflexivity|].
        intros j. rewrite Hpt.
        destruct (Nat.eq_dec j i) as [->|Hne].
        + rewrite list_lookup_insert_eq by lia.
          destruct (Nat.leb_spec (S i) i), (Nat.leb_spec i i),
            (Nat.ltb_spec i (S i + n)), (Nat.ltb_spec i (i + S n));
            cbn [andb]; try reflexivity; lia.
        + rewrite list_lookup_insert_ne by lia.
          destruct (Nat.leb_spec (S i) j), (Nat.leb_spec i j),
            (Nat.ltb_spec j (S i + n)), (Nat.ltb_spec j (i + S n));
            cbn [andb]; try reflexivity; lia. }
    destruct (Hslots i s Hs) as [[Hpos Hdata]| ->].
    + destruct (Z.gtb_spec (fb_length s) 0); [|lia].
      destruct (fb_data s); [exact Hstep|congruence].
    + change (fb_length empty_feedback >? 0) with false. cbv iota.
      rewrite (list_insert_id fbs i empty_feedback Hs) in Hstep.
      exact Hstep.
Qed.

(** X14: On a well-formed ring, rohc_feedback_destroy leaves the ring of a
    new compressor: every location is free, the three indices are 0, no
    feedback is queued or locked and rohc_feedback_avail_bytes is 0;
    nothing else changes. *)
Theorem rohc_feedback_destroy_empties (comp : rohc_comp) (nl nq : nat) :
  ring_layout comp nl nq ->
  let comp' := set_ring comp (replicate SIZE empty_feedback) 0 0 0 in
  rohc_feedback_destroy SIZE comp = Some comp' /\
  ring_layout comp' 0 0 /\
  queued_feedbacks comp' = [] /\ locked_feedbacks comp' = [] /\
  rohc_feedback_avail_bytes SIZE comp' = 0.
Proof.
  intros Hlay comp'.
  pose proof (rl_length _ _ _ _ Hlay) as Hlen.
  pose proof (rl_first _ _ _ _ Hlay) as Hf.
  assert (ring_layout comp' 0 0) as Hlay'
    by (apply (empty_ring_layout SIZE ring_size_pos); reflexivity).
  destruct (queued_feedbacks_layout _ _ _ Hlay')
    as (_ & _ & Hnq & Hnl & _).
  apply nil_length_inv in Hnq, Hnl.
  split; [|split; [exact Hlay'|split; [exact Hnq|split; [exact Hnl|]]]].
  - destruct (feedback_destroy_loop_run SIZE 0 (feedbacks comp))
      as (fbs' & Hrun & Hlen' & Hpt).
    + intros j s Hs. pose proof (lookup_lt_Some _ _ _ Hs) as Hj.
      destruct (ring_pos_surj SIZE ring_size_pos (feedbacks_first comp) j
                  Hf ltac:(lia)) as (k & Hk & <-).
      pose proof (ring_layout_slot SIZE comp nl nq k s Hlay Hk Hs) as Hcl.
      unfold slot_class, locked_slot, queued_slot in Hcl.
      destruct (k <? nl)%nat; [left; tauto|].
      destruct (k <? nl + nq)%nat; [left; tauto|right; exact Hcl].
    + lia.
    + unfold rohc_feedback_destroy. rewrite Hrun. cbn [mbind option_bind].
      unfold comp'. do 2 f_equal.
      apply list_eq. intros j. rewrite Hpt.
      destruct (Nat.ltb_spec j SIZE) as [Hj|Hj].
      * rewrite lookup_replicate_2 by lia.
        destruct (Nat.leb_spec 0 j), (Nat.ltb_spec j (0 + SIZE));
          cbn [andb]; try reflexivity; lia.
      * destruct (Nat.leb_spec 0 j), (Nat.ltb_spec j (0 + SIZE));
          cbn [andb]; try lia.
        rewrite !lookup_ge_None_2; [reflexivity| |lia].
        rewrite length_replicate. lia.
  - rewrite rohc_feedback_avail_bytes_sizes by apply Hlay'.
    rewrite Hnq. reflexivity.
Qed.


(** *** From [rohc_comp_piggyback_feedback] to [rohc_feedback_flush] *)

Lemma piggyback_all_run (fs : list (list Z)) :
  forall (comp : rohc_comp) (nl nq : nat),
    ring_layout comp nl nq -> (nl + nq + length fs <= SIZE)%nat ->
    Forall (fun f => f <> []) fs ->
    exists comp',
      piggyback_all SIZE comp fs = Some (true, comp') /\
      ring_layout comp' nl (nq + length fs) /\
      queued_feedbacks comp' = queued_feedbacks comp ++ (feedback_slot <$> fs) /\
      locked_feedbacks comp' = locked_feedbacks comp.
Proof.
  induction fs as [|f fs IH]; intros comp nl nq Hlay Hroom Hne;
    cbn [piggyback_all length].
  - exists comp. rewrite Nat.add_0_r, app_nil_r.
    split; [reflexivity|]. split; [exact Hlay|]. split; reflexivity.
  - apply Forall_cons in Hne as [Hf Hfs]. cbn [length] in Hroom.
    rewrite (rohc_comp_piggyback_feedback_run true comp nl nq) by assumption.
    destruct (Nat.eqb_spec (nl + nq) SIZE); [lia|].
    cbn [mbind option_bind].
    destruct (piggybacked_layout SIZE ring_size_pos comp nl nq f Hlay
                ltac:(lia) Hf) as [_ Hlay'].
    destruct (queued_feedbacks_piggybacked comp nl nq f Hlay ltac:(lia) Hf)
      as [Hq Hl].
    destruct (IH (piggybacked comp f) nl (S nq) Hlay' ltac:(lia) Hfs)
      as (comp' & Hrun & Hlay'' & Hq' & Hl').
    exists comp'. split; [exact Hrun|].
    split; [replace (nq + S (length fs))%nat with (S nq + length fs)%nat
              by lia; exact Hlay''|].
    split; [|rewrite Hl', Hl; reflexivity].
    rewrite Hq', Hq, <- app_assoc. reflexivity.
Qed.

Lemma feedback_bytes_slot (f : list Z) :
  feedback_bytes (feedback_slot f) = feedback_header (feedback_slot f) ++ f.
Proof.
  clear ring_size_pos.
  unfold feedback_bytes. cbn [feedback_slot fb_data fb_length default].
  unfold id. rewrite Nat2Z.id, take_ge by lia. reflexivity.
Qed.

Lemma emitted_size_slot (f : list Z) :
  emitted_size (feedback_slot f) =
    Z.of_nat (length (feedback_header (feedback_slot f) ++ f)).
Proof.
  clear ring_size_pos.
  rewrite length_app, Nat2Z.inj_add, length_feedback_header.
  unfold emitted_size. cbn [feedback_slot fb_length].
  destruct (Z.of_nat (length f) <? 8); lia.
Qed.

(** X15: Feedbacks piggybacked one after the other on an empty ring, no
    more of them than the ring has locations, are written by one
    rohc_feedback_flush in the order of their arrival, each after its
    header, when the buffer is large enough; rohc_feedback_avail_bytes
    gives the size written before the flush and 0 after it. *)
Theorem piggyback_all_flush (comp : rohc_comp) (fs : list (list Z))
    (osize : Z) :
  ring_layout comp 0 0 -> (length fs <= SIZE)%nat ->
  Forall (fun f => f <> []) fs ->
  let wire :=
    concat ((fun f => feedback_header (feedback_slot f) ++ f) <$> fs) in
  0 < osize <= INT_MAX -> Z.of_nat (length wire) <= osize ->
  exists comp1 comp2,
    piggyback_all SIZE comp fs = Some (true, comp1) /\
    rohc_feedback_avail_bytes SIZE comp1 = Z.of_nat (length wire) /\
    rohc_feedback_flush comp1 osize =
      Some (Z.of_nat (length wire), wire, comp2) /\
    rohc_feedback_avail_bytes SIZE comp2 = 0.
Proof.
  intros Hlay Hlen Hne wire Hosize Hfit.
  destruct (piggyback_all_run fs comp 0 0 Hlay ltac:(lia) Hne)
    as (comp1 & Hrun & Hlay1 & Hq & _).
  destruct (queued_feedbacks_layout comp 0 0 Hlay) as (_ & _ & Hnq & _).
  apply nil_length_inv in Hnq. rewrite Hnq in Hq. cbn [app] in Hq.
  assert (feedback_bytes <$> queued_feedbacks comp1 =
          (fun f => feedback_header (feedback_slot f) ++ f) <$> fs) as Hbytes.
  { rewrite Hq, <- list_fmap_compose. apply list_fmap_ext.
    intros i f _. apply feedback_bytes_slot. }
  assert (emitted_sizes (queued_feedbacks comp1) = Z.of_nat (length wire))
    as Hsizes.
  { rewrite Hq. unfold wire. clear.
    induction fs as [|f fs IH];
      cbn [fmap list_fmap concat emitted_sizes foldr]; [reflexivity|].
    rewrite length_app, Nat2Z.inj_add, <- emitted_size_slot.
    unfold emitted_sizes in IH.
    change (list_fmap _ _ ?g fs) with (g <$> fs).
    rewrite IH. reflexivity. }
  destruct (rohc_feedback_flush_all_run comp1 0 (0 + length fs) osize Hlay1 Hosize
              ltac:(lia)) as (comp2 & Hflush & _ & _ & Hzero).
  exists comp1, comp2. split; [exact Hrun|].
  assert (rohc_feedback_avail_bytes SIZE comp1 = Z.of_nat (length wire))
    as Havail.
  { rewrite rohc_feedback_avail_bytes_sizes by apply Hlay1.
    rewrite Hsizes. apply to_size_t_small.
    unfold INT_MAX, SIZE_MAX in *. lia. }
  split; [exact Havail|].
  split; [|exact Hzero].
  rewrite Hflush, Havail, Hbytes. reflexivity.
Qed.

End QueueProofs.

End FeedbackQueueFacts.

(** ** Feedbacks and segments in the compression of a packet *)

Module CompressFacts.

Import RohcComp RingInv CIntFacts CMemFacts RingFacts FeedbackQueue
  FeedbackQueueFacts Segments SegmentFacts.

Section CompressQueue.

Variable FEEDBACK_RING_SIZE : nat.
Hypothesis ring_size_pos : (0 < FEEDBACK_RING_SIZE)%nat.

Local Abbreviation SIZE := FEEDBACK_RING_SIZE.
Local Abbreviation ring_layout := (ring_layout FEEDBACK_RING_SIZE).
Local Abbreviation ring_wf := (ring_wf FEEDBACK_RING_SIZE).
Local Abbreviation lock_first_unlocked :=
  (lock_first_unlocked FEEDBACK_RING_SIZE).
Local Abbreviation add_feedbacks := (add_feedbacks FEEDBACK_RING_SIZE).

(** The feedbacks that the first step of [rohc_compress3] hands out are
    the first ones of the queue. *)
Lemma add_feedbacks_queue (fuel : nat) :
  forall (comp comp' : rohc_comp) (nl nq : nat) (max fs fs' : Z)
         (w w' : list Z),
    ring_layout comp nl nq ->
    add_feedbacks fuel comp max fs w = Some (fs', w', comp') ->
    exists m,
      (m <= nq)%nat /\
      ring_layout comp' (nl + m) (nq - m) /\
      queued_feedbacks comp' = drop m (queued_feedbacks comp) /\
      locked_feedbacks comp' =
        locked_feedbacks comp ++
        ((fun s => set_locked s true) <$> take m (queued_feedbacks comp)) /\
      unlock_all (feedbacks comp') = unlock_all (feedbacks comp) /\
      comp' = set_ring comp (feedbacks comp') (feedbacks_first comp)
                       (feedbacks_first_unlocked comp')
                       (feedbacks_next comp) /\
      (Forall (fun s => fb_length s <= INT_MAX - 2) (queued_feedbacks comp) ->
       0 <= fs <= 500 ->
       fs' = fs + emitted_sizes (take m (queued_feedbacks comp)) /\
       w' = w ++ concat (feedback_bytes <$> take m (queued_feedbacks comp))).
Proof.
  induction fuel as [|fuel IH];
    intros comp comp' nl nq max fs fs' w w' Hlay Hrun;
    cbn [RohcComp.add_feedbacks] in Hrun; [discriminate|].
  destruct (rohc_feedback_get_layout SIZE ring_size_pos comp nl nq max Hlay)
    as [Hnone Hsome].
  destruct (queued_feedbacks_layout SIZE ring_size_pos comp nl nq Hlay)
    as (_ & _ & Hnq & _ & Hqs & _).
  assert (nq = 0%nat \/ (0 < nq)%nat) as [->|Hpos] by lia.
  - rewrite Hnone in Hrun by reflexivity. cbn [mbind option_bind] in Hrun.
    change (0 >? 0) with false in Hrun. cbv iota in Hrun. cbn [andb] in Hrun.
    injection Hrun as <- <- <-.
    exists 0%nat. rewrite Nat.add_0_r, drop_0, take_0. cbn [fmap list_fmap
      concat emitted_sizes foldr]. rewrite !app_nil_r, Z.add_0_r.
    split; [lia|]. split; [exact Hlay|]. split; [reflexivity|].
    split; [reflexivity|]. split; [reflexivity|].
    split; [symmetry; apply set_ring_eta|]. intros _ _. split; reflexivity.
  - destruct (Hsome Hpos) as (s & d & Hs & Hqueued & Hd & Hget & Hlay').
    destruct (queued_feedbacks_lock SIZE ring_size_pos comp nl nq s Hlay
                Hpos Hs) as [Hq Hl].
    rewrite Hget in Hrun.
    destruct (required_length s >? max).
    + (* no room for the feedback at the head of the queue *)
      cbn [mbind option_bind] in Hrun.
      change (-1 >? 0) with false in Hrun. cbv iota in Hrun.
      cbn [andb] in Hrun. injection Hrun as <- <- <-.
      exists 0%nat. rewrite Nat.add_0_r, Nat.sub_0_r, drop_0, take_0.
      cbn [fmap list_fmap concat emitted_sizes foldr].
      rewrite !app_nil_r, Z.add_0_r.
      split; [lia|]. split; [exact Hlay|]. split; [reflexivity|].
      split; [reflexivity|]. split; [reflexivity|].
      split; [symmetry; apply set_ring_eta|]. intros _ _. split; reflexivity.
    + cbn [mbind option_bind] in Hrun.
      assert (unlock_all (feedbacks (lock_first_unlocked comp s)) =
              unlock_all (feedbacks comp)) as Hun
        by (apply unlock_all_insert; exact Hs).
      assert (Forall (fun s => fb_length s <= INT_MAX - 2)
                     (queued_feedbacks comp) ->
              to_int (required_length s) = emitted_size s /\
              0 < emitted_size s <= INT_MAX) as Hsz.
      { intros Hb. rewrite Hq in Hb. apply Forall_cons in Hb as [Hb _].
        destruct Hqueued as (_ & Hlen & _).
        rewrite emitted_size_required by (unfold INT_MAX in *; lia).
        pose proof (emitted_size_pos s ltac:(lia)).
        assert (emitted_size s <= INT_MAX)
          by (unfold emitted_size, INT_MAX in *;
              destruct (fb_length s <? 8); lia).
        split; [apply to_int_small; lia|lia]. }
      set (r := to_int (required_length s)) in *.
      set (fs1 := if r >? 0 then to_size_t (fs + r) else fs) in *.
      set (w1 := if r >? 0
                 then w ++ feedback_header s ++
                      take (Z.to_nat (fb_length s)) d
                 else w) in *.
      assert (Forall (fun s => fb_length s <= INT_MAX - 2)
                     (queued_feedbacks comp) -> 0 <= fs <= 500 ->
              fs1 = fs + emitted_size s /\
              w1 = w ++ feedback_bytes s) as Hfirst.
      { intros Hb Hfs. destruct (Hsz Hb) as [Hr He].
        unfold fs1, w1. rewrite Hr.
        destruct (Z.gtb_spec (emitted_size s) 0); [|lia].
        rewrite to_size_t_small by (unfold INT_MAX, SIZE_MAX in *; lia).
        split; [reflexivity|]. unfold feedback_bytes. rewrite Hd.
        reflexivity. }
      destruct ((r >? 0) && (fs1 <=? 500)) eqn:Hcont.
      * (* the loop goes on *)
        destruct (IH _ _ _ _ _ _ _ _ _ Hlay' Hrun)
          as (m & Hm & Hlay'' & Hq' & Hl' & Hun' & Heq' & Hbytes).
        exists (S m). rewrite Hq. cbn [drop take fmap list_fmap].
        split; [lia|].
        split; [replace (nl + S m)%nat with (S nl + m)%nat by lia;
                replace (nq - S m)%nat with (nq - 1 - m)%nat by lia;
                exact Hlay''|].
        split; [exact Hq'|].
        split; [rewrite Hl', Hl, <- app_assoc; reflexivity|].
        split; [rewrite Hun', Hun; reflexivity|].
        split.
        { rewrite Heq' at 1. unfold RingInv.lock_first_unlocked.
          rewrite set_ring_set_ring. reflexivity. }
        intros Hb Hfs. destruct (Hfirst ltac:(rewrite Hq; exact Hb) Hfs)
          as [Hfs1 Hw1].
        apply andb_true_iff in Hcont as [_ Hle]. apply Z.leb_le in Hle.
        destruct (Hsz ltac:(rewrite Hq; exact Hb)) as [_ He].
        destruct Hbytes as [-> ->].
        { apply Forall_cons in Hb. apply Hb. }
        { lia. }
        cbn [emitted_sizes foldr concat].
        change (list_fmap _ _ feedback_bytes ?l) with (feedback_bytes <$> l).
        rewrite Hfs1, Hw1, <- app_assoc. unfold emitted_sizes. split; [lia|].
        reflexivity.
      * injection Hrun as <- <- <-.
        exists 1%nat. rewrite Hq. cbn [drop take fmap list_fmap].
        rewrite drop_0, take_0.
        split; [lia|].
        split; [replace (nl + 1)%nat with (S nl) by lia; exact Hlay'|].
        split; [reflexivity|].
        split; [exact Hl|].
        split; [exact Hun|].
        split; [reflexivity|].
        intros Hb Hfs. destruct (Hfirst ltac:(rewrite Hq; exact Hb) Hfs)
          as [Hfs1 Hw1].
        cbn [emitted_sizes foldr concat fmap list_fmap].
        rewrite Hfs1, Hw1, app_nil_r, Z.add_0_r. split; reflexivity.
Qed.

Lemma same_but_ring_refl (comp : rohc_comp) : same_but_ring comp comp.
Proof. unfold same_but_ring. symmetry. apply set_ring_eta. Qed.

Lemma same_but_ring_trans (c1 c2 c3 : rohc_comp) :
  same_but_ring c1 c2 -> same_but_ring c2 c3 -> same_but_ring c1 c3.
Proof.
  unfold same_but_ring. intros H12 H23.
  rewrite H23 at 1. rewrite H12 at 1. apply set_ring_set_ring.
Qed.

Lemma rohc_feedback_get_frame (comp comp' : rohc_comp) (max r : Z)
    (bytes : list Z) :
  rohc_feedback_get SIZE comp max = Some (r, bytes, comp') ->
  same_but_ring comp comp'.
Proof.
  clear ring_size_pos.
  unfold rohc_feedback_get.
  repeat match goal with
         | |- context [if ?b then _ else _] => destruct b
         | |- context [mbind _ ?m] => destruct m; cbn [mbind option_bind]
         end;
    try discriminate; intros [= _ _ <-];
    first [apply same_but_ring_refl | reflexivity].
Qed.

Lemma add_feedbacks_frame (fuel : nat) :
  forall (comp comp' : rohc_comp) (max fs fs' : Z) (w w' : list Z),
    add_feedbacks fuel comp max fs w = Some (fs', w', comp') ->
    same_but_ring comp comp'.
Proof.
  clear ring_size_pos.
  induction fuel as [|fuel IH]; intros comp comp' max fs fs' w w' Hrun;
    cbn [RohcComp.add_feedbacks] in Hrun; [discriminate|].
  destruct (rohc_feedback_get SIZE comp max) as [[[r bytes] comp1]|] eqn:Hget;
    cbn [mbind option_bind] in Hrun; [|discriminate].
  apply rohc_feedback_get_frame in Hget.
  destruct ((r >? 0) && _).
  - eapply same_but_ring_trans; [exact Hget|]. eapply IH. exact Hrun.
  - injection Hrun as _ _ <-. exact Hget.
Qed.

Lemma rohc_feedback_unlock_frame (comp comp' : rohc_comp) (b : bool) :
  rohc_feedback_unlock SIZE comp = Some (b, comp') -> same_but_ring comp comp'.
Proof.
  clear ring_size_pos.
  unfold rohc_feedback_unlock.
  repeat match goal with
         | |- context [if ?b then _ else _] => destruct b
         | |- context [mbind _ ?m] => destruct m; cbn [mbind option_bind]
         end;
    try discriminate; intros [= _ <-]; reflexivity.
Qed.

Lemma rohc_feedback_remove_locked_frame (comp comp' : rohc_comp) (b : bool) :
  rohc_feedback_remove_locked SIZE comp = Some (b, comp') ->
  same_but_ring comp comp'.
Proof.
  clear ring_size_pos.
  unfold rohc_feedback_remove_locked.
  repeat match goal with
         | |- context [if ?b then _ else _] => destruct b
         | |- context [mbind _ ?m] =>
             destruct m as [[? ?]|]; cbn [mbind option_bind]
         end;
    try discriminate; intros [= _ <-]; reflexivity.
Qed.

Variable big_endian_host : bool.
Variable crc_calc_fcs32 : list Z -> Z -> Z.
Variable CRC_INIT_FCS32 : Z.

Local Abbreviation rohc_compress3 :=
  (rohc_compress3 FEEDBACK_RING_SIZE big_endian_host crc_calc_fcs32
                  CRC_INIT_FCS32).
Local Abbreviation stage_rru :=
  (stage_rru big_endian_host crc_calc_fcs32 CRC_INIT_FCS32).

(** The ways a call to [rohc_compress3] ends. *)
Lemma rohc_compress3_cases (comp comp' : rohc_comp) (env : packet_env)
    (rohc_packet_max_len : Z) (res : compress_result) :
  rohc_compress3 comp env rohc_packet_max_len = Some (res, comp') ->
  (res = error_result [] 0 0 /\ comp' = comp) \/
  exists fs w comp1,
    add_feedbacks (S SIZE) comp
      (to_uint32 (to_size_t (rohc_packet_max_len - 0))) 0 []
      = Some (fs, w, comp1) /\
    feedbacks_size res = fs /\
    ((status res = ROHC_ERROR /\
      exists b, rohc_feedback_unlock SIZE comp1 = Some (b, comp')) \/
     exists rohc_hdr payload_offset,
       compress3_encode env
         (to_size_t (rohc_packet_max_len - to_size_t (0 + fs)))
         = Some (rohc_hdr, payload_offset) /\
       let packet_len :=
         to_size_t (to_size_t (0 + fs) + Z.of_nat (length rohc_hdr)) in
       let payload_size := to_size_t (ip_totlen env - payload_offset) in
       let payload :=
         region (uncomp_packet env) (Z.to_nat payload_offset)
                (Z.to_nat payload_size) in
       (rohc_packet_max_len < to_size_t (packet_len + payload_size) /\
        to_size_t (packet_len + payload_size + CRC_FCS32_LEN)
          <= mrru comp1 /\
        status res = ROHC_NEED_SEGMENT /\
        exists b comp2,
          rohc_feedback_unlock SIZE
            (stage_rru comp1 rohc_hdr payload payload_size)
            = Some (b, comp2) /\
          comp' = set_num_packets comp2 (to_int (num_packets comp2 + 1))) \/
       (to_size_t (packet_len + payload_size) <= rohc_packet_max_len /\
        res = {| status := ROHC_OK;
                 rohc_packet := w ++ rohc_hdr ++ payload;
                 rohc_packet_len := to_size_t (packet_len + payload_size);
                 feedbacks_size := fs |} /\
        exists b comp2,
          rohc_feedback_remove_locked SIZE comp1 = Some (b, comp2) /\
          comp' = set_num_packets comp2 (to_int (num_packets comp2 + 1)))).
Proof.
  clear ring_size_pos.
  unfold RohcComp.rohc_compress3.
  destruct ((Z.of_nat (length (uncomp_packet env)) <=? 0) ||
            (rohc_packet_max_len <=? 0));
    [intros [= <- <-]; left; split; reflexivity|].
  destruct (ip_parsed env); cbn [negb];
    [|intros [= <- <-]; left; split; reflexivity].
  destruct (profile_found env); cbn [negb];
    [|intros [= <- <-]; left; split; reflexivity].
  destruct (context_found env); cbn [negb];
    [|intros [= <- <-]; left; split; reflexivity].
  destruct (RohcComp.add_feedbacks SIZE (S SIZE) comp _ 0 [])
    as [[[fs w] comp1]|] eqn:Hloop; cbn [mbind option_bind];
    [|discriminate].
  intros Hrun. right. exists fs, w, comp1. split; [reflexivity|].
  destruct (compress3_encode env _) as [[rohc_hdr payload_offset]|] eqn:Henc.
  2:{ destruct (rohc_feedback_unlock SIZE comp1) as [[b c]|] eqn:Hun;
        cbn [mbind option_bind] in Hrun; [|discriminate].
      injection Hrun as <- <-. split; [reflexivity|].
      left. split; [reflexivity|]. exists b. reflexivity. }
  cbv zeta in Hrun.
  destruct (Z.gtb_spec
              (to_size_t
                 (to_size_t (to_size_t (0 + fs) + Z.of_nat (length rohc_hdr)) +
                  to_size_t (ip_totlen env - payload_offset)))
              rohc_packet_max_len) as [Hbig|Hfits].
  - destruct (Z.gtb_spec
                (to_size_t
                   (to_size_t (to_size_t (0 + fs) +
                               Z.of_nat (length rohc_hdr)) +
                    to_size_t (ip_totlen env - payload_offset) +
                    CRC_FCS32_LEN))
                (mrru comp1)) as [Hover|Hmrru].
    + destruct (rohc_feedback_unlock SIZE comp1) as [[b c]|] eqn:Hun;
        cbn [mbind option_bind] in Hrun; [|discriminate].
      injection Hrun as <- <-. split; [reflexivity|].
      left. split; [reflexivity|]. exists b. reflexivity.
    + destruct (negb (rru_len _ <=? mrru _)); [discriminate|].
      destruct (rohc_feedback_unlock SIZE _) as [[b c]|] eqn:Hun;
        cbn [mbind option_bind] in Hrun; [|discriminate].
      injection Hrun as <- <-. split; [reflexivity|].
      right. exists rohc_hdr, payload_offset. split; [reflexivity|].
      left. split; [lia|]. split; [lia|]. split; [reflexivity|].
      exists b, c. split; [exact Hun|reflexivity].
  - destruct (rohc_feedback_remove_locked SIZE comp1) as [[b c]|] eqn:Hrem;
      cbn [mbind option_bind] in Hrun; [|discriminate].
    injection Hrun as <- <-. split; [reflexivity|].
    right. exists rohc_hdr, payload_offset. split; [reflexivity|].
    right. split; [lia|]. split; [reflexivity|].
    exists b, c. split; [reflexivity|reflexivity].
Qed.


Lemma ring_layout_unlocked (comp : rohc_comp) (nq : nat) :
  ring_layout comp 0 nq ->
  forall i s, feedbacks comp !! i = Some s -> is_locked s = false.
Proof.
  intros Hlay i s Hs.
  pose proof (lookup_lt_Some _ _ _ Hs) as Hi.
  rewrite (rl_length _ _ _ _ Hlay) in Hi.
  destruct (ring_pos_surj SIZE ring_size_pos (feedbacks_first comp) i
              (rl_first _ _ _ _ Hlay) Hi) as (k & Hk & <-).
  pose proof (ring_layout_slot SIZE comp 0 nq k s Hlay Hk Hs) as Hcl.
  unfold slot_class, queued_slot in Hcl.
  destruct (Nat.ltb_spec k 0); [lia|].
  destruct (k <? 0 + nq)%nat; [apply Hcl|subst s; reflexivity].
Qed.

(** The ring after the feedbacks handed out by [add_feedbacks] are
    unlocked again, when none was handed out before. *)
Lemma add_feedbacks_unlock (comp comp1 comp2 : rohc_comp) (nq : nat)
    (max fs fs' : Z) (w w' : list Z) (b : bool) (c : rohc_comp) :
  ring_layout comp 0 nq ->
  add_feedbacks (S SIZE) comp max fs w = Some (fs', w', comp1) ->
  feedbacks c = feedbacks comp1 ->
  feedbacks_first c = feedbacks_first comp1 ->
  feedbacks_first_unlocked c = feedbacks_first_unlocked comp1 ->
  feedbacks_next c = feedbacks_next comp1 ->
  rohc_feedback_unlock SIZE c = Some (b, comp2) ->
  feedbacks comp2 = feedbacks comp /\
  feedbacks_first comp2 = feedbacks_first comp /\
  feedbacks_first_unlocked comp2 = feedbacks_first_unlocked comp /\
  feedbacks_next comp2 = feedbacks_next comp.
Proof.
  intros Hlay Hloop Hfb Hf Hfu Hnx Hun.
  destruct (add_feedbacks_queue _ _ _ _ _ _ _ _ _ _ Hlay Hloop)
    as (m & Hm & Hlay1 & _ & _ & Hunl & Heq1 & _).
  assert (ring_layout c (0 + m) (nq - m)) as Hlayc.
  { destruct Hlay1 as [H1 H2 H3 H4 H5 H6].
    split; rewrite ?Hfb, ?Hf, ?Hfu, ?Hnx; assumption. }
  rewrite (rohc_feedback_unlock_layout SIZE ring_size_pos c _ _ Hlayc) in Hun.
  injection Hun as _ <-. cbn [feedbacks feedbacks_first
    feedbacks_first_unlocked feedbacks_next set_ring].
  rewrite Hfb, Hf, Hnx, Hunl.
  rewrite (unlock_all_id (feedbacks comp))
    by (apply (ring_layout_unlocked comp nq Hlay)).
  assert (feedbacks_first comp1 = feedbacks_first comp) as ->
    by (rewrite Heq1; reflexivity).
  assert (feedbacks_next comp1 = feedbacks_next comp) as ->
    by (rewrite Heq1; reflexivity).
  split; [reflexivity|]. split; [reflexivity|]. split; [|reflexivity].
  rewrite (rl_first_unlocked _ _ _ _ Hlay).
  symmetry. apply ring_pos_0; [exact ring_size_pos|apply Hlay].
Qed.

(** X16: When rohc_compress3 returns ROHC_ERROR or ROHC_NEED_SEGMENT on a
    well-formed ring without locked feedback, the ring and its three
    indices are the ones before the call: the feedbacks written in the
    output buffer are unlocked, they stay queued and
    rohc_feedback_avail_bytes is unchanged. *)
Theorem rohc_compress3_failure_keeps_feedbacks (comp comp' : rohc_comp)
    (env : packet_env) (rohc_packet_max_len : Z) (res : compress_result)
    (nq : nat) :
  ring_layout comp 0 nq ->
  rohc_compress3 comp env rohc_packet_max_len = Some (res, comp') ->
  status res <> ROHC_OK ->
  feedbacks comp' = feedbacks comp /\
  feedbacks_first comp' = feedbacks_first comp /\
  feedbacks_first_unlocked comp' = feedbacks_first_unlocked comp /\
  feedbacks_next comp' = feedbacks_next comp /\
  queued_feedbacks comp' = queued_feedbacks comp /\
  rohc_feedback_avail_bytes SIZE comp' = rohc_feedback_avail_bytes SIZE comp.
Proof.
  intros Hlay Hrun Hstatus.
  assert (feedbacks comp' = feedbacks comp /\
          feedbacks_first comp' = feedbacks_first comp /\
          feedbacks_first_unlocked comp' = feedbacks_first_unlocked comp /\
          feedbacks_next comp' = feedbacks_next comp) as (Hfb & Hf & Hfu & Hnx).
  { destruct (rohc_compress3_cases _ _ _ _ _ Hrun)
      as [[_ ->]|(fs & w & comp1 & Hloop & _ & Hcases)];
      [repeat split; reflexivity|].
    destruct Hcases as [(_ & b & Hun)|(hdr & off & Henc & Hcases)].
    - eapply (add_feedbacks_unlock comp comp1 comp'); try eassumption;
        reflexivity.
    - cbv zeta in Hcases.
      destruct Hcases as [(_ & _ & _ & b & comp2 & Hun & ->)|(_ & -> & _)];
        [|exfalso; apply Hstatus; reflexivity].
      cbn [feedbacks feedbacks_first feedbacks_first_unlocked feedbacks_next
           set_num_packets].
      eapply (add_feedbacks_unlock comp comp1 comp2); try eassumption;
        reflexivity. }
  split; [exact Hfb|]. split; [exact Hf|]. split; [exact Hfu|].
  split; [exact Hnx|].
  split.
  - unfold queued_feedbacks, ring_order. rewrite Hfb, Hf. reflexivity.
  - unfold rohc_feedback_avail_bytes. rewrite Hfb. reflexivity.
Qed.


Lemma ring_layout_set_num_packets (comp : rohc_comp) (v : Z) (nl nq : nat) :
  ring_layout comp nl nq -> ring_layout (set_num_packets comp v) nl nq.
Proof. clear ring_size_pos. intros [H1 H2 H3 H4 H5 H6]. split; assumption. Qed.

(** X17: When rohc_compress3 returns ROHC_OK on a well-formed ring, the
    oldest m queued feedbacks, for some m, have left the ring and the
    others stay queued in order, no feedback is locked, the packet length
    is at most rohc_packet_max_len and, when the feedbacks are of at most
    INT_MAX - 2 bytes, the packet begins with the m feedbacks, each after
    its header. *)
Theorem rohc_compress3_success_sends_feedbacks (comp comp' : rohc_comp)
    (env : packet_env) (rohc_packet_max_len : Z) (res : compress_result)
    (nl nq : nat) :
  ring_layout comp nl nq ->
  rohc_compress3 comp env rohc_packet_max_len = Some (res, comp') ->
  status res = ROHC_OK ->
  exists m,
    (m <= nq)%nat /\
    queued_feedbacks comp' = drop m (queued_feedbacks comp) /\
    locked_feedbacks comp' = [] /\
    ring_layout comp' 0 (nq - m) /\
    rohc_packet_len res <= rohc_packet_max_len /\
    (Forall (fun s => fb_length s <= INT_MAX - 2) (queued_feedbacks comp) ->
     feedbacks_size res = emitted_sizes (take m (queued_feedbacks comp)) /\
     exists rest,
       rohc_packet res =
         concat (feedback_bytes <$> take m (queued_feedbacks comp)) ++ rest).
Proof.
  intros Hlay Hrun Hstatus.
  destruct (rohc_compress3_cases _ _ _ _ _ Hrun)
    as [[-> _]|(fs & w & comp1 & Hloop & Hfs & Hcases)]; [discriminate|].
  destruct Hcases as [(Herr & _)|(hdr & off & Henc & Hcases)];
    [congruence|].
  cbv zeta in Hcases.
  destruct Hcases as [(_ & _ & Hseg & _)|(Hfits & -> & b & comp2 & Hrem & ->)];
    [congruence|].
  destruct (add_feedbacks_queue _ _ _ _ _ _ _ _ _ _ Hlay Hloop)
    as (m & Hm & Hlay1 & Hq1 & _ & _ & _ & Hbytes).
  destruct (rohc_feedback_remove_locked_run SIZE ring_size_pos comp1 _ _
              Hlay1) as (comp2' & Hrem' & Hq2 & Hl2 & Hlay2).
  rewrite Hrem in Hrem'. injection Hrem' as _ <-.
  exists m. split; [exact Hm|].
  split; [exact (eq_trans Hq2 Hq1)|].
  split; [exact Hl2|].
  split; [apply ring_layout_set_num_packets; exact Hlay2|].
  split; [exact Hfits|].
  intros Hb. destruct (Hbytes Hb ltac:(lia)) as [-> ->].
  cbn [feedbacks_size rohc_packet app].
  split; [lia|]. eexists. reflexivity.
Qed.

(** X18: A call to rohc_compress3 that returns ROHC_OK or
    ROHC_NEED_SEGMENT adds 1 to num_packets, after which
    rohc_comp_set_traces_cb, rohc_comp_set_wlsb_window_width and
    rohc_comp_set_periodic_refreshes fail for every argument and change
    nothing; a call that returns ROHC_ERROR leaves num_packets as it is. *)
Theorem rohc_compress3_closes_configuration (comp comp' : rohc_comp)
    (env : packet_env) (rohc_packet_max_len : Z) (res : compress_result) :
  rohc_compress3 comp env rohc_packet_max_len = Some (res, comp') ->
  0 <= num_packets comp < INT_MAX ->
  (status res = ROHC_ERROR -> num_packets comp' = num_packets comp) /\
  (status res <> ROHC_ERROR ->
   num_packets comp' = num_packets comp + 1 /\
   rohc_comp_set_traces_cb comp' = (false, comp') /\
   (forall width,
      rohc_comp_set_wlsb_window_width comp' width = (false, comp')) /\
   (forall ir_timeout fo_timeout,
      rohc_comp_set_periodic_refreshes comp' ir_timeout fo_timeout
        = (false, comp'))).
Proof.
  clear ring_size_pos.
  intros Hrun Hnum.
  assert (forall c,
            num_packets c = num_packets comp ->
            let c' := set_num_packets c (to_int (num_packets c + 1)) in
            num_packets c' = num_packets comp + 1 /\
            rohc_comp_set_traces_cb c' = (false, c') /\
            (forall width,
               rohc_comp_set_wlsb_window_width c' width = (false, c')) /\
            (forall ir_timeout fo_timeout,
               rohc_comp_set_periodic_refreshes c' ir_timeout fo_timeout
                 = (false, c'))) as Hclosed.
  { intros c Hc c'.
    assert (num_packets c' = num_packets comp + 1) as Hn.
    { unfold c'. cbn [num_packets set_num_packets]. rewrite Hc.
      apply to_int_small. unfold INT_MAX in *. lia. }
    assert ((num_packets c' >? 0) = true) as Hpos
      by (rewrite Hn; apply Z.gtb_gt; lia).
    split; [exact Hn|]. split; [|split].
    - unfold rohc_comp_set_traces_cb. rewrite Hpos. reflexivity.
    - intros width. unfold rohc_comp_set_wlsb_window_width. rewrite Hpos.
      destruct (width <=? 0); [reflexivity|].
      destruct (negb _); reflexivity.
    - intros ir fo. unfold rohc_comp_set_periodic_refreshes. rewrite Hpos.
      destruct (_ || _); reflexivity. }
  destruct (rohc_compress3_cases _ _ _ _ _ Hrun)
    as [[-> ->]|(fs & w & comp1 & Hloop & Hfs & Hcases)].
  { split; [reflexivity|]. intros H. exfalso. apply H. reflexivity. }
  apply add_feedbacks_frame in Hloop.
  assert (num_packets comp1 = num_packets comp) as Hn1
    by (rewrite Hloop; reflexivity).
  destruct Hcases as [(Herr & b & Hun)|(hdr & off & Henc & Hcases)].
  { apply rohc_feedback_unlock_frame in Hun.
    split; [|congruence]. intros _. rewrite Hun. exact Hn1. }
  cbv zeta in Hcases.
  destruct Hcases as [(_ & _ & Hseg & b & comp2 & Hun & ->)
                     |(Hfits & -> & b & comp2 & Hrem & ->)].
  - apply rohc_feedback_unlock_frame in Hun.
    split; [congruence|]. intros _. apply Hclosed.
    rewrite Hun. exact Hn1.
  - apply rohc_feedback_remove_locked_frame in Hrem.
    split; [discriminate|]. intros _. apply Hclosed.
    rewrite Hrem. exact Hn1.
Qed.

(** X19: With an MRRU of 0, rohc_compress3 never returns ROHC_NEED_SEGMENT
    and leaves the RRU buffer, its offset and its length as they are. *)
Theorem rohc_compress3_no_segment_without_mrru (comp comp' : rohc_comp)
    (env : packet_env) (rohc_packet_max_len : Z) (res : compress_result) :
  mrru comp = 0 ->
  (forall room rohc_hdr payload_offset,
     compress3_encode env room = Some (rohc_hdr, payload_offset) ->
     Z.of_nat (length rohc_hdr) <= INT_MAX /\
     0 <= ip_totlen env - payload_offset <= 0xffffffff) ->
  rohc_compress3 comp env rohc_packet_max_len = Some (res, comp') ->
  status res <> ROHC_NEED_SEGMENT /\
  rru comp' = rru comp /\ rru_len comp' = rru_len comp /\
  rru_off comp' = rru_off comp.
Proof.
  intros Hmrru Henv Hrun.
  destruct (rohc_compress3_cases _ _ _ _ _ Hrun)
    as [[-> ->]|(fs & w & comp1 & Hloop & Hfs & Hcases)].
  { split; [discriminate|repeat split; reflexivity]. }
  pose proof Hloop as Hbound.
  apply add_feedbacks_bound in Hbound;
    [| first [exact ring_size_pos | apply to_uint32_range | lia] ..].
  destruct Hbound as (Hfs0 & last & Hlast & Hlast_int & Hfs_le).
  apply add_feedbacks_frame in Hloop.
  assert (mrru comp1 = 0) as Hm1 by (rewrite Hloop; exact Hmrru).
  destruct Hcases as [(Herr & b & Hun)|(hdr & off & Henc & Hcases)].
  { apply rohc_feedback_unlock_frame in Hun.
    split; [congruence|]. rewrite Hun, Hloop. repeat split; reflexivity. }
  cbv zeta in Hcases.
  destruct (Henv _ _ _ Henc) as [Hhdr Hpay].
  destruct Hcases as [(_ & Hle & _)|(Hfits & -> & b & comp2 & Hrem & ->)].
  - exfalso. rewrite Hm1 in Hle.
    unfold INT_MAX, SIZE_MAX, CRC_FCS32_LEN in *.
    rewrite (to_size_t_small (0 + fs)) in Hle by (unfold SIZE_MAX; lia).
    rewrite (to_size_t_small (0 + fs + _)) in Hle by (unfold SIZE_MAX; lia).
    rewrite (to_size_t_small (ip_totlen env - off)) in Hle
      by (unfold SIZE_MAX; lia).
    rewrite to_size_t_small in Hle by (unfold SIZE_MAX; lia).
    lia.
  - apply rohc_feedback_remove_locked_frame in Hrem.
    split; [discriminate|]. rewrite Hrem, Hloop. repeat split; reflexivity.
Qed.


(** X21: On an empty ring, when the ROHC header and the payload exceed the
    output buffer but fit, with the FCS-32, in the MRRU, rohc_compress3
    returns ROHC_NEED_SEGMENT and the calls to rohc_comp_get_segment that
    follow deliver, in segments that begin with 0xFE and a last one that
    begins with 0xFF, the header, the payload and the 4 bytes of the
    FCS-32 computed on them. *)
Theorem rohc_compress3_then_segments (comp : rohc_comp) (env : packet_env)
    (rohc_packet_max_len : Z) (rohc_hdr : list Z) (payload_offset : Z)
    (segment : list Z) (max_len : Z) :
  ring_layout comp 0 0 ->
  uncomp_packet env <> [] ->
  0 < rohc_packet_max_len <= SIZE_MAX ->
  ip_parsed env = true -> profile_found env = true ->
  context_found env = true ->
  compress3_encode env (to_size_t (rohc_packet_max_len - 0))
    = Some (rohc_hdr, payload_offset) ->
  Z.of_nat (length rohc_hdr) <= INT_MAX ->
  0 <= payload_offset <= ip_totlen env ->
  ip_totlen env <= Z.of_nat (length (uncomp_packet env)) ->
  ip_totlen env <= 0xffffffff ->
  mrru comp <= Z.of_nat (length (rru comp)) ->
  Z.of_nat (length (rru comp)) <= SIZE_MAX ->
  let payload :=
    region (uncomp_packet env) (Z.to_nat payload_offset)
           (Z.to_nat (ip_totlen env - payload_offset)) in
  let rru_bytes :=
    rohc_hdr ++ payload ++
    uint32_bytes big_endian_host
      (crc_calc_fcs32 (rohc_hdr ++ payload) CRC_INIT_FCS32) in
  rohc_packet_max_len < Z.of_nat (length (rohc_hdr ++ payload)) ->
  Z.of_nat (length rru_bytes) <= mrru comp ->
  2 <= max_len <= SIZE_MAX -> max_len <= Z.of_nat (length segment) ->
  exists res comp1 firsts last comp2,
    rohc_compress3 comp env rohc_packet_max_len = Some (res, comp1) /\
    status res = ROHC_NEED_SEGMENT /\
    get_segments SIZE (length rru_bytes) comp1 segment max_len =
      Some (firsts ++ [last], comp2) /\
    concat (drop 1 <$> (firsts ++ [last])) = rru_bytes /\
    Forall (fun s => s !! 0%nat = Some 0xfe /\
                     Z.of_nat (length s) = max_len) firsts /\
    last !! 0%nat = Some 0xff /\
    2 <= Z.of_nat (length last) <= max_len /\
    rru_len comp2 = 0.
Proof.
  intros Hlay Hraw Hmax Hip Hprof Hctx Henc Hhdr Hoff Htot Htot32 Hbuf
    Hbufmax payload rru_bytes Hbig Hfit Hseg Hseglen.
  assert (Z.of_nat (length payload) = ip_totlen env - payload_offset)
    as Hplen.
  { unfold payload. rewrite length_region; lia. }
  assert (Z.of_nat (length rru_bytes) =
          Z.of_nat (length rohc_hdr) + Z.of_nat (length payload) + 4)
    as Hrlen.
  { unfold rru_bytes. rewrite !length_app, length_uint32_bytes. lia. }
  rewrite length_app, Nat2Z.inj_add in Hbig.
  set (hl := Z.of_nat (length rohc_hdr)) in *.
  set (pl := Z.of_nat (length payload)) in *.
  assert (0 <= hl) as Hhl by (unfold hl; lia).
  assert (0 <= pl) as Hpl by (unfold pl; lia).
  (* the staged RRU *)
  destruct (stage_rru_spec SIZE ring_size_pos big_endian_host crc_calc_fcs32
              CRC_INIT_FCS32 comp rohc_hdr payload pl eq_refl)
    as (Hs_off & Hs_len & Hs_region).
  { unfold CRC_FCS32_LEN. fold hl. lia. }
  { unfold CRC_FCS32_LEN, SIZE_MAX in *. fold hl. lia. }
  fold hl in Hs_len. unfold CRC_FCS32_LEN in Hs_len.
  set (comp_s := stage_rru comp rohc_hdr payload pl) in *.
  assert (length (rru comp_s) = length (rru comp)) as Hs_buf.
  { unfold comp_s, RohcComp.stage_rru. cbn [rru set_rru].
    rewrite !length_memcpy. reflexivity. }
  assert (ring_layout comp_s 0 0) as Hlay_s
    by (apply ring_layout_set_rru; exact Hlay).
  pose proof (unlocked_layout SIZE ring_size_pos comp_s 0 0 Hlay_s) as Hlay_u.
  set (comp_u := set_ring comp_s (unlock_all (feedbacks comp_s))
                          (feedbacks_first comp_s) (feedbacks_first comp_s)
                          (feedbacks_next comp_s)) in *.
  set (comp1 := set_num_packets comp_u (to_int (num_packets comp_u + 1))).
  (* the run of [rohc_compress3] *)
  assert (rohc_compress3 comp env rohc_packet_max_len =
          Some ({| status := ROHC_NEED_SEGMENT;
                   rohc_packet := [] ++ rohc_hdr;
                   rohc_packet_len := hl;
                   feedbacks_size := 0 |}, comp1)) as Hrun.
  { unfold RohcComp.rohc_compress3.
    assert ((Z.of_nat (length (uncomp_packet env)) <=? 0) = false) as ->.
    { destruct (uncomp_packet env); [congruence|]. apply Z.leb_gt.
      simpl length. lia. }
    rewrite (proj2 (Z.leb_gt rohc_packet_max_len 0)) by lia.
    rewrite Hip, Hprof, Hctx. cbn [orb negb].
    cbn [RohcComp.add_feedbacks].
    destruct (rohc_feedback_get_layout SIZE ring_size_pos comp 0 0
                (to_uint32 (to_size_t (rohc_packet_max_len - 0))) Hlay)
      as [Hget _].
    rewrite Hget by reflexivity.
    cbn [mbind option_bind]. change (0 >? 0) with false. cbv iota.
    cbn [andb mbind option_bind].
    change (to_size_t (0 + 0)) with 0.
    rewrite Henc. cbv beta iota zeta. fold hl.
    unfold INT_MAX, SIZE_MAX, CRC_FCS32_LEN in *.
    rewrite (to_size_t_small (0 + hl)) by (unfold SIZE_MAX; lia).
    replace (0 + hl) with hl by lia.
    rewrite (to_size_t_small (ip_totlen env - payload_offset))
      by (unfold SIZE_MAX; lia).
    fold payload. rewrite <- Hplen. fold pl.
    rewrite (to_size_t_small (hl + pl)) by (unfold SIZE_MAX; lia).
    rewrite (to_size_t_small (hl + pl + 4)) by (unfold SIZE_MAX; lia).
    rewrite (proj2 (Z.gtb_gt (hl + pl) rohc_packet_max_len)) by lia.
    destruct (Z.gtb_spec (hl + pl + 4) (mrru comp)) as [Hover|_]; [lia|].
    fold comp_s.
    assert (mrru comp_s = mrru comp) as Hs_mrru by reflexivity.
    rewrite (proj2 (Z.leb_le (rru_len comp_s) (mrru comp_s)))
      by (rewrite Hs_len, Hs_mrru; lia).
    cbn [negb].
    rewrite (rohc_feedback_unlock_layout SIZE ring_size_pos comp_s 0 0 Hlay_s).
    cbn [mbind option_bind]. reflexivity. }
  (* the segments *)
  destruct (get_segments_run SIZE ring_size_pos (length rru_bytes)
              comp1 (0 + 0) segment max_len)
    as (firsts & last & Hsegs & Hcat & Hfirsts & Hlast & Hlastlen & _).
  - apply ring_layout_set_num_packets. exact Hlay_u.
  - exact Hseg.
  - exact Hseglen.
  - change (rru_len comp1) with (rru_len comp_s). lia.
  - change (rru_off comp1) with (rru_off comp_s). lia.
  - change (rru_off comp1) with (rru_off comp_s).
    change (rru_len comp1) with (rru_len comp_s).
    change (rru comp1) with (rru comp_s).
    rewrite Hs_buf, Hs_off, Hs_len. lia.
  - change (rru comp1) with (rru comp_s).
    rewrite Hs_buf. exact Hbufmax.
  - change (rru_len comp1) with (rru_len comp_s). lia.
  - eexists _, comp1, firsts, last, _.
    split; [exact Hrun|]. split; [reflexivity|].
    split; [exact Hsegs|].
    split; [|split; [exact Hfirsts|split; [exact Hlast|
             split; [exact Hlastlen|reflexivity]]]].
    rewrite Hcat.
    change (rru_off comp1) with (rru_off comp_s).
    change (rru_len comp1) with (rru_len comp_s).
    change (rru comp1) with (rru comp_s).
    exact Hs_region.
Qed.


(** *** Feedbacks in a segment *)



Local Abbreviation segment_feedbacks :=
  (segment_feedbacks FEEDBACK_RING_SIZE).



End CompressQueue.

End CompressFacts.

(** ** Configuration, profiles and creation *)

Module ConfigFacts.

Import CIp RohcComp RingInv RtpPorts FeedbackQueue Profiles CIpCreate
  Lifetime PortListFacts CIntFacts RingFacts FeedbackQueueFacts.

(** *** Powers of two *)

Lemma land_double_pred (m : Z) :
  Z.land (2 * m) (2 * m - 1) = 2 * Z.land m (m - 1).
Proof.
  replace (2 * m - 1) with (2 * (m - 1) + 1) by lia.
  apply Z.bits_inj'. intros n Hn.
  rewrite Z.land_spec.
  destruct (Z.eq_dec n 0) as [->|Hne].
  - rewrite Z.testbit_even_0, Z.testbit_even_0. reflexivity.
  - replace n with (Z.succ (n - 1)) by lia.
    rewrite Z.testbit_even_succ, Z.testbit_odd_succ, Z.testbit_even_succ
      by lia.
    rewrite Z.land_spec. reflexivity.
Qed.

Lemma land_odd_pred (m : Z) :
  Z.land (2 * m + 1) (2 * m + 1 - 1) = 2 * m.
Proof.
  replace (2 * m + 1 - 1) with (2 * m) by lia.
  apply Z.bits_inj'. intros n Hn.
  rewrite Z.land_spec.
  destruct (Z.eq_dec n 0) as [->|Hne].
  - rewrite Z.testbit_odd_0, Z.testbit_even_0. reflexivity.
  - replace n with (Z.succ (n - 1)) by lia.
    rewrite Z.testbit_odd_succ, Z.testbit_even_succ by lia.
    apply andb_diag.
Qed.

Lemma land_pred_power (w : Z) :
  0 < w -> (Z.land w (w - 1) = 0 <-> exists k, 0 <= k /\ w = 2 ^ k).
Proof.
  intros Hw. split.
  - revert Hw. pattern w. apply (well_founded_induction (Z.lt_wf 0)).
    clear w. intros w IH Hw Hland.
    destruct (Z.Even_or_Odd w) as [[m ->]|[m ->]].
    + rewrite land_double_pred in Hland.
      destruct (IH m ltac:(lia) ltac:(lia) ltac:(lia)) as (k & Hk & ->).
      exists (k + 1). split; [lia|].
      rewrite Z.pow_add_r by lia. lia.
    + rewrite land_odd_pred in Hland.
      exists 0. split; [lia|]. simpl. lia.
  - intros (k & Hk & ->).
    replace (2 ^ k - 1) with (Z.ones k) by (rewrite Z.ones_equiv; lia).
    rewrite Z.land_ones by exact Hk.
    apply Z.mod_same. lia.
Qed.

(** X23: rohc_comp_set_wlsb_window_width succeeds exactly when the width
    is a power of two (2^k with k >= 0) and no packet was compressed yet
    (num_packets <= 0); on success only the width changes, on failure the
    compressor is unchanged. *)
Theorem rohc_comp_set_wlsb_window_width_power (comp : rohc_comp)
    (width : Z) :
  let r := rohc_comp_set_wlsb_window_width comp width in
  (r.1 = true <->
   (exists k, 0 <= k /\ width = 2 ^ k) /\ num_packets comp <= 0) /\
  (r.1 = true -> r.2 = set_wlsb_window_width comp width) /\
  (r.1 = false -> r.2 = comp).
Proof.
  intros r. subst r. unfold rohc_comp_set_wlsb_window_width.
  destruct (Z.leb_spec width 0) as [Hle|Hpos]; cbn [fst snd].
  { split; [|split; [discriminate|reflexivity]].
    split; [discriminate|].
    intros [(k & Hk & ->) _]. pose proof (Z.pow_pos_nonneg 2 k). lia. }
  pose proof (land_pred_power width Hpos) as Hpow.
  destruct (Z.eqb_spec (Z.land width (width - 1)) 0) as [Hz|Hnz];
    cbn [negb fst snd].
  - destruct (Z.gtb_spec (num_packets comp) 0) as [Hn|Hn]; cbn [fst snd].
    + split; [|split; [discriminate|reflexivity]].
      split; [discriminate|]. intros [_ ?]. lia.
    + split; [|split; [reflexivity|discriminate]].
      split; [|reflexivity]. intros _. split; [|exact Hn].
      apply Hpow. exact Hz.
  - split; [|split; [discriminate|reflexivity]].
    split; [discriminate|]. intros [Hk _]. apply Hpow in Hk. contradiction.
Qed.

(** *** Profiles *)

Section ProfileProofs.

Variable c_profile_id : nat -> Z.

Local Abbreviation profile_search := (profile_search c_profile_id).
Local Abbreviation rohc_comp_enable_profile :=
  (rohc_comp_enable_profile c_profile_id).
Local Abbreviation rohc_comp_disable_profile :=
  (rohc_comp_disable_profile c_profile_id).
Local Abbreviation rohc_comp_enable_profiles :=
  (rohc_comp_enable_profiles c_profile_id).
Local Abbreviation enable_profiles_loop := (enable_profiles_loop c_profile_id).
Local Abbreviation get_profile_loop := (get_profile_loop c_profile_id).
Local Abbreviation c_get_profile_from_id := (c_get_profile_from_id c_profile_id).
Local Abbreviation known_profile := (known_profile c_profile_id).
Local Abbreviation distinct_profiles := (distinct_profiles c_profile_id).
Local Abbreviation unknown_profile := (unknown_profile c_profile_id).

Lemma profile_search_spec (profile : Z) (n i : nat) :
  let r := profile_search n i profile in
  (i <= r <= i + n)%nat /\
  (forall j, (i <= j < r)%nat -> c_profile_id j <> profile) /\
  ((r < i + n)%nat -> c_profile_id r = profile).
Proof.
  revert i. induction n as [|n IH]; intros i; cbn [Profiles.profile_search].
  - split; [lia|]. split; [intros; lia|lia].
  - destruct (Z.eqb_spec (c_profile_id i) profile) as [Heq|Hne].
    + split; [lia|]. split; [intros; lia|]. intros _. exact Heq.
    + destruct (IH (S i)) as (Hr & Hbefore & Hat).
      split; [lia|]. split.
      * intros j Hj. destruct (Nat.eq_dec j i) as [->|]; [exact Hne|].
        apply Hbefore. lia.
      * intros Hlt. apply Hat. lia.
Qed.

(** The search ends at [C_NUM_PROFILES] exactly on the IDs that the table
    does not hold. *)
Lemma profile_search_known (profile : Z) :
  (profile_search C_NUM_PROFILES 0 profile < C_NUM_PROFILES)%nat <->
  known_profile profile.
Proof.
  destruct (profile_search_spec profile C_NUM_PROFILES 0)
    as (Hr & Hbefore & Hat).
  split.
  - intros Hlt. exists (profile_search C_NUM_PROFILES 0 profile).
    split; [exact Hlt|]. apply Hat. lia.
  - intros (i & Hi & Hid).
    destruct (Nat.lt_ge_cases (profile_search C_NUM_PROFILES 0 profile)
                C_NUM_PROFILES) as [|Hge]; [assumption|].
    exfalso. apply (Hbefore i); [lia|exact Hid].
Qed.

Lemma get_profile_loop_Some (comp : rohc_comp) (profile_id : Z)
    (n i k : nat) :
  get_profile_loop comp n i profile_id = Some k ->
  (i <= k < i + n)%nat /\ c_profile_id k = profile_id /\
  enabled_profiles comp !! k = Some true.
Proof.
  revert i. induction n as [|n IH]; intros i;
    cbn [Profiles.get_profile_loop]; [discriminate|].
  destruct (Z.eqb_spec (c_profile_id i) profile_id) as [Heq|Hne];
    cbn [andb].
  - destruct (enabled_profiles comp !! i) as [[]|] eqn:Hen; simpl default.
    + intros [= <-]. split; [lia|]. split; assumption.
    + intros H. apply IH in H. split; [lia|apply H].
    + intros H. apply IH in H. split; [lia|apply H].
  - intros H. apply IH in H. split; [lia|apply H].
Qed.

Lemma get_profile_loop_None (comp : rohc_comp) (profile_id : Z)
    (n i : nat) :
  get_profile_loop comp n i profile_id = None <->
  forall j, (i <= j < i + n)%nat -> c_profile_id j = profile_id ->
    enabled_profiles comp !! j <> Some true.
Proof.
  revert i. induction n as [|n IH]; intros i;
    cbn [Profiles.get_profile_loop].
  - split; [intros _ j Hj; lia|reflexivity].
  - destruct (Z.eqb_spec (c_profile_id i) profile_id) as [Heq|Hne];
      cbn [andb].
    + destruct (enabled_profiles comp !! i) as [[]|] eqn:Hen; simpl default.
      * split; [discriminate|]. intros H. exfalso.
        apply (H i); [lia|exact Heq|exact Hen].
      * rewrite IH. split; intros H j Hj Hid.
        -- destruct (Nat.eq_dec j i) as [->|]; [congruence|].
           apply H; [lia|exact Hid].
        -- apply H; [lia|exact Hid].
      * rewrite IH. split; intros H j Hj Hid.
        -- destruct (Nat.eq_dec j i) as [->|]; [congruence|].
           apply H; [lia|exact Hid].
        -- apply H; [lia|exact Hid].
    + rewrite IH. split; intros H j Hj Hid.
      * destruct (Nat.eq_dec j i) as [->|]; [congruence|].
        apply H; [lia|exact Hid].
      * apply H; [lia|exact Hid].
Qed.

(** The profile found depends on the flags of the profiles that have the
    ID only. *)
Lemma get_profile_loop_ext (comp1 comp2 : rohc_comp) (profile_id : Z)
    (n i : nat) :
  (forall j, (i <= j < i + n)%nat -> c_profile_id j = profile_id ->
     default false (enabled_profiles comp1 !! j) =
     default false (enabled_profiles comp2 !! j)) ->
  get_profile_loop comp1 n i profile_id =
  get_profile_loop comp2 n i profile_id.
Proof.
  revert i. induction n as [|n IH]; intros i Hsame;
    cbn [Profiles.get_profile_loop]; [reflexivity|].
  rewrite (IH (S i)) by (intros j Hj; apply Hsame; lia).
  destruct (Z.eqb_spec (c_profile_id i) profile_id) as [Heq|Hne];
    cbn [andb]; [|reflexivity].
  rewrite (Hsame i) by (lia || exact Heq). reflexivity.
Qed.

Lemma c_get_profile_from_id_enabled (comp : rohc_comp) (profile_id : Z)
    (j : nat) :
  (j < C_NUM_PROFILES)%nat -> c_profile_id j = profile_id ->
  enabled_profiles comp !! j = Some true ->
  exists i, c_get_profile_from_id comp profile_id = Some i /\
            (i < C_NUM_PROFILES)%nat /\ c_profile_id i = profile_id /\
            enabled_profiles comp !! i = Some true.
Proof.
  intros Hj Hid Hen. unfold Profiles.c_get_profile_from_id.
  destruct (get_profile_loop comp C_NUM_PROFILES 0 profile_id) as [i|] eqn:E.
  - exists i. apply get_profile_loop_Some in E.
    split; [reflexivity|]. split; [lia|]. apply E.
  - exfalso. rewrite get_profile_loop_None in E.
    apply (E j); [lia|exact Hid|exact Hen].
Qed.

(** X24: rohc_comp_enable_profile returns true exactly for the IDs of the
    table c_profiles; after a success c_get_profile_from_id finds a
    profile of that ID; on failure the compressor is unchanged; in both
    cases c_get_profile_from_id gives for every other ID what it gave
    before. *)
Theorem rohc_comp_enable_profile_found (comp : rohc_comp) (profile : Z) :
  length (enabled_profiles comp) = C_NUM_PROFILES ->
  let r := rohc_comp_enable_profile comp profile in
  (r.1 = true <-> known_profile profile) /\
  (r.1 = true ->
   exists i, c_get_profile_from_id r.2 profile = Some i /\
             (i < C_NUM_PROFILES)%nat /\ c_profile_id i = profile) /\
  (r.1 = false -> r.2 = comp) /\
  (forall other, other <> profile ->
     c_get_profile_from_id r.2 other = c_get_profile_from_id comp other).
Proof.
  intros Hlen r. subst r. unfold Profiles.rohc_comp_enable_profile.
  pose proof (profile_search_known profile) as Hknown.
  destruct (profile_search_spec profile C_NUM_PROFILES 0)
    as (Hr & Hbefore & Hat).
  destruct (Nat.eqb_spec (profile_search C_NUM_PROFILES 0 profile)
              C_NUM_PROFILES) as [Heq|Hne]; cbn [fst snd].
  - split; [split; [discriminate|rewrite <- Hknown; lia]|].
    split; [discriminate|]. split; [reflexivity|]. reflexivity.
  - set (i0 := profile_search C_NUM_PROFILES 0 profile) in *.
    assert (Hi0 : (i0 < C_NUM_PROFILES)%nat) by lia.
    split; [split; [intros _; apply Hknown; exact Hi0|reflexivity]|].
    split; [|split; [discriminate|]].
    + intros _.
      destruct (c_get_profile_from_id_enabled
                  (set_enabled_profiles comp
                     (<[i0 := true]> (enabled_profiles comp)))
                  profile i0 Hi0 (Hat ltac:(lia)))
        as (i & Hget & Hi & Hid & _).
      { cbn [enabled_profiles set_enabled_profiles].
        apply list_lookup_insert_eq. lia. }
      exists i. split; [exact Hget|]. split; assumption.
    + intros other Hother. apply get_profile_loop_ext.
      intros j Hj Hid. cbn [enabled_profiles set_enabled_profiles].
      rewrite list_lookup_insert_ne; [reflexivity|].
      intros <-. specialize (Hat ltac:(lia)). congruence.
Qed.

(** X25: When no two profiles of the table c_profiles have the same ID,
    c_get_profile_from_id returns NULL for a profile after
    rohc_comp_disable_profile was called for it; the call returns true
    exactly for the IDs of the table, leaves the compressor unchanged on
    failure, and c_get_profile_from_id gives for every other ID what it
    gave before. *)
Theorem rohc_comp_disable_profile_hides (comp : rohc_comp) (profile : Z) :
  distinct_profiles ->
  let r := rohc_comp_disable_profile comp profile in
  (r.1 = true <-> known_profile profile) /\
  c_get_profile_from_id r.2 profile = None /\
  (r.1 = false -> r.2 = comp) /\
  (forall other, other <> profile ->
     c_get_profile_from_id r.2 other = c_get_profile_from_id comp other).
Proof.
  intros Hdistinct r. subst r. unfold Profiles.rohc_comp_disable_profile.
  pose proof (profile_search_known profile) as Hknown.
  destruct (profile_search_spec profile C_NUM_PROFILES 0)
    as (Hr & Hbefore & Hat).
  destruct (Nat.eqb_spec (profile_search C_NUM_PROFILES 0 profile)
              C_NUM_PROFILES) as [Heq|Hne]; cbn [fst snd].
  - split; [split; [discriminate|rewrite <- Hknown; lia]|].
    split; [|split; reflexivity].
    apply get_profile_loop_None. intros j Hj Hid. exfalso.
    apply (Hbefore j); [lia|exact Hid].
  - set (i0 := profile_search C_NUM_PROFILES 0 profile) in *.
    assert (Hi0 : (i0 < C_NUM_PROFILES)%nat) by lia.
    specialize (Hat ltac:(lia)).
    split; [split; [intros _; apply Hknown; exact Hi0|reflexivity]|].
    split; [|split; [discriminate|]].
    + apply get_profile_loop_None. intros j Hj Hid.
      assert (j = i0) as ->
        by (apply Hdistinct; [lia|exact Hi0|congruence]).
      cbn [enabled_profiles set_enabled_profiles].
      destruct (Nat.lt_ge_cases i0 (length (enabled_profiles comp))).
      * rewrite list_lookup_insert_eq by assumption. discriminate.
      * rewrite lookup_ge_None_2 by (rewrite length_insert; lia).
        discriminate.
    + intros other Hother. apply get_profile_loop_ext.
      intros j Hj Hid. cbn [enabled_profiles set_enabled_profiles].
      rewrite list_lookup_insert_ne; [reflexivity|].
      intros <-. congruence.
Qed.

Lemma unknown_profile_false (profile : Z) :
  unknown_profile profile = false <-> known_profile profile.
Proof.
  unfold Profiles.unknown_profile. rewrite <- profile_search_known.
  destruct (profile_search_spec profile C_NUM_PROFILES 0) as (Hr & _).
  destruct (Nat.eqb_spec (profile_search C_NUM_PROFILES 0 profile)
              C_NUM_PROFILES); split; intros; try lia; congruence.
Qed.

Lemma enable_profiles_loop_run (last : Z) (rest ids : list Z) :
  last < 0 ->
  forall (comp : rohc_comp) (err_nr : Z),
    Forall (fun id => 0 <= id) ids ->
    0 <= err_nr -> err_nr + Z.of_nat (length ids) <= SIZE_MAX ->
    length (enabled_profiles comp) = C_NUM_PROFILES ->
    exists comp',
      enable_profiles_loop comp (ids ++ last :: rest) err_nr =
        Some (err_nr + Z.of_nat (length (List.filter unknown_profile ids)),
              comp') /\
      length (enabled_profiles comp') = C_NUM_PROFILES /\
      (forall j, enabled_profiles comp !! j = Some true ->
         enabled_profiles comp' !! j = Some true) /\
      (forall id, id ∈ ids -> known_profile id ->
         exists j, (j < C_NUM_PROFILES)%nat /\ c_profile_id j = id /\
                   enabled_profiles comp' !! j = Some true) /\
      (forall j, (forall id, id ∈ ids -> c_profile_id j <> id) ->
         enabled_profiles comp' !! j = enabled_profiles comp !! j).
Proof.
  intros Hlast.
  induction ids as [|id ids IH]; intros comp err_nr Hids Herr Hmax Hlen.
  - cbn [app Profiles.enable_profiles_loop].
    destruct (Z.geb_spec last 0) as [|_]; [lia|].
    exists comp. cbn [List.filter length]. rewrite Z.add_0_r.
    split; [reflexivity|]. split; [exact Hlen|].
    split; [tauto|]. split; [|reflexivity].
    intros id Hin. apply elem_of_nil in Hin. contradiction.
  - apply Forall_cons in Hids as [Hid Hids].
    cbn [length] in Hmax.
    cbn [app Profiles.enable_profiles_loop].
    destruct (Z.geb_spec id 0) as [_|]; [|lia].
    pose proof (profile_search_spec id C_NUM_PROFILES 0)
      as (Hr & Hbefore & Hat).
    pose proof (unknown_profile_false id) as Hknown.
    unfold Profiles.rohc_comp_enable_profile.
    cbn [List.filter]. fold (unknown_profile id).
    destruct (unknown_profile id) eqn:Hun.
    + destruct (IH comp (to_size_t (err_nr + 1)))
        as (comp' & Hrun & Hlen' & Hkeep & Hon & Hoff).
      { exact Hids. }
      { rewrite to_size_t_small by lia. lia. }
      { rewrite to_size_t_small by lia. lia. }
      { exact Hlen. }
      exists comp'. rewrite Hrun.
      rewrite to_size_t_small by lia.
      split; [do 2 f_equal; cbn [length]; lia|].
      split; [exact Hlen'|]. split; [exact Hkeep|]. split.
      * intros id' [->|Hin]%elem_of_cons Hk.
        -- apply Hknown in Hk. congruence.
        -- apply Hon; assumption.
      * intros j Hj. apply Hoff. intros id' Hin. apply Hj.
        apply elem_of_cons. right. exact Hin.
    + set (i0 := profile_search C_NUM_PROFILES 0 id) in *.
      assert (Hi0 : (i0 < C_NUM_PROFILES)%nat).
      { unfold Profiles.unknown_profile in Hun. fold i0 in Hun.
        apply Nat.eqb_neq in Hun. lia. }
      specialize (Hat ltac:(lia)).
      destruct (IH (set_enabled_profiles comp
                      (<[i0 := true]> (enabled_profiles comp))) err_nr)
        as (comp' & Hrun & Hlen' & Hkeep & Hon & Hoff).
      { exact Hids. }
      { exact Herr. }
      { lia. }
      { cbn [enabled_profiles set_enabled_profiles].
        rewrite length_insert. exact Hlen. }
      exists comp'. rewrite Hrun.
      split; [reflexivity|]. split; [exact Hlen'|].
      cbn [enabled_profiles set_enabled_profiles] in Hkeep, Hoff.
      split; [|split].
      * intros j Hj. apply Hkeep.
        destruct (Nat.eq_dec j i0) as [->|Hne].
        -- apply list_lookup_insert_eq. lia.
        -- rewrite list_lookup_insert_ne by congruence. exact Hj.
      * intros id' [->|Hin]%elem_of_cons Hk.
        -- exists i0. split; [exact Hi0|]. split; [exact Hat|].
           apply Hkeep. apply list_lookup_insert_eq. lia.
        -- apply Hon; assumption.
      * intros j Hj. rewrite Hoff.
        -- apply list_lookup_insert_ne. intros <-.
           apply (Hj id); [apply elem_of_cons; left; reflexivity|exact Hat].
        -- intros id' Hin. apply Hj. apply elem_of_cons. right. exact Hin.
Qed.

(** X26: rohc_comp_enable_profiles reads its arguments up to the first
    negative one and returns true exactly when all of them are IDs of the
    table c_profiles; it enables every ID of the table among them, also
    after an unknown one; the profiles already enabled stay so and
    c_get_profile_from_id gives for the IDs not listed what it gave
    before. *)
Theorem rohc_comp_enable_profiles_all (comp : rohc_comp) (ids : list Z)
    (last : Z) (rest : list Z) :
  Forall (fun id => 0 <= id) ids -> last < 0 ->
  Z.of_nat (length ids) <= SIZE_MAX ->
  length (enabled_profiles comp) = C_NUM_PROFILES ->
  exists ok comp',
    rohc_comp_enable_profiles comp (ids ++ last :: rest) = Some (ok, comp') /\
    (ok = true <-> Forall known_profile ids) /\
    (forall id, id ∈ ids -> known_profile id ->
       is_Some (c_get_profile_from_id comp' id)) /\
    (forall id, is_Some (c_get_profile_from_id comp id) ->
       is_Some (c_get_profile_from_id comp' id)) /\
    (forall id, id ∉ ids ->
       c_get_profile_from_id comp' id = c_get_profile_from_id comp id).
Proof.
  intros Hids Hlast Hmax Hlen.
  destruct (enable_profiles_loop_run last rest ids Hlast comp 0 Hids
              ltac:(lia) ltac:(lia) Hlen)
    as (comp' & Hrun & Hlen' & Hkeep & Hon & Hoff).
  unfold Profiles.rohc_comp_enable_profiles. rewrite Hrun.
  eexists _, comp'. split; [reflexivity|].
  split; [|split; [|split]].
  - rewrite Z.add_0_l.
    assert (forall l, length (List.filter unknown_profile l) = 0%nat <->
                      Forall known_profile l) as Hcount.
    { clear. induction l as [|a l IH]; cbn [List.filter].
      - split; [constructor|reflexivity].
      - pose proof (unknown_profile_false a) as Ha.
        destruct (unknown_profile a); cbn [length].
        + split; [lia|]. intros [Hk _]%Forall_cons.
          apply Ha in Hk. discriminate.
        + rewrite IH. rewrite Forall_cons. tauto. }
    rewrite <- Hcount. rewrite Z.eqb_eq. lia.
  - intros id Hin Hk.
    destruct (Hon id Hin Hk) as (j & Hj & Hid & Hen).
    destruct (c_get_profile_from_id_enabled comp' id j Hj Hid Hen)
      as (i & -> & _). eexists. reflexivity.
  - intros id [i Hi].
    apply get_profile_loop_Some in Hi as (Hi & Hid & Hen).
    destruct (c_get_profile_from_id_enabled comp' id i ltac:(lia) Hid
                (Hkeep i Hen)) as (i' & -> & _).
    eexists. reflexivity.
  - intros id Hnotin. apply get_profile_loop_ext.
    intros j Hj Hid. rewrite Hoff; [reflexivity|].
    intros id' Hin Heq. rewrite Hid in Heq. subst id'. contradiction.
Qed.

End ProfileProofs.

(** *** The sequence number of a new IP-only context *)

(** X30: When rohc_ip_ctxt_create succeeds, the SN of the context is the
    value of the random callback modulo 2^16, for every int value,
    negative ones included; so the assertion of c_ip_get_next_sn holds on
    the new context and the next SN is (random + 1) modulo 2^16. *)
Theorem rohc_ip_ctxt_create_sn
    (rohc_comp_rfc3095_create : rohc_comp_ctxt -> option rohc_comp_ctxt)
    (context context' : rohc_comp_ctxt) (random : Z) :
  rohc_ip_ctxt_create rohc_comp_rfc3095_create context random
    = Some context' ->
  sn (specific context') = random mod 65536 /\
  0 <= sn (specific context') <= 0xffff /\
  c_ip_get_next_sn context' = Some ((random + 1) mod 65536).
Proof.
  unfold rohc_ip_ctxt_create.
  destruct (rohc_comp_rfc3095_create context) as [c|]; [|discriminate].
  intros [= <-]. cbn [specific set_specific sn set_sn].
  assert (Hland : Z.land random 0xffff = random mod 65536).
  { change 0xffff with (Z.ones 16). rewrite Z.land_ones by lia.
    reflexivity. }
  pose proof (Z.mod_pos_bound random 65536 ltac:(lia)) as Hr.
  split; [exact Hland|]. split; [lia|].
  unfold c_ip_get_next_sn. cbn [specific set_specific sn set_sn].
  rewrite Hland.
  assert (Hnext : (random + 1) mod 65536 =
                  if random mod 65536 =? 65535 then 0
                  else random mod 65536 + 1).
  { rewrite Z.add_mod by lia.
    destruct (Z.eqb_spec (random mod 65536) 65535) as [->|Hne].
    - reflexivity.
    - rewrite (Z.mod_small 1) by lia. apply Z.mod_small. lia. }
  rewrite Hnext.
  destruct (Z.eqb_spec (random mod 65536) 65535) as [Heq|Hne].
  - reflexivity.
  - rewrite to_uint32_small by lia.
    destruct (Z.leb_spec (random mod 65536 + 1) 65535); [reflexivity|lia].
Qed.

(** *** A new compressor *)

Lemma replicate_ports_layout : ports_layout (replicate MAX_RTP_PORTS 0) 0.
Proof.
  split.
  - apply length_replicate.
  - lia.
  - intros; lia.
  - intros i p _ Hp. apply lookup_replicate in Hp. tauto.
  - intros; lia.
Qed.

Lemma default_ports_layout : ports_layout Samples.default_ports_installed 5.
Proof.
  split.
  - reflexivity.
  - unfold MAX_RTP_PORTS. lia.
  - intros i p Hi.
    do 5 (destruct i as [|i]; [intros [= <-]; lia|]). lia.
  - intros i p Hi.
    do 5 (destruct i as [|i]; [lia|]).
    do 10 (destruct i as [|i]; [intros [= <-]; reflexivity|]).
    discriminate.
  - intros i j p q Hij Hj.
    do 5 (destruct j as [|j];
          [do 5 (destruct i as [|i]; [intros [= <-] [= <-]; lia|]); lia|]).
    lia.
Qed.

Section NewProofs.

Variable FEEDBACK_RING_SIZE : nat.
Variable ROHC_MAX_MRRU : nat.

Local Abbreviation rohc_comp_new :=
  (rohc_comp_new FEEDBACK_RING_SIZE ROHC_MAX_MRRU).
Local Abbreviation rohc_alloc_compressor :=
  (rohc_alloc_compressor FEEDBACK_RING_SIZE ROHC_MAX_MRRU).

(** The calls that [rohc_comp_new] makes on the compressor it builds all
    succeed: the result depends on the CID and on the allocations only. *)
Lemma rohc_comp_new_cases (deprecated_api malloc_ok : bool)
    (crc_init_ok : Z -> bool) (calloc_ok : bool)
    (cid_type : rohc_cid_type_t) (max_cid : Z) :
  (max_cid <= cid_max cid_type /\ malloc_ok = true /\
   forallb crc_init_ok crc_table_types = true /\ calloc_ok = true /\
   exists comp,
     rohc_comp_new deprecated_api malloc_ok crc_init_ok calloc_ok cid_type
       max_cid = Some comp /\
     medium_cid_type comp = cid_type /\ medium_max_cid comp = max_cid /\
     enabled_profiles comp = replicate C_NUM_PROFILES false /\
     rtp_ports comp =
       (if deprecated_api then Samples.default_ports_installed
        else replicate MAX_RTP_PORTS 0) /\
     num_packets comp = 0 /\ wlsb_window_width comp = C_WINDOW_WIDTH /\
     periodic_refreshes_ir_timeout comp = CHANGE_TO_IR_COUNT /\
     periodic_refreshes_fo_timeout comp = CHANGE_TO_FO_COUNT /\
     mrru comp = 0 /\ rru_off comp = 0 /\ rru_len comp = 0 /\
     length (rru comp) = ROHC_MAX_MRRU) \/
  (rohc_comp_new deprecated_api malloc_ok crc_init_ok calloc_ok cid_type
     max_cid = None /\
   (cid_max cid_type < max_cid \/ malloc_ok = false \/
    forallb crc_init_ok crc_table_types = false \/ calloc_ok = false)).
Proof.
  unfold RohcComp.rohc_comp_new.
  assert ((match cid_type with
           | ROHC_LARGE_CID => max_cid >? ROHC_LARGE_CID_MAX
           | ROHC_SMALL_CID => max_cid >? ROHC_SMALL_CID_MAX
           end) = (max_cid >? cid_max cid_type)) as ->
    by (destruct cid_type; reflexivity).
  destruct (Z.gtb_spec max_cid (cid_max cid_type)) as [Hbad|Hcid].
  { right. split; [reflexivity|]. left. exact Hbad. }
  destruct malloc_ok; cbn [negb].
  2: { right. split; [reflexivity|]. right. left. reflexivity. }
  set (c0 := new_comp_reset FEEDBACK_RING_SIZE ROHC_MAX_MRRU cid_type max_cid).
  change (rohc_comp_set_traces_cb c0) with (true, c0).
  cbv beta iota.
  change (rohc_comp_set_wlsb_window_width c0 C_WINDOW_WIDTH)
    with (true, set_wlsb_window_width c0 C_WINDOW_WIDTH).
  cbv beta iota.
  set (c2 := set_wlsb_window_width c0 C_WINDOW_WIDTH).
  change (rohc_comp_set_periodic_refreshes c2 CHANGE_TO_IR_COUNT
            CHANGE_TO_FO_COUNT)
    with (true, set_periodic_refreshes c2 CHANGE_TO_IR_COUNT
                  CHANGE_TO_FO_COUNT).
  cbv beta iota.
  set (c3 := set_periodic_refreshes c2 CHANGE_TO_IR_COUNT CHANGE_TO_FO_COUNT).
  assert (H3 : rtp_ports c3 = replicate MAX_RTP_PORTS 0) by reflexivity.
  assert (exists c4,
            (if deprecated_api
             then add_default_ports c3 default_rtp_ports else Some c3)
              = Some c4 /\
            c4 = set_rtp_ports c3
                   (if deprecated_api then Samples.default_ports_installed
                    else replicate MAX_RTP_PORTS 0)) as (c4 & -> & Hc4).
  { destruct deprecated_api.
    - rewrite (RtpPortsFacts.add_default_ports_empty c3 H3).
      eexists. split; reflexivity.
    - exists c3. split; [reflexivity|].
      rewrite <- H3. symmetry. apply set_rtp_ports_eta. }
  destruct (forallb crc_init_ok crc_table_types); cbn [negb].
  2: { right. split; [reflexivity|]. right. right. left. reflexivity. }
  destruct calloc_ok; cbn [negb].
  2: { right. split; [reflexivity|]. right. right. right. reflexivity. }
  left. split; [exact Hcid|]. do 3 (split; [reflexivity|]).
  eexists. split; [reflexivity|]. subst c4.
  cbn [medium_cid_type medium_max_cid enabled_profiles rtp_ports num_packets
       wlsb_window_width periodic_refreshes_ir_timeout
       periodic_refreshes_fo_timeout mrru rru rru_off rru_len set_ring
       set_rtp_ports].
  repeat split; try reflexivity.
  apply length_replicate.
Qed.

(** X27: rohc_comp_new returns a compressor exactly when max_cid is at
    most 15 for small CIDs or 65535 for large CIDs and the malloc of the
    compressor, the initialisation of the five CRC tables and the calloc
    of the contexts succeed: the calls it makes to set the trace callback,
    the W-LSB width and the refresh timeouts and to add the default RTP
    ports never fail. *)
Theorem rohc_comp_new_succeeds (deprecated_api malloc_ok : bool)
    (crc_init_ok : Z -> bool) (calloc_ok : bool)
    (cid_type : rohc_cid_type_t) (max_cid : Z) :
  is_Some (rohc_comp_new deprecated_api malloc_ok crc_init_ok calloc_ok
             cid_type max_cid) <->
  max_cid <= cid_max cid_type /\ malloc_ok = true /\
  (forall crc_type, crc_type ∈ crc_table_types ->
     crc_init_ok crc_type = true) /\
  calloc_ok = true.
Proof.
  assert (forallb crc_init_ok crc_table_types = true <->
          forall crc_type, crc_type ∈ crc_table_types ->
            crc_init_ok crc_type = true) as Hcrc.
  { rewrite forallb_forall. split; intros H t Ht; apply H.
    - apply list_elem_of_In. exact Ht.
    - apply list_elem_of_In. exact Ht. }
  rewrite <- Hcrc.
  destruct (rohc_comp_new_cases deprecated_api malloc_ok crc_init_ok
              calloc_ok cid_type max_cid)
    as [(Hcid & Hm & Hc & Hk & comp & -> & _)|(-> & Hwhy)].
  - split; [tauto|]. intros _. eexists. reflexivity.
  - split; [intros [? [=]]|].
    intros (Hcid & Hm & Hc & Hk).
    destruct Hwhy as [?|[?|[?|?]]]; [lia|congruence..].
Qed.

(** X28: For an int max_cid, rohc_alloc_compressor returns a compressor
    exactly when jam_use, adapt_size and encap_size are 0, max_cid is in
    0..15 (a negative value becomes a size_t above 15) and the allocations
    of rohc_comp_new succeed; the compressor then uses small CIDs with
    that max_cid and its list of RTP ports holds the five default ports. *)
Theorem rohc_alloc_compressor_succeeds (malloc_ok : bool)
    (crc_init_ok : Z -> bool) (calloc_ok : bool)
    (max_cid jam_use adapt_size encap_size : Z) :
  - 2 ^ 31 <= max_cid <= INT_MAX ->
  let r := rohc_alloc_compressor malloc_ok crc_init_ok calloc_ok max_cid
             jam_use adapt_size encap_size in
  (is_Some r <->
   jam_use = 0 /\ adapt_size = 0 /\ encap_size = 0 /\
   0 <= max_cid <= ROHC_SMALL_CID_MAX /\ malloc_ok = true /\
   forallb crc_init_ok crc_table_types = true /\ calloc_ok = true) /\
  (forall comp, r = Some comp ->
     medium_cid_type comp = ROHC_SMALL_CID /\ medium_max_cid comp = max_cid /\
     rtp_ports comp = Samples.default_ports_installed).
Proof.
  intros Hint r. subst r. unfold Lifetime.rohc_alloc_compressor.
  destruct (Z.eqb_spec jam_use 0) as [Hj|Hj]; cbn [negb orb].
  2: { split; [|discriminate]. split; [intros [? [=]]|tauto]. }
  destruct (Z.eqb_spec adapt_size 0) as [Ha|Ha]; cbn [negb orb].
  2: { split; [|discriminate]. split; [intros [? [=]]|tauto]. }
  destruct (Z.eqb_spec encap_size 0) as [He|He]; cbn [negb orb].
  2: { split; [|discriminate]. split; [intros [? [=]]|tauto]. }
  assert (Hneg : max_cid < 0 -> ROHC_SMALL_CID_MAX < to_size_t max_cid).
  { intros Hlt. unfold to_size_t, ROHC_SMALL_CID_MAX.
    rewrite <- (Z.mod_unique max_cid (2 ^ 64) (-1) (max_cid + 2 ^ 64))
      by (unfold INT_MAX in *; lia).
    unfold INT_MAX in *. lia. }
  destruct (rohc_comp_new_cases true malloc_ok
              crc_init_ok calloc_ok ROHC_SMALL_CID (to_size_t max_cid))
    as [(Hcid & Hm & Hc & Hk & comp & -> & Hty & Hmax & _ & Hports & _)
       |(-> & Hwhy)]; cbn [cid_max] in *.
  - assert (0 <= max_cid) as Hpos by (specialize (Hneg); lia).
    rewrite to_size_t_small in Hcid, Hmax
      by (unfold INT_MAX, SIZE_MAX in *; lia).
    split.
    + split; [intros _; repeat split; (assumption || lia)|].
      intros _. eexists. reflexivity.
    + intros c [= <-]. repeat split; assumption.
  - split; [|discriminate]. split; [intros [? [=]]|].
    intros (_ & _ & _ & Hcid & Hm & Hc & Hk).
    rewrite to_size_t_small in Hwhy
      by (unfold INT_MAX, SIZE_MAX in *; lia).
    destruct Hwhy as [?|[?|[?|?]]]; [lia|congruence..].
Qed.

Lemma port_call_run_layout (comp : rohc_comp) (c : port_call) (n : nat) :
  ports_layout (rtp_ports comp) n ->
  exists n', ports_layout (rtp_ports (port_call_run comp c)) n'.
Proof.
  pose proof max_rtp_ports_eq as HM.
  intros Hlay. destruct c as [port|port|]; cbn [port_call_run].
  - destruct (rohc_comp_add_rtp_port_cases comp port n Hlay)
      as [(k & -> & Hrange & Hnotin & Hkn & Hk & Hbelow & Habove)
         |(-> & _)]; cbn [snd].
    + destruct (stored_at_layout _ n k port Hlay ltac:(lia) Hkn Hk Hbelow
                  Habove) as (n' & Hlay' & _).
      exists n'. exact Hlay'.
    + exists n. exact Hlay.
  - destruct (rohc_comp_remove_rtp_port_cases comp port n Hlay)
      as [(k & -> & Hrange & Hk & Hport)|(-> & _)]; cbn [snd].
    + exists (n - 1)%nat. apply removed_at_layout; assumption.
    + exists n. exact Hlay.
  - exists 0%nat. unfold rohc_comp_reset_rtp_ports. cbn [snd].
    rewrite (reset_ports_loop_zero _ n Hlay MAX_RTP_PORTS 0);
      [exact replicate_ports_layout|lia|apply Hlay|].
    intros i _. destruct (Nat.ltb_spec i 0); [lia|reflexivity].
Qed.

(** X7: From the compressor that rohc_comp_new returns, any sequence of
    calls to rohc_comp_add_rtp_port, rohc_comp_remove_rtp_port and
    rohc_comp_reset_rtp_ports, whatever they return, leaves the list of
    RTP ports in order: the ports in strictly ascending order, so without
    duplicates, followed by zeros only. *)
Theorem rohc_comp_new_port_calls (deprecated_api malloc_ok : bool)
    (crc_init_ok : Z -> bool) (calloc_ok : bool)
    (cid_type : rohc_cid_type_t) (max_cid : Z) (comp : rohc_comp)
    (calls : list port_call) :
  rohc_comp_new deprecated_api malloc_ok crc_init_ok calloc_ok cid_type
    max_cid = Some comp ->
  exists n, ports_layout (rtp_ports (foldl port_call_run comp calls)) n.
Proof.
  intros Hnew.
  assert (exists n, ports_layout (rtp_ports comp) n) as Hstart.
  { destruct (rohc_comp_new_cases deprecated_api malloc_ok crc_init_ok
                calloc_ok cid_type max_cid)
      as [(_ & _ & _ & _ & c & Hc & _ & _ & _ & Hports & _)|(Hc & _)];
      [|congruence].
    assert (c = comp) as -> by congruence.
    rewrite Hports. destruct deprecated_api.
    - exists 5%nat. exact default_ports_layout.
    - exists 0%nat. exact replicate_ports_layout. }
  clear Hnew. revert comp Hstart.
  induction calls as [|c calls IH]; intros comp [n Hlay]; cbn [foldl].
  - exists n. exact Hlay.
  - apply IH. apply (port_call_run_layout comp c n Hlay).
Qed.

(** X29: The compressor that rohc_comp_new returns has no profile enabled
    (c_get_profile_from_id returns NULL for every ID), no feedback queued
    or locked (rohc_feedback_avail_bytes is 0), an MRRU of 0 and no RRU
    staged, num_packets 0, a W-LSB width of 4 and refresh timeouts of 1700
    and 700 packets. *)
Theorem rohc_comp_new_defaults (deprecated_api malloc_ok : bool)
    (crc_init_ok : Z -> bool) (calloc_ok : bool)
    (cid_type : rohc_cid_type_t) (max_cid : Z) (comp : rohc_comp) :
  (0 < FEEDBACK_RING_SIZE)%nat ->
  rohc_comp_new deprecated_api malloc_ok crc_init_ok calloc_ok cid_type
    max_cid = Some comp ->
  (forall c_profile_id profile_id,
     c_get_profile_from_id c_profile_id comp profile_id = None) /\
  queued_feedbacks comp = [] /\ locked_feedbacks comp = [] /\
  rohc_feedback_avail_bytes FEEDBACK_RING_SIZE comp = 0 /\
  mrru comp = 0 /\ rru_len comp = 0 /\ num_packets comp = 0 /\
  wlsb_window_width comp = 4 /\
  periodic_refreshes_ir_timeout comp = 1700 /\
  periodic_refreshes_fo_timeout comp = 700.
Proof.
  intros Hsize Hnew.
  pose proof (rohc_comp_new_ring_layout FEEDBACK_RING_SIZE Hsize ROHC_MAX_MRRU
                _ _ _ _ _ _ _ Hnew) as Hlay.
  destruct (rohc_comp_new_cases deprecated_api malloc_ok crc_init_ok
              calloc_ok cid_type max_cid)
    as [(_ & _ & _ & _ & c & Hc & _ & _ & Hprof & _ & Hnum & Hw & Hir & Hfo &
         Hmrru & _ & Hlen & _)|(Hc & _)]; [|congruence].
  assert (c = comp) as -> by congruence.
  destruct (queued_feedbacks_layout FEEDBACK_RING_SIZE Hsize comp 0 0 Hlay)
    as (_ & _ & Hq & Hl & _).
  apply nil_length_inv in Hq. apply nil_length_inv in Hl.
  split; [|split; [exact Hq|split; [exact Hl|split]]].
  - intros c_profile_id profile_id.
    apply get_profile_loop_None. intros j _ _. rewrite Hprof.
    intros Hj. apply lookup_replicate in Hj. destruct Hj as [[=] _].
  - rewrite (rohc_feedback_avail_bytes_sizes FEEDBACK_RING_SIZE Hsize)
      by exact (rl_length _ _ _ _ Hlay).
    rewrite Hq. reflexivity.
  - repeat split; assumption.
Qed.

End NewProofs.

End ConfigFacts.

(** ** Examples *)

Module MoreExamples.

Import CIp RohcComp RingInv Samples RtpPorts Segments FeedbackQueue
  Profiles CIpCreate Lifetime MoreSamples CIntFacts CMemFacts RingFacts
  RingExamples PortListFacts SegmentFacts FeedbackQueueFacts CompressFacts
  ConfigFacts.

Lemma comp_deprecated_ports_layout :
  ports_layout (rtp_ports comp_deprecated) 5.
Proof. exact default_ports_layout. Qed.


(** X1, witness: port 6000 added to the five default ports. *)
Lemma rohc_comp_add_rtp_port_inserts_witness :
  ports_layout (rtp_ports comp_deprecated) 5 /\
  (5 <= MAX_RTP_PORTS - 2)%nat /\
  (rohc_comp_add_rtp_port comp_deprecated 6000).1 = true /\
  ports_layout (rtp_ports (rohc_comp_add_rtp_port comp_deprecated 6000).2) 6.
Proof.
  assert (Hn : (5 <= MAX_RTP_PORTS - 2)%nat) by (unfold MAX_RTP_PORTS; lia).
  split; [exact comp_deprecated_ports_layout|]. split; [exact Hn|].
  destruct (rohc_comp_add_rtp_port_inserts comp_deprecated 6000 5
              comp_deprecated_ports_layout Hn) as (_ & Hok & _).
  split; [reflexivity|]. apply Hok. reflexivity.
Defined.

(** X2, witness: port 2000 added to the five default ports. *)
Lemma rohc_comp_add_rtp_port_keeps_order_witness :
  ports_layout (rtp_ports comp_deprecated) 5 /\
  exists n',
    ports_layout (rtp_ports (rohc_comp_add_rtp_port comp_deprecated 2000).2)
      n' /\ (5 <= n' <= 6)%nat.
Proof.
  split; [exact comp_deprecated_ports_layout|].
  destruct (rohc_comp_add_rtp_port_keeps_order comp_deprecated 2000 5
              comp_deprecated_ports_layout) as (n' & Hlay & Hn & _).
  exists n'. split; [exact Hlay|exact Hn].
Defined.




(** X6, witness: the default ports are reset, port 1234 is no longer
    there to be removed. *)
Lemma rohc_comp_reset_rtp_ports_empties_witness :
  ports_layout (rtp_ports comp_deprecated) 5 /\
  exists comp',
    rohc_comp_reset_rtp_ports comp_deprecated = (true, comp') /\
    rohc_comp_remove_rtp_port comp' 1234 = (false, comp').
Proof.
  split; [exact comp_deprecated_ports_layout|].
  destruct (rohc_comp_reset_rtp_ports_empties comp_deprecated 5 1234
              comp_deprecated_ports_layout) as (Hreset & _ & Hremove).
  eexists. split; [exact Hreset|exact Hremove].
Defined.

(** X7, witness: four calls on the compressor created with the default
    ports. *)
Lemma rohc_comp_new_port_calls_witness :
  rohc_comp_new 4 16 true true (fun _ => true) true ROHC_SMALL_CID 15
    = Some comp_deprecated /\
  exists n,
    ports_layout
      (rtp_ports
         (foldl port_call_run comp_deprecated
            [AddRtpPort 6000; RemoveRtpPort 1234; ResetRtpPorts;
             AddRtpPort 80])) n.
Proof.
  split; [exact RtpPortsFacts.comp_deprecated_new|].
  exact (rohc_comp_new_port_calls 4 16 true true (fun _ => true) true
           ROHC_SMALL_CID 15 comp_deprecated _
           RtpPortsFacts.comp_deprecated_new).
Defined.

Local Abbreviation flush := (rohc_feedback_flush ring_size).

(** X8, witness: a feedback piggybacked after two others. *)
Lemma rohc_comp_piggyback_feedback_enqueues_witness :
  ring_layout ring_size comp_two 0 2 /\ [7; 8] <> [] /\
  exists comp',
    rohc_comp_piggyback_feedback ring_size true comp_two [7; 8]
      = Some (true, comp') /\
    queued_feedbacks comp' =
      queued_feedbacks comp_two ++
      [{| fb_data := Some [7; 8]; fb_length := 2; is_locked := false |}].
Proof.
  assert (Hne : [7; 8] <> ([] : list Z)) by discriminate.
  split; [exact comp_two_layout|]. split; [exact Hne|].
  destruct (rohc_comp_piggyback_feedback_enqueues ring_size
              ring_size_positive comp_two 0 2 [7; 8] comp_two_layout Hne)
    as (b & comp' & Hrun & Hiff & Hok & _).
  assert (b = true) as ->.
  { apply Hiff. vm_compute. lia. }
  exists comp'. split; [exact Hrun|]. apply Hok. reflexivity.
Defined.

(** X9, witness: two queued feedbacks of 3 and 9 bytes are emitted on
    4 + 11 bytes. *)
Lemma rohc_feedback_avail_bytes_queue_witness :
  ring_layout ring_size comp_two 0 2 /\
  rohc_feedback_avail_bytes ring_size comp_two =
    to_size_t (emitted_sizes (queued_feedbacks comp_two)).
Proof.
  split; [exact comp_two_layout|].
  exact (proj1 (rohc_feedback_avail_bytes_queue ring_size ring_size_positive
                  comp_two 0 2 comp_two_layout)).
Defined.

Lemma comp_two_queue_bound :
  Forall (fun s => fb_length s <= INT_MAX) (queued_feedbacks comp_two).
Proof.
  let q := eval vm_compute in (queued_feedbacks comp_two) in
  change (queued_feedbacks comp_two) with q.
  repeat constructor; unfold INT_MAX; simpl; lia.
Qed.

(** X10, witness: in a buffer of 5 bytes the first of the two queued
    feedbacks is written, on 4 bytes. *)
Lemma rohc_feedback_flush_fitting_witness :
  ring_layout ring_size comp_two 0 2 /\ 0 < 5 <= INT_MAX /\
  Forall (fun s => fb_length s <= INT_MAX) (queued_feedbacks comp_two) /\
  exists comp',
    flush comp_two 5 = Some (4, [0xf3; 1; 2; 3], comp') /\
    queued_feedbacks comp' = drop 1 (queued_feedbacks comp_two).
Proof.
  assert (Hosize : 0 < 5 <= INT_MAX) by (unfold INT_MAX; lia).
  split; [exact comp_two_layout|]. split; [exact Hosize|].
  split; [exact comp_two_queue_bound|].
  destruct (rohc_feedback_flush_fitting ring_size ring_size_positive comp_two
              0 2 5 comp_two_layout Hosize comp_two_queue_bound)
    as (comp' & Hrun & _ & Hq & _).
  exists comp'. split; [exact Hrun|exact Hq].
Defined.

(** X11, witness: in a buffer of 100 bytes both queued feedbacks are
    written. *)
Lemma rohc_feedback_flush_all_witness :
  ring_layout ring_size comp_two 0 2 /\ 0 < 100 <= INT_MAX /\
  emitted_sizes (queued_feedbacks comp_two) <= 100 /\
  exists bytes comp',
    flush comp_two 100 = Some (15, bytes, comp') /\
    rohc_feedback_avail_bytes ring_size comp' = 0.
Proof.
  assert (Hosize : 0 < 100 <= INT_MAX) by (unfold INT_MAX; lia).
  assert (Hall : emitted_sizes (queued_feedbacks comp_two) <= 100)
    by (vm_compute; discriminate).
  split; [exact comp_two_layout|]. split; [exact Hosize|].
  split; [exact Hall|].
  destruct (rohc_feedback_flush_all ring_size ring_size_positive comp_two
              0 2 100 comp_two_layout Hosize Hall)
    as (comp' & Hrun & _ & _ & Havail).
  eexists _, comp'. split; [exact Hrun|exact Havail].
Defined.

(** The compressor [comp_two] once its first feedback was handed out. *)
Lemma comp_two_flushed :
  exists comp1,
    flush comp_two 5 = Some (4, [0xf3; 1; 2; 3], comp1) /\
    ring_layout ring_size comp1 1 1.
Proof.
  destruct (rohc_feedback_flush_run ring_size ring_size_positive comp_two
              0 2 5 comp_two_layout ltac:(unfold INT_MAX; lia)
              comp_two_queue_bound)
    as (comp' & Hrun & _ & _ & _ & Hlay).
  exists comp'. split; [exact Hrun|exact Hlay].
Qed.

(** X12, witness: the feedback handed out by a flush is queued again. *)
Lemma rohc_feedback_unlock_requeues_witness :
  exists comp1,
    flush comp_two 5 = Some (4, [0xf3; 1; 2; 3], comp1) /\
    ring_layout ring_size comp1 1 1 /\
    exists comp2,
      rohc_feedback_unlock ring_size comp1 = Some (true, comp2) /\
      ring_layout ring_size comp2 0 2.
Proof.
  destruct comp_two_flushed as (comp1 & Hrun & Hlay).
  exists comp1. split; [exact Hrun|]. split; [exact Hlay|].
  destruct (rohc_feedback_unlock_requeues ring_size ring_size_positive comp1
              1 1 Hlay) as (comp2 & Hunlock & _ & _ & Hlay2).
  exists comp2. split; [exact Hunlock|exact Hlay2].
Defined.

(** X13, witness: the feedback handed out by a flush is dropped. *)
Lemma rohc_feedback_remove_locked_queue_witness :
  exists comp1,
    flush comp_two 5 = Some (4, [0xf3; 1; 2; 3], comp1) /\
    ring_layout ring_size comp1 1 1 /\
    exists comp2,
      rohc_feedback_remove_locked ring_size comp1 = Some (true, comp2) /\
      queued_feedbacks comp2 = queued_feedbacks comp1 /\
      ring_layout ring_size comp2 0 1.
Proof.
  destruct comp_two_flushed as (comp1 & Hrun & Hlay).
  exists comp1. split; [exact Hrun|]. split; [exact Hlay|].
  destruct (rohc_feedback_remove_locked_queue ring_size ring_size_positive
              comp1 1 1 Hlay) as (comp2 & Hremove & Hq & _ & Hlay2).
  exists comp2. split; [exact Hremove|]. split; [exact Hq|exact Hlay2].
Defined.

(** X14, witness: the ring with two queued feedbacks is destroyed. *)
Lemma rohc_feedback_destroy_empties_witness :
  ring_layout ring_size comp_two 0 2 /\
  exists comp',
    rohc_feedback_destroy ring_size comp_two = Some comp' /\
    rohc_feedback_avail_bytes ring_size comp' = 0.
Proof.
  split; [exact comp_two_layout|].
  destruct (rohc_feedback_destroy_empties ring_size ring_size_positive
              comp_two 0 2 comp_two_layout)
    as (Hrun & _ & _ & _ & Havail).
  eexists. split; [exact Hrun|exact Havail].
Defined.

(** X15, witness: two feedbacks piggybacked on the new compressor, then
    flushed in a buffer of 100 bytes. *)
Lemma piggyback_all_flush_witness :
  ring_layout ring_size comp_new 0 0 /\
  (length [fb_short; fb_long] <= ring_size)%nat /\
  Forall (fun f => f <> []) [fb_short; fb_long] /\
  0 < 100 <= INT_MAX /\
  exists comp1 comp2,
    piggyback_all ring_size comp_new [fb_short; fb_long]
      = Some (true, comp1) /\
    flush comp1 100 =
      Some (15, [0xf3; 1; 2; 3; 0xf0; 9; 4; 5; 6; 7; 8; 9; 10; 11; 12],
            comp2) /\
    rohc_feedback_avail_bytes ring_size comp2 = 0.
Proof.
  assert (Hn : (length [fb_short; fb_long] <= ring_size)%nat)
    by (unfold ring_size; simpl; lia).
  assert (Hne : Forall (fun f : list Z => f <> []) [fb_short; fb_long])
    by (repeat constructor; discriminate).
  assert (Hosize : 0 < 100 <= INT_MAX) by (unfold INT_MAX; lia).
  split; [exact comp_new_layout|]. split; [exact Hn|]. split; [exact Hne|].
  split; [exact Hosize|].
  destruct (piggyback_all_flush ring_size ring_size_positive comp_new
              [fb_short; fb_long] 100 comp_new_layout Hn Hne Hosize)
    as (comp1 & comp2 & Hadd & _ & Hflush & Havail).
  { simpl. lia. }
  exists comp1, comp2. split; [exact Hadd|].
  split; [exact Hflush|exact Havail].
Defined.

Local Abbreviation compress3 :=
  (rohc_compress3 ring_size false fcs32_stub 0xffffffff).

(** X16, witness: a packet that neither fits the output buffer of 10
    bytes nor the MRRU of 18 bytes; the queued feedback stays queued. *)
Lemma rohc_compress3_failure_keeps_feedbacks_witness :
  ring_layout ring_size (comp_mrru 18) 0 1 /\
  exists res comp',
    compress3 (comp_mrru 18) env_30 10 = Some (res, comp') /\
    status res <> ROHC_OK /\
    queued_feedbacks comp' = queued_feedbacks (comp_mrru 18).
Proof.
  split; [exact (comp_mrru_layout 18)|].
  destruct (compress3 (comp_mrru 18) env_30 10) as [[res comp']|] eqn:Hrun;
    [|discriminate Hrun].
  assert (Hst : status res <> ROHC_OK).
  { injection Hrun as <- _. discriminate. }
  exists res, comp'. split; [reflexivity|]. split; [exact Hst|].
  apply (rohc_compress3_failure_keeps_feedbacks ring_size ring_size_positive
           false fcs32_stub 0xffffffff (comp_mrru 18) comp' env_30 10 res 1
           (comp_mrru_layout 18) Hrun Hst).
Defined.

(** X17, witness: the two queued feedbacks leave with the packet. *)
Lemma rohc_compress3_success_sends_feedbacks_witness :
  ring_layout ring_size comp_big 0 2 /\
  exists res comp',
    compress3 comp_big env_30 2000 = Some (res, comp') /\
    status res = ROHC_OK /\
    exists m,
      (m <= 2)%nat /\
      queued_feedbacks comp' = drop m (queued_feedbacks comp_big) /\
      locked_feedbacks comp' = [].
Proof.
  split; [exact comp_big_layout|].
  destruct (compress3 comp_big env_30 2000) as [[res comp']|] eqn:Hrun;
    [|discriminate Hrun].
  assert (Hst : status res = ROHC_OK).
  { injection Hrun as <- _. reflexivity. }
  exists res, comp'. split; [reflexivity|]. split; [exact Hst|].
  destruct (rohc_compress3_success_sends_feedbacks ring_size
              ring_size_positive false fcs32_stub 0xffffffff comp_big comp'
              env_30 2000 res 0 2 comp_big_layout Hrun Hst)
    as (m & Hm & Hq & Hl & _).
  exists m. split; [exact Hm|]. split; [exact Hq|exact Hl].
Defined.

(** X18, witness: after a first packet, the width of the W-LSB window can
    no longer be set. *)
Lemma rohc_compress3_closes_configuration_witness :
  0 <= num_packets comp_new < INT_MAX /\
  exists res comp',
    compress3 comp_new env_30 100 = Some (res, comp') /\
    status res <> ROHC_ERROR /\
    num_packets comp' = num_packets comp_new + 1 /\
    rohc_comp_set_wlsb_window_width comp' 8 = (false, comp').
Proof.
  assert (Hnum : 0 <= num_packets comp_new < INT_MAX)
    by (unfold INT_MAX; simpl; lia).
  split; [exact Hnum|].
  destruct (compress3 comp_new env_30 100) as [[res comp']|] eqn:Hrun;
    [|discriminate Hrun].
  assert (Hst : status res <> ROHC_ERROR).
  { injection Hrun as <- _. discriminate. }
  exists res, comp'. split; [reflexivity|]. split; [exact Hst|].
  destruct (rohc_compress3_closes_configuration ring_size false fcs32_stub
              0xffffffff comp_new comp' env_30 100 res Hrun Hnum)
    as (_ & Hok).
  destruct (Hok Hst) as (Hn & _ & Hw & _).
  split; [exact Hn|apply Hw].
Defined.

Lemma env_30_encode (room : Z) (rohc_hdr : list Z) (payload_offset : Z) :
  compress3_encode env_30 room = Some (rohc_hdr, payload_offset) ->
  Z.of_nat (length rohc_hdr) <= INT_MAX /\
  0 <= ip_totlen env_30 - payload_offset <= 0xffffffff.
Proof.
  intros [= <- <-]. unfold INT_MAX. simpl. lia.
Qed.

(** X19, witness: without an MRRU, a packet too large for the output
    buffer of 10 bytes is not segmented. *)
Lemma rohc_compress3_no_segment_without_mrru_witness :
  mrru comp_new = 0 /\
  exists res comp',
    compress3 comp_new env_30 10 = Some (res, comp') /\
    status res <> ROHC_NEED_SEGMENT /\ rru_len comp' = rru_len comp_new.
Proof.
  assert (Hmrru : mrru comp_new = 0) by reflexivity.
  split; [exact Hmrru|].
  destruct (compress3 comp_new env_30 10) as [[res comp']|] eqn:Hrun;
    [|discriminate Hrun].
  exists res, comp'. split; [reflexivity|].
  destruct (rohc_compress3_no_segment_without_mrru ring_size
              ring_size_positive false fcs32_stub 0xffffffff comp_new comp'
              env_30 10 res Hmrru env_30_encode Hrun)
    as (Hst & _ & Hlen & _).
  split; [exact Hst|exact Hlen].
Defined.

Lemma comp_staged_layout : ring_layout ring_size comp_staged 0 0.
Proof. apply ring_layout_set_rru. exact comp_new_layout. Qed.


(** X20, witness: an RRU of 5 bytes leaves in segments of at most 3
    bytes. *)
Lemma get_segments_deliver_rru_witness :
  ring_layout ring_size comp_staged 0 0 /\
  2 <= 3 <= SIZE_MAX /\ 3 <= Z.of_nat (length [0; 0; 0]) /\
  0 < rru_len comp_staged /\ 0 <= rru_off comp_staged /\
  rru_off comp_staged + rru_len comp_staged <=
    Z.of_nat (length (rru comp_staged)) /\
  Z.of_nat (length (rru comp_staged)) <= SIZE_MAX /\
  rru_len comp_staged <= Z.of_nat 5 /\
  exists firsts last comp',
    get_segments ring_size 5 comp_staged [0; 0; 0] 3 =
      Some (firsts ++ [last], comp') /\
    concat (drop 1 <$> (firsts ++ [last])) = [10; 20; 30; 40; 50].
Proof.
  assert (H1 : 2 <= 3 <= SIZE_MAX) by (unfold SIZE_MAX; lia).
  assert (H2 : 3 <= Z.of_nat (length [0; 0; 0])) by (simpl; lia).
  assert (H3 : 0 < rru_len comp_staged) by (simpl; lia).
  assert (H4 : 0 <= rru_off comp_staged) by (simpl; lia).
  assert (H5 : rru_off comp_staged + rru_len comp_staged <=
               Z.of_nat (length (rru comp_staged))) by (simpl; lia).
  assert (H6 : Z.of_nat (length (rru comp_staged)) <= SIZE_MAX)
    by (unfold SIZE_MAX; simpl; lia).
  assert (H7 : rru_len comp_staged <= Z.of_nat 5) by (simpl; lia).
  split; [exact comp_staged_layout|].
  do 7 (split; [assumption|]).
  destruct (get_segments_deliver_rru ring_size ring_size_positive 5
              comp_staged 0 [0; 0; 0] 3 comp_staged_layout H1 H2 H3 H4 H5 H6
              H7) as (firsts & last & Hrun & Hdata & _).
  exists firsts, last. eexists. split; [exact Hrun|exact Hdata].
Defined.

(** The compressor with an MRRU of 20 bytes and no feedback. *)
Lemma comp_set_mrru_layout :
  ring_layout ring_size (rohc_comp_set_mrru max_mrru comp_new 20).2 0 0.
Proof. apply ring_layout_set_mrru. exact comp_new_layout. Qed.

(** X21, witness: header (2) and payload (10) exceed the output buffer of
    10 bytes; with the FCS-32 they leave in segments of at most 8
    bytes. *)
Lemma rohc_compress3_then_segments_witness :
  exists res comp1 firsts last comp2,
    compress3 (rohc_comp_set_mrru max_mrru comp_new 20).2 env_30 10
      = Some (res, comp1) /\
    status res = ROHC_NEED_SEGMENT /\
    get_segments ring_size 16 comp1 (replicate 8 0) 8 =
      Some (firsts ++ [last], comp2) /\
    concat (drop 1 <$> (firsts ++ [last])) =
      [0xfd; 0x04; 20; 21; 22; 23; 24; 25; 26; 27; 28; 29] ++
      uint32_bytes false
        (fcs32_stub [0xfd; 0x04; 20; 21; 22; 23; 24; 25; 26; 27; 28; 29]
                    0xffffffff) /\
    rru_len comp2 = 0.
Proof.
  destruct (rohc_compress3_then_segments ring_size ring_size_positive false
              fcs32_stub 0xffffffff
              (rohc_comp_set_mrru max_mrru comp_new 20).2 env_30 10
              [0xfd; 0x04] 20 (replicate 8 0) 8)
    as (res & comp1 & firsts & last & comp2 & Hrun & Hst & Hsegs & Hdata &
        _ & _ & _ & Hlen).
  - exact comp_set_mrru_layout.
  - discriminate.
  - unfold SIZE_MAX. lia.
  - reflexivity.
  - reflexivity.
  - reflexivity.
  - reflexivity.
  - unfold INT_MAX. simpl. lia.
  - simpl. lia.
  - simpl. lia.
  - simpl. lia.
  - simpl. lia.
  - unfold SIZE_MAX. simpl. lia.
  - simpl. lia.
  - simpl. lia.
  - unfold SIZE_MAX. lia.
  - simpl. lia.
  - exists res, comp1, firsts, last, comp2.
    split; [exact Hrun|]. split; [exact Hst|]. split; [exact Hsegs|].
    split; [exact Hdata|exact Hlen].
Defined.



Lemma comp_new_profiles :
  length (enabled_profiles comp_new) = C_NUM_PROFILES.
Proof. reflexivity. Qed.

Lemma sample_profiles_distinct : distinct_profiles sample_profile_id.
Proof.
  intros i j Hi Hj. unfold C_NUM_PROFILES in *.
  do 7 (destruct i as [|i];
        [do 7 (destruct j as [|j]; [try reflexivity; discriminate|]); lia|]).
  lia.
Qed.

(** X24, witness: the IP-only profile (ID 4) is enabled on the new
    compressor and found at index 5 of the table. *)
Lemma rohc_comp_enable_profile_found_witness :
  length (enabled_profiles comp_new) = C_NUM_PROFILES /\
  (rohc_comp_enable_profile sample_profile_id comp_new 4).1 = true /\
  exists i,
    c_get_profile_from_id sample_profile_id
      (rohc_comp_enable_profile sample_profile_id comp_new 4).2 4 = Some i /\
    sample_profile_id i = 4.
Proof.
  split; [exact comp_new_profiles|].
  destruct (rohc_comp_enable_profile_found sample_profile_id comp_new 4
              comp_new_profiles) as (_ & Hok & _).
  split; [reflexivity|].
  destruct (Hok eq_refl) as (i & Hget & _ & Hid).
  exists i. split; [exact Hget|exact Hid].
Defined.

(** X25, witness: the IP-only profile, once enabled then disabled, is no
    longer found. *)
Lemma rohc_comp_disable_profile_hides_witness :
  distinct_profiles sample_profile_id /\
  c_get_profile_from_id sample_profile_id
    (rohc_comp_disable_profile sample_profile_id
       (rohc_comp_enable_profile sample_profile_id comp_new 4).2 4).2 4
    = None.
Proof.
  split; [exact sample_profiles_distinct|].
  destruct (rohc_comp_disable_profile_hides sample_profile_id
              (rohc_comp_enable_profile sample_profile_id comp_new 4).2 4
              sample_profiles_distinct) as (_ & Hnone & _).
  exact Hnone.
Defined.

(** X26, witness: of the IDs 1, 99 and 4, ended by -1, the unknown ID 99
    is reported and the two others are enabled. *)
Lemma rohc_comp_enable_profiles_all_witness :
  Forall (fun id => 0 <= id) [1; 99; 4] /\ -1 < 0 /\
  Z.of_nat (length [1; 99; 4]) <= SIZE_MAX /\
  length (enabled_profiles comp_new) = C_NUM_PROFILES /\
  exists comp',
    rohc_comp_enable_profiles sample_profile_id comp_new [1; 99; 4; -1]
      = Some (false, comp') /\
    is_Some (c_get_profile_from_id sample_profile_id comp' 4).
Proof.
  assert (Hids : Forall (fun id => 0 <= id) [1; 99; 4])
    by (repeat constructor; lia).
  assert (Hlast : -1 < 0) by lia.
  assert (Hmax : Z.of_nat (length [1; 99; 4]) <= SIZE_MAX)
    by (unfold SIZE_MAX; simpl; lia).
  split; [exact Hids|]. split; [exact Hlast|]. split; [exact Hmax|].
  split; [exact comp_new_profiles|].
  destruct (rohc_comp_enable_profiles_all sample_profile_id comp_new
              [1; 99; 4] (-1) [] Hids Hlast Hmax comp_new_profiles)
    as (ok & comp' & Hrun & _ & Hon & _).
  assert (ok = false) as ->.
  { cbn [app] in Hrun. vm_compute in Hrun. injection Hrun as <- _.
    reflexivity. }
  exists comp'. split; [exact Hrun|].
  apply Hon.
  - apply list_elem_of_lookup. exists 2%nat. reflexivity.
  - exists 5%nat. split; [unfold C_NUM_PROFILES; lia|reflexivity].
Defined.

(** X28, witness: [rohc_alloc_compressor(15, 0, 0, 0)]. *)
Lemma rohc_alloc_compressor_succeeds_witness :
  - 2 ^ 31 <= 15 <= INT_MAX /\
  exists comp,
    rohc_alloc_compressor ring_size max_mrru true (fun _ => true) true
      15 0 0 0 = Some comp /\
    medium_max_cid comp = 15 /\
    rtp_ports comp = default_ports_installed.
Proof.
  assert (Hint : - 2 ^ 31 <= 15 <= INT_MAX) by (unfold INT_MAX; lia).
  split; [exact Hint|].
  destruct (rohc_alloc_compressor_succeeds ring_size max_mrru true
              (fun _ => true) true 15 0 0 0 Hint) as (Hsome & Hfields).
  destruct Hsome as [_ Hsome].
  destruct Hsome as [comp Hcomp];
    [repeat split; try reflexivity; unfold ROHC_SMALL_CID_MAX; lia|].
  exists comp. split; [exact Hcomp|].
  destruct (Hfields comp Hcomp) as (_ & Hmax & Hports).
  split; [exact Hmax|exact Hports].
Defined.

(** X29, witness: the new compressor of the examples. *)
Lemma rohc_comp_new_defaults_witness :
  (0 < ring_size)%nat /\
  rohc_comp_new ring_size max_mrru false true (fun _ => true) true
    ROHC_SMALL_CID 15 = Some comp_new /\
  c_get_profile_from_id sample_profile_id comp_new 4 = None /\
  rohc_feedback_avail_bytes ring_size comp_new = 0 /\
  wlsb_window_width comp_new = 4.
Proof.
  assert (Hnew : rohc_comp_new ring_size max_mrru false true (fun _ => true)
                   true ROHC_SMALL_CID 15 = Some comp_new) by reflexivity.
  split; [exact ring_size_positive|]. split; [exact Hnew|].
  destruct (rohc_comp_new_defaults ring_size max_mrru false true
              (fun _ => true) true ROHC_SMALL_CID 15 comp_new
              ring_size_positive Hnew)
    as (Hprof & _ & _ & Havail & _ & _ & _ & Hw & _).
  split; [apply Hprof|]. split; [exact Havail|exact Hw].
Defined.

(** X30, witness: the random value -1 gives the SN 65535, followed by
    0. *)
Lemma rohc_ip_ctxt_create_sn_witness :
  exists context',
    rohc_ip_ctxt_create rfc3095_create_stub fo_context (-1)
      = Some context' /\
    sn (specific context') = 65535 /\
    c_ip_get_next_sn context' = Some 0.
Proof.
  destruct (rohc_ip_ctxt_create rfc3095_create_stub fo_context (-1))
    as [context'|] eqn:Hrun; [|discriminate Hrun].
  exists context'. split; [reflexivity|].
  destruct (rohc_ip_ctxt_create_sn rfc3095_create_stub fo_context context'
              (-1) Hrun) as (Hsn & _ & Hnext).
  split; [exact Hsn|exact Hnext].
Defined.

End MoreExamples.
